(** * Z-Tide crowd simulation: flow field, swarm tick, wave and wall editor

    A shallow embedding of [src/ztide/core/FlowField.ts] (class [FlowField];
    its text is lines 23-182 of [src/unnamed/part_002]), of the simulation
    closures of [src/ztide/ZTideCanvas.tsx] and of the Start Wave button of
    [src/ztide/ZTideApp.tsx], together with the properties of the
    specification that concern them.

    Conventions.
    - Typed arrays ([Uint8Array], [Uint16Array], [Int32Array]) are lists of
      [Z]; a read outside the array is [undefined] ([None]) and a write
      outside the array is dropped, as in JavaScript.
    - Integer-valued JavaScript numbers (cell coordinates, counters) are [Z];
      16-bit and 32-bit wrap-around is written out where the source has it.
    - Continuous quantities (positions, velocities, time steps) are
      rationals [Q], and arithmetic on IEEE doubles is exact arithmetic on
      [Q].  A store to a [Float32Array] (the positions and velocities of the
      agents) rounds to the nearest binary32 number, ties to even
      ([Canvas.fround]); a magnitude of 2^128 or more, which such a store
      turns into an infinity, is outside the model. *)

From Stdlib Require Import ZArith QArith Qround Qabs Qminmax Qpower Lia Lqa List.
From stdpp Require Import base option list.

Local Open Scope Z_scope.

(** ** Typed arrays *)

Definition aget {A} (a : list A) (i : Z) : option A :=
  if i <? 0 then None else a !! Z.to_nat i.

Definition aset {A} (a : list A) (i : Z) (v : A) : list A :=
  if i <? 0 then a else <[Z.to_nat i := v]> a.

Definition afill {A} (a : list A) (v : A) : list A :=
  replicate (length a) v.

(** [a[i] === 255], false on [undefined]. *)
Definition is255 (o : option Z) : bool :=
  match o with Some v => v =? 255 | None => false end.

(** [v < a[i]], false on [undefined]. *)
Definition ltDef (v : Z) (o : option Z) : bool :=
  match o with Some w => v <? w | None => false end.

(** [ToInt32]: the result of [e | 0] on an integer-valued number. *)
Definition toInt32 (v : Z) : Z :=
  (v + 2147483648) mod 4294967296 - 2147483648.

(** ** FlowField.ts *)

Module FlowField.

Definition FLOW_DIR_NONE : Z := 255.
Definition INF : Z := 65535.

Definition N4 : list (Z * Z) :=
  [(1, 0); (-1, 0); (0, 1); (0, -1)].

Definition N8 : list (Z * Z) :=
  [(1, 0); (1, 1); (0, 1); (-1, 1); (-1, 0); (-1, -1); (0, -1); (1, -1)].

Definition DIR_TO_VEC : list (Q * Q) :=
  [(1, 0); (0.70710678, 0.70710678); (0, 1); (-0.70710678, 0.70710678);
   (-1, 0); (-0.70710678, -0.70710678); (0, -1); (0.70710678, -0.70710678)]%Q.

Record t := mk {
  width : Z;
  height : Z;
  cost : list Z;
  integration : list Z;
  direction : list Z;
  targetX : Z;
  targetY : Z;
  queue : list Z
}.

Definition cells (ff : t) : Z := width ff * height ff.

(** [constructor] followed by [clear]. *)
Definition new (w h : Z) : t :=
  let n := Z.to_nat (w * h) in
  {| width := w; height := h;
     cost := replicate n 0;
     integration := replicate n INF;
     direction := replicate n FLOW_DIR_NONE;
     targetX := 0; targetY := 0;
     queue := replicate n 0 |}.

Definition idx (ff : t) (x y : Z) : Z := y * width ff + x.

Definition inBounds (ff : t) (x y : Z) : bool :=
  (0 <=? x) && (x <? width ff) && (0 <=? y) && (y <? height ff).

Definition isWall (ff : t) (x y : Z) : bool :=
  is255 (aget (cost ff) (idx ff x y)).

Definition canUseDiagonal (ff : t) (x y dx dy : Z) : bool :=
  if (dx =? 0) || (dy =? 0) then true
  else
    let ax := x + dx in
    let ay := y in
    let bx := x in
    let by_ := y + dy in
    if negb (inBounds ff ax ay) || negb (inBounds ff bx by_) then false
    else negb (isWall ff ax ay) && negb (isWall ff bx by_).

Definition withCost (ff : t) (c : list Z) : t :=
  {| width := width ff; height := height ff; cost := c;
     integration := integration ff; direction := direction ff;
     targetX := targetX ff; targetY := targetY ff; queue := queue ff |}.

Definition setWall (ff : t) (x y : Z) (wall : bool) : t :=
  withCost ff (aset (cost ff) (idx ff x y) (if wall then 255 else 0)).

(** One iteration of the [for (i < N4.length)] loop of the flood fill: the
    state is the integration array, the queue array and [tail]. *)
Definition relax (ff : t) (nextDist cx cy : Z)
    (st : list Z * list Z * nat) (d : Z * Z) : list Z * list Z * nat :=
  let '(integ, q, tail) := st in
  let nx := cx + d.1 in
  let ny := cy + d.2 in
  if negb (inBounds ff nx ny) then st
  else
    let ni := ny * width ff + nx in
    if is255 (aget (cost ff) ni) then st
    else if ltDef nextDist (aget integ ni)
         then (aset integ ni nextDist, <[tail := ni]> q, S tail)
         else st.

(** The body of [while (head < tail)] for the cell read at [q[head]].  When
    the read is past the end of the queue array the index is [undefined],
    [cx] is [NaN] and no neighbour is in bounds. *)
Definition visit (ff : t) (integ q : list Z) (head tail : nat)
    : list Z * list Z * nat :=
  match q !! head with
  | None => (integ, q, tail)
  | Some curIdx =>
      let nextDist :=
        match aget integ curIdx with
        | Some curDist => Z.land (curDist + 1) 65535
        | None => 0
        end in
      let cx := Z.rem curIdx (width ff) in
      let cy := toInt32 (Z.quot curIdx (width ff)) in
      fold_left (relax ff nextDist cx cy) N4 (integ, q, tail)
  end.

(** The flood-fill loop.  [None] means that the fuel ran out before
    [head] caught up with [tail]. *)
Fixpoint bfs (fuel : nat) (ff : t) (integ q : list Z) (head tail : nat)
    : option (list Z * list Z) :=
  if (head <? tail)%nat then
    match fuel with
    | O => None
    | S fuel' =>
        let '(integ', q', tail') := visit ff integ q head tail in
        bfs fuel' ff integ' q' (S head) tail'
    end
  else Some (integ, q).

(** [N8] with the loop index [dir]. *)
Definition N8dirs : list (Z * (Z * Z)) := zip (seqZ 0 8) N8.

(** One iteration of the [for (dir < N8.length)] loop: the state is
    [(best, bestDir)]. *)
Definition scanDir (ff : t) (integ : list Z) (x y : Z)
    (acc : Z * Z) (e : Z * (Z * Z)) : Z * Z :=
  let '(best, bestDir) := acc in
  let '(dir, (dx, dy)) := e in
  let nx := x + dx in
  let ny := y + dy in
  if negb (inBounds ff nx ny) then acc
  else if negb (canUseDiagonal ff x y dx dy) then acc
  else
    let ni := ny * width ff + nx in
    match aget integ ni with
    | Some nd => if nd <? best then (nd, dir) else acc
    | None => acc
    end.

Definition pickDirection (ff : t) (integ : list Z) (x y d : Z) : Z :=
  snd (fold_left (scanDir ff integ x y) N8dirs (d, FLOW_DIR_NONE)).

(** One iteration of the [for (i < n)] loop that fills [direction]. *)
Definition assignDirection (ff : t) (integ : list Z)
    (dirs : list Z) (i : Z) : list Z :=
  if is255 (aget (cost ff) i) then dirs
  else
    match aget integ i with
    | None => aset dirs i FLOW_DIR_NONE
    | Some d =>
        if (d =? INF) || (d =? 0) then dirs
        else
          let x := Z.rem i (width ff) in
          let y := toInt32 (Z.quot i (width ff)) in
          aset dirs i (pickDirection ff integ x y d)
    end.

Definition generate (ff : t) (tx ty : Z) : option t :=
  let n := width ff * height ff in
  let integ0 := afill (integration ff) INF in
  let dir0 := afill (direction ff) FLOW_DIR_NONE in
  let ff0 :=
    {| width := width ff; height := height ff; cost := cost ff;
       integration := integ0; direction := dir0;
       targetX := tx; targetY := ty; queue := queue ff |} in
  if negb (inBounds ff tx ty) then Some ff0
  else if isWall ff tx ty then Some ff0
  else
    let startIdx := idx ff tx ty in
    match bfs (Z.to_nat n) ff (aset integ0 startIdx 0)
              (<[0%nat := startIdx]> (queue ff)) 0%nat 1%nat with
    | None => None
    | Some (integ, q) =>
        Some {| width := width ff; height := height ff; cost := cost ff;
                integration := integ;
                direction := fold_left (assignDirection ff integ) (seqZ 0 n) dir0;
                targetX := tx; targetY := ty; queue := q |}
    end.

(** What the constructor establishes and every method preserves. *)
Record wf (ff : t) : Prop := {
  wf_width : 0 <= width ff;
  wf_height : 0 <= height ff;
  wf_cells : width ff * height ff < 2147483648;
  wf_cost : length (cost ff) = Z.to_nat (width ff * height ff);
  wf_integration : length (integration ff) = Z.to_nat (width ff * height ff);
  wf_direction : length (direction ff) = Z.to_nat (width ff * height ff);
  wf_queue : length (queue ff) = Z.to_nat (width ff * height ff)
}.

(** Reading a field cell by coordinates. *)
Definition integrationAt (ff : t) (x y : Z) : option Z :=
  aget (integration ff) (idx ff x y).

Definition directionAt (ff : t) (x y : Z) : option Z :=
  aget (direction ff) (idx ff x y).

(** The grid offset a stored direction stands for: [N8[dir]], of which
    [DIR_TO_VEC[dir]] is the unit vector; nothing for [FLOW_DIR_NONE]. *)
Definition decode (dir : Z) : option (Z * Z) :=
  if dir =? FLOW_DIR_NONE then None else aget N8 dir.

(** One step along the decoded direction of cell [c]; a cell without a
    direction is a fixed point. *)
Definition follow (ff : t) (c : Z * Z) : Z * Z :=
  match directionAt ff c.1 c.2 with
  | Some dir =>
      match decode dir with
      | Some (dx, dy) => (c.1 + dx, c.2 + dy)
      | None => c
      end
  | None => c
  end.

(** Cells joined to the target [(tx, ty)] by 4-connected steps over
    in-bounds cells that are not walls. *)
Inductive connected (ff : t) (tx ty : Z) : Z -> Z -> Prop :=
  | connected_target : connected ff tx ty tx ty
  | connected_step x y dx dy :
      connected ff tx ty x y -> (dx, dy) ∈ N4 ->
      inBounds ff (x + dx) (y + dy) = true ->
      isWall ff (x + dx) (y + dy) = false ->
      connected ff tx ty (x + dx) (y + dy).

End FlowField.

(** ** ZTideCanvas.tsx

    The state of the closure created by [init] and the functions defined in
    it.  Rendering ([renderHeat], [renderWalls], [renderVectors],
    [renderOverlay], the particle sprites) has no effect on the simulation
    state and is left out. *)

Module Canvas.

Import FlowField.

Definition Qltb (a b : Q) : bool := negb (Qle_bool b a).

(** [Math.trunc]: the integer part taken by [e | 0] before wrap-around. *)
Definition Qtrunc (q : Q) : Z := Z.quot (Qnum q) (Zpos (Qden q)).

(** ** Stores to [Float32Array]

    [posX], [posY], [velX] and [velY] are [Float32Array]s (lines 254-257):
    a store keeps the nearest binary32 number, ties to even, as
    [Math.fround] does, and a read gives that number back. *)

(** [floor (log2 q)] for a positive [q]. *)
Definition Qlog2 (q : Q) : Z :=
  let k := Z.log2 (Qnum q) - Z.log2 (Zpos (Qden q)) in
  if Qle_bool (2 ^ k) q then k else k - 1.

(** The nearest integer, ties to even. *)
Definition rne (q : Q) : Z :=
  let f := Qfloor q in
  let r := (q - inject_Z f)%Q in
  if Qltb r (1 # 2) then f
  else if Qltb (1 # 2) r then f + 1
  else if Z.even f then f else f + 1.

(** The rounding of a magnitude: 24 significant bits in the binade
    [2^e <= q < 2^(e+1)], and the spacing 2^-149 of the subnormal numbers
    below 2^-126. *)
Definition froundAbs (q : Q) : Q :=
  let e := Z.max (-126) (Qlog2 q) in
  let u := (2 ^ (e - 23))%Q in
  (inject_Z (rne (q / u)) * u)%Q.

(** The binary32 number stored for [q], as a fraction in lowest terms. *)
Definition fround (q : Q) : Q :=
  let r := Qred q in
  Qred (if Qltb r 0 then - froundAbs (- r) else froundAbs r).

(** [clamp] at its two uses: on numbers and on the integers returned by
    [Math.floor]. *)
Definition clamp (v min max : Q) : Q := Qmax min (Qmin max v).
Definition clampZ (v min max : Z) : Z := Z.max min (Z.min max v).

Inductive brush := WALL | ERASE.

(** [cellPx], [offsetX], [offsetY] and the renderer's size. *)
Record layout := mkLayout {
  cellPx : Q;
  offsetX : Q;
  offsetY : Q;
  rendererWidth : Q;
  rendererHeight : Q
}.

(** The base, currency and wave variables. *)
Record game := mkGame {
  baseHpMax : Z;
  baseHp : Z;
  gold : Z;
  wave : Z;
  waveActive : bool;
  waveEndsAt : Q;
  waveDurationMs : Q;
  fireCooldown : Q
}.

(** The constants computed by [rebuildSwarm] and captured by the
    [updateSwarm] closure it returns. *)
Record params := mkParams {
  count : Z;
  radius : Q;
  bucketSize : Q;
  bucketsX : Z;
  bucketsY : Z;
  desired : Q;
  desired2 : Q
}.

(** The arrays allocated by [rebuildSwarm]. *)
Record agents := mkAgents {
  posX : list Q;
  posY : list Q;
  velX : list Q;
  velY : list Q;
  hp : list Z;
  cellCount : list Z;
  bucketHead : list Z;
  next : list Z
}.

(** The values the React effects copy from props into refs. *)
Record refs := mkRefs {
  paused : bool;
  brushMode : brush;
  densityThreshold : Q;
  pressureStrength : Q;
  hasPilot : bool;
  entities : Z;
  entityCount : Z
}.

(** The last sample passed to [onPerfSample], as far as the wave goes. *)
Record perfSample := mkPerf {
  perfWaveActive : bool;
  perfWave : Z;
  perfBaseHp : Z;
  perfGold : Z
}.

Record state := mkState {
  field : FlowField.t;
  baseCost : option (list Z);
  pilotRequestId : Z;
  lay : layout;
  gm : game;
  par : params;
  ag : agents;
  rf : refs;
  randomCalls : nat;
  lastFrameAt : Q;
  lastPerfAt : Q;
  perf : perfSample
}.

Definition speed : Q := 52.
Definition damping : Q := 0.86.
Definition maxSpeed : Q := 180.

Section Oracles.

(** [Math.random]: the value returned by the n-th call. *)
Variable random : nat -> Q.

(** [Math.sqrt]. *)
Variable sqrt : Q -> Q.

Definition computeLayout (ff : FlowField.t) (l : layout) : layout :=
  let w := rendererWidth l in
  let h := rendererHeight l in
  let cellPx0 := inject_Z (Qfloor (Qmin (w / inject_Z (width ff))
                                        (h / inject_Z (height ff)))%Q) in
  let cellPx1 := Qmax 6 cellPx0 in
  let gridW := (inject_Z (width ff) * cellPx1)%Q in
  let gridH := (inject_Z (height ff) * cellPx1)%Q in
  {| cellPx := cellPx1;
     offsetX := inject_Z (Qfloor ((w - gridW) / 2)%Q);
     offsetY := inject_Z (Qfloor ((h - gridH) / 2)%Q);
     rendererWidth := w; rendererHeight := h |}.

(** The grid cell under the point [(x, y)]. *)
Definition cellOf (l : layout) (x y : Q) : Z * Z :=
  (Qfloor ((x - offsetX l) / cellPx l)%Q,
   Qfloor ((y - offsetY l) / cellPx l)%Q).

(** [inBounds(gx, gy) && isWall(gx, gy)] for the cell under a point. *)
Definition inWall (ff : FlowField.t) (l : layout) (x y : Q) : bool :=
  let '(gx, gy) := cellOf l x y in
  inBounds ff gx gy && isWall ff gx gy.

(** [inBounds(gx, gy) && !isWall(gx, gy)]. *)
Definition openCell (ff : FlowField.t) (gx gy : Z) : bool :=
  inBounds ff gx gy && negb (isWall ff gx gy).

Definition rebuildField (ff : FlowField.t) (l : layout)
    : option (FlowField.t * layout) :=
  let l' := computeLayout ff l in
  let tx := width ff / 2 in
  let ty := height ff / 2 in
  ff' ← generate ff tx ty; Some (ff', l').

(** [spawnEdge(i)]: two calls of [Math.random], the first for the side.
    The position is stored in the [Float32Array]s, and so is the literal 0
    of the velocity, which is a binary32 number. *)
Definition spawnEdge (ff : FlowField.t) (l : layout) (wave : Z)
    (a : agents) (rc : nat) (i : Z) : agents * nat :=
  let side := toInt32 (Qtrunc (random rc * 4)%Q) in
  let r := random (S rc) in
  let '(gx, gy) :=
    if side =? 0 then (0, toInt32 (Qtrunc (r * inject_Z (height ff))%Q))
    else if side =? 1 then
      (width ff - 1, toInt32 (Qtrunc (r * inject_Z (height ff))%Q))
    else if side =? 2 then (toInt32 (Qtrunc (r * inject_Z (width ff))%Q), 0)
    else (toInt32 (Qtrunc (r * inject_Z (width ff))%Q), height ff - 1) in
  let x := (offsetX l + (inject_Z gx + 0.5) * cellPx l)%Q in
  let y := (offsetY l + (inject_Z gy + 0.5) * cellPx l)%Q in
  let enemyBaseHp := 34 + wave * 10 in
  ({| posX := aset (posX a) i (fround x);
      posY := aset (posY a) i (fround y);
      velX := aset (velX a) i 0%Q; velY := aset (velY a) i 0%Q;
      hp := aset (hp a) i (Z.land enemyBaseHp 65535);
      cellCount := cellCount a; bucketHead := bucketHead a;
      next := next a |}, S (S rc)).

Definition rebuildSwarm (ff : FlowField.t) (l : layout) (wave : Z)
    (r : refs) (rc : nat) : refs * params * agents * nat :=
  let cnt := Z.max 0 (if entities r =? 0 then entityCount r else entities r) in
  let r' := {| paused := paused r; brushMode := brushMode r;
               densityThreshold := densityThreshold r;
               pressureStrength := pressureStrength r;
               hasPilot := hasPilot r; entities := cnt;
               entityCount := entityCount r |} in
  let rad := Qmax 2 (cellPx l * 0.18)%Q in
  let bSize := Qmax (rad * 3)%Q (cellPx l * 0.6)%Q in
  let bX := Z.max 1 (Qceiling (inject_Z (width ff) * cellPx l / bSize)%Q) in
  let bY := Z.max 1 (Qceiling (inject_Z (height ff) * cellPx l / bSize)%Q) in
  let des := (rad * 1.85)%Q in
  let p := {| count := cnt; radius := rad; bucketSize := bSize;
              bucketsX := bX; bucketsY := bY;
              desired := des; desired2 := (des * des)%Q |} in
  let n := Z.to_nat cnt in
  let a0 := {| posX := replicate n 0%Q; posY := replicate n 0%Q;
               velX := replicate n 0%Q; velY := replicate n 0%Q;
               hp := replicate n 0;
               cellCount := replicate (Z.to_nat (width ff * height ff)) 0;
               bucketHead := replicate (Z.to_nat (bX * bY)) (-1);
               next := replicate n 0 |} in
  let '(a, rc') :=
    fold_left (fun s i => spawnEdge ff l wave s.1 s.2 i) (seqZ 0 cnt) (a0, rc) in
  (r', p, a, rc').

(** The bucket of the point [(x, y)]. *)
Definition bucketOf (l : layout) (p : params) (x y : Q) : Z * Z :=
  let rx := (x - offsetX l)%Q in
  let ry := (y - offsetY l)%Q in
  (clampZ (Qfloor (rx / bucketSize p)%Q) 0 (bucketsX p - 1),
   clampZ (Qfloor (ry / bucketSize p)%Q) 0 (bucketsY p - 1)).

(** One iteration of the first loop of [updateSwarm]: agent [i] is pushed
    on the list of its bucket and counted in its cell.  [i < count] is the
    length of the position arrays, so the reads are defined. *)
Definition hashAgent (ff : FlowField.t) (l : layout) (p : params)
    (a : agents) (i : Z) : agents :=
  match aget (posX a) i, aget (posY a) i with
  | Some x, Some y =>
      let '(bx, by_) := bucketOf l p x y in
      let b := by_ * bucketsX p + bx in
      let next' := aset (next a) i (default 0 (aget (bucketHead a) b)) in
      let head' := aset (bucketHead a) b i in
      let '(gx, gy) := cellOf l x y in
      let cc' :=
        if openCell ff gx gy then
          match aget (cellCount a) (idx ff gx gy) with
          | Some v =>
              if v =? 65535 then cellCount a
              else aset (cellCount a) (idx ff gx gy) (Z.land (v + 1) 65535)
          | None => cellCount a
          end
        else cellCount a in
      {| posX := posX a; posY := posY a; velX := velX a; velY := velY a;
         hp := hp a; cellCount := cc'; bucketHead := head'; next := next' |}
  | _, _ => a
  end.

(** [bucketHead.fill(-1); cellCount.fill(0)] and the first loop. *)
Definition rebuildBuckets (ff : FlowField.t) (l : layout) (p : params)
    (a : agents) : agents :=
  let a0 := {| posX := posX a; posY := posY a; velX := velX a;
               velY := velY a; hp := hp a;
               cellCount := afill (cellCount a) 0;
               bucketHead := afill (bucketHead a) (-1);
               next := next a |} in
  fold_left (hashAgent ff l p) (seqZ 0 (count p)) a0.

(** [while (j !== -1) { ...; j = next[j]; }]: the agents visited, in order.
    [None] when the fuel runs out, or when [j] becomes [undefined], which
    never equals [-1]. *)
Fixpoint chain (fuel : nat) (nxt : list Z) (j : Z) : option (list Z) :=
  if j =? -1 then Some []
  else
    match fuel with
    | O => None
    | S fuel' =>
        j' ← aget nxt j; l ← chain fuel' nxt j'; Some (j :: l)
    end.

(** The body of the [ox] loop: the list of bucket [(cbx + ox, by_)] is
    walked when the bucket exists. *)
Definition scanCell (p : params) (a : agents) (cbx by_ : Z)
    (acc : option (list Z)) (ox : Z) : option (list Z) :=
  let bx := cbx + ox in
  if (bx <? 0) || (bucketsX p <=? bx) then acc
  else
    l ← acc;
    j ← aget (bucketHead a) (by_ * bucketsX p + bx);
    c ← chain (Z.to_nat (count p)) (next a) j;
    Some (l ++ c).

(** The body of the [oy] loop. *)
Definition scanRow (p : params) (a : agents) (cbx cby r : Z)
    (acc : option (list Z)) (oy : Z) : option (list Z) :=
  let by_ := cby + oy in
  if (by_ <? 0) || (bucketsY p <=? by_) then acc
  else fold_left (scanCell p a cbx by_) (seqZ (- r) (2 * r + 1)) acc.

(** The agents met by the nested [oy], [ox] loops over the buckets within
    [r] of bucket [(cbx, cby)], in the order they are met. *)
Definition scanBuckets (p : params) (a : agents) (cbx cby r : Z)
    : option (list Z) :=
  fold_left (scanRow p a cbx cby r) (seqZ (- r) (2 * r + 1)) (Some []).

(** ** The tower at the base (lines 356-400 of [updateSwarm]) *)

Definition withBaseHp (g : game) (v : Z) : game :=
  {| baseHpMax := baseHpMax g; baseHp := v; gold := gold g; wave := wave g;
     waveActive := waveActive g; waveEndsAt := waveEndsAt g;
     waveDurationMs := waveDurationMs g; fireCooldown := fireCooldown g |}.

Definition withGold (g : game) (v : Z) : game :=
  {| baseHpMax := baseHpMax g; baseHp := baseHp g; gold := v; wave := wave g;
     waveActive := waveActive g; waveEndsAt := waveEndsAt g;
     waveDurationMs := waveDurationMs g; fireCooldown := fireCooldown g |}.

Definition withWaveActive (g : game) (b : bool) : game :=
  {| baseHpMax := baseHpMax g; baseHp := baseHp g; gold := gold g;
     wave := wave g; waveActive := b; waveEndsAt := waveEndsAt g;
     waveDurationMs := waveDurationMs g; fireCooldown := fireCooldown g |}.

Definition withFireCooldown (g : game) (v : Q) : game :=
  {| baseHpMax := baseHpMax g; baseHp := baseHp g; gold := gold g;
     wave := wave g; waveActive := waveActive g; waveEndsAt := waveEndsAt g;
     waveDurationMs := waveDurationMs g; fireCooldown := v |}.

Definition withHp (a : agents) (h : list Z) : agents :=
  {| posX := posX a; posY := posY a; velX := velX a; velY := velY a;
     hp := h; cellCount := cellCount a; bucketHead := bucketHead a;
     next := next a |}.

Definition baseX (ff : FlowField.t) (l : layout) : Q :=
  (offsetX l + (inject_Z (targetX ff) + 0.5) * cellPx l)%Q.

Definition baseY (ff : FlowField.t) (l : layout) : Q :=
  (offsetY l + (inject_Z (targetY ff) + 0.5) * cellPx l)%Q.

Definition baseRadius (l : layout) : Q := Qmax 6 (cellPx l * 0.55)%Q.

(** The body of the innermost [while] of the tower's search. *)
Definition nearer (a : agents) (bx by_ : Q) (best : Z * Q) (j : Z) : Z * Q :=
  match aget (posX a) j, aget (posY a) j with
  | Some px, Some py =>
      let dx := (px - bx)%Q in
      let dy := (py - by_)%Q in
      let d2 := (dx * dx + dy * dy)%Q in
      if Qltb d2 best.2 then (j, d2) else best
  | _, _ => best
  end.

Definition fire (ff : FlowField.t) (l : layout) (p : params)
    (g : game) (a : agents) (rc : nat) (dt : Q)
    : option (game * agents * nat) :=
  let cd := (fireCooldown g - dt)%Q in
  if Qle_bool cd 0 then
    let g1 := withFireCooldown g 0.11%Q in
    let range := Qmax (cellPx l * 7.5)%Q 60 in
    let range2 := (range * range)%Q in
    let '(bx, by_) := bucketOf l p (baseX ff l) (baseY ff l) in
    let r := Z.max 1 (Qceiling (range / bucketSize p)%Q) in
    cands ← scanBuckets p a bx by_ r;
    let bestI :=
      (fold_left (nearer a (baseX ff l) (baseY ff l)) cands (-1, range2)).1 in
    if bestI =? -1 then Some (g1, a, rc)
    else
      let dmg := 14 + wave g * 2 in
      match aget (hp a) bestI with
      | Some cur =>
          if cur <=? dmg then
            let '(a', rc') := spawnEdge ff l (wave g) a rc bestI in
            Some (withGold g1 (gold g1 + 1), a', rc')
          else Some (g1, withHp a (aset (hp a) bestI (Z.land (cur - dmg) 65535)), rc)
      | None => Some (g1, a, rc)
      end
  else Some (withFireCooldown g cd, a, rc).

(** ** Steering and integration of one agent (lines 402-565) *)

(** Flow attraction.  A stored direction is [FLOW_DIR_NONE] or an index of
    [DIR_TO_VEC]. *)
Definition flowForce (ff : FlowField.t) (gx gy : Z) : Q * Q :=
  if inBounds ff gx gy then
    match aget (direction ff) (idx ff gx gy) with
    | Some dir =>
        if dir =? FLOW_DIR_NONE then (0, 0)%Q
        else
          match aget DIR_TO_VEC dir with
          | Some v => (v.1 * speed, v.2 * speed)%Q
          | None => (0, 0)%Q
          end
    | None => (0, 0)%Q
    end
  else (0, 0)%Q.

(** One of the four [if (field.inBounds(..) && !field.isWall(..))] blocks of
    the crowd pressure: the state is [(bestCount, bestDx, bestDy)]. *)
Definition lessCrowded (ff : FlowField.t) (a : agents) (nx ny dx dy : Z)
    (best : Z * Z * Z) : Z * Z * Z :=
  if openCell ff nx ny then
    match aget (cellCount a) (idx ff nx ny) with
    | Some c => if c <? best.1.1 then (c, dx, dy) else best
    | None => best
    end
  else best.

Definition pressureForce (ff : FlowField.t) (r : refs) (a : agents)
    (gx gy : Z) : Q * Q :=
  if openCell ff gx gy then
    let threshold := Z.max 1 (toInt32 (Qtrunc (densityThreshold r))) in
    match aget (cellCount a) (idx ff gx gy) with
    | Some here =>
        if threshold <? here then
          let b0 := (here, 0, 0) in
          let b1 := lessCrowded ff a (gx + 1) gy 1 0 b0 in
          let b2 := lessCrowded ff a (gx - 1) gy (-1) 0 b1 in
          let b3 := lessCrowded ff a gx (gy + 1) 0 1 b2 in
          let '(bestCount, bestDx, bestDy) :=
            lessCrowded ff a gx (gy - 1) 0 (-1) b3 in
          if negb (bestDx =? 0) || negb (bestDy =? 0) then
            let delta := here - bestCount in
            let push :=
              (Qmin 12 (inject_Z delta) * pressureStrength r * 12)%Q in
            (inject_Z bestDx * push, inject_Z bestDy * push)%Q
          else (0, 0)%Q
        else (0, 0)%Q
    | None => (0, 0)%Q
    end
  else (0, 0)%Q.

(** The body of the innermost [while] of the separation scan, for the
    candidate [j] met around agent [i] at [(x, y)]. *)
Definition repel (p : params) (a : agents) (i : Z) (x y : Q)
    (sep : Q * Q) (j : Z) : Q * Q :=
  if j =? i then sep
  else
    match aget (posX a) j, aget (posY a) j with
    | Some px, Some py =>
        let dx := (x - px)%Q in
        let dy := (y - py)%Q in
        let d2 := (dx * dx + dy * dy)%Q in
        if Qltb 0.0001 d2 && Qltb d2 (desired2 p) then
          let inv := (1 / sqrt d2)%Q in
          let push := ((desired p - sqrt d2) * 28)%Q in
          (sep.1 + dx * inv * push, sep.2 + dy * inv * push)%Q
        else sep
    | _, _ => sep
    end.

Definition separation (l : layout) (p : params) (a : agents) (i : Z)
    (x y : Q) : option (Q * Q) :=
  let '(cbx, cby) := bucketOf l p x y in
  cands ← scanBuckets p a cbx cby 1;
  Some (fold_left (repel p a i x y) cands (0, 0)%Q).

(** The clamp of the velocity to [maxSpeed]. *)
Definition clampSpeed (v : Q * Q) : Q * Q :=
  let sp2 := (v.1 * v.1 + v.2 * v.2)%Q in
  if Qltb (maxSpeed * maxSpeed) sp2 then
    let inv := (maxSpeed / sqrt sp2)%Q in
    (v.1 * inv, v.2 * inv)%Q
  else v.

(** The velocity after damping and acceleration over [dt]. *)
Definition accelerate (v a : Q * Q) (dt : Q) : Q * Q :=
  clampSpeed (v.1 * damping + a.1 * dt, v.2 * damping + a.2 * dt)%Q.

(** The axis-separated move tried when [(nx, ny)] is in a wall cell. *)
Definition slide (ff : FlowField.t) (l : layout) (x y nx ny : Q) : Q * Q :=
  let '(tryX, tryY) := cellOf l nx y in
  let sx := if openCell ff tryX tryY then nx else x in
  let '(tryX2, tryY2) := cellOf l sx ny in
  let sy := if openCell ff tryX2 tryY2 then ny else y in
  (sx, sy).

Definition commit (a : agents) (i : Z) (pos vel : Q * Q) : agents :=
  {| posX := aset (posX a) i (fround pos.1);
     posY := aset (posY a) i (fround pos.2);
     velX := aset (velX a) i (fround vel.1);
     velY := aset (velY a) i (fround vel.2);
     hp := hp a; cellCount := cellCount a; bucketHead := bucketHead a;
     next := next a |}.

(** How the loop body ended for an agent. *)
Inductive outcome := LeftCanvas | ReachedBase | Committed.

(** The three termination checks on the tentative position. *)
Definition classify (ff : FlowField.t) (l : layout) (nx ny : Q) : outcome :=
  if Qltb nx 0 || Qltb (rendererWidth l) nx ||
     Qltb ny 0 || Qltb (rendererHeight l) ny
  then LeftCanvas
  else
    let bdx := (nx - baseX ff l)%Q in
    let bdy := (ny - baseY ff l)%Q in
    if Qltb (bdx * bdx + bdy * bdy)%Q (baseRadius l * baseRadius l)%Q
    then ReachedBase
    else Committed.

(** The summed acceleration on agent [i] at [(x, y)]. *)
Definition acceleration (ff : FlowField.t) (l : layout) (p : params)
    (r : refs) (a : agents) (i : Z) (x y : Q) : option (Q * Q) :=
  let '(gx, gy) := cellOf l x y in
  let f := flowForce ff gx gy in
  let pr := pressureForce ff r a gx gy in
  sep ← separation l p a i x y;
  Some (0 + f.1 + pr.1 + sep.1, 0 + f.2 + pr.2 + sep.2)%Q.

(** One iteration of the second loop of [updateSwarm]. *)
Definition steerAgent (ff : FlowField.t) (l : layout) (p : params)
    (r : refs) (dt : Q) (s : game * agents * nat) (i : Z)
    : option (game * agents * nat) :=
  let '(g, a, rc) := s in
  match aget (posX a) i, aget (posY a) i, aget (velX a) i, aget (velY a) i with
  | Some x, Some y, Some vx0, Some vy0 =>
      acc ← acceleration ff l p r a i x y;
      let v := accelerate (vx0, vy0) acc dt in
      let nx := (x + v.1)%Q in
      let ny := (y + v.2)%Q in
      match classify ff l nx ny with
      | LeftCanvas =>
          let '(a', rc') := spawnEdge ff l (wave g) a rc i in
          Some (g, a', rc')
      | ReachedBase =>
          let g' := withBaseHp g (Z.max 0 (baseHp g - 1)) in
          let '(a', rc') := spawnEdge ff l (wave g') a rc i in
          Some (g', a', rc')
      | Committed =>
          if inWall ff l nx ny then
            Some (g, commit a i (slide ff l x y nx ny)
                              (v.1 * 0.35, v.2 * 0.35)%Q, rc)
          else Some (g, commit a i (nx, ny) v, rc)
      end
  | _, _, _, _ => Some s
  end.

Definition updateSwarm (ff : FlowField.t) (l : layout) (p : params)
    (r : refs) (g : game) (a : agents) (rc : nat) (dt : Q)
    : option (game * agents * nat) :=
  if negb (waveActive g) then Some (g, a, rc)
  else
    let a1 := rebuildBuckets ff l p a in
    s1 ← fire ff l p g a1 rc dt;
    fold_left (fun acc i => s ← acc; steerAgent ff l p r dt s i)
      (seqZ 0 (count p)) (Some s1).

(** ** The ticker callback (lines 735-765) *)

Definition withSim (st : state) (g : game) (a : agents) (rc : nat)
    (lastFrame lastPerf : Q) (pf : perfSample) : state :=
  {| field := field st; baseCost := baseCost st;
     pilotRequestId := pilotRequestId st; lay := lay st; gm := g;
     par := par st; ag := a; rf := rf st; randomCalls := rc;
     lastFrameAt := lastFrame; lastPerfAt := lastPerf; perf := pf |}.

(** The time step handed to [updateSwarm]. *)
Definition timestep (frameMs : Q) : Q :=
  Qmin 0.05 (Qmax 0.001 (frameMs / 1000)%Q).

Definition tick (st : state) (now : Q) : option state :=
  if paused (rf st) then Some st
  else
    let frameMs := (now - lastFrameAt st)%Q in
    let dt := timestep frameMs in
    let g0 := gm st in
    let g1 :=
      if waveActive g0 && Qle_bool (waveEndsAt g0) now
      then withWaveActive g0 false else g0 in
    let g2 :=
      if waveActive g1 && (baseHp g1 <=? 0)
      then withWaveActive g1 false else g1 in
    s ← updateSwarm (field st) (lay st) (par st) (rf st) g2 (ag st)
          (randomCalls st) dt;
    let '(g3, a3, rc3) := s in
    if Qle_bool 250 (now - lastPerfAt st)%Q then
      Some (withSim st g3 a3 rc3 now now
              {| perfWaveActive := waveActive g3; perfWave := wave g3;
                 perfBaseHp := baseHp g3; perfGold := gold g3 |})
    else Some (withSim st g3 a3 rc3 now (lastPerfAt st) (perf st)).

(** ** Waves, population and grid size *)

Definition withSwarm (st : state) (g : game) (x : refs * params * agents * nat)
    : state :=
  {| field := field st; baseCost := baseCost st;
     pilotRequestId := pilotRequestId st; lay := lay st; gm := g;
     par := x.1.1.2; ag := x.1.2; rf := x.1.1.1; randomCalls := x.2;
     lastFrameAt := lastFrameAt st; lastPerfAt := lastPerfAt st;
     perf := perf st |}.

(** [startWave], with [now] the value of [performance.now()]. *)
Definition startWave (st : state) (now : Q) : state :=
  let g := gm st in
  let g' :=
    {| baseHpMax := baseHpMax g; baseHp := baseHpMax g; gold := gold g;
       wave := wave g + 1; waveActive := true;
       waveEndsAt := (now + waveDurationMs g)%Q;
       waveDurationMs := waveDurationMs g; fireCooldown := 0 |} in
  withSwarm st g'
    (rebuildSwarm (field st) (lay st) (wave g') (rf st) (randomCalls st)).

(** The effect on [waveToken] (lines 828-831). *)
Definition waveTokenEffect (waveToken : Z) (st : state) (now : Q) : state :=
  if waveToken <=? 0 then st else startWave st now.

Definition withEntities (r : refs) (n : Z) : refs :=
  {| paused := paused r; brushMode := brushMode r;
     densityThreshold := densityThreshold r;
     pressureStrength := pressureStrength r; hasPilot := hasPilot r;
     entities := n; entityCount := entityCount r |}.

Definition setEntityCount (st : state) (n : Q) : state :=
  let r := withEntities (rf st) (Z.max 0 (Qfloor n)) in
  withSwarm st (gm st)
    (rebuildSwarm (field st) (lay st) (wave (gm st)) r (randomCalls st)).

Definition withPaused (r : refs) (b : bool) : refs :=
  {| paused := b; brushMode := brushMode r;
     densityThreshold := densityThreshold r;
     pressureStrength := pressureStrength r; hasPilot := hasPilot r;
     entities := entities r; entityCount := entityCount r |}.

(** The effect on [paused] (lines 833-835). *)
Definition setPaused (st : state) (b : bool) : state :=
  {| field := field st; baseCost := baseCost st;
     pilotRequestId := pilotRequestId st; lay := lay st; gm := gm st;
     par := par st; ag := ag st; rf := withPaused (rf st) b;
     randomCalls := randomCalls st; lastFrameAt := lastFrameAt st;
     lastPerfAt := lastPerfAt st; perf := perf st |}.

(** ** Terrain and the wall editor *)

Definition withField (st : state) (ff : FlowField.t) : state :=
  {| field := ff; baseCost := baseCost st;
     pilotRequestId := pilotRequestId st; lay := lay st; gm := gm st;
     par := par st; ag := ag st; rf := rf st;
     randomCalls := randomCalls st; lastFrameAt := lastFrameAt st;
     lastPerfAt := lastPerfAt st; perf := perf st |}.

Definition openAround (ff : FlowField.t) (tx ty : Z) : FlowField.t :=
  fold_left
    (fun f dy =>
       fold_left
         (fun f dx =>
            let x := tx + dx in
            let y := ty + dy in
            if negb (inBounds f x y) then f else setWall f x y false)
         (seqZ (-1) 3) f)
    (seqZ (-1) 3) ff.

Definition openRows (ff : FlowField.t) : FlowField.t :=
  fold_left
    (fun f x => setWall (setWall f x 0 false) x (height f - 1) false)
    (seqZ 0 (width ff)) ff.

Definition openColumns (ff : FlowField.t) : FlowField.t :=
  fold_left
    (fun f y => setWall (setWall f 0 y false) (width f - 1) y false)
    (seqZ 0 (height ff)) ff.

Definition ensureBaseAndEdgeOpen (ff : FlowField.t) : FlowField.t :=
  let tx := width ff / 2 in
  let ty := height ff / 2 in
  openColumns (openRows (openAround ff tx ty)).

(** The cost array in force after a terrain result: [Some c] for a fetched
    grid, [None] for a cleared pilot or a failed fetch. *)
Definition loadCost (ff : FlowField.t) (c : option (list Z)) : FlowField.t :=
  match c with
  | Some bc =>
      if (length bc =? length (cost ff))%nat then withCost ff bc
      else withCost ff (afill (cost ff) 0)
  | None => withCost ff (afill (cost ff) 0)
  end.

(** The terrain with the base and the edges forced open, as handed to
    [generate] by [applyPilot]. *)
Definition terrain (ff : FlowField.t) (c : option (list Z)) : FlowField.t :=
  ensureBaseAndEdgeOpen (loadCost ff c).

Definition applyTerrain (st : state) (c : option (list Z)) : option state :=
  let ff := terrain (field st) c in
  ff' ← generate ff (width ff / 2) (height ff / 2);
  Some {| field := ff'; baseCost := c;
          pilotRequestId := pilotRequestId st; lay := lay st; gm := gm st;
          par := par st; ag := ag st; rf := rf st;
          randomCalls := randomCalls st; lastFrameAt := lastFrameAt st;
          lastPerfAt := lastPerfAt st; perf := perf st |}.

Definition withRequest (st : state) (id : Z) : state :=
  {| field := field st; baseCost := baseCost st; pilotRequestId := id;
     lay := lay st; gm := gm st; par := par st; ag := ag st; rf := rf st;
     randomCalls := randomCalls st; lastFrameAt := lastFrameAt st;
     lastPerfAt := lastPerfAt st; perf := perf st |}.

(** [applyPilot(p)] up to the [await]: a cleared pilot resets the terrain at
    once, otherwise the request is only numbered. *)
Definition applyPilot (st : state) (p : bool) : option state :=
  let st1 := withRequest st (pilotRequestId st + 1) in
  if p then Some st1 else applyTerrain st1 None.

(** The continuation of the request numbered [reqId]: [Some c] when the
    fetch returned the cost array [c], [None] when it failed. *)
Definition pilotSettled (st : state) (reqId : Z) (c : option (list Z))
    : option state :=
  if negb (reqId =? pilotRequestId st) then Some st else applyTerrain st c.

Definition setGridSize (st : state) (newSize : Q) : option state :=
  let size := Z.max 24 (Z.min 128 (Qfloor newSize)) in
  x ← rebuildField (FlowField.new size size) (lay st);
  let st1 :=
    {| field := x.1; baseCost := None; pilotRequestId := pilotRequestId st;
       lay := x.2; gm := gm st; par := par st; ag := ag st; rf := rf st;
       randomCalls := randomCalls st; lastFrameAt := lastFrameAt st;
       lastPerfAt := lastPerfAt st; perf := perf st |} in
  st2 ← applyPilot st1 (hasPilot (rf st1));
  Some (withSwarm st2 (gm st2)
          (rebuildSwarm (field st2) (lay st2) (wave (gm st2)) (rf st2)
             (randomCalls st2))).

(** [editAtClient] from the pointer position [(x, y)] in renderer
    coordinates (lines 674-683). *)
Definition editAtClient (st : state) (x y : Q) : option state :=
  let ff := field st in
  let '(gx, gy) := cellOf (lay st) x y in
  if negb (inBounds ff gx gy) then Some st
  else
    let isErase := match brushMode (rf st) with ERASE => true | WALL => false end in
    if (gx =? targetX ff) && (gy =? targetY ff) then Some st
    else if waveActive (gm st) && negb isErase && (gold (gm st) <=? 0)
    then Some st
    else
      let ff1 := setWall ff gx gy (negb isErase) in
      let g1 :=
        if waveActive (gm st) && negb isErase
        then withGold (gm st) (Z.max 0 (gold (gm st) - 1)) else gm st in
      ff2 ← generate ff1 (targetX ff1) (targetY ff1);
      Some {| field := ff2; baseCost := baseCost st;
              pilotRequestId := pilotRequestId st; lay := lay st; gm := g1;
              par := par st; ag := ag st; rf := rf st;
              randomCalls := randomCalls st; lastFrameAt := lastFrameAt st;
              lastPerfAt := lastPerfAt st; perf := perf st |}.

(** ** The state built by [init] and the inputs it then reacts to *)

Definition withBrush (st : state) (b : brush) : state :=
  {| field := field st; baseCost := baseCost st;
     pilotRequestId := pilotRequestId st; lay := lay st; gm := gm st;
     par := par st; ag := ag st;
     rf := {| paused := paused (rf st); brushMode := b;
              densityThreshold := densityThreshold (rf st);
              pressureStrength := pressureStrength (rf st);
              hasPilot := hasPilot (rf st); entities := entities (rf st);
              entityCount := entityCount (rf st) |};
     randomCalls := randomCalls st; lastFrameAt := lastFrameAt st;
     lastPerfAt := lastPerfAt st; perf := perf st |}.

Definition withPilot (st : state) (p : bool) : state :=
  {| field := field st; baseCost := baseCost st;
     pilotRequestId := pilotRequestId st; lay := lay st; gm := gm st;
     par := par st; ag := ag st;
     rf := {| paused := paused (rf st); brushMode := brushMode (rf st);
              densityThreshold := densityThreshold (rf st);
              pressureStrength := pressureStrength (rf st);
              hasPilot := p; entities := entities (rf st);
              entityCount := entityCount (rf st) |};
     randomCalls := randomCalls st; lastFrameAt := lastFrameAt st;
     lastPerfAt := lastPerfAt st; perf := perf st |}.

(** [init] (lines 101-116, 571-573 and 645): a square grid of [gridSize]
    cells a side on a renderer of [w] by [h] pixels, with the refs [r] and
    [now] the time at which the component was created. *)
Definition init (gridSize : Z) (w h : Q) (r : refs) (now : Q) : option state :=
  let ff0 := FlowField.new gridSize gridSize in
  let l0 := {| cellPx := 10; offsetX := 0; offsetY := 0;
               rendererWidth := w; rendererHeight := h |} in
  let l1 := computeLayout ff0 l0 in
  x ← rebuildField ff0 l1;
  let g := {| baseHpMax := 100; baseHp := 100; gold := 0; wave := 0;
              waveActive := false; waveEndsAt := 0;
              waveDurationMs := 35000; fireCooldown := 0 |} in
  let st :=
    {| field := x.1; baseCost := None; pilotRequestId := 0; lay := x.2;
       gm := g; par := mkParams 0 0 0 0 0 0 0;
       ag := mkAgents [] [] [] [] [] [] [] []; rf := r; randomCalls := 0;
       lastFrameAt := now; lastPerfAt := 0;
       perf := {| perfWaveActive := false; perfWave := 0;
                  perfBaseHp := 0; perfGold := 0 |} |} in
  applyPilot
    (withSwarm st g (rebuildSwarm (field st) (lay st) (wave g) r 0))
    (hasPilot r).

(** What reaches the canvas after [init]: ticker callbacks, pointer edits,
    changes of props, and the settling of terrain requests. *)
Inductive event :=
  | Tick (now : Q)
  | PointerEdit (x y : Q)
  | SetBrush (b : brush)
  | StartWave (now : Q)
  | SetPaused (b : bool)
  | SetEntityCount (n : Q)
  | SetGridSize (n : Q)
  | SetPilot (p : bool)
  | PilotSettled (reqId : Z) (c : option (list Z)).

Definition handle (st : state) (e : event) : option state :=
  match e with
  | Tick now => tick st now
  | PointerEdit x y => editAtClient st x y
  | SetBrush b => Some (withBrush st b)
  | StartWave now => Some (startWave st now)
  | SetPaused b => Some (setPaused st b)
  | SetEntityCount n => Some (setEntityCount st n)
  | SetGridSize n => setGridSize st n
  | SetPilot p => applyPilot (withPilot st p) p
  | PilotSettled reqId c => pilotSettled st reqId c
  end.

Definition run (st : state) (es : list event) : option state :=
  fold_left (fun acc e => s ← acc; handle s e) es (Some st).

End Oracles.

(** ** ZTideApp.tsx: the Start Wave button *)

(** The button is [disabled={perf.waveActive}]; a click increments
    [waveToken], which runs the effect of the canvas. *)
Definition clickStartWave (random : nat -> Q) (waveToken : Z) (st : state)
    (now : Q) : Z * state :=
  if perfWaveActive (perf st) then (waveToken, st)
  else (waveToken + 1, waveTokenEffect random (waveToken + 1) st now).

End Canvas.

(** * Invariants and auxiliary notions

    The predicates in which the properties of the program are stated and
    proved: the loop invariants of [generate], the shape of the field it
    returns, the terrain with the base and the edges open, the spatial
    hash, and the states the canvas reaches. *)

(** ** The flood fill of [generate] *)

Section FloodFillNotions.
Import FlowField.
Variable ff : t.

(** The index of the target cell. *)
Variable s : Z.

(** [p] is the index of a 4-connected in-bounds neighbour of cell [c]. *)
Definition adjacent (c p : Z) : Prop :=
  exists x y d, d ∈ N4 /\ inBounds ff x y = true /\ idx ff x y = c /\
    inBounds ff (x + d.1) (y + d.2) = true /\
    idx ff (x + d.1) (y + d.2) = p.

(** The loop invariant of [while (head < tail)]: the written part of the
    queue holds each reached cell once, in non-decreasing order of
    distance, and the pending cells are at most one level apart. *)
Record bfs_inv (integ q : list Z) (head tail : nat) : Prop := {
  bi_integ : length integ = Z.to_nat (cells ff);
  bi_queue : length q = Z.to_nat (cells ff);
  bi_head : (head <= tail)%nat;
  bi_tail : (tail <= Z.to_nat (cells ff))%nat;
  bi_range : forall c v, aget integ c = Some v -> 0 <= v <= INF;
  bi_queued : forall k c, take tail q !! k = Some c ->
    0 <= c < cells ff /\ is255 (aget (cost ff) c) = false /\
    exists v, aget integ c = Some v /\ v < INF /\ v <= Z.of_nat k;
  bi_nodup : NoDup (take tail q);
  bi_reached : forall c v,
    aget integ c = Some v -> v <> INF -> c ∈ take tail q;
  bi_sorted : forall j k cj ck vj vk, (j <= k)%nat ->
    take tail q !! j = Some cj -> take tail q !! k = Some ck ->
    aget integ cj = Some vj -> aget integ ck = Some vk -> vj <= vk;
  bi_level : forall j k cj ck vj vk, (head <= k)%nat ->
    take tail q !! j = Some cj -> take tail q !! k = Some ck ->
    aget integ cj = Some vj -> aget integ ck = Some vk -> vj <= vk + 1;
  bi_start : aget integ s = Some 0;
  bi_parent : forall c v, aget integ c = Some v -> v <> INF -> c <> s ->
    1 <= v /\ exists p, adjacent c p /\ aget integ p = Some (v - 1)
}.

(** The state of the inner loop while the neighbours of [cur], read at
    [q[head]] with distance [D], are examined. *)
Definition visiting (cur D : Z) (head : nat)
    (st : list Z * list Z * nat) : Prop :=
  let '(integ, q, tail) := st in
  bfs_inv integ q head tail /\ take tail q !! head = Some cur /\
  aget integ cur = Some D.

(** Finite distances are never overwritten and the written part of the
    queue only grows at its end. *)
Definition keeps (st st' : list Z * list Z * nat) : Prop :=
  (forall c v, aget st.1.1 c = Some v -> v <> INF ->
     aget st'.1.1 c = Some v) /\
  (forall k c, take st.2 st.1.2 !! k = Some c ->
     take st'.2 st'.1.2 !! k = Some c).

(** The neighbour of [(cx, cy)] at offset [d], if it is a walkable cell of
    the grid, has been given a distance. *)
Definition neighbour_reached (integ : list Z) (cx cy : Z) (d : Z * Z) : Prop :=
  inBounds ff (cx + d.1) (cy + d.2) = true ->
  is255 (aget (cost ff) (idx ff (cx + d.1) (cy + d.2))) = false ->
  exists v, aget integ (idx ff (cx + d.1) (cy + d.2)) = Some v /\ v <> INF.

(** Every neighbour of a cell that left the queue has been reached. *)
Definition done_inv (integ q : list Z) (head tail : nat) : Prop :=
  forall k c p, (k < head)%nat -> take tail q !! k = Some c ->
    adjacent c p -> is255 (aget (cost ff) p) = false ->
    exists v, aget integ p = Some v /\ v <> INF.
End FloodFillNotions.

(** ** The directions and the field returned by [generate] *)

Section DirectionNotions.
Import FlowField.
Variable ff : t.
Variable integ : list Z.

(** The value stored in [direction[i]] by the [for (i < n)] loop. *)
Definition directionOf (i : Z) : Z :=
  if is255 (aget (cost ff) i) then FLOW_DIR_NONE
  else
    match aget integ i with
    | None => FLOW_DIR_NONE
    | Some d =>
        if (d =? INF) || (d =? 0) then FLOW_DIR_NONE
        else pickDirection ff integ (Z.rem i (width ff))
               (toInt32 (Z.quot i (width ff))) d
    end.

(** An offset that passes the two guards of the [N8] scan at [(x, y)]. *)
Definition eligible (x y dx dy : Z) : Prop :=
  inBounds ff (x + dx) (y + dy) = true /\
  canUseDiagonal ff x y dx dy = true.
End DirectionNotions.

Section GenerateNotions.
Import FlowField.
Variable ff : t.

(** The integration field left by the flood fill from the cell of index
    [s]. *)
Record flooded (s : Z) (integ : list Z) : Prop := {
  fl_len : length integ = Z.to_nat (cells ff);
  fl_start : aget integ s = Some 0;
  fl_range : forall c v, aget integ c = Some v -> 0 <= v <= INF;
  fl_open : forall c v, aget integ c = Some v -> v <> INF ->
    is255 (aget (cost ff) c) = false;
  fl_parent : forall c v, aget integ c = Some v -> v <> INF -> c <> s ->
    1 <= v /\ exists p, adjacent ff c p /\ aget integ p = Some (v - 1);
  fl_closed : cells ff < INF -> forall c v p,
    aget integ c = Some v -> v <> INF -> adjacent ff c p ->
    is255 (aget (cost ff) p) = false ->
    exists w, aget integ p = Some w /\ w <> INF
}.

(** The field [generate] returns for a valid target, given the result of the
    flood fill. *)
Definition generated (tx ty : Z) (integ q : list Z) : t :=
  {| width := width ff; height := height ff; cost := cost ff;
     integration := integ;
     direction :=
       fold_left (assignDirection ff integ) (seqZ 0 (cells ff))
         (replicate (Z.to_nat (cells ff)) FLOW_DIR_NONE);
     targetX := tx; targetY := ty; queue := q |}.

(** The field [generate] returns for an invalid target. *)
Definition blank (tx ty : Z) : t :=
  {| width := width ff; height := height ff; cost := cost ff;
     integration := replicate (Z.to_nat (cells ff)) INF;
     direction := replicate (Z.to_nat (cells ff)) FLOW_DIR_NONE;
     targetX := tx; targetY := ty; queue := queue ff |}.
End GenerateNotions.

(** ** Terrain *)

Section TerrainNotions.
Import FlowField.

(** [ff'] is [ff] with some cells made walkable and nothing else changed. *)
Definition opens (ff ff' : t) : Prop :=
  exists c, ff' = withCost ff c /\ length c = length (cost ff) /\
    forall i, aget (cost ff) i = Some 0 -> aget c i = Some 0.
End TerrainNotions.

(** The cells [ensureBaseAndEdgeOpen] is for: the 3x3 block around the
    centre cell and the border rows and columns. *)
Definition baseOrEdge (ff : FlowField.t) (x y : Z) : Prop :=
  (-1 <= x - FlowField.width ff / 2 <= 1 /\
   -1 <= y - FlowField.height ff / 2 <= 1) \/
  x = 0 \/ x = FlowField.width ff - 1 \/
  y = 0 \/ y = FlowField.height ff - 1.

(** Every in-bounds cell of the base block and of the border has cost 0. *)
Definition forcedOpen (ff : FlowField.t) : Prop :=
  forall x y, FlowField.inBounds ff x y = true -> baseOrEdge ff x y ->
    aget (FlowField.cost ff) (FlowField.idx ff x y) = Some 0.

(** The field was produced by [generate], for the centre cell, from a grid
    whose base block and border were open. *)
Definition regenerated (ff' : FlowField.t) : Prop :=
  exists ff0, FlowField.wf ff0 /\ forcedOpen ff0 /\
    FlowField.generate ff0 (FlowField.width ff0 / 2)
      (FlowField.height ff0 / 2) = Some ff'.

(** ** The spatial hash *)

(** Agent [k] is on the list that starts at [h]. *)
Inductive linked (nxt : list Z) : Z -> Z -> Prop :=
  | linked_here k : linked nxt k k
  | linked_next h n k :
      aget nxt h = Some n -> linked nxt n k -> linked nxt h k.

(** The shape of a hash over [count] agents: every list runs through
    decreasing agent indices and ends at [-1]. *)
Record chained (p : Canvas.params) (a : Canvas.agents) : Prop := {
  ch_next_len : length (Canvas.next a) = Z.to_nat (Canvas.count p);
  ch_head_len : length (Canvas.bucketHead a) =
    Z.to_nat (Canvas.bucketsX p * Canvas.bucketsY p);
  ch_head : forall b h,
    aget (Canvas.bucketHead a) b = Some h -> -1 <= h < Canvas.count p;
  ch_next : forall k, 0 <= k < Canvas.count p ->
    exists n, aget (Canvas.next a) k = Some n /\ -1 <= n < k
}.

Section HashNotions.
Import FlowField Canvas.
Variable l : layout.
Variable p : params.

(** The index of bucket [b] in [bucketHead]. *)
Definition bucketIndex (b : Z * Z) : Z := b.2 * bucketsX p + b.1.

(** The state of the hash once the agents below [m] have been inserted:
    every list runs through decreasing agent indices, and every inserted
    agent is on the list of the bucket of its position. *)
Record hashed (a : agents) (m : Z) : Prop := {
  hs_next_len : length (next a) = Z.to_nat (count p);
  hs_head_len : length (bucketHead a) = Z.to_nat (bucketsX p * bucketsY p);
  hs_head : forall b h, aget (bucketHead a) b = Some h -> -1 <= h < m;
  hs_next : forall k, 0 <= k < m ->
    exists n, aget (next a) k = Some n /\ -1 <= n < k;
  hs_member : forall k x y, 0 <= k < m ->
    aget (posX a) k = Some x -> aget (posY a) k = Some y ->
    exists h, aget (bucketHead a) (bucketIndex (bucketOf l p x y)) = Some h /\
      linked (next a) h k
}.
End HashNotions.

(** ** The swarm arrays *)

(** The typed arrays of the swarm as [rebuildSwarm] allocates them. *)
Record swarmOk (p : Canvas.params) (a : Canvas.agents) : Prop := {
  so_count : 0 <= Canvas.count p;
  so_bucketsX : 1 <= Canvas.bucketsX p;
  so_bucketsY : 1 <= Canvas.bucketsY p;
  so_posX : length (Canvas.posX a) = Z.to_nat (Canvas.count p);
  so_posY : length (Canvas.posY a) = Z.to_nat (Canvas.count p);
  so_velX : length (Canvas.velX a) = Z.to_nat (Canvas.count p);
  so_velY : length (Canvas.velY a) = Z.to_nat (Canvas.count p);
  so_hp : length (Canvas.hp a) = Z.to_nat (Canvas.count p);
  so_next : length (Canvas.next a) = Z.to_nat (Canvas.count p);
  so_head : length (Canvas.bucketHead a) =
    Z.to_nat (Canvas.bucketsX p * Canvas.bucketsY p)
}.

(** Two swarms with the same hash and arrays of the same lengths. *)
Definition sameShape (a a' : Canvas.agents) : Prop :=
  Canvas.next a' = Canvas.next a /\
  Canvas.bucketHead a' = Canvas.bucketHead a /\
  length (Canvas.posX a') = length (Canvas.posX a) /\
  length (Canvas.posY a') = length (Canvas.posY a) /\
  length (Canvas.velX a') = length (Canvas.velX a) /\
  length (Canvas.velY a') = length (Canvas.velY a) /\
  length (Canvas.hp a') = length (Canvas.hp a).

(** ** The states of the canvas *)

Section CanvasNotions.
Import FlowField Canvas.

(** Where the loop body leaves an agent that is not respawned. *)
Definition landing (ff : FlowField.t) (l : layout) (x y : Q) (v : Q * Q)
    : Q * Q :=
  if inWall ff l (x + v.1) (y + v.2)
  then slide ff l x y (x + v.1)%Q (y + v.2)%Q
  else (x + v.1, y + v.2)%Q.

(** The invariant of the canvas: the target is the centre cell of a
    well-formed, non-empty grid, and it is not a wall. *)
Record targetOpen (st : state) : Prop := {
  to_wf : wf (field st);
  to_width : 0 < width (field st);
  to_height : 0 < height (field st);
  to_tx : targetX (field st) = width (field st) / 2;
  to_ty : targetY (field st) = height (field st) / 2;
  to_open : isWall (field st) (targetX (field st)) (targetY (field st)) = false
}.

(** What holds in every state the canvas reaches: the invariant of the
    field, and swarm arrays as [rebuildSwarm] allocates them. *)
Record ready (st : state) : Prop := {
  rd_target : targetOpen st;
  rd_swarm : swarmOk (par st) (ag st)
}.
End CanvasNotions.

(** ** Paths on the grid and the distances of the flood fill *)

Section ShortestNotions.
Import FlowField.
Variable ff : t.

(** [(x, y)] is reached from the target [(tx, ty)] in [n] 4-connected steps
    over in-bounds cells that are not walls. *)
Inductive walk (tx ty : Z) : nat -> Z -> Z -> Prop :=
  | walk_target : walk tx ty 0 tx ty
  | walk_step n x y dx dy :
      walk tx ty n x y -> (dx, dy) ∈ N4 ->
      inBounds ff (x + dx) (y + dy) = true ->
      isWall ff (x + dx) (y + dy) = false ->
      walk tx ty (S n) (x + dx) (y + dy).

(** A walkable neighbour of a cell that left the queue is at most one
    step further from the target than the cell. *)
Definition done_close (integ q : list Z) (head tail : nat) : Prop :=
  forall k c p, (k < head)%nat -> take tail q !! k = Some c ->
    adjacent ff c p -> is255 (aget (cost ff) p) = false ->
    exists vc vp, aget integ c = Some vc /\ aget integ p = Some vp /\
      vp <= vc + 1.

(** The same for every cell with a finite distance. *)
Definition lipschitz (integ : list Z) : Prop :=
  forall c p vc, aget integ c = Some vc -> vc <> INF ->
    adjacent ff c p -> is255 (aget (cost ff) p) = false ->
    exists vp, aget integ p = Some vp /\ vp <= vc + 1.
End ShortestNotions.

(** ** The wall layer and the layout of the grid on the canvas *)

(** A rectangle handed to [Graphics.rect]. *)
Record rect := mkRect { rx : Q; ry : Q; rw : Q; rh : Q }.

(** The half-open region [x <= px < x + w], [y <= py < y + h]. *)
Definition inRect (r : rect) (px py : Q) : Prop :=
  (rx r <= px /\ px < rx r + rw r /\ ry r <= py /\ py < ry r + rh r)%Q.

(** [renderWalls]: the rectangles of the wall layer after the call, in the
    order they are drawn. *)
Definition renderWalls (ff : FlowField.t) (l : Canvas.layout) : list rect :=
  y ← seqZ 0 (FlowField.height ff);
  x ← seqZ 0 (FlowField.width ff);
  if negb (FlowField.isWall ff x y) then []
  else [mkRect (Canvas.offsetX l + inject_Z x * Canvas.cellPx l)
               (Canvas.offsetY l + inject_Z y * Canvas.cellPx l)
               (Canvas.cellPx l) (Canvas.cellPx l)].

(** The centre of cell [(gx, gy)], where [spawnEdge] puts an agent and
    where the base is. *)
Definition cellCentre (l : Canvas.layout) (gx gy : Z) : Q * Q :=
  ((Canvas.offsetX l + (inject_Z gx + 0.5) * Canvas.cellPx l)%Q,
   (Canvas.offsetY l + (inject_Z gy + 0.5) * Canvas.cellPx l)%Q).

(** ** The lists of the spatial hash *)

(** Every agent on a list of the hash has its position in the bucket of
    that list. *)
Definition onlyOwn (l : Canvas.layout) (p : Canvas.params)
    (a : Canvas.agents) : Prop :=
  forall b h k x y,
    aget (Canvas.bucketHead a) b = Some h ->
    linked (Canvas.next a) h k ->
    aget (Canvas.posX a) k = Some x -> aget (Canvas.posY a) k = Some y ->
    b = bucketIndex p (Canvas.bucketOf l p x y).

(** ** The tower *)

(** The squared distance of agent [j] to the point [(bx, by_)], when the
    agent exists. *)
Definition dist2 (a : Canvas.agents) (bx by_ : Q) (j : Z) : option Q :=
  match aget (Canvas.posX a) j, aget (Canvas.posY a) j with
  | Some px, Some py =>
      Some ((px - bx) * (px - bx) + (py - by_) * (py - by_))%Q
  | _, _ => None
  end.

(** ** The counters of the game *)

(** What a frame of the simulation may change of the game: the tower earns
    gold, agents at the base cost hit points down to zero, the cooldown
    runs; the wave and its timer are left alone. *)
Record frameOf (g g' : Canvas.game) : Prop := {
  fo_max : Canvas.baseHpMax g' = Canvas.baseHpMax g;
  fo_wave : Canvas.wave g' = Canvas.wave g;
  fo_active : Canvas.waveActive g' = Canvas.waveActive g;
  fo_ends : Canvas.waveEndsAt g' = Canvas.waveEndsAt g;
  fo_duration : Canvas.waveDurationMs g' = Canvas.waveDurationMs g;
  fo_hp_le : Canvas.baseHp g' <= Z.max 0 (Canvas.baseHp g);
  fo_hp_ge : Z.min 0 (Canvas.baseHp g) <= Canvas.baseHp g';
  fo_gold : Canvas.gold g <= Canvas.gold g'
}.

(** The number of [startWave] calls among the inputs. *)
Fixpoint wavesStarted (es : list Canvas.event) : Z :=
  match es with
  | [] => 0
  | Canvas.StartWave _ :: es => 1 + wavesStarted es
  | _ :: es => wavesStarted es
  end.

(** ** Terrain requests *)

(** The number of inputs that issue a terrain request: a change of the
    pilot, and a change of the grid size, which calls [applyPilot]. *)
Fixpoint requests (es : list Canvas.event) : Z :=
  match es with
  | [] => 0
  | Canvas.SetPilot _ :: es => 1 + requests es
  | Canvas.SetGridSize _ :: es => 1 + requests es
  | _ :: es => requests es
  end.

(** ** The density grid *)

(** Agent [i] is in cell [(gx, gy)]. *)
Definition inCell (l : Canvas.layout) (a : Canvas.agents) (gx gy i : Z)
    : bool :=
  match aget (Canvas.posX a) i, aget (Canvas.posY a) i with
  | Some x, Some y =>
      ((Canvas.cellOf l x y).1 =? gx) && ((Canvas.cellOf l x y).2 =? gy)
  | _, _ => false
  end.

(** The number of agents among [js] that are in cell [(gx, gy)]. *)
Definition crowd (l : Canvas.layout) (a : Canvas.agents) (gx gy : Z)
    (js : list Z) : Z :=
  Z.of_nat (length (List.filter (inCell l a gx gy) js)).

(** The count kept for cell [(gx, gy)] once [n] agents were counted in it:
    a wall cell is never counted, and the count stops at 65535. *)
Definition counted (ff : FlowField.t) (gx gy n : Z) : Z :=
  if FlowField.isWall ff gx gy then 0 else Z.min 65535 n.

(** ** Crowd pressure *)

(** The state [(bestCount, bestDx, bestDy)] of the pressure after the
    neighbours at the offsets [seen] of cell [(gx, gy)], which holds [here]
    agents, were looked at: it is still the cell itself, or it is the
    offset of a walkable neighbour with fewer agents; in both cases no
    walkable neighbour seen holds fewer than [bestCount]. *)
Definition leastCrowded (ff : FlowField.t) (a : Canvas.agents)
    (gx gy here : Z) (seen : list (Z * Z)) (best : Z * Z * Z) : Prop :=
  ((best.1.2, best.2) = (0, 0) /\ best.1.1 = here \/
   ((best.1.2, best.2) ∈ seen /\ (best.1.2, best.2) <> (0, 0) /\
    Canvas.openCell ff (gx + best.1.2) (gy + best.2) = true /\
    aget (Canvas.cellCount a) (FlowField.idx ff (gx + best.1.2) (gy + best.2))
      = Some best.1.1 /\
    best.1.1 < here)) /\
  (forall d c, d ∈ seen ->
     Canvas.openCell ff (gx + d.1) (gy + d.2) = true ->
     aget (Canvas.cellCount a) (FlowField.idx ff (gx + d.1) (gy + d.2))
       = Some c ->
     best.1.1 <= c).

(** ** Agents on the border *)

(** Agent [i] is as [spawnEdge] leaves it: at rest at the centre of an
    in-bounds cell of the first or last column or row, as the position
    arrays store it, with the hit points of the wave. *)
Definition spawned (ff : FlowField.t) (l : Canvas.layout) (wave : Z)
    (a : Canvas.agents) (i : Z) : Prop :=
  exists gx gy,
    FlowField.inBounds ff gx gy = true /\
    (gx = 0 \/ gx = FlowField.width ff - 1 \/
     gy = 0 \/ gy = FlowField.height ff - 1) /\
    aget (Canvas.posX a) i = Some (Canvas.fround (cellCentre l gx gy).1) /\
    aget (Canvas.posY a) i = Some (Canvas.fround (cellCentre l gx gy).2) /\
    Canvas.cellOf l (cellCentre l gx gy).1 (cellCentre l gx gy).2 =
      (gx, gy) /\
    aget (Canvas.velX a) i = Some 0%Q /\
    aget (Canvas.velY a) i = Some 0%Q /\
    aget (Canvas.hp a) i = Some (Z.land (34 + wave * 10) 65535).

(** ** Agents and the canvas *)

(** The grid lies inside the renderer. *)
Definition fits (ff : FlowField.t) (l : Canvas.layout) : Prop :=
  (0 < Canvas.cellPx l /\
   0 <= Canvas.offsetX l /\
   Canvas.offsetX l + inject_Z (FlowField.width ff) * Canvas.cellPx l <=
     Canvas.rendererWidth l /\
   0 <= Canvas.offsetY l /\
   Canvas.offsetY l + inject_Z (FlowField.height ff) * Canvas.cellPx l <=
     Canvas.rendererHeight l)%Q.

(** Every agent is on the canvas. *)
Definition onCanvas (l : Canvas.layout) (a : Canvas.agents) : Prop :=
  forall i x y,
    aget (Canvas.posX a) i = Some x -> aget (Canvas.posY a) i = Some y ->
    (0 <= x /\ x <= Canvas.rendererWidth l /\
     0 <= y /\ y <= Canvas.rendererHeight l)%Q.

(** What holds of the swarm in every state reached on a renderer of at
    least 768 by 768 pixels, which has room for 6 pixels for each cell of
    the largest grid, and whose width and height are binary32 numbers, as
    whole numbers of pixels are. *)
Record framed (st : Canvas.state) : Prop := {
  fr_ready : ready st;
  fr_fits : fits (Canvas.field st) (Canvas.lay st);
  fr_on : onCanvas (Canvas.lay st) (Canvas.ag st);
  fr_w : (768 <= Canvas.rendererWidth (Canvas.lay st))%Q;
  fr_h : (768 <= Canvas.rendererHeight (Canvas.lay st))%Q;
  fr_w32 : (Canvas.fround (Canvas.rendererWidth (Canvas.lay st)) ==
            Canvas.rendererWidth (Canvas.lay st))%Q;
  fr_h32 : (Canvas.fround (Canvas.rendererHeight (Canvas.lay st)) ==
            Canvas.rendererHeight (Canvas.lay st))%Q;
  fr_width : FlowField.width (Canvas.field st) <= 128;
  fr_height : FlowField.height (Canvas.field st) <= 128
}.

(** ** The field in force *)

(** The field is as [generate] computed it for its target. *)
Definition fresh (ff' : FlowField.t) : Prop :=
  exists ff0, FlowField.wf ff0 /\
    FlowField.generate ff0 (FlowField.targetX ff') (FlowField.targetY ff') =
      Some ff'.

(** ** Walls and the stored position *)

(** The lines of the grid are binary32 numbers, as they are for a layout in
    whole pixels. *)
Definition gridLines32 (ff : FlowField.t) (l : Canvas.layout) : Prop :=
  (forall k, 0 <= k <= FlowField.width ff ->
     (Canvas.fround (Canvas.offsetX l + inject_Z k * Canvas.cellPx l) ==
      Canvas.offsetX l + inject_Z k * Canvas.cellPx l)%Q) /\
  (forall k, 0 <= k <= FlowField.height ff ->
     (Canvas.fround (Canvas.offsetY l + inject_Z k * Canvas.cellPx l) ==
      Canvas.offsetY l + inject_Z k * Canvas.cellPx l)%Q).



(** ** A small scene for the examples

    A 5x5 grid on a 100x100 renderer (cells of 20 pixels) with three
    agents.  The two oracles are fixed: the random numbers cycle through
    the tenths, and the square root is taken on the integer part. *)

Definition demoRandom (n : nat) : Q :=
  (inject_Z (Z.of_nat ((n * 7) mod 10)) / 10)%Q.

Definition demoSqrt (q : Q) : Q := inject_Z (Z.sqrt (Qfloor q)).

Definition demoRefs : Canvas.refs :=
  {| Canvas.paused := false; Canvas.brushMode := Canvas.WALL;
     Canvas.densityThreshold := 6; Canvas.pressureStrength := 1;
     Canvas.hasPilot := false; Canvas.entities := 0;
     Canvas.entityCount := 3 |}.

(** The scene after [init] and the inputs [es]. *)
Definition demo (es : list Canvas.event) : option Canvas.state :=
  s ← Canvas.init demoRandom 5 100 100 demoRefs 0;
  Canvas.run demoRandom demoSqrt s es.

Ltac concrete_wf :=
  split; vm_compute; first [reflexivity | discriminate].

(** An empty canvas, the fallback of [default] below. *)
Definition nowhere : Canvas.state :=
  {| Canvas.field := FlowField.new 0 0; Canvas.baseCost := None;
     Canvas.pilotRequestId := 0;
     Canvas.lay := Canvas.mkLayout 10 0 0 0 0;
     Canvas.gm := Canvas.mkGame 100 100 0 0 false 0 35000 0;
     Canvas.par := Canvas.mkParams 0 0 0 0 0 0 0;
     Canvas.ag := Canvas.mkAgents [] [] [] [] [] [] [] [];
     Canvas.rf := demoRefs; Canvas.randomCalls := 0;
     Canvas.lastFrameAt := 0; Canvas.lastPerfAt := 0;
     Canvas.perf := Canvas.mkPerf false 0 0 0 |}.

(** The scene as [init] leaves it. *)
Definition demoIdle : Canvas.state :=
  Eval vm_compute in default nowhere (demo []).

(** The scene just after a wave was started. *)
Definition demoWave : Canvas.state :=
  Eval vm_compute in default nowhere (demo [Canvas.StartWave 0]).

(** Inputs that try to wall the target, wall another cell, load an
    all-wall terrain and run a tick of a wave. *)
Definition demoInputs : list Canvas.event :=
  [Canvas.PointerEdit 50 50; Canvas.PointerEdit 30 30;
   Canvas.PilotSettled 1 (Some (replicate 25 255));
   Canvas.StartWave 0; Canvas.Tick 16; Canvas.PointerEdit 50 50].

Definition demoBusy : Canvas.state :=
  Eval vm_compute in default nowhere (demo demoInputs).

(** The idle scene with a wall painted at cell (1, 1). *)
Definition demoEdited : Canvas.state :=
  Eval vm_compute in default nowhere (demo [Canvas.PointerEdit 30 30]).

(** Three frames into the first wave, before any telemetry sample. *)
Definition demoRunning : Canvas.state :=
  Eval vm_compute in
    default nowhere
      (demo [Canvas.StartWave 0; Canvas.Tick 16; Canvas.Tick 32;
             Canvas.Tick 48]).

(** The scene after the Start Wave button is pressed again at that point. *)
Definition demoRestarted : Canvas.state :=
  Eval vm_compute in (Canvas.clickStartWave demoRandom 1 demoRunning 60).2.

(** The agents of [demoWave], with agent 1 moved next to agent 0. *)
Definition demoClose : Canvas.agents :=
  Eval vm_compute in Canvas.commit (Canvas.ag demoWave) 1 (12, 88)%Q (0, 0)%Q.

(** The first frame of the wave. *)
Definition demoFrame : Canvas.state :=
  Eval vm_compute in
    default nowhere (Canvas.tick demoRandom demoSqrt demoWave 16).





(** The agents of [demoWave] once the hash of the first frame is built,
    and the acceleration of agent 0 in that frame. *)
Definition demoHashed : Canvas.agents :=
  Eval vm_compute in
    Canvas.rebuildBuckets (Canvas.field demoWave) (Canvas.lay demoWave)
      (Canvas.par demoWave) (Canvas.ag demoWave).

Definition demoAcc : Q * Q :=
  Eval vm_compute in
    default (0, 0)%Q
      (Canvas.acceleration demoSqrt (Canvas.field demoWave)
         (Canvas.lay demoWave) (Canvas.par demoWave) (Canvas.rf demoWave)
         demoHashed 0 10 90).

(** The 3x3 grid of the specification's scenario, with walls at (1,0) and
    (0,1), which enclose the corner (0,0). *)
Definition walled3 : FlowField.t :=
  FlowField.setWall (FlowField.setWall (FlowField.new 3 3) 1 0 true) 0 1 true.

(** The field [generate] leaves on that grid for the target (1, 1). *)
Definition walled3Field : FlowField.t :=
  Eval vm_compute in
    default (FlowField.new 0 0) (FlowField.generate walled3 1 1).

(** The idle scene after a pilot was chosen, and after it was changed
    again before the terrain of the first arrived. *)
Definition demoPilot : Canvas.state :=
  Eval vm_compute in
    default nowhere
      (Canvas.handle demoRandom demoSqrt demoIdle (Canvas.SetPilot true)).

Definition demoPilot2 : Canvas.state :=
  Eval vm_compute in
    default nowhere
      (Canvas.run demoRandom demoSqrt demoPilot
         [Canvas.Tick 16; Canvas.SetPilot true]).

(** A density grid for the idle scene: nine agents in the centre cell and
    three in every other cell. *)
Definition demoCrowd : Canvas.agents :=
  {| Canvas.posX := []; Canvas.posY := []; Canvas.velX := [];
     Canvas.velY := []; Canvas.hp := [];
     Canvas.cellCount := <[12%nat := 9]> (replicate 25 3);
     Canvas.bucketHead := []; Canvas.next := [] |}.

(** A wall is painted on cell (1, 2) and the wave is started; agent 0 is
    then put at (19.5, 50), half a pixel left of the wall, with a binary32
    velocity for which the next position is within half a binary32 step
    below the grid line 20. *)
Definition demoWalledIn : Canvas.state :=
  Eval vm_compute in
    default nowhere (demo [Canvas.PointerEdit 30 50; Canvas.StartWave 0]).

Definition demoNearWall : Canvas.state :=
  Eval vm_compute in
    Canvas.withSim demoWalledIn (Canvas.gm demoWalledIn)
      (Canvas.commit (Canvas.ag demoWalledIn) 0 (19.5, 50)%Q
         (4877095 # 8388608, 0)%Q)
      (Canvas.randomCalls demoWalledIn) (Canvas.lastFrameAt demoWalledIn)
      (Canvas.lastPerfAt demoWalledIn) (Canvas.perf demoWalledIn).

Definition demoNearWall1 : Canvas.state :=
  Eval vm_compute in
    default nowhere (Canvas.tick demoRandom demoSqrt demoNearWall 16).

Definition demoNearWall2 : Canvas.state :=
  Eval vm_compute in
    default nowhere (Canvas.tick demoRandom demoSqrt demoNearWall1 32).

Definition demoNearWall3 : Canvas.state :=
  Eval vm_compute in
    default nowhere (Canvas.tick demoRandom demoSqrt demoNearWall2 48).


(** ** Typed-array lemmas *)

Section Arrays.
Context {A : Type}.
Implicit Types (a : list A) (i j : Z) (v : A).

Lemma aget_Some a i v :
  aget a i = Some v <-> 0 <= i /\ a !! Z.to_nat i = Some v.
Proof.
  unfold aget. destruct (Z.ltb_spec i 0); [|tauto].
  split; [done|]. intros [? _]. lia.
Qed.

Lemma aget_lt_length a i v : aget a i = Some v -> 0 <= i < Z.of_nat (length a).
Proof.
  intros [Hi Hl]%aget_Some. apply lookup_lt_Some in Hl. lia.
Qed.

Lemma aget_is_Some a i : 0 <= i < Z.of_nat (length a) -> is_Some (aget a i).
Proof.
  intros Hi. unfold aget. destruct (Z.ltb_spec i 0); [lia|].
  apply lookup_lt_is_Some. lia.
Qed.

Lemma length_aset a i v : length (aset a i v) = length a.
Proof. unfold aset. destruct (i <? 0); [done|]. apply length_insert. Qed.

Lemma aget_aset_eq a i v :
  0 <= i < Z.of_nat (length a) -> aget (aset a i v) i = Some v.
Proof.
  intros Hi. unfold aget, aset. destruct (Z.ltb_spec i 0); [lia|].
  apply list_lookup_insert_eq. lia.
Qed.

Lemma aget_aset_ne a i j v : i <> j -> aget (aset a i v) j = aget a j.
Proof.
  intros Hne. unfold aget, aset.
  destruct (Z.ltb_spec j 0); [done|]. destruct (Z.ltb_spec i 0); [done|].
  apply list_lookup_insert_ne. lia.
Qed.

Lemma length_afill a v : length (afill a v) = length a.
Proof. apply length_replicate. Qed.

Lemma aget_afill a i v :
  0 <= i < Z.of_nat (length a) -> aget (afill a v) i = Some v.
Proof.
  intros Hi. unfold aget, afill. destruct (Z.ltb_spec i 0); [lia|].
  apply lookup_replicate_2. lia.
Qed.

Lemma aget_afill_inv a i v w : aget (afill a v) i = Some w -> w = v.
Proof.
  intros [_ H]%aget_Some. unfold afill in H.
  by apply lookup_replicate in H as [-> _].
Qed.
End Arrays.

Lemma toInt32_small v : -2147483648 <= v < 2147483648 -> toInt32 v = v.
Proof. intros Hv. unfold toInt32. rewrite Z.mod_small by lia. lia. Qed.

Lemma land_u16_small v : 0 <= v <= 65535 -> Z.land v 65535 = v.
Proof.
  intros Hv. change 65535 with (Z.ones 16). rewrite Z.land_ones by lia.
  apply Z.mod_small. change (2 ^ 16) with 65536. lia.
Qed.

(** ** Cells and their indices *)

Section Coordinates.
Import FlowField.
Variable ff : t.
Hypothesis Hwf : wf ff.

Lemma inBounds_spec x y :
  inBounds ff x y = true <-> 0 <= x < width ff /\ 0 <= y < height ff.
Proof. unfold inBounds. lia. Qed.

Lemma idx_range x y :
  inBounds ff x y = true -> 0 <= idx ff x y < width ff * height ff.
Proof. intros [Hx Hy]%inBounds_spec. unfold idx. nia. Qed.

Lemma idx_col x y :
  inBounds ff x y = true -> Z.rem (idx ff x y) (width ff) = x.
Proof.
  intros [Hx Hy]%inBounds_spec. unfold idx.
  rewrite Z.rem_mod_nonneg by nia.
  rewrite Z.add_comm, Z.mod_add by lia. apply Z.mod_small. lia.
Qed.

Lemma idx_row x y :
  inBounds ff x y = true -> toInt32 (Z.quot (idx ff x y) (width ff)) = y.
Proof.
  intros [Hx Hy]%inBounds_spec. unfold idx.
  rewrite Z.quot_div_nonneg by nia.
  rewrite Z.add_comm, Z.div_add by lia. rewrite Z.div_small by lia.
  pose proof (wf_cells ff Hwf). apply toInt32_small. nia.
Qed.

Lemma idx_inj x y x' y' :
  inBounds ff x y = true -> inBounds ff x' y' = true ->
  idx ff x y = idx ff x' y' -> x = x' /\ y = y'.
Proof.
  intros H1 H2 Heq.
  pose proof (idx_col _ _ H1) as C1. pose proof (idx_col _ _ H2) as C2.
  pose proof (idx_row _ _ H1) as R1. pose proof (idx_row _ _ H2) as R2.
  rewrite Heq in C1, R1. split; congruence.
Qed.

Lemma cell_coords c :
  0 <= c < width ff * height ff ->
  let x := Z.rem c (width ff) in
  let y := toInt32 (Z.quot c (width ff)) in
  inBounds ff x y = true /\ idx ff x y = c.
Proof.
  intros Hc x y. subst x y.
  pose proof (wf_width ff Hwf). pose proof (wf_cells ff Hwf).
  assert (0 < width ff).
  { destruct (Z.eq_dec (width ff) 0) as [E|]; [rewrite E in Hc|]; lia. }
  rewrite Z.rem_mod_nonneg, Z.quot_div_nonneg by lia.
  pose proof (Z.mod_pos_bound c (width ff) ltac:(lia)).
  pose proof (Z.div_mod c (width ff) ltac:(lia)).
  assert (0 <= c / width ff < height ff).
  { split; [apply Z.div_pos; lia|]. apply Z.div_lt_upper_bound; lia. }
  rewrite toInt32_small by nia.
  split; [apply inBounds_spec; lia | unfold idx; lia].
Qed.
End Coordinates.

(** ** The flood fill of [generate] *)

Section FloodFill.
Import FlowField.
Variable ff : t.
Hypothesis Hwf : wf ff.

(** The index of the target cell. *)
Variable s : Z.

Local Abbreviation adjacent := (adjacent ff).
Local Abbreviation bfs_inv := (bfs_inv ff s).
Local Abbreviation visiting := (visiting ff s).
Local Abbreviation neighbour_reached := (neighbour_reached ff).
Local Abbreviation done_inv := (done_inv ff).

Lemma N4_opposite d : d ∈ N4 -> (- d.1, - d.2) ∈ N4.
Proof.
  unfold N4. rewrite !elem_of_cons, elem_of_nil.
  intros [->|[->|[->|[->|[]]]]]; simpl; auto 6.
Qed.

Lemma adjacent_sym x y d :
  d ∈ N4 -> inBounds ff x y = true ->
  inBounds ff (x + d.1) (y + d.2) = true ->
  adjacent (idx ff (x + d.1) (y + d.2)) (idx ff x y).
Proof.
  intros Hd Hin Hnb.
  exists (x + d.1), (y + d.2), (- d.1, - d.2). simpl.
  replace (x + d.1 + - d.1) with x by lia.
  replace (y + d.2 + - d.2) with y by lia.
  auto using N4_opposite.
Qed.

Lemma queue_bound (l : list Z) c :
  NoDup l -> c ∉ l -> (forall x, x ∈ l -> 0 <= x < cells ff) ->
  0 <= c < cells ff -> (length l < Z.to_nat (cells ff))%nat.
Proof.
  intros Hnd Hc Hl Hcr.
  assert (Hsub : (c :: l) ⊆+ seqZ 0 (cells ff)).
  { apply NoDup_submseteq; [by constructor|].
    intros x [->|Hx]%elem_of_cons; apply elem_of_seqZ; [lia|].
    specialize (Hl x Hx). lia. }
  apply submseteq_length in Hsub. rewrite length_seqZ in Hsub.
  simpl in Hsub. lia.
Qed.

Lemma keeps_refl st : keeps st st.
Proof. by split. Qed.

Lemma keeps_trans st1 st2 st3 : keeps st1 st2 -> keeps st2 st3 -> keeps st1 st3.
Proof. intros [A1 B1] [A2 B2]. split; eauto. Qed.

Lemma relax_visiting cur D head cx cy d st :
  visiting cur D head st ->
  inBounds ff cx cy = true -> idx ff cx cy = cur -> d ∈ N4 ->
  visiting cur D head (relax ff (D + 1) cx cy st d) /\
  keeps st (relax ff (D + 1) cx cy st d).
Proof.
  destruct st as [[integ q] tail]. intros (I & Hcur & HD) Hin Hidx Hd.
  unfold relax.
  destruct (inBounds ff (cx + d.1) (cy + d.2)) eqn:Hnb; simpl;
    [|by auto using keeps_refl].
  change ((cy + d.2) * width ff + (cx + d.1))
    with (idx ff (cx + d.1) (cy + d.2)).
  set (ni := idx ff (cx + d.1) (cy + d.2)) in *.
  destruct (is255 (aget (cost ff) ni)) eqn:Hw; [by auto using keeps_refl|].
  destruct (aget integ ni) as [w|] eqn:Hni; simpl; [|by auto using keeps_refl].
  destruct (Z.ltb_spec (D + 1) w) as [Hlt|]; [|by auto using keeps_refl].
  destruct I as [Li Lq Hh Ht Hrange Hqd Hnd Hreach Hsort Hlev Hst Hpar].
  assert (w = INF) as ->.
  { destruct (decide (w = INF)) as [|Hne]; [done|]. exfalso.
    apply (Hreach _ _ Hni) in Hne. apply list_elem_of_lookup in Hne as [j Hj].
    pose proof (Hlev j head ni cur _ _ (le_n _) Hj Hcur Hni HD). lia. }
  assert (Hfresh : ni ∉ take tail q).
  { intros [j Hj]%list_elem_of_lookup.
    destruct (Hqd j ni Hj) as (_ & _ & v & Hv & Hvlt & _).
    rewrite Hni in Hv. injection Hv as <-. lia. }
  pose proof (Hrange _ _ HD) as HDr.
  destruct (Hqd _ _ Hcur) as (Hcr & _ & D' & HD' & _ & HDk).
  rewrite HD in HD'. injection HD' as <-.
  assert (Hnir : 0 <= ni < cells ff) by (by apply idx_range).
  assert (Hhead : (head < tail)%nat).
  { apply lookup_lt_Some in Hcur. rewrite length_take in Hcur. lia. }
  assert (Htl : (tail < Z.to_nat (cells ff))%nat).
  { rewrite <- (length_take_le q tail) at 1 by lia.
    apply (queue_bound _ ni); auto.
    intros x [j Hj]%list_elem_of_lookup. by destruct (Hqd j x Hj). }
  assert (Hne : ni <> cur).
  { intros ->. rewrite HD in Hni. injection Hni as ->. lia. }
  assert (Htake : take (S tail) (<[tail := ni]> q) = take tail q ++ [ni]).
  { rewrite (take_S_r _ _ ni) by (apply list_lookup_insert_eq; lia).
    by rewrite take_insert_ge. }
  assert (Hlen : length (take tail q) = tail) by (apply length_take_le; lia).
  assert (Hold : forall c v, aget integ c = Some v -> v <> INF ->
                   aget (aset integ ni (D + 1)) c = Some v).
  { intros c v Hc Hv. rewrite aget_aset_ne; [done|].
    intros <-. rewrite Hni in Hc. by injection Hc as <-. }
  assert (Hnew : aget (aset integ ni (D + 1)) ni = Some (D + 1)).
  { apply aget_aset_eq. unfold cells in *. lia. }
  assert (Hlook : forall k c, (take tail q ++ [ni]) !! k = Some c ->
            (take tail q !! k = Some c /\ c <> ni /\
             aget (aset integ ni (D + 1)) c = aget integ c) \/
            (k = tail /\ c = ni)).
  { intros k c [Hk|[Hk ->]]%lookup_snoc_Some; [left|right].
    - destruct Hk as [_ Hk]. split; [done|].
      assert (c <> ni).
      { intros ->. apply Hfresh. by eapply list_elem_of_lookup_2. }
      split; [done|]. by apply aget_aset_ne.
    - split; [lia|done]. }
  split.
  2:{ split; [exact Hold|]. simpl. rewrite Htake. intros k c Hk.
      by apply lookup_app_l_Some. }
  split; [|split].
  2:{ rewrite Htake. apply lookup_app_l_Some. exact Hcur. }
  2:{ apply Hold; [done|lia]. }
  split.
  - by rewrite length_aset.
  - by rewrite length_insert.
  - lia.
  - lia.
  - intros c v Hc. destruct (decide (c = ni)) as [->|Hc'].
    + rewrite Hnew in Hc. injection Hc as <-. lia.
    + rewrite aget_aset_ne in Hc by done. eauto.
  - rewrite Htake. intros k c Hk.
    destruct (Hlook k c Hk) as [(Hk' & _ & Heq)|[-> ->]].
    + rewrite Heq. eauto.
    + split; [done|]. split; [done|]. exists (D + 1).
      split; [done|]. lia.
  - rewrite Htake. apply NoDup_app. split; [done|]. split.
    + intros x Hx ->%list_elem_of_singleton. done.
    + apply NoDup_singleton.
  - rewrite Htake. intros c v Hc Hv.
    destruct (decide (c = ni)) as [->|Hc'].
    + apply elem_of_app. right. by apply list_elem_of_singleton.
    + rewrite aget_aset_ne in Hc by done.
      apply elem_of_app. left. eauto.
  - rewrite Htake. intros j k cj ck vj vk Hjk Hj Hk Hvj Hvk.
    destruct (Hlook k ck Hk) as [(Hk' & _ & Hek)|[-> ->]];
      destruct (Hlook j cj Hj) as [(Hj' & _ & Hej)|[-> ->]].
    + rewrite Hej in Hvj. rewrite Hek in Hvk. eauto.
    + apply lookup_lt_Some in Hk'. lia.
    + rewrite Hej in Hvj. rewrite Hnew in Hvk. injection Hvk as <-.
      pose proof (Hlev j head cj cur _ _ (le_n _) Hj' Hcur Hvj HD). lia.
    + rewrite Hvj in Hvk. injection Hvk as <-. lia.
  - rewrite Htake. intros j k cj ck vj vk Hhk Hj Hk Hvj Hvk.
    destruct (Hlook k ck Hk) as [(Hk' & _ & Hek)|[-> ->]];
      destruct (Hlook j cj Hj) as [(Hj' & _ & Hej)|[-> ->]].
    + rewrite Hej in Hvj. rewrite Hek in Hvk. eauto.
    + rewrite Hnew in Hvj. injection Hvj as <-. rewrite Hek in Hvk.
      pose proof (Hsort head k cur ck _ _ Hhk Hcur Hk' HD Hvk). lia.
    + rewrite Hej in Hvj. rewrite Hnew in Hvk. injection Hvk as <-.
      pose proof (Hlev j head cj cur _ _ (le_n _) Hj' Hcur Hvj HD). lia.
    + rewrite Hvj in Hvk. injection Hvk as <-. lia.
  - apply Hold; [done|]. unfold INF. lia.
  - intros c v Hc Hv Hcs. destruct (decide (c = ni)) as [->|Hc'].
    + rewrite Hnew in Hc. injection Hc as <-. split; [lia|].
      exists cur. split.
      * subst cur. subst ni. by apply adjacent_sym.
      * replace (D + 1 - 1) with D by lia. apply Hold; [done|lia].
    + rewrite aget_aset_ne in Hc by done.
      destruct (Hpar c v Hc Hv Hcs) as [Hv1 (p & Hadj & Hp)].
      split; [done|]. exists p. split; [done|].
      apply Hold; [done|]. pose proof (Hrange _ _ Hc). lia.
Qed.

(** After [relax] the neighbour in direction [d] has a finite distance,
    unless the 16-bit distance saturates. *)
Lemma relax_reaches cur D head cx cy d st :
  visiting cur D head st ->
  inBounds ff cx cy = true -> idx ff cx cy = cur -> D + 1 < INF ->
  inBounds ff (cx + d.1) (cy + d.2) = true ->
  is255 (aget (cost ff) (idx ff (cx + d.1) (cy + d.2))) = false ->
  exists v, aget (relax ff (D + 1) cx cy st d).1.1
              (idx ff (cx + d.1) (cy + d.2)) = Some v /\ v <> INF.
Proof.
  destruct st as [[integ q] tail]. intros (I & Hcur & HD) Hin Hidx HDs Hnb Hw.
  unfold relax. rewrite Hnb. simpl.
  change ((cy + d.2) * width ff + (cx + d.1))
    with (idx ff (cx + d.1) (cy + d.2)).
  set (ni := idx ff (cx + d.1) (cy + d.2)) in *. rewrite Hw.
  assert (Hnir : 0 <= ni < cells ff) by (by apply idx_range).
  destruct (aget_is_Some integ ni) as [w Hni].
  { rewrite (bi_integ _ _ _ _ _ _ I). lia. }
  rewrite Hni. simpl. destruct (Z.ltb_spec (D + 1) w); simpl.
  - exists (D + 1). split; [|lia]. apply aget_aset_eq.
    rewrite (bi_integ _ _ _ _ _ _ I). lia.
  - exists w. split; [done|lia].
Qed.

Lemma relax_all cur D head cx cy l : forall st,
  visiting cur D head st ->
  inBounds ff cx cy = true -> idx ff cx cy = cur ->
  (forall d, d ∈ l -> d ∈ N4) ->
  let st' := fold_left (relax ff (D + 1) cx cy) l st in
  visiting cur D head st' /\ keeps st st' /\
  (D + 1 < INF -> forall d, d ∈ l -> neighbour_reached st'.1.1 cx cy d).
Proof.
  induction l as [|d l IH]; intros st V Hin Hidx Hl; simpl.
  - split; [done|]. split; [apply keeps_refl|]. intros _ d Hd.
    by apply elem_of_nil in Hd.
  - destruct (relax_visiting cur D head cx cy d st V Hin Hidx) as [V1 K1].
    { apply Hl. by left. }
    destruct (IH _ V1 Hin Hidx) as (V2 & K2 & R2).
    { intros d' Hd'. apply Hl. by right. }
    split; [done|]. split; [by eapply keeps_trans|].
    intros HDs d' [->|Hd']%elem_of_cons; [|by apply R2].
    intros Hnb Hw.
    destruct (relax_reaches cur D head cx cy d st V Hin Hidx HDs Hnb Hw)
      as (v & Hv & Hfin).
    exists v. split; [|done]. by apply K2.
Qed.

Lemma visit_inv integ q head tail :
  bfs_inv integ q head tail -> (head < tail)%nat ->
  let st' := visit ff integ q head tail in
  bfs_inv st'.1.1 st'.1.2 (S head) st'.2 /\
  (cells ff < INF -> done_inv integ q head tail ->
   done_inv st'.1.1 st'.1.2 (S head) st'.2).
Proof.
  intros I Hlt. unfold visit.
  assert (Hq : exists cur, take tail q !! head = Some cur).
  { apply lookup_lt_is_Some. rewrite length_take, (bi_queue _ _ _ _ _ _ I).
    pose proof (bi_tail _ _ _ _ _ _ I). lia. }
  destruct Hq as [cur Hcur].
  assert (Hq : q !! head = Some cur) by (by rewrite lookup_take_lt in Hcur).
  rewrite Hq.
  destruct (bi_queued _ _ _ _ _ _ I _ _ Hcur) as (Hcr & _ & D & HD & HDlt & HDk).
  rewrite HD. pose proof (bi_range _ _ _ _ _ _ I _ _ HD) as HDr.
  rewrite land_u16_small by (unfold INF in *; lia).
  destruct (cell_coords ff Hwf cur Hcr) as [Hin Hidx].
  set (cx := Z.rem cur (width ff)) in *.
  set (cy := toInt32 (Z.quot cur (width ff))) in *.
  destruct (relax_all cur D head cx cy N4 (integ, q, tail)) as (V & K & R);
    [done|done|done|done|].
  set (st' := fold_left (relax ff (D + 1) cx cy) N4 (integ, q, tail)) in *.
  destruct st' as [[integ' q'] tail']. simpl in *.
  destruct V as (I' & Hcur' & HD'). destruct K as [Kv Kq]. simpl in Kv, Kq.
  split.
  - destruct I' as [Li Lq Hh Ht Hrange Hqd Hnd Hreach Hsort Hlev Hst Hpar].
    split; try done.
    + apply lookup_lt_Some in Hcur'. rewrite length_take in Hcur'. lia.
    + intros j k cj ck vj vk Hk. apply Hlev. lia.
  - intros Hsmall Hdone k c p Hk Hc Hadj Hw.
    assert (HDs : D + 1 < INF).
    { pose proof (bi_tail _ _ _ _ _ _ I). unfold cells in *. lia. }
    destruct (decide (k = head)) as [->|Hne].
    + rewrite Hcur' in Hc. injection Hc as <-.
      destruct Hadj as (x & y & d & Hd & Hxy & Hxyc & Hnb & Hp).
      destruct (idx_inj ff Hwf x y cx cy) as [-> ->]; [done|done|congruence|].
      subst p. by apply (R HDs d Hd).
    + assert (Hk' : (k < head)%nat) by lia.
      assert (Hq' : exists c', take tail q !! k = Some c').
      { apply lookup_lt_is_Some. rewrite length_take, (bi_queue _ _ _ _ _ _ I).
        pose proof (bi_tail _ _ _ _ _ _ I). lia. }
      destruct Hq' as [c' Hc']. pose proof (Kq _ _ Hc') as Hc''.
      rewrite Hc in Hc''. injection Hc'' as <-.
      destruct (Hdone k c p Hk' Hc' Hadj Hw) as (v & Hv & Hfin).
      exists v. split; [|done]. by apply Kv.
Qed.

(** The loop terminates within [cells - head] further iterations. *)
Lemma bfs_terminates fuel : forall integ q head tail,
  bfs_inv integ q head tail ->
  (Z.to_nat (cells ff) - head <= fuel)%nat ->
  exists integ' q' tail',
    bfs fuel ff integ q head tail = Some (integ', q') /\
    bfs_inv integ' q' tail' tail' /\
    (cells ff < INF -> done_inv integ q head tail ->
     done_inv integ' q' tail' tail').
Proof.
  induction fuel as [|fuel IH]; intros integ q head tail I Hfuel; simpl.
  - pose proof (bi_head _ _ _ _ _ _ I). pose proof (bi_tail _ _ _ _ _ _ I).
    destruct (Nat.ltb_spec head tail); [lia|].
    assert (head = tail) as -> by lia. eauto 10.
  - pose proof (bi_head _ _ _ _ _ _ I).
    destruct (Nat.ltb_spec head tail) as [Hlt|].
    + destruct (visit_inv integ q head tail I Hlt) as [I' Hd'].
      destruct (visit ff integ q head tail) as [[integ1 q1] tail1].
      simpl in *.
      destruct (IH integ1 q1 (S head) tail1 I') as (i2 & q2 & t2 & E & I2 & D2);
        [lia|].
      exists i2, q2, t2. split; [done|]. split; [done|]. auto.
    + assert (head = tail) as -> by lia. eauto 10.
Qed.
End FloodFill.

(** ** What [generate] computes *)

Section Generate.
Import FlowField.
Variable ff : t.
Hypothesis Hwf : wf ff.

Local Abbreviation flooded := (flooded ff).

Lemma bfs_init tx ty :
  inBounds ff tx ty = true -> isWall ff tx ty = false ->
  bfs_inv ff (idx ff tx ty)
    (aset (afill (integration ff) INF) (idx ff tx ty) 0)
    (<[0%nat := idx ff tx ty]> (queue ff)) 0 1.
Proof.
  intros Hin Hw. set (s := idx ff tx ty).
  pose proof (idx_range ff tx ty Hin) as Hs. fold s in Hs.
  destruct Hwf as [W H C Lc Li Ld Lq]. fold (cells ff) in *.
  assert (Hs0 : aget (aset (afill (integration ff) INF) s 0) s = Some 0).
  { apply aget_aset_eq. rewrite length_afill. lia. }
  assert (Hfill : forall c v,
    aget (aset (afill (integration ff) INF) s 0) c = Some v ->
    (c = s /\ v = 0) \/ (c <> s /\ v = INF)).
  { intros c v Hc. destruct (decide (c = s)) as [->|Hne].
    - rewrite Hs0 in Hc. injection Hc as <-. by left.
    - rewrite aget_aset_ne in Hc by done. right.
      split; [done|]. by eapply aget_afill_inv. }
  assert (Htake : take 1 (<[0%nat := s]> (queue ff)) = [s]).
  { destruct (queue ff) as [|z l] eqn:E; [|done].
    simpl in Lq. unfold cells in *. lia. }
  split.
  - by rewrite length_aset, length_afill.
  - by rewrite length_insert.
  - lia.
  - unfold cells in *. lia.
  - intros c v [[-> ->]|[_ ->]]%Hfill; unfold INF; lia.
  - rewrite Htake. intros k c Hk. destruct k as [|k]; [|done].
    injection Hk as <-. split; [done|]. split; [exact Hw|].
    exists 0. split; [done|]. unfold INF. lia.
  - rewrite Htake. apply NoDup_singleton.
  - rewrite Htake. intros c v [[-> ->]|[_ ->]]%Hfill Hv; [|done].
    by apply list_elem_of_singleton.
  - rewrite Htake. intros [|j] [|k] cj ck vj vk _ Hj Hk Hvj Hvk; try done.
    injection Hj as <-. injection Hk as <-.
    rewrite Hvj in Hvk. injection Hvk as <-. lia.
  - rewrite Htake. intros [|j] [|k] cj ck vj vk _ Hj Hk Hvj Hvk; try done.
    injection Hj as <-. injection Hk as <-.
    rewrite Hvj in Hvk. injection Hvk as <-. lia.
  - done.
  - intros c v [[-> ->]|[_ ->]]%Hfill Hv Hc; done.
Qed.

Lemma bfs_flooded tx ty :
  inBounds ff tx ty = true -> isWall ff tx ty = false ->
  exists integ q,
    bfs (Z.to_nat (cells ff)) ff
      (aset (afill (integration ff) INF) (idx ff tx ty) 0)
      (<[0%nat := idx ff tx ty]> (queue ff)) 0 1 = Some (integ, q) /\
    flooded (idx ff tx ty) integ /\ length q = Z.to_nat (cells ff).
Proof.
  intros Hin Hw. pose proof (bfs_init tx ty Hin Hw) as I0.
  destruct (bfs_terminates ff Hwf _ (Z.to_nat (cells ff)) _ _ _ _ I0)
    as (integ & q & tail & E & I & Hdone); [lia|].
  exists integ, q. split; [done|].
  destruct I as [Li Lq Hh Ht Hrange Hqd Hnd Hreach Hsort Hlev Hst Hpar].
  split; [|done]. split; try done.
  - intros c v Hc Hv. apply (Hreach _ _ Hc) in Hv.
    apply list_elem_of_lookup in Hv as [k Hk]. by destruct (Hqd k c Hk) as (_ & ? & _).
  - intros Hsmall c v p Hc Hv Hadj Hp.
    apply (Hreach _ _ Hc) in Hv. apply list_elem_of_lookup in Hv as [k Hk].
    apply (Hdone Hsmall) with (k := k) (c := c); try done.
    + intros k' ? ? Hk'. lia.
    + apply lookup_lt_Some in Hk. rewrite length_take in Hk. lia.
Qed.
End Generate.

(** ** The two neighbour tables *)

Lemma N8dirs_lookup dir dx dy :
  (dir, (dx, dy)) ∈ FlowField.N8dirs ->
  0 <= dir < 8 /\ FlowField.N8 !! Z.to_nat dir = Some (dx, dy).
Proof.
  unfold FlowField.N8dirs. simpl. rewrite !elem_of_cons, elem_of_nil.
  intros H. repeat (destruct H as [[= -> -> ->]|H]; [split; [lia|done]|]).
  done.
Qed.

Lemma N4_in_N8dirs d :
  d ∈ FlowField.N4 -> exists dir, (dir, (d.1, d.2)) ∈ FlowField.N8dirs /\ (d.1 = 0 \/ d.2 = 0).
Proof.
  unfold FlowField.N4. rewrite !elem_of_cons, elem_of_nil.
  intros [->|[->|[->|[->|[]]]]]; simpl;
    [exists 0|exists 4|exists 2|exists 6]; (split; [|lia]);
    unfold FlowField.N8dirs; simpl; rewrite !elem_of_cons; auto 10.
Qed.

(** ** The direction pass of [generate] *)

Section Directions.
Import FlowField.
Variable ff : t.
Variable integ : list Z.

Local Abbreviation directionOf := (directionOf ff integ).
Local Abbreviation eligible := (eligible ff).

Lemma scanDir_skip x y acc dir dx dy :
  ~ eligible x y dx dy -> scanDir ff integ x y acc (dir, (dx, dy)) = acc.
Proof.
  intros Hne. destruct acc as [best bestDir]. unfold scanDir, eligible in *.
  destruct (inBounds ff (x + dx) (y + dy)); [|done].
  destruct (canUseDiagonal ff x y dx dy); [|done]. tauto.
Qed.

Lemma scan_fold x y l : forall best bestDir,
  let r := fold_left (scanDir ff integ x y) l (best, bestDir) in
  r.1 <= best /\
  (r = (best, bestDir) \/
   (r.1 < best /\ exists dx dy, (r.2, (dx, dy)) ∈ l /\ eligible x y dx dy /\
      aget integ (idx ff (x + dx) (y + dy)) = Some r.1)) /\
  (forall dir dx dy nd, (dir, (dx, dy)) ∈ l -> eligible x y dx dy ->
     aget integ (idx ff (x + dx) (y + dy)) = Some nd -> r.1 <= nd).
Proof.
  induction l as [|[dir [dx dy]] l IH]; intros best bestDir; cbn [fold_left].
  - simpl. split; [lia|]. split; [by left|]. intros ? ? ? ? Hel.
    by apply elem_of_nil in Hel.
  - set (a := scanDir ff integ x y (best, bestDir) (dir, (dx, dy))).
    assert (Ha : a = (best, bestDir) /\
                 (forall nd, eligible x y dx dy ->
                    aget integ (idx ff (x + dx) (y + dy)) = Some nd ->
                    best <= nd) \/
                 (exists nd, a = (nd, dir) /\ nd < best /\
                    eligible x y dx dy /\
                    aget integ (idx ff (x + dx) (y + dy)) = Some nd)).
    { subst a. unfold scanDir, eligible.
      change ((y + dy) * width ff + (x + dx)) with (idx ff (x + dx) (y + dy)).
      destruct (inBounds ff (x + dx) (y + dy)); simpl;
        [|left; split; [done|]; by intros ? [? ?]].
      destruct (canUseDiagonal ff x y dx dy); simpl;
        [|left; split; [done|]; by intros ? [? ?]].
      destruct (aget integ (idx ff (x + dx) (y + dy))) as [nd|];
        [|left; split; [done|]; by intros ? [? ?]].
      destruct (Z.ltb_spec nd best).
      - right. exists nd. auto.
      - left. split; [done|]. intros nd' _ [= <-]. done. }
    destruct a as [b bd]. specialize (IH b bd). simpl in IH.
    destruct IH as (IH1 & IH2 & IH3).
    set (r := fold_left (scanDir ff integ x y) l (b, bd)) in *.
    destruct Ha as [[[= -> ->] Hlow]|(nd & [= -> ->] & Hlt & Hel & Hnd)].
    + split; [exact IH1|]. split.
      * destruct IH2 as [->|(Hr & ex & ey & Hin & He & Hv)]; [by left|].
        right. split; [done|]. exists ex, ey. split; [by right|]. done.
      * intros dir' dx' dy' nd' [[= -> -> ->]|Hin]%elem_of_cons He Hv.
        -- specialize (Hlow _ He Hv). lia.
        -- eauto.
    + split; [lia|]. split.
      * right. destruct IH2 as [->|(Hr & ex & ey & Hin & He & Hv)]; simpl.
        -- split; [done|]. exists dx, dy. split; [by left|]. done.
        -- split; [lia|]. exists ex, ey. split; [by right|]. done.
      * intros dir' dx' dy' nd' [[= -> -> ->]|Hin]%elem_of_cons He Hv.
        -- rewrite Hnd in Hv. injection Hv as <-. done.
        -- eauto.
Qed.

Lemma assign_fold l :
  (forall i, i ∈ l -> 0 <= i < cells ff) ->
  let r := fold_left (assignDirection ff integ) l
             (replicate (Z.to_nat (cells ff)) FLOW_DIR_NONE) in
  length r = Z.to_nat (cells ff) /\
  forall j, 0 <= j < cells ff ->
    aget r j = Some (if decide (j ∈ l) then directionOf j else FLOW_DIR_NONE).
Proof.
  induction l as [|i l IH] using rev_ind; intros Hl; cbn zeta.
  - cbn [fold_left]. split; [apply length_replicate|]. intros j Hj.
    rewrite decide_False by apply not_elem_of_nil.
    unfold aget. destruct (Z.ltb_spec j 0); [lia|].
    apply lookup_replicate_2. lia.
  - rewrite fold_left_app. cbn [fold_left].
    destruct IH as [Hlen Hget].
    { intros j Hj. apply Hl. apply elem_of_app. by left. }
    set (r := fold_left (assignDirection ff integ) l
                (replicate (Z.to_nat (cells ff)) FLOW_DIR_NONE)) in *.
    assert (Hi : 0 <= i < cells ff).
    { apply Hl. apply elem_of_app. right. by apply list_elem_of_singleton. }
    assert (Hsame : forall j, 0 <= j < cells ff -> j <> i ->
      (if decide (j ∈ l ++ [i]) then directionOf j else FLOW_DIR_NONE) =
      (if decide (j ∈ l) then directionOf j else FLOW_DIR_NONE)).
    { intros j Hj Hne. destruct (decide (j ∈ l)) as [Hin|Hnin].
      - rewrite decide_True; [done|]. apply elem_of_app. by left.
      - rewrite decide_False; [done|].
        intros [?|?%list_elem_of_singleton]%elem_of_app; done. }
    assert (Hmem : i ∈ l ++ [i]).
    { apply elem_of_app. right. by apply list_elem_of_singleton. }
    assert (Hkeep : directionOf i = FLOW_DIR_NONE ->
      length r = Z.to_nat (cells ff) /\
      forall j, 0 <= j < cells ff ->
        aget r j = Some (if decide (j ∈ l ++ [i]) then directionOf j
                         else FLOW_DIR_NONE)).
    { intros Hnone. split; [done|]. intros j Hj.
      destruct (decide (j = i)) as [->|Hne].
      - rewrite Hget by done. destruct (decide (i ∈ l ++ [i])); [|done].
        rewrite Hnone. by destruct (decide (i ∈ l)).
      - rewrite Hsame by done. by apply Hget. }
    assert (Hset : forall v, directionOf i = v ->
      length (aset r i v) = Z.to_nat (cells ff) /\
      forall j, 0 <= j < cells ff ->
        aget (aset r i v) j =
          Some (if decide (j ∈ l ++ [i]) then directionOf j
                else FLOW_DIR_NONE)).
    { intros v Hv. split; [by rewrite length_aset|]. intros j Hj.
      destruct (decide (j = i)) as [->|Hne].
      - rewrite aget_aset_eq by lia.
        destruct (decide (i ∈ l ++ [i])); [by rewrite Hv|done].
      - rewrite aget_aset_ne by done. rewrite Hsame by done. by apply Hget. }
    unfold assignDirection. unfold directionOf in Hkeep, Hset.
    destruct (is255 (aget (cost ff) i)); [by apply Hkeep|].
    destruct (aget integ i) as [d|]; [|by apply Hset].
    destruct ((d =? INF) || (d =? 0)); [by apply Hkeep|by apply Hset].
Qed.

End Directions.

(** ** [generate]: totality and frame *)

Section GenerateSpec.
Import FlowField.
Variable ff : t.
Hypothesis Hwf : wf ff.

Local Abbreviation generated := (generated ff).
Local Abbreviation blank := (blank ff).

Lemma generate_invalid tx ty :
  inBounds ff tx ty = false \/ isWall ff tx ty = true ->
  generate ff tx ty = Some (blank tx ty).
Proof.
  intros Hbad. unfold generate, blank, afill.
  rewrite (wf_integration ff Hwf), (wf_direction ff Hwf). fold (cells ff).
  destruct (inBounds ff tx ty); simpl; [|done].
  destruct Hbad as [? | ->]; done.
Qed.

Lemma generate_valid tx ty :
  inBounds ff tx ty = true -> isWall ff tx ty = false ->
  exists integ q,
    generate ff tx ty = Some (generated tx ty integ q) /\
    flooded ff (idx ff tx ty) integ /\ length q = Z.to_nat (cells ff).
Proof.
  intros Hin Hw.
  destruct (bfs_flooded ff Hwf tx ty Hin Hw) as (integ & q & E & F & Lq).
  exists integ, q. split; [|done].
  unfold generate, generated. rewrite Hin, Hw. simpl.
  fold (cells ff). rewrite E. unfold afill.
  by rewrite (wf_direction ff Hwf).
Qed.

Lemma wf_generated tx ty integ q :
  length integ = Z.to_nat (cells ff) -> length q = Z.to_nat (cells ff) ->
  wf (generated tx ty integ q).
Proof.
  intros Li Lq. destruct Hwf as [W H C Lc _ _ _].
  destruct (assign_fold ff integ (seqZ 0 (cells ff))) as [Ld _].
  { intros i Hi%elem_of_seqZ. lia. }
  by split.
Qed.

Lemma wf_blank tx ty : wf (blank tx ty).
Proof.
  destruct Hwf as [W H C Lc _ _ Lq].
  split; simpl; try done; apply length_replicate.
Qed.

(** [generate] always returns; it keeps the grid and its costs and records
    the target. *)
Lemma generate_total tx ty :
  exists ff', generate ff tx ty = Some ff' /\ wf ff' /\
    width ff' = width ff /\ height ff' = height ff /\ cost ff' = cost ff /\
    targetX ff' = tx /\ targetY ff' = ty.
Proof.
  destruct (inBounds ff tx ty) eqn:Hin.
  - destruct (isWall ff tx ty) eqn:Hw.
    + exists (blank tx ty). rewrite generate_invalid by auto.
      split; [done|]. split; [apply wf_blank|done].
    + destruct (generate_valid tx ty Hin Hw) as (integ & q & E & F & Lq).
      exists (generated tx ty integ q). split; [done|].
      split; [|done]. apply wf_generated; [apply F|done].
  - exists (blank tx ty). rewrite generate_invalid by auto.
    split; [done|]. split; [apply wf_blank|done].
Qed.

(** The direction stored for an in-bounds cell. *)
Lemma generated_direction tx ty integ q x y :
  length integ = Z.to_nat (cells ff) -> inBounds ff x y = true ->
  directionAt (generated tx ty integ q) x y =
    Some (directionOf ff integ (idx ff x y)).
Proof.
  intros Li Hin. unfold directionAt. simpl.
  destruct (assign_fold ff integ (seqZ 0 (cells ff))) as [_ Hget].
  { intros i Hi%elem_of_seqZ. lia. }
  change (idx (generated tx ty integ q) x y) with (idx ff x y).
  pose proof (idx_range ff x y Hin) as Hr. fold (cells ff) in Hr.
  rewrite Hget by done. rewrite decide_True; [done|].
  apply elem_of_seqZ. lia.
Qed.
End GenerateSpec.

Lemma wf_new w h :
  0 <= w -> 0 <= h -> w * h < 2147483648 -> FlowField.wf (FlowField.new w h).
Proof. intros. split; simpl; try done; apply length_replicate. Qed.

Lemma wf_withCost ff c :
  FlowField.wf ff -> length c = length (FlowField.cost ff) ->
  FlowField.wf (FlowField.withCost ff c).
Proof. intros [] Hc. split; simpl; try done. congruence. Qed.

Lemma wf_setWall ff x y b :
  FlowField.wf ff -> FlowField.wf (FlowField.setWall ff x y b).
Proof. intros H. apply wf_withCost; [done|]. apply length_aset. Qed.

(** ** Properties of the generated field *)

Section Descent.
Import FlowField.
Variable ff : t.
Hypothesis Hwf : wf ff.
Variables tx ty : Z.
Hypothesis Htarget : inBounds ff tx ty = true.
Variables integ q : list Z.
Hypothesis Hflood : flooded ff (idx ff tx ty) integ.

Let ff' := generated ff tx ty integ q.

Lemma decode_N8dirs dir dx dy :
  (dir, (dx, dy)) ∈ N8dirs -> decode dir = Some (dx, dy).
Proof.
  intros [Hr Hl]%N8dirs_lookup. unfold decode, aget, FLOW_DIR_NONE.
  destruct (Z.eqb_spec dir 255); [lia|].
  destruct (Z.ltb_spec dir 0); [lia|done].
Qed.

Lemma picked_is_eligible x y d dir :
  pickDirection ff integ x y d = dir -> dir <> FLOW_DIR_NONE ->
  exists dx dy d', (dir, (dx, dy)) ∈ N8dirs /\ eligible ff x y dx dy /\
    aget integ (idx ff (x + dx) (y + dy)) = Some d' /\ d' < d.
Proof.
  unfold pickDirection. intros Hp Hne.
  destruct (scan_fold ff integ x y N8dirs d FLOW_DIR_NONE) as (_ & H & _).
  destruct H as [E|(Hlt & dx & dy & Hin & Hel & Hv)].
  - rewrite E in Hp. simpl in Hp. congruence.
  - rewrite Hp in Hin. eauto 10.
Qed.

(** A reached cell other than the target has a direction, and the direction
    leads to a cell with a smaller distance. *)
Lemma descent_step x y d :
  inBounds ff x y = true -> integrationAt ff' x y = Some d ->
  d <> INF -> d <> 0 ->
  exists dir dx dy d',
    directionAt ff' x y = Some dir /\ decode dir = Some (dx, dy) /\
    inBounds ff (x + dx) (y + dy) = true /\
    integrationAt ff' (x + dx) (y + dy) = Some d' /\ d' < d.
Proof.
  intros Hin Hd Hfin Hnz. unfold integrationAt in *. simpl in *.
  change (idx ff' x y) with (idx ff x y) in Hd.
  set (c := idx ff x y) in *.
  assert (Hcs : c <> idx ff tx ty).
  { intros E. rewrite E, (fl_start _ _ _ Hflood) in Hd. congruence. }
  destruct (fl_parent _ _ _ Hflood c d Hd Hfin Hcs) as [Hd1 (p & Hadj & Hp)].
  destruct Hadj as (x0 & y0 & dd & Hdd & Hin0 & Hc0 & Hnb & Hpi).
  destruct (idx_inj ff Hwf x0 y0 x y Hin0 Hin Hc0) as [-> ->].
  destruct (N4_in_N8dirs dd Hdd) as (dir0 & Hdir0 & Hcard).
  assert (Hel0 : eligible ff x y dd.1 dd.2).
  { split; [done|]. unfold canUseDiagonal.
    destruct Hcard as [-> | ->]; simpl; [done|]. by rewrite orb_true_r. }
  destruct (scan_fold ff integ x y N8dirs d FLOW_DIR_NONE) as (_ & H & Hmin).
  rewrite <- Hpi in Hp. specialize (Hmin _ _ _ _ Hdir0 Hel0 Hp).
  destruct H as [E|(Hlt & dx & dy & Hin' & Hel & Hv)].
  { rewrite E in Hmin. simpl in Hmin. lia. }
  set (r := fold_left (scanDir ff integ x y) N8dirs (d, FLOW_DIR_NONE)) in *.
  exists r.2, dx, dy, r.1.
  split.
  - unfold ff'. rewrite generated_direction by (done || apply Hflood).
    fold c. unfold directionOf.
    rewrite (fl_open _ _ _ Hflood c d Hd Hfin), Hd.
    destruct (Z.eqb_spec d INF); [done|]. destruct (Z.eqb_spec d 0); [done|].
    simpl. subst c. by rewrite idx_col, idx_row.
  - split; [by apply decode_N8dirs|]. split; [apply Hel|]. split; [|done].
    exact Hv.
Qed.

(** The target is the only reached cell at distance 0. *)
Lemma zero_is_target x y :
  inBounds ff x y = true -> integrationAt ff' x y = Some 0 ->
  x = tx /\ y = ty.
Proof.
  intros Hin Hz. unfold integrationAt in Hz. simpl in Hz.
  change (idx ff' x y) with (idx ff x y) in Hz.
  destruct (decide (idx ff x y = idx ff tx ty)) as [E|Hne].
  - by apply (idx_inj ff Hwf).
  - destruct (fl_parent _ _ _ Hflood _ _ Hz) as [? _]; [done|done|lia].
Qed.

(** Following the directions from a cell at distance [d] reaches the target
    in [d] steps, each of which lowers the distance. *)
Lemma descent_path (n : nat) : forall x y d,
  inBounds ff x y = true -> integrationAt ff' x y = Some d ->
  d <> INF -> d <= Z.of_nat n ->
  exists k, (k <= n)%nat /\ Nat.iter k (follow ff') (x, y) = (tx, ty) /\
    forall j, (j < k)%nat ->
      exists a b,
        integrationAt ff' (Nat.iter j (follow ff') (x, y)).1
                          (Nat.iter j (follow ff') (x, y)).2 = Some a /\
        integrationAt ff' (Nat.iter (S j) (follow ff') (x, y)).1
                          (Nat.iter (S j) (follow ff') (x, y)).2 = Some b /\
        b < a.
Proof.
  induction n as [|n IH]; intros x y d Hin Hd Hfin Hle.
  - pose proof (fl_range _ _ _ Hflood _ _ Hd) as Hr.
    assert (d = 0) as -> by lia.
    destruct (zero_is_target x y Hin Hd) as [-> ->].
    exists 0%nat. split; [lia|]. split; [done|]. intros j Hj. lia.
  - destruct (decide (d = 0)) as [->|Hnz].
    { destruct (zero_is_target x y Hin Hd) as [-> ->].
      exists 0%nat. split; [lia|]. split; [done|]. intros j Hj. lia. }
    destruct (descent_step x y d Hin Hd Hfin Hnz)
      as (dir & dx & dy & d' & Hdir & Hdec & Hnb & Hd' & Hlt).
    pose proof (fl_range _ _ _ Hflood _ _ Hd') as Hr'.
    pose proof (fl_range _ _ _ Hflood _ _ Hd) as Hr.
    destruct (IH (x + dx) (y + dy) d' Hnb Hd') as (k & Hk & Hend & Hdown);
      [lia|lia|].
    assert (Hstep : follow ff' (x, y) = (x + dx, y + dy)).
    { unfold follow. simpl. by rewrite Hdir, Hdec. }
    exists (S k). split; [lia|]. split.
    + by rewrite Nat.iter_succ_r, Hstep.
    + intros j Hj. destruct j as [|j].
      * exists d, d'. simpl. rewrite Hstep. simpl. done.
      * rewrite !Nat.iter_succ_r, Hstep. rewrite <- Nat.iter_succ_r.
        apply Hdown. lia.
Qed.

(** With fewer than 65535 cells no distance saturates, and every cell
    connected to the target is reached. *)
Lemma connected_reached x y :
  cells ff < INF -> isWall ff tx ty = false -> connected ff tx ty x y ->
  inBounds ff x y = true /\
  exists d, integrationAt ff' x y = Some d /\ d <> INF.
Proof.
  intros Hsmall Htw Hc. induction Hc as [|x y dx dy Hc [Hin (d & Hd & Hfin)] Hd4 Hnb Hw].
  - split; [done|]. exists 0. split; [apply Hflood|]. done.
  - split; [done|]. unfold integrationAt in *. simpl in *.
    change (idx ff' ?a ?b) with (idx ff a b) in *.
    apply (fl_closed _ _ _ Hflood Hsmall (idx ff x y) d); try done.
    exists x, y, (dx, dy). simpl. done.
Qed.
End Descent.

(** ** Example grids *)

Lemma wf_walled3 : FlowField.wf walled3.
Proof. apply wf_setWall, wf_setWall, wf_new; lia. Defined.

(** ** Claims on [FlowField.generate] *)

(** C1. After [generate(tx, ty)] with an in-bounds, non-wall target: the
    target has integration 0; every walkable cell whose integration is
    finite and nonzero stores a direction whose decoded offset leads to an
    in-bounds neighbour of strictly smaller integration; so following the
    directions from such a cell reaches the target, where the integration is
    0, in at most as many steps as its integration value, the value
    decreasing at every step.  The cells concerned are those the flood fill
    reached; on a grid of fewer than 65535 cells these are all the cells
    4-connected to the target through walkable cells. *)
Theorem generate_descends_to_target (ff : FlowField.t) (tx ty : Z) :
  FlowField.wf ff ->
  FlowField.inBounds ff tx ty = true ->
  FlowField.isWall ff tx ty = false ->
  exists ff', FlowField.generate ff tx ty = Some ff' /\
    FlowField.integrationAt ff' tx ty = Some 0 /\
    (forall x y d,
       FlowField.inBounds ff x y = true -> FlowField.isWall ff x y = false ->
       FlowField.integrationAt ff' x y = Some d ->
       d <> FlowField.INF -> d <> 0 ->
       exists dir dx dy d',
         FlowField.directionAt ff' x y = Some dir /\
         FlowField.decode dir = Some (dx, dy) /\
         FlowField.inBounds ff (x + dx) (y + dy) = true /\
         FlowField.integrationAt ff' (x + dx) (y + dy) = Some d' /\
         d' < d) /\
    (forall x y d,
       FlowField.inBounds ff x y = true -> FlowField.isWall ff x y = false ->
       FlowField.integrationAt ff' x y = Some d -> d <> FlowField.INF ->
       exists k, (k <= Z.to_nat d)%nat /\
         Nat.iter k (FlowField.follow ff') (x, y) = (tx, ty) /\
         forall j, (j < k)%nat ->
           exists a b,
             FlowField.integrationAt ff'
               (Nat.iter j (FlowField.follow ff') (x, y)).1
               (Nat.iter j (FlowField.follow ff') (x, y)).2 = Some a /\
             FlowField.integrationAt ff'
               (Nat.iter (S j) (FlowField.follow ff') (x, y)).1
               (Nat.iter (S j) (FlowField.follow ff') (x, y)).2 = Some b /\
             b < a) /\
    (FlowField.cells ff < FlowField.INF ->
     forall x y, FlowField.connected ff tx ty x y ->
       exists d, FlowField.integrationAt ff' x y = Some d /\
                 d <> FlowField.INF).
Proof.
  intros Hwf Hin Hw.
  destruct (generate_valid ff Hwf tx ty Hin Hw) as (integ & q & E & F & Lq).
  exists (generated ff tx ty integ q). split; [done|].
  split; [apply F|]. split; [|split].
  - intros x y d Hxy _ Hd Hfin Hnz. by apply descent_step.
  - intros x y d Hxy _ Hd Hfin.
    pose proof (fl_range _ _ _ F _ _ Hd).
    apply (descent_path ff Hwf tx ty Hin integ q F (Z.to_nat d) x y d);
      try done. lia.
  - intros Hsmall x y Hc.
    by destruct (connected_reached ff tx ty Hin integ q F x y Hsmall Hw Hc).
Qed.

Lemma generate_descends_to_target_witness :
  FlowField.wf walled3 /\
  FlowField.inBounds walled3 1 1 = true /\
  FlowField.isWall walled3 1 1 = false /\
  exists ff', FlowField.generate walled3 1 1 = Some ff' /\
    FlowField.integrationAt ff' 1 1 = Some 0 /\
    (forall x y d,
       FlowField.inBounds walled3 x y = true ->
       FlowField.isWall walled3 x y = false ->
       FlowField.integrationAt ff' x y = Some d ->
       d <> FlowField.INF -> d <> 0 ->
       exists dir dx dy d',
         FlowField.directionAt ff' x y = Some dir /\
         FlowField.decode dir = Some (dx, dy) /\
         FlowField.inBounds walled3 (x + dx) (y + dy) = true /\
         FlowField.integrationAt ff' (x + dx) (y + dy) = Some d' /\
         d' < d) /\
    (forall x y d,
       FlowField.inBounds walled3 x y = true ->
       FlowField.isWall walled3 x y = false ->
       FlowField.integrationAt ff' x y = Some d -> d <> FlowField.INF ->
       exists k, (k <= Z.to_nat d)%nat /\
         Nat.iter k (FlowField.follow ff') (x, y) = (1, 1) /\
         forall j, (j < k)%nat ->
           exists a b,
             FlowField.integrationAt ff'
               (Nat.iter j (FlowField.follow ff') (x, y)).1
               (Nat.iter j (FlowField.follow ff') (x, y)).2 = Some a /\
             FlowField.integrationAt ff'
               (Nat.iter (S j) (FlowField.follow ff') (x, y)).1
               (Nat.iter (S j) (FlowField.follow ff') (x, y)).2 = Some b /\
             b < a) /\
    (FlowField.cells walled3 < FlowField.INF ->
     forall x y, FlowField.connected walled3 1 1 x y ->
       exists d, FlowField.integrationAt ff' x y = Some d /\
                 d <> FlowField.INF).
Proof.
  split; [exact wf_walled3|]. split; [reflexivity|]. split; [reflexivity|].
  apply (generate_descends_to_target walled3 1 1 wf_walled3);
    reflexivity.
Defined.

(** C5. [generate] returns, and in the field it leaves a cell is never
    given a diagonal direction unless both orthogonal cells that form the
    corner with the diagonal neighbour are in bounds and are not walls; and
    in the scan of the eight neighbours a diagonal offset whose corner
    cells are not both in bounds and walkable is skipped, leaving the best
    candidate as it was. *)
Theorem diagonals_never_cut_corners (ff : FlowField.t) (tx ty : Z) :
  FlowField.wf ff ->
  exists ff', FlowField.generate ff tx ty = Some ff' /\
  forall x y, FlowField.inBounds ff x y = true ->
    (forall dir dx dy,
       FlowField.directionAt ff' x y = Some dir ->
       FlowField.decode dir = Some (dx, dy) -> dx <> 0 -> dy <> 0 ->
       FlowField.inBounds ff' (x + dx) y = true /\
       FlowField.inBounds ff' x (y + dy) = true /\
       FlowField.isWall ff' (x + dx) y = false /\
       FlowField.isWall ff' x (y + dy) = false) /\
    (forall integ acc dir dx dy, dx <> 0 -> dy <> 0 ->
       FlowField.inBounds ff (x + dx) y && FlowField.inBounds ff x (y + dy) &&
       negb (FlowField.isWall ff (x + dx) y) &&
       negb (FlowField.isWall ff x (y + dy)) = false ->
       FlowField.scanDir ff integ x y acc (dir, (dx, dy)) = acc).
Proof.
  intros Hwf.
  destruct (generate_total ff Hwf tx ty) as (ff' & Hgen & _).
  exists ff'. split; [exact Hgen|]. intros x y Hin. split.
  - intros dir dx dy Hdir Hdec Hdx Hdy.
    assert (Hne : dir <> FlowField.FLOW_DIR_NONE).
    { intros ->. by vm_compute in Hdec. }
    assert (Hcorner : forall integ d,
      FlowField.pickDirection ff integ x y d = dir ->
      FlowField.inBounds ff (x + dx) y = true /\
      FlowField.inBounds ff x (y + dy) = true /\
      FlowField.isWall ff (x + dx) y = false /\
      FlowField.isWall ff x (y + dy) = false).
    { intros integ d Hp.
      destruct (picked_is_eligible ff integ x y d dir Hp Hne)
        as (ex & ey & d' & Hel & [_ Hdiag] & _).
      rewrite (decode_N8dirs _ _ _ Hel) in Hdec. injection Hdec as -> ->.
      unfold FlowField.canUseDiagonal in Hdiag.
      destruct (Z.eqb_spec dx 0); [done|]. destruct (Z.eqb_spec dy 0); [done|].
      simpl in Hdiag.
      destruct (FlowField.inBounds ff (x + dx) y); [|done].
      destruct (FlowField.inBounds ff x (y + dy)); [|done].
      destruct (FlowField.isWall ff (x + dx) y); [done|].
      by destruct (FlowField.isWall ff x (y + dy)). }
    destruct (FlowField.inBounds ff tx ty) eqn:Ht;
      [destruct (FlowField.isWall ff tx ty) eqn:Hw|].
    + rewrite generate_invalid in Hgen by auto. injection Hgen as <-.
      unfold FlowField.directionAt in Hdir. simpl in Hdir.
      apply aget_Some in Hdir as [_ Hdir].
      by apply lookup_replicate in Hdir as [-> _].
    + destruct (generate_valid ff Hwf tx ty Ht Hw) as (integ & q & E & F & _).
      rewrite E in Hgen. injection Hgen as <-.
      rewrite generated_direction in Hdir by (done || apply F).
      injection Hdir as Hdir. unfold directionOf in Hdir.
      destruct (is255 _); [congruence|].
      destruct (aget integ _); [|congruence].
      destruct (_ || _); [congruence|].
      rewrite idx_col, idx_row in Hdir by done. exact (Hcorner _ _ Hdir).
    + rewrite generate_invalid in Hgen by auto. injection Hgen as <-.
      unfold FlowField.directionAt in Hdir. simpl in Hdir.
      apply aget_Some in Hdir as [_ Hdir].
      by apply lookup_replicate in Hdir as [-> _].
  - intros integ acc dir dx dy Hdx Hdy Hbad. apply scanDir_skip.
    intros [_ Hdiag]. unfold FlowField.canUseDiagonal in Hdiag.
    destruct (Z.eqb_spec dx 0); [done|]. destruct (Z.eqb_spec dy 0); [done|].
    simpl in Hdiag.
    destruct (FlowField.inBounds ff (x + dx) y); [|done].
    destruct (FlowField.inBounds ff x (y + dy)); [|done].
    destruct (FlowField.isWall ff (x + dx) y); [done|].
    by destruct (FlowField.isWall ff x (y + dy)).
Qed.

(** C6. [generate] called with a target that is out of bounds or a wall
    returns, and leaves the direction of every cell at "none" and the
    integration of every cell at the unreachable sentinel. *)
Theorem generate_invalid_target (ff : FlowField.t) (tx ty : Z) :
  FlowField.wf ff ->
  FlowField.inBounds ff tx ty = false \/ FlowField.isWall ff tx ty = true ->
  exists ff', FlowField.generate ff tx ty = Some ff' /\
    FlowField.cost ff' = FlowField.cost ff /\
    length (FlowField.direction ff') = Z.to_nat (FlowField.cells ff) /\
    length (FlowField.integration ff') = Z.to_nat (FlowField.cells ff) /\
    forall x y, FlowField.inBounds ff x y = true ->
      FlowField.directionAt ff' x y = Some FlowField.FLOW_DIR_NONE /\
      FlowField.integrationAt ff' x y = Some FlowField.INF.
Proof.
  intros Hwf Hbad. exists (blank ff tx ty).
  split; [by apply generate_invalid|]. split; [done|].
  split; [apply length_replicate|]. split; [apply length_replicate|].
  intros x y Hin. pose proof (idx_range ff x y Hin) as Hr.
  unfold FlowField.directionAt, FlowField.integrationAt, aget. simpl.
  change (FlowField.idx (blank ff tx ty) x y) with (FlowField.idx ff x y).
  destruct (Z.ltb_spec (FlowField.idx ff x y) 0); [lia|].
  split; apply lookup_replicate_2; unfold FlowField.cells; lia.
Qed.

Lemma diagonals_never_cut_corners_witness :
  FlowField.wf walled3 /\
  exists ff', FlowField.generate walled3 1 1 = Some ff' /\
    FlowField.inBounds walled3 2 0 = true /\
    (forall dir dx dy,
       FlowField.directionAt ff' 2 0 = Some dir ->
       FlowField.decode dir = Some (dx, dy) -> dx <> 0 -> dy <> 0 ->
       FlowField.inBounds ff' (2 + dx) 0 = true /\
       FlowField.inBounds ff' 2 (0 + dy) = true /\
       FlowField.isWall ff' (2 + dx) 0 = false /\
       FlowField.isWall ff' 2 (0 + dy) = false) /\
    (forall integ acc dir dx dy, dx <> 0 -> dy <> 0 ->
       FlowField.inBounds walled3 (2 + dx) 0 &&
       FlowField.inBounds walled3 2 (0 + dy) &&
       negb (FlowField.isWall walled3 (2 + dx) 0) &&
       negb (FlowField.isWall walled3 2 (0 + dy)) = false ->
       FlowField.scanDir walled3 integ 2 0 acc (dir, (dx, dy)) = acc).
Proof.
  split; [exact wf_walled3|].
  destruct (diagonals_never_cut_corners walled3 1 1 wf_walled3)
    as (ff' & E & H).
  exists ff'. split; [exact E|]. split; [reflexivity|].
  apply H. reflexivity.
Defined.

Lemma generate_invalid_target_witness :
  FlowField.wf walled3 /\
  (FlowField.inBounds walled3 1 0 = false \/
   FlowField.isWall walled3 1 0 = true) /\
  exists ff', FlowField.generate walled3 1 0 = Some ff' /\
    FlowField.cost ff' = FlowField.cost walled3 /\
    length (FlowField.direction ff') = Z.to_nat (FlowField.cells walled3) /\
    length (FlowField.integration ff') = Z.to_nat (FlowField.cells walled3) /\
    forall x y, FlowField.inBounds walled3 x y = true ->
      FlowField.directionAt ff' x y = Some FlowField.FLOW_DIR_NONE /\
      FlowField.integrationAt ff' x y = Some FlowField.INF.
Proof.
  split; [exact wf_walled3|]. split; [right; reflexivity|].
  apply (generate_invalid_target walled3 1 0 wf_walled3).
  right; reflexivity.
Defined.

(** ** Removing walls *)

Section Opening.
Import FlowField.

Lemma opens_refl ff : opens ff ff.
Proof. exists (cost ff). split; [by destruct ff|done]. Qed.

Lemma opens_trans ff1 ff2 ff3 : opens ff1 ff2 -> opens ff2 ff3 -> opens ff1 ff3.
Proof.
  intros (c & -> & L & K) (c' & -> & L' & K').
  exists c'. split; [done|]. simpl in *. split; [congruence|auto].
Qed.

Lemma opens_setWall ff x y : opens ff (setWall ff x y false).
Proof.
  exists (aset (cost ff) (idx ff x y) 0). split; [done|].
  split; [apply length_aset|]. intros i Hi.
  destruct (decide (idx ff x y = i)) as [->|Hne].
  - apply aget_aset_eq. by apply aget_lt_length in Hi.
  - by rewrite aget_aset_ne.
Qed.

Lemma opens_width ff ff' : opens ff ff' -> width ff' = width ff.
Proof. by intros (c & -> & _). Qed.

Lemma opens_height ff ff' : opens ff ff' -> height ff' = height ff.
Proof. by intros (c & -> & _). Qed.

Lemma opens_inBounds ff ff' x y :
  opens ff ff' -> inBounds ff' x y = inBounds ff x y.
Proof. by intros (c & -> & _). Qed.

Lemma opens_idx ff ff' x y : opens ff ff' -> idx ff' x y = idx ff x y.
Proof. by intros (c & -> & _). Qed.

Lemma opens_wf ff ff' : opens ff ff' -> wf ff -> wf ff'.
Proof. intros (c & -> & L & _) H. by apply wf_withCost. Qed.

Lemma opens_keeps ff ff' i :
  opens ff ff' -> aget (cost ff) i = Some 0 -> aget (cost ff') i = Some 0.
Proof. intros (c & -> & _ & K). apply K. Qed.

Lemma setWall_clears ff x y :
  wf ff -> inBounds ff x y = true ->
  aget (cost (setWall ff x y false)) (idx ff x y) = Some 0.
Proof.
  intros Hwf Hin. simpl. apply aget_aset_eq.
  pose proof (idx_range ff x y Hin). rewrite (wf_cost ff Hwf). lia.
Qed.

Lemma fold_opens {E} (f : t -> E -> t) (l : list E) :
  (forall g e, opens g (f g e)) -> forall ff, opens ff (fold_left f l ff).
Proof.
  intros Hf. induction l as [|e l IH]; intros ff; simpl.
  - apply opens_refl.
  - eapply opens_trans; [apply Hf|apply IH].
Qed.

(** If the iteration for [e] clears the cells [P e], the loop clears them
    for every [e] it runs over. *)
Lemma fold_clears {E} (f : t -> E -> t) (P : E -> Z -> Prop) (ff : t)
    (l : list E) :
  wf ff -> (forall g e, opens g (f g e)) ->
  (forall g e i, opens ff g -> wf g -> P e i -> aget (cost (f g e)) i = Some 0) ->
  forall e i, e ∈ l -> P e i -> aget (cost (fold_left f l ff)) i = Some 0.
Proof.
  intros Hwf Hf Hstep. induction l as [|e' l IH] using rev_ind; intros e i Hel HP.
  - by apply elem_of_nil in Hel.
  - rewrite fold_left_app. simpl.
    pose proof (fold_opens f l Hf ff) as Ho.
    apply elem_of_app in Hel as [Hel | ->%list_elem_of_singleton].
    + eapply opens_keeps; [apply Hf|]. by eapply IH.
    + apply Hstep; [done| |done]. by eapply opens_wf.
Qed.
End Opening.

(** ** [ensureBaseAndEdgeOpen] *)

Section EnsureOpen.
Import FlowField Canvas.
Variable ff : t.
Hypothesis Hwf : wf ff.

Lemma openAround_opens tx ty : opens ff (openAround ff tx ty).
Proof.
  unfold openAround. apply fold_opens. intros g dy.
  apply fold_opens. intros g' dx.
  destruct (inBounds g' (tx + dx) (ty + dy)); simpl;
    [apply opens_setWall|apply opens_refl].
Qed.

Lemma openRows_opens g : opens g (openRows g).
Proof.
  unfold openRows. apply fold_opens. intros g' x.
  eapply opens_trans; apply opens_setWall.
Qed.

Lemma openColumns_opens g : opens g (openColumns g).
Proof.
  unfold openColumns. apply fold_opens. intros g' x.
  eapply opens_trans; apply opens_setWall.
Qed.

Lemma openAround_clears tx ty dx dy :
  -1 <= dx <= 1 -> -1 <= dy <= 1 ->
  inBounds ff (tx + dx) (ty + dy) = true ->
  aget (cost (openAround ff tx ty)) (idx ff (tx + dx) (ty + dy)) = Some 0.
Proof using Hwf.
  intros Hdx Hdy Hin. unfold openAround.
  apply (fold_clears _
    (fun dy i => exists dx, -1 <= dx <= 1 /\
       inBounds ff (tx + dx) (ty + dy) = true /\
       i = idx ff (tx + dx) (ty + dy)) ff) with (e := dy); try done.
  - intros g e. apply fold_opens. intros g' ex.
    destruct (inBounds g' (tx + ex) (ty + e)); simpl;
      [apply opens_setWall|apply opens_refl].
  - intros g e i Hg Hgw (ex & Hex & Hexin & ->).
    apply (fold_clears _
      (fun dx i => inBounds ff (tx + dx) (ty + e) = true /\
         i = idx ff (tx + dx) (ty + e)) g) with (e := ex); try done.
    + intros g' ex'.
      destruct (inBounds g' (tx + ex') (ty + e)); simpl;
        [apply opens_setWall|apply opens_refl].
    + intros g' ex' i Hg' Hgw' [Hin' ->].
      pose proof (opens_trans _ _ _ Hg Hg') as Hfg.
      rewrite (opens_inBounds _ _ _ _ Hfg), Hin'. simpl.
      rewrite <- (opens_idx _ _ _ _ Hfg). apply setWall_clears; [done|].
      by rewrite (opens_inBounds _ _ _ _ Hfg).
    + apply elem_of_seqZ. lia.
  - apply elem_of_seqZ. lia.
  - eauto.
Qed.

Lemma openRows_clears g x y :
  opens ff g -> inBounds ff x y = true -> y = 0 \/ y = height ff - 1 ->
  aget (cost (openRows g)) (idx ff x y) = Some 0.
Proof using Hwf.
  intros Hg Hin Hy. apply inBounds_spec in Hin as [Hx Hh].
  pose proof (opens_wf _ _ Hg Hwf) as Hgw.
  unfold openRows.
  apply (fold_clears _
    (fun x i => 0 <= x < width ff /\
       (i = idx ff x 0 \/ i = idx ff x (height ff - 1))) g) with (e := x);
    try done.
  - intros g' e. eapply opens_trans; apply opens_setWall.
  - intros g' e i Hg' Hgw' [He Hi].
    pose proof (opens_trans _ _ _ Hg Hg') as Hfg.
    assert (Hin0 : inBounds g' e 0 = true).
    { rewrite (opens_inBounds _ _ _ _ Hfg). apply inBounds_spec. lia. }
    assert (Hin1 : inBounds (setWall g' e 0 false) e (height g' - 1) = true).
    { rewrite (opens_inBounds _ _ _ _ (opens_setWall _ _ _)).
      rewrite (opens_inBounds _ _ _ _ Hfg). apply inBounds_spec.
      rewrite (opens_height _ _ Hfg). lia. }
    destruct Hi as [-> | ->].
    + eapply opens_keeps; [apply opens_setWall|].
      rewrite <- (opens_idx _ _ _ _ Hfg). by apply setWall_clears.
    + rewrite <- (opens_height _ _ Hfg).
      rewrite <- (opens_idx _ _ _ _ Hfg).
      rewrite <- (opens_idx _ _ _ _ (opens_setWall g' e 0)).
      apply setWall_clears; [by apply wf_setWall|done].
  - rewrite (opens_width _ _ Hg). apply elem_of_seqZ. lia.
  - split; [lia|]. destruct Hy as [-> | ->]; auto.
Qed.

Lemma openColumns_clears g x y :
  opens ff g -> inBounds ff x y = true -> x = 0 \/ x = width ff - 1 ->
  aget (cost (openColumns g)) (idx ff x y) = Some 0.
Proof using Hwf.
  intros Hg Hin Hx. apply inBounds_spec in Hin as [Hw Hy].
  pose proof (opens_wf _ _ Hg Hwf) as Hgw.
  unfold openColumns.
  apply (fold_clears _
    (fun y i => 0 <= y < height ff /\
       (i = idx ff 0 y \/ i = idx ff (width ff - 1) y)) g) with (e := y);
    try done.
  - intros g' e. eapply opens_trans; apply opens_setWall.
  - intros g' e i Hg' Hgw' [He Hi].
    pose proof (opens_trans _ _ _ Hg Hg') as Hfg.
    assert (Hin0 : inBounds g' 0 e = true).
    { rewrite (opens_inBounds _ _ _ _ Hfg). apply inBounds_spec. lia. }
    assert (Hin1 : inBounds (setWall g' 0 e false) (width g' - 1) e = true).
    { rewrite (opens_inBounds _ _ _ _ (opens_setWall _ _ _)).
      rewrite (opens_inBounds _ _ _ _ Hfg). apply inBounds_spec.
      rewrite (opens_width _ _ Hfg). lia. }
    destruct Hi as [-> | ->].
    + eapply opens_keeps; [apply opens_setWall|].
      rewrite <- (opens_idx _ _ _ _ Hfg). by apply setWall_clears.
    + rewrite <- (opens_width _ _ Hfg).
      rewrite <- (opens_idx _ _ _ _ Hfg).
      rewrite <- (opens_idx _ _ _ _ (opens_setWall g' 0 e)).
      apply setWall_clears; [by apply wf_setWall|done].
  - rewrite (opens_height _ _ Hg). apply elem_of_seqZ. lia.
  - split; [lia|]. destruct Hx as [-> | ->]; auto.
Qed.

Lemma ensure_opens : opens ff (ensureBaseAndEdgeOpen ff).
Proof.
  unfold ensureBaseAndEdgeOpen.
  eapply opens_trans; [apply openAround_opens|].
  eapply opens_trans; [apply openRows_opens|apply openColumns_opens].
Qed.
End EnsureOpen.

Lemma ensure_forcedOpen ff :
  FlowField.wf ff -> forcedOpen (Canvas.ensureBaseAndEdgeOpen ff).
Proof.
  intros Hwf x y Hin Hcell.
  pose proof (ensure_opens ff) as Ho.
  rewrite (opens_inBounds _ _ _ _ Ho) in Hin.
  rewrite (opens_idx _ _ _ _ Ho).
  unfold baseOrEdge in Hcell.
  rewrite (opens_width _ _ Ho), (opens_height _ _ Ho) in Hcell.
  unfold Canvas.ensureBaseAndEdgeOpen.
  pose proof (openAround_opens ff (FlowField.width ff / 2)
                (FlowField.height ff / 2)) as Ha.
  pose proof (openRows_opens
                (Canvas.openAround ff (FlowField.width ff / 2)
                   (FlowField.height ff / 2))) as Hr.
  destruct Hcell as [[Hx Hy]|[Hx|[Hx|[Hy|Hy]]]].
  - eapply opens_keeps; [apply openColumns_opens|].
    eapply opens_keeps; [apply openRows_opens|].
    pose proof (openAround_clears ff Hwf (FlowField.width ff / 2)
                  (FlowField.height ff / 2) (x - FlowField.width ff / 2)
                  (y - FlowField.height ff / 2) Hx Hy) as Hc.
    replace (FlowField.width ff / 2 + (x - FlowField.width ff / 2))
      with x in Hc by lia.
    replace (FlowField.height ff / 2 + (y - FlowField.height ff / 2))
      with y in Hc by lia.
    by apply Hc.
  - apply openColumns_clears; eauto using opens_trans.
  - apply openColumns_clears; eauto using opens_trans.
  - eapply opens_keeps; [apply openColumns_opens|].
    apply openRows_clears; auto.
  - eapply opens_keeps; [apply openColumns_opens|].
    apply openRows_clears; auto.
Qed.

(** ** Walls and terrain *)

Section Walls.
Import FlowField.
Variable ff : t.
Hypothesis Hwf : wf ff.

Lemma isWall_setWall_same x y b :
  inBounds ff x y = true -> isWall (setWall ff x y b) x y = b.
Proof using Hwf.
  intros Hin. pose proof (idx_range ff x y Hin) as Hr.
  unfold isWall, setWall. simpl.
  change (idx (withCost ff _) x y) with (idx ff x y).
  rewrite aget_aset_eq by (rewrite (wf_cost ff Hwf); lia).
  by destruct b.
Qed.

Lemma isWall_setWall_other x y b x' y' :
  inBounds ff x y = true -> inBounds ff x' y' = true ->
  (x =? x') && (y =? y') = false ->
  isWall (setWall ff x y b) x' y' = isWall ff x' y'.
Proof using Hwf.
  intros Hin Hin' Hne. unfold isWall, setWall. simpl.
  change (idx (withCost ff _) x' y') with (idx ff x' y').
  rewrite aget_aset_ne; [done|]. intros E.
  destruct (idx_inj ff Hwf x y x' y' Hin Hin' E) as [-> ->].
  rewrite !Z.eqb_refl in Hne. done.
Qed.
End Walls.

(** [generate] keeps the walls. *)
Lemma isWall_generate ff tx ty ff' x y :
  FlowField.generate ff tx ty = Some ff' ->
  FlowField.wf ff -> FlowField.isWall ff' x y = FlowField.isWall ff x y.
Proof.
  intros E Hwf.
  destruct (generate_total ff Hwf tx ty) as (ff2 & E2 & _ & W & _ & C & _).
  rewrite E in E2. injection E2 as <-.
  unfold FlowField.isWall, FlowField.idx. by rewrite W, C.
Qed.

(** ** Claims on the wall editor *)

(** C8. For a pointer edit on an in-bounds cell other than the target: while
    a wave is active, placing a wall with no gold leaves the state as it
    was; with positive gold the wall is placed and gold drops by exactly
    one; an erase edit always goes through and leaves gold as it is; and
    with no wave active any edit goes through and leaves gold as it is. *)
Theorem wall_edit_costs_gold (st : Canvas.state) (x y : Q) (gx gy : Z) :
  FlowField.wf (Canvas.field st) ->
  Canvas.cellOf (Canvas.lay st) x y = (gx, gy) ->
  FlowField.inBounds (Canvas.field st) gx gy = true ->
  (gx =? FlowField.targetX (Canvas.field st)) &&
  (gy =? FlowField.targetY (Canvas.field st)) = false ->
  (Canvas.waveActive (Canvas.gm st) = true ->
   Canvas.brushMode (Canvas.rf st) = Canvas.WALL ->
   Canvas.gold (Canvas.gm st) <= 0 ->
   Canvas.editAtClient st x y = Some st) /\
  (Canvas.waveActive (Canvas.gm st) = true ->
   Canvas.brushMode (Canvas.rf st) = Canvas.WALL ->
   0 < Canvas.gold (Canvas.gm st) ->
   exists st', Canvas.editAtClient st x y = Some st' /\
     Canvas.gold (Canvas.gm st') = Canvas.gold (Canvas.gm st) - 1 /\
     FlowField.isWall (Canvas.field st') gx gy = true) /\
  (Canvas.brushMode (Canvas.rf st) = Canvas.ERASE ->
   exists st', Canvas.editAtClient st x y = Some st' /\
     Canvas.gold (Canvas.gm st') = Canvas.gold (Canvas.gm st) /\
     FlowField.isWall (Canvas.field st') gx gy = false) /\
  (Canvas.waveActive (Canvas.gm st) = false ->
   exists st', Canvas.editAtClient st x y = Some st' /\
     Canvas.gold (Canvas.gm st') = Canvas.gold (Canvas.gm st) /\
     FlowField.isWall (Canvas.field st') gx gy =
       match Canvas.brushMode (Canvas.rf st) with
       | Canvas.WALL => true
       | Canvas.ERASE => false
       end).
Proof.
  intros Hwf Hcell Hin Hnt.
  assert (Hgen : forall b, exists ff',
    FlowField.generate (FlowField.setWall (Canvas.field st) gx gy b)
      (FlowField.targetX (Canvas.field st))
      (FlowField.targetY (Canvas.field st))
      = Some ff' /\ FlowField.isWall ff' gx gy = b).
  { intros b.
    pose proof (wf_setWall (Canvas.field st) gx gy b Hwf) as Hwf'.
    destruct (generate_total _ Hwf'
                (FlowField.targetX (Canvas.field st))
                (FlowField.targetY (Canvas.field st)))
      as (ff' & E & _).
    exists ff'. split; [done|].
    rewrite (isWall_generate _ _ _ _ _ _ E Hwf').
    by apply isWall_setWall_same. }
  unfold Canvas.editAtClient. rewrite Hcell, Hin, Hnt. simpl.
  repeat split.
  - intros -> -> Hg. simpl. by destruct (Z.leb_spec (Canvas.gold (Canvas.gm st)) 0); [|lia].
  - intros -> -> Hg. simpl.
    destruct (Z.leb_spec (Canvas.gold (Canvas.gm st)) 0); [lia|].
    destruct (Hgen true) as (ff' & -> & Hw). simpl.
    eexists. split; [done|]. simpl. split; [lia|done].
  - intros ->. simpl.
    destruct (Hgen false) as (ff' & E & Hw).
    destruct (Canvas.waveActive (Canvas.gm st)); simpl; rewrite E; simpl;
      eauto.
  - intros ->. simpl.
    destruct (Canvas.brushMode (Canvas.rf st)); simpl.
    + destruct (Hgen true) as (ff' & -> & Hw). simpl. eauto.
    + destruct (Hgen false) as (ff' & -> & Hw). simpl. eauto.
Qed.

(** ** Terrain applications *)

Lemma forcedOpen_same ff ff' :
  FlowField.width ff' = FlowField.width ff ->
  FlowField.height ff' = FlowField.height ff ->
  FlowField.cost ff' = FlowField.cost ff ->
  forcedOpen ff -> forcedOpen ff'.
Proof.
  intros W H C Ho x y Hin Hc.
  unfold forcedOpen, baseOrEdge, FlowField.inBounds, FlowField.idx in *.
  rewrite W, H, C in *. by apply Ho.
Qed.

Lemma forcedOpen_new w h : forcedOpen (FlowField.new w h).
Proof.
  intros x y Hin _. apply inBounds_spec in Hin as [Hx Hy]. simpl in *.
  unfold aget, FlowField.idx. simpl.
  destruct (Z.ltb_spec (y * w + x) 0); [nia|].
  apply lookup_replicate_2. nia.
Qed.

Lemma wf_loadCost ff c : FlowField.wf ff -> FlowField.wf (Canvas.loadCost ff c).
Proof.
  intros Hwf. unfold Canvas.loadCost.
  destruct c as [bc|]; [destruct (Nat.eqb_spec (length bc) (length (FlowField.cost ff)))|];
    apply wf_withCost; try done; apply length_afill.
Qed.

Lemma wf_terrain ff c : FlowField.wf ff -> FlowField.wf (Canvas.terrain ff c).
Proof.
  intros Hwf. eapply opens_wf; [apply ensure_opens|]. by apply wf_loadCost.
Qed.

Lemma terrain_width ff c :
  FlowField.width (Canvas.terrain ff c) = FlowField.width ff.
Proof.
  unfold Canvas.terrain. rewrite (opens_width _ _ (ensure_opens _)).
  unfold Canvas.loadCost. by repeat case_match.
Qed.

Lemma terrain_height ff c :
  FlowField.height (Canvas.terrain ff c) = FlowField.height ff.
Proof.
  unfold Canvas.terrain. rewrite (opens_height _ _ (ensure_opens _)).
  unfold Canvas.loadCost. by repeat case_match.
Qed.

Lemma forcedOpen_terrain ff c :
  FlowField.wf ff -> forcedOpen (Canvas.terrain ff c).
Proof. intros Hwf. apply ensure_forcedOpen. by apply wf_loadCost. Qed.

Lemma regenerated_facts ff' :
  regenerated ff' ->
  FlowField.wf ff' /\ forcedOpen ff' /\
  FlowField.targetX ff' = FlowField.width ff' / 2 /\
  FlowField.targetY ff' = FlowField.height ff' / 2.
Proof.
  intros (ff0 & Hwf & Ho & E).
  destruct (generate_total ff0 Hwf (FlowField.width ff0 / 2)
              (FlowField.height ff0 / 2))
    as (ff2 & E2 & Hwf2 & W & H & C & TX & TY).
  rewrite E in E2. injection E2 as <-.
  split; [done|]. split; [by eapply forcedOpen_same|]. by rewrite W, H.
Qed.

Lemma applyTerrain_regenerates st c :
  FlowField.wf (Canvas.field st) ->
  exists st', Canvas.applyTerrain st c = Some st' /\
    regenerated (Canvas.field st') /\
    FlowField.width (Canvas.field st') = FlowField.width (Canvas.field st) /\
    FlowField.height (Canvas.field st') = FlowField.height (Canvas.field st) /\
    Canvas.gm st' = Canvas.gm st.
Proof.
  intros Hwf. unfold Canvas.applyTerrain.
  pose proof (wf_terrain _ c Hwf) as Hwt.
  destruct (generate_total _ Hwt
              (FlowField.width (Canvas.terrain (Canvas.field st) c) / 2)
              (FlowField.height (Canvas.terrain (Canvas.field st) c) / 2))
    as (ff' & E & _ & W & H & _).
  rewrite E. simpl. eexists. split; [done|]. simpl.
  split; [|by rewrite W, H, terrain_width, terrain_height].
  exists (Canvas.terrain (Canvas.field st) c).
  split; [done|]. split; [by apply forcedOpen_terrain|done].
Qed.

Lemma rebuildField_new size l :
  0 < size <= 128 ->
  exists ff' l', Canvas.rebuildField (FlowField.new size size) l = Some (ff', l') /\
    regenerated ff' /\ FlowField.width ff' = size /\ FlowField.height ff' = size.
Proof.
  intros Hs. unfold Canvas.rebuildField.
  assert (Hwf : FlowField.wf (FlowField.new size size)) by (apply wf_new; nia).
  destruct (generate_total _ Hwf (size / 2) (size / 2))
    as (ff' & E & _ & W & H & _).
  simpl. rewrite E. simpl. eexists _, _. split; [done|].
  split; [|done]. exists (FlowField.new size size).
  split; [done|]. split; [apply forcedOpen_new|done].
Qed.

(** C10. Each way in which terrain is applied or reset -- a fetched grid,
    a failed fetch, a cleared pilot, a change of grid size -- ends with a
    field that [generate] computed from a grid whose 3x3 block around the
    centre (target) cell and whose border rows and columns had cost 0; the
    field keeps those costs, so neither the base cell nor an edge cell is a
    wall, whatever the fetched cost array holds. *)
Theorem terrain_keeps_base_and_edges_open
    (random : nat -> Q) (st : Canvas.state) :
  FlowField.wf (Canvas.field st) ->
  (forall c, exists st',
     Canvas.pilotSettled st (Canvas.pilotRequestId st) (Some c) = Some st' /\
     regenerated (Canvas.field st') /\ forcedOpen (Canvas.field st')) /\
  (exists st',
     Canvas.pilotSettled st (Canvas.pilotRequestId st) None = Some st' /\
     regenerated (Canvas.field st') /\ forcedOpen (Canvas.field st')) /\
  (exists st',
     Canvas.applyPilot st false = Some st' /\
     regenerated (Canvas.field st') /\ forcedOpen (Canvas.field st')) /\
  (forall n, exists st',
     Canvas.setGridSize random st n = Some st' /\
     regenerated (Canvas.field st') /\ forcedOpen (Canvas.field st')).
Proof.
  intros Hwf.
  assert (Hsettle : forall c, exists st',
     Canvas.pilotSettled st (Canvas.pilotRequestId st) c = Some st' /\
     regenerated (Canvas.field st') /\ forcedOpen (Canvas.field st')).
  { intros c. unfold Canvas.pilotSettled. rewrite Z.eqb_refl. simpl.
    destruct (applyTerrain_regenerates st c Hwf) as (st' & E & R & _).
    exists st'. split; [done|]. split; [done|]. by apply regenerated_facts. }
  split; [intros c; apply Hsettle|]. split; [apply Hsettle|]. split.
  - unfold Canvas.applyPilot.
    destruct (applyTerrain_regenerates
                (Canvas.withRequest st (Canvas.pilotRequestId st + 1)) None Hwf)
      as (st' & E & R & _).
    exists st'. split; [done|]. split; [done|]. by apply regenerated_facts.
  - intros n. unfold Canvas.setGridSize.
    set (size := Z.max 24 (Z.min 128 (Qfloor n))).
    destruct (rebuildField_new size (Canvas.lay st)) as (ff' & l' & E & R & _);
      [lia|].
    rewrite E. simpl. unfold Canvas.applyPilot. simpl.
    destruct (Canvas.hasPilot (Canvas.rf st)).
    + simpl. eexists. split; [done|]. simpl.
      split; [done|]. by apply regenerated_facts.
    + match goal with |- context [Canvas.applyTerrain ?s None] =>
        destruct (applyTerrain_regenerates s None) as (st' & E' & R' & _);
          [by apply regenerated_facts|]; rewrite E' end.
      simpl. eexists. split; [done|]. simpl.
      split; [done|]. by apply regenerated_facts.
Qed.

(** ** The target stays walkable *)

Section TargetOpen.
Import FlowField Canvas.
Variable random : nat -> Q.
Variable sqrt : Q -> Q.

Lemma centre_inBounds ff :
  0 < width ff -> 0 < height ff ->
  inBounds ff (width ff / 2) (height ff / 2) = true.
Proof.
  intros W H. apply inBounds_spec.
  pose proof (Z.div_lt_upper_bound (width ff) 2 (width ff)).
  pose proof (Z.div_lt_upper_bound (height ff) 2 (height ff)).
  pose proof (Z.div_pos (width ff) 2). pose proof (Z.div_pos (height ff) 2).
  lia.
Qed.

Lemma regenerated_targetOpen st :
  regenerated (field st) -> 0 < width (field st) -> 0 < height (field st) ->
  targetOpen st.
Proof.
  intros R W H. destruct (regenerated_facts _ R) as (Hwf & Ho & TX & TY).
  split; try done. rewrite TX, TY. unfold isWall.
  rewrite (Ho _ _ (centre_inBounds _ W H)); [done|].
  left. lia.
Qed.

Lemma tick_field st now st' :
  tick random sqrt st now = Some st' -> field st' = field st.
Proof.
  unfold tick. destruct (paused (rf st)); [by intros [= <-]|].
  destruct (updateSwarm _ _ _ _ _ _ _ _ _ _) as [[[g a] rc]|]; simpl; [|done].
  destruct (Qle_bool _ _); by intros [= <-].
Qed.

Lemma edit_targetOpen st x y st' :
  targetOpen st -> editAtClient st x y = Some st' -> targetOpen st'.
Proof.
  intros I. unfold editAtClient.
  destruct (cellOf (lay st) x y) as [gx gy].
  destruct (inBounds (field st) gx gy) eqn:Hin; simpl; [|by intros [= <-]].
  destruct ((gx =? targetX (field st)) && (gy =? targetY (field st))) eqn:Ht;
    [by intros [= <-]|].
  match goal with |- context [if ?c then Some st else _] => destruct c end;
    [by intros [= <-]|].
  set (b := negb _).
  destruct I as [Hwf W H TX TY Hopen].
  pose proof (wf_setWall (field st) gx gy b Hwf) as Hwf'.
  destruct (generate_total _ Hwf' (targetX (field st)) (targetY (field st)))
    as (ff' & E & Hwf2 & W2 & H2 & C2 & TX2 & TY2).
  simpl. rewrite E. simpl. intros [= <-]. simpl in *.
  split; simpl; try congruence; try lia.
  rewrite TX2, TY2, (isWall_generate _ _ _ _ _ _ E Hwf').
  rewrite isWall_setWall_other; try done.
  rewrite TX, TY. by apply centre_inBounds.
Qed.

Lemma applyTerrain_targetOpen st c st' :
  targetOpen st -> applyTerrain st c = Some st' -> targetOpen st'.
Proof.
  intros [Hwf W H _ _ _] E.
  destruct (applyTerrain_regenerates st c Hwf) as (st2 & E2 & R & W2 & H2 & _).
  rewrite E in E2. injection E2 as <-.
  apply regenerated_targetOpen; [done|lia|lia].
Qed.

Lemma applyPilot_targetOpen st p st' :
  targetOpen st -> applyPilot st p = Some st' -> targetOpen st'.
Proof.
  intros I. unfold applyPilot. destruct p.
  - intros [= <-]. by destruct I.
  - apply applyTerrain_targetOpen. by destruct I.
Qed.

Lemma setGridSize_targetOpen st n st' :
  setGridSize random st n = Some st' -> targetOpen st'.
Proof.
  unfold setGridSize. set (size := Z.max 24 (Z.min 128 (Qfloor n))).
  destruct (rebuildField_new size (lay st)) as (ff' & l' & E & R & W & H);
    [lia|].
  rewrite E. simpl.
  match goal with |- context [applyPilot ?s ?p] =>
    destruct (applyPilot s p) as [st2|] eqn:E2; [|done];
    assert (I2 : targetOpen st2)
      by (apply (applyPilot_targetOpen s p); [|done];
          apply regenerated_targetOpen; simpl; [done|lia|lia]) end.
  simpl. intros [= <-]. by destruct I2.
Qed.

Lemma handle_targetOpen st e st' :
  targetOpen st -> handle random sqrt st e = Some st' -> targetOpen st'.
Proof.
  intros I. destruct e; simpl.
  - intros E%tick_field. destruct I. split; by rewrite ?E.
  - by apply edit_targetOpen.
  - intros [= <-]. by destruct I.
  - intros [= <-]. by destruct I.
  - intros [= <-]. by destruct I.
  - intros [= <-]. by destruct I.
  - apply setGridSize_targetOpen.
  - apply applyPilot_targetOpen. by destruct I.
  - unfold pilotSettled. destruct (negb _); [by intros [= <-]|].
    by apply applyTerrain_targetOpen.
Qed.

Lemma run_targetOpen es : forall st st',
  targetOpen st -> run random sqrt st es = Some st' -> targetOpen st'.
Proof.
  unfold run. induction es as [|e es IH]; intros st st' I; simpl.
  - by intros [= <-].
  - destruct (handle random sqrt st e) as [st1|] eqn:E.
    + apply IH. by eapply handle_targetOpen.
    + intros Hr. exfalso. clear -Hr.
      induction es as [|e' es IH']; [done|]. simpl in Hr. auto.
Qed.

Lemma init_targetOpen gridSize w h r now st :
  0 < gridSize -> gridSize * gridSize < 2147483648 ->
  init random gridSize w h r now = Some st -> targetOpen st.
Proof.
  intros Hg Hsq. unfold init, rebuildField.
  assert (Hwf : wf (FlowField.new gridSize gridSize)) by (apply wf_new; lia).
  destruct (generate_total _ Hwf (gridSize / 2) (gridSize / 2))
    as (ff' & E & Hwf' & W & H & _).
  simpl. rewrite E. simpl.
  apply applyPilot_targetOpen. apply regenerated_targetOpen; simpl.
  - exists (FlowField.new gridSize gridSize).
    split; [done|]. split; [apply forcedOpen_new|done].
  - simpl in W. lia.
  - simpl in H. lia.
Qed.
End TargetOpen.

(** ** The claims on the editor and the terrain at the example scene *)

Lemma wall_edit_costs_gold_witness :
  demo [Canvas.StartWave 0] = Some demoWave /\
  FlowField.wf (Canvas.field demoWave) /\
  Canvas.cellOf (Canvas.lay demoWave) 30 30 = (1, 1) /\
  FlowField.inBounds (Canvas.field demoWave) 1 1 = true /\
  (1 =? FlowField.targetX (Canvas.field demoWave)) &&
  (1 =? FlowField.targetY (Canvas.field demoWave)) = false /\
  (Canvas.waveActive (Canvas.gm demoWave) = true ->
   Canvas.brushMode (Canvas.rf demoWave) = Canvas.WALL ->
   Canvas.gold (Canvas.gm demoWave) <= 0 ->
   Canvas.editAtClient demoWave 30 30 = Some demoWave) /\
  (Canvas.waveActive (Canvas.gm demoWave) = true ->
   Canvas.brushMode (Canvas.rf demoWave) = Canvas.WALL ->
   0 < Canvas.gold (Canvas.gm demoWave) ->
   exists demoWave', Canvas.editAtClient demoWave 30 30 = Some demoWave' /\
     Canvas.gold (Canvas.gm demoWave') = Canvas.gold (Canvas.gm demoWave) - 1 /\
     FlowField.isWall (Canvas.field demoWave') 1 1 = true) /\
  (Canvas.brushMode (Canvas.rf demoWave) = Canvas.ERASE ->
   exists demoWave', Canvas.editAtClient demoWave 30 30 = Some demoWave' /\
     Canvas.gold (Canvas.gm demoWave') = Canvas.gold (Canvas.gm demoWave) /\
     FlowField.isWall (Canvas.field demoWave') 1 1 = false) /\
  (Canvas.waveActive (Canvas.gm demoWave) = false ->
   exists demoWave', Canvas.editAtClient demoWave 30 30 = Some demoWave' /\
     Canvas.gold (Canvas.gm demoWave') = Canvas.gold (Canvas.gm demoWave) /\
     FlowField.isWall (Canvas.field demoWave') 1 1 =
       match Canvas.brushMode (Canvas.rf demoWave) with
       | Canvas.WALL => true
       | Canvas.ERASE => false
       end).
Proof.
  split; [vm_compute; reflexivity|]. split; [concrete_wf|].
  do 3 (split; [vm_compute; reflexivity|]).
  apply (wall_edit_costs_gold demoWave 30 30 1 1);
    [concrete_wf|vm_compute; reflexivity..].
Defined.

Lemma terrain_keeps_base_and_edges_open_witness :
  demo [Canvas.PointerEdit 30 30] = Some demoEdited /\
  FlowField.wf (Canvas.field demoEdited) /\
  (forall c, exists demoEdited',
     Canvas.pilotSettled demoEdited (Canvas.pilotRequestId demoEdited) (Some c) = Some demoEdited' /\
     regenerated (Canvas.field demoEdited') /\ forcedOpen (Canvas.field demoEdited')) /\
  (exists demoEdited',
     Canvas.pilotSettled demoEdited (Canvas.pilotRequestId demoEdited) None = Some demoEdited' /\
     regenerated (Canvas.field demoEdited') /\ forcedOpen (Canvas.field demoEdited')) /\
  (exists demoEdited',
     Canvas.applyPilot demoEdited false = Some demoEdited' /\
     regenerated (Canvas.field demoEdited') /\ forcedOpen (Canvas.field demoEdited')) /\
  (forall n, exists demoEdited',
     Canvas.setGridSize demoRandom demoEdited n = Some demoEdited' /\
     regenerated (Canvas.field demoEdited') /\ forcedOpen (Canvas.field demoEdited')).
Proof.
  split; [vm_compute; reflexivity|]. split; [concrete_wf|].
  apply (terrain_keeps_base_and_edges_open demoRandom demoEdited).
  concrete_wf.
Defined.

(** ** Starting a wave *)

(** [startWave] does the same in every state: it has no guard on
    [waveActive]. *)
Lemma startWave_effect (random : nat -> Q) (st : Canvas.state) (now : Q) :
  let st' := Canvas.startWave random st now in
  Canvas.wave (Canvas.gm st') = Canvas.wave (Canvas.gm st) + 1 /\
  Canvas.waveActive (Canvas.gm st') = true /\
  Canvas.baseHp (Canvas.gm st') = Canvas.baseHpMax (Canvas.gm st) /\
  Canvas.fireCooldown (Canvas.gm st') = 0%Q /\
  (Canvas.rf st', Canvas.par st', Canvas.ag st', Canvas.randomCalls st') =
    Canvas.rebuildSwarm random (Canvas.field st) (Canvas.lay st)
      (Canvas.wave (Canvas.gm st) + 1) (Canvas.rf st) (Canvas.randomCalls st).
Proof.
  simpl. repeat split.
  by destruct (Canvas.rebuildSwarm _ _ _ _ _ _) as [[[? ?] ?] ?].
Qed.

(** C3 (the code departs from the claim).  The Start Wave button is pressed
    at time 0 and again at time 60, three frames into the wave and before
    the first telemetry sample, so that the button is still enabled.  The
    second trigger reaches the canvas while the wave is Active and is not
    ignored: the wave counter goes from 1 to 2, the combat cooldown falls
    back to 0 and the swarm is rebuilt (every agent back on an edge cell
    with the hp of wave 2).  In any state whatever, Active or not,
    [startWave] increments the counter, restores the base hp, clears the
    cooldown and rebuilds the swarm. *)
Theorem start_wave_while_active_restarts :
  Canvas.clickStartWave demoRandom 0 demoIdle 0 = (1, demoWave) /\
  Canvas.run demoRandom demoSqrt demoWave
    [Canvas.Tick 16; Canvas.Tick 32; Canvas.Tick 48] = Some demoRunning /\
  Canvas.waveActive (Canvas.gm demoRunning) = true /\
  Canvas.wave (Canvas.gm demoRunning) = 1 /\
  (Canvas.fireCooldown (Canvas.gm demoRunning) == 0.078)%Q /\
  Canvas.hp (Canvas.ag demoRunning) = [44; 28; 44] /\
  Canvas.clickStartWave demoRandom 1 demoRunning 60 = (2, demoRestarted) /\
  Canvas.waveActive (Canvas.gm demoRestarted) = true /\
  Canvas.wave (Canvas.gm demoRestarted) = 2 /\
  (Canvas.fireCooldown (Canvas.gm demoRestarted) == 0)%Q /\
  Canvas.hp (Canvas.ag demoRestarted) = [54; 54; 54] /\
  Canvas.velX (Canvas.ag demoRestarted) = [0; 0; 0]%Q /\
  (forall random st now,
     Canvas.waveActive (Canvas.gm st) = true ->
     Canvas.waveTokenEffect random 1 st now = Canvas.startWave random st now /\
     Canvas.wave (Canvas.gm (Canvas.startWave random st now)) =
       Canvas.wave (Canvas.gm st) + 1 /\
     Canvas.baseHp (Canvas.gm (Canvas.startWave random st now)) =
       Canvas.baseHpMax (Canvas.gm st) /\
     Canvas.fireCooldown (Canvas.gm (Canvas.startWave random st now)) = 0%Q /\
     (Canvas.rf (Canvas.startWave random st now),
      Canvas.par (Canvas.startWave random st now),
      Canvas.ag (Canvas.startWave random st now),
      Canvas.randomCalls (Canvas.startWave random st now)) =
       Canvas.rebuildSwarm random (Canvas.field st) (Canvas.lay st)
         (Canvas.wave (Canvas.gm st) + 1) (Canvas.rf st)
         (Canvas.randomCalls st)).
Proof.
  do 12 (split; [vm_compute; reflexivity|]).
  intros random st now _. split; [done|].
  destruct (startWave_effect random st now) as (A & _ & B & C & D). done.
Qed.

(** ** Buckets of nearby points *)

Section Buckets.
Local Open Scope Q_scope.

Lemma Qfloor_close (u v B : Q) :
  0 < B -> - B < u - v -> u - v < B ->
  (-1 <= Qfloor (u / B) - Qfloor (v / B) <= 1)%Z.
Proof.
  intros HB Hlo Hhi.
  assert (Hu : u / B * B == u) by (field; lra).
  assert (Hv : v / B * B == v) by (field; lra).
  pose proof (Qfloor_le (u / B)) as Fu. pose proof (Qlt_floor (u / B)) as Gu.
  pose proof (Qfloor_le (v / B)) as Fv. pose proof (Qlt_floor (v / B)) as Gv.
  assert (Hd1 : u / B - v / B < 1).
  { apply Qnot_le_lt. intros Hc.
    assert (B * 1 <= B * (u / B - v / B)) by (apply Qmult_le_l; lra).
    assert (B * (u / B - v / B) == u - v) by (rewrite <- Hu, <- Hv at 2; ring).
    lra. }
  assert (Hd2 : -1 < u / B - v / B).
  { apply Qnot_le_lt. intros Hc.
    assert (B * (u / B - v / B) <= B * -1) by (apply Qmult_le_l; lra).
    assert (B * (u / B - v / B) == u - v) by (rewrite <- Hu, <- Hv at 2; ring).
    lra. }
  rewrite inject_Z_plus in Gu, Gv. change (inject_Z 1) with 1 in Gu, Gv.
  assert (inject_Z (Qfloor (u / B)) < inject_Z (Qfloor (v / B)) + 2) by lra.
  assert (inject_Z (Qfloor (v / B)) < inject_Z (Qfloor (u / B)) + 2) by lra.
  change 2 with (inject_Z 2) in *. rewrite <- inject_Z_plus in *.
  rewrite <- Zlt_Qlt in *. lia.
Qed.

Lemma square_bound (dx dy d : Q) :
  0 < d -> dx * dx + dy * dy < d * d -> - d < dx /\ dx < d.
Proof. intros Hd H. split; nra. Qed.
End Buckets.

Lemma clampZ_close (u v lo hi : Z) :
  -1 <= u - v <= 1 ->
  -1 <= Canvas.clampZ u lo hi - Canvas.clampZ v lo hi <= 1.
Proof. unfold Canvas.clampZ. lia. Qed.

Lemma clampZ_range (v lo hi : Z) :
  lo <= hi -> lo <= Canvas.clampZ v lo hi <= hi.
Proof. unfold Canvas.clampZ. lia. Qed.

(** ** The spatial hash built by the first loop of [updateSwarm] *)

Section Hash.
Import FlowField Canvas.
Variable ff : FlowField.t.
Variable l : layout.
Variable p : params.
Hypothesis HbX : 1 <= bucketsX p.
Hypothesis HbY : 1 <= bucketsY p.
Local Abbreviation bucketIndex := (bucketIndex p).
Local Abbreviation hashed := (hashed l p).

Lemma hashed_chained a : hashed a (count p) -> chained p a.
Proof. intros []. by split. Qed.

Lemma bucketIndex_range x y :
  0 <= bucketIndex (bucketOf l p x y) < bucketsX p * bucketsY p.
Proof using HbX HbY.
  unfold bucketIndex, bucketOf. simpl.
  set (cx := clampZ _ 0 (bucketsX p - 1)).
  set (cy := clampZ _ 0 (bucketsY p - 1)).
  assert (0 <= cx <= bucketsX p - 1) by (apply clampZ_range; lia).
  assert (0 <= cy <= bucketsY p - 1) by (apply clampZ_range; lia).
  assert (cy * bucketsX p <= (bucketsY p - 1) * bucketsX p)
    by (apply Z.mul_le_mono_nonneg_r; lia).
  assert (0 <= cy * bucketsX p) by (apply Z.mul_nonneg_nonneg; lia).
  lia.
Qed.

Lemma linked_aset nxt m v h k :
  (forall j, 0 <= j < m -> exists n, aget nxt j = Some n /\ -1 <= n < j) ->
  h < m -> linked nxt h k -> linked (aset nxt m v) h k.
Proof.
  intros Hdec Hh Hl. induction Hl as [k|h n k Hn Hl IH].
  - constructor.
  - assert (0 <= h) by (apply aget_lt_length in Hn; lia).
    destruct (Hdec h) as (n' & Hn' & Hr); [lia|].
    rewrite Hn in Hn'. injection Hn' as <-.
    apply linked_next with n; [|apply IH; lia].
    rewrite aget_aset_ne by lia. done.
Qed.

Lemma hashAgent_posX a i : posX (hashAgent ff l p a i) = posX a.
Proof.
  unfold hashAgent. destruct (aget (posX a) i); [|done].
  destruct (aget (posY a) i); [|done].
  destruct (bucketOf l p q q0). by destruct (cellOf l q q0).
Qed.

Lemma hashAgent_posY a i : posY (hashAgent ff l p a i) = posY a.
Proof.
  unfold hashAgent. destruct (aget (posX a) i); [|done].
  destruct (aget (posY a) i); [|done].
  destruct (bucketOf l p q q0). by destruct (cellOf l q q0).
Qed.

Lemma hashAgent_hashed a m :
  hashed a m -> 0 <= m < count p ->
  length (posX a) = Z.to_nat (count p) ->
  length (posY a) = Z.to_nat (count p) ->
  hashed (hashAgent ff l p a m) (m + 1).
Proof using HbX HbY.
  intros [Ln Lh Hhead Hnext Hmem] Hm Lx Ly.
  destruct (aget_is_Some (posX a) m) as [x Hx]; [lia|].
  destruct (aget_is_Some (posY a) m) as [y Hy]; [lia|].
  pose proof (hashAgent_posX a m) as Px. pose proof (hashAgent_posY a m) as Py.
  unfold hashAgent in *. rewrite Hx, Hy in *.
  pose proof (bucketIndex_range x y) as Hb. unfold bucketIndex in Hb.
  destruct (bucketOf l p x y) as [bx by_] eqn:Ebk. simpl in Hb.
  destruct (cellOf l x y) as [gx gy].
  set (b := by_ * bucketsX p + bx) in *.
  destruct (aget_is_Some (bucketHead a) b) as [h0 Hh0]; [lia|].
  rewrite Hh0 in *. simpl in Px, Py. simpl.
  pose proof (Hhead _ _ Hh0) as Hh0r.
  split; simpl.
  - by rewrite length_aset.
  - by rewrite length_aset.
  - intros b' h Hb'. destruct (decide (b' = b)) as [->|Hne].
    + rewrite aget_aset_eq in Hb' by lia. injection Hb' as <-. lia.
    + rewrite aget_aset_ne in Hb' by done. apply Hhead in Hb'. lia.
  - intros k Hk. destruct (decide (k = m)) as [->|Hne].
    + exists h0. rewrite aget_aset_eq by lia. split; [done|lia].
    + rewrite aget_aset_ne by done. apply Hnext. lia.
  - intros k xk yk Hk Hxk Hyk. destruct (decide (k = m)) as [->|Hne].
    + rewrite Hx in Hxk. rewrite Hy in Hyk.
      injection Hxk as <-. injection Hyk as <-. rewrite Ebk.
      unfold bucketIndex. simpl. fold b. exists m.
      rewrite aget_aset_eq by lia. split; [done|constructor].
    + destruct (Hmem k xk yk) as (h & Hh & Hl); [lia|done|done|].
      pose proof (Hhead _ _ Hh) as Hhr.
      destruct (decide (bucketIndex (bucketOf l p xk yk) = b)) as [E|Hnb].
      * rewrite E in *. rewrite Hh0 in Hh. injection Hh as <-.
        exists m. rewrite aget_aset_eq by lia. split; [done|].
        apply linked_next with h0; [apply aget_aset_eq; lia|].
        apply linked_aset; [done|lia|done].
      * exists h. rewrite aget_aset_ne by done. split; [done|].
        apply linked_aset; [done|lia|done].
Qed.

Lemma rebuildBuckets_hashed a :
  0 <= count p ->
  length (posX a) = Z.to_nat (count p) ->
  length (posY a) = Z.to_nat (count p) ->
  length (next a) = Z.to_nat (count p) ->
  length (bucketHead a) = Z.to_nat (bucketsX p * bucketsY p) ->
  hashed (rebuildBuckets ff l p a) (count p) /\
  posX (rebuildBuckets ff l p a) = posX a /\
  posY (rebuildBuckets ff l p a) = posY a.
Proof using HbX HbY.
  intros Hc Lx Ly Ln Lh. unfold rebuildBuckets.
  set (a0 := {| posX := posX a; posY := posY a; velX := velX a;
                velY := velY a; hp := hp a;
                cellCount := afill (cellCount a) 0;
                bucketHead := afill (bucketHead a) (-1);
                next := next a |}).
  assert (H0 : hashed a0 0).
  { split; simpl; try done.
    - by rewrite length_afill.
    - intros b h Hb. apply aget_afill_inv in Hb. lia.
    - intros k Hk. lia.
    - intros k x y Hk. lia. }
  assert (Hn : forall n : nat, Z.of_nat n <= count p ->
    hashed (fold_left (hashAgent ff l p) (seqZ 0 (Z.of_nat n)) a0) (Z.of_nat n) /\
    posX (fold_left (hashAgent ff l p) (seqZ 0 (Z.of_nat n)) a0) = posX a /\
    posY (fold_left (hashAgent ff l p) (seqZ 0 (Z.of_nat n)) a0) = posY a).
  { induction n as [|n IH]; intros Hle.
    - simpl. done.
    - rewrite seqZ_S, fold_left_app. simpl.
      destruct IH as (IH & Px & Py); [lia|].
      rewrite hashAgent_posX, hashAgent_posY. split; [|done].
      replace (Z.of_nat (S n)) with (Z.of_nat n + 1) by lia.
      apply hashAgent_hashed; [done|lia|congruence|congruence]. }
  specialize (Hn (Z.to_nat (count p))). rewrite Z2Nat.id in Hn by lia.
  apply Hn. lia.
Qed.

(** Walking a list of the hash ends within [count] steps and meets every
    agent linked to its head. *)
Lemma chain_complete nxt M fuel : forall h,
  (forall k, 0 <= k < M -> exists n, aget nxt k = Some n /\ -1 <= n < k) ->
  -1 <= h < M -> (Z.to_nat (h + 1) <= fuel)%nat ->
  exists c, chain fuel nxt h = Some c /\
    forall k, 0 <= k -> linked nxt h k -> k ∈ c.
Proof.
  induction fuel as [|fuel IH]; intros h Hdec Hh Hf.
  - assert (h = -1) as -> by lia. exists []. split; [done|].
    intros k Hk Hl. inversion Hl; subst; [lia|done].
  - destruct (decide (h = -1)) as [->|Hne].
    { exists []. split; [done|]. intros k Hk Hl.
      inversion Hl; subst; [lia|done]. }
    destruct (Hdec h) as (n & Hn & Hr); [lia|].
    destruct (IH n Hdec) as (c & Hc & Hall); [lia|lia|].
    exists (h :: c). split.
    + simpl. destruct (Z.eqb_spec h (-1)); [done|].
      rewrite Hn. simpl. by rewrite Hc.
    + intros k Hk Hl. inversion Hl as [|h' n' k' Hn' Hl']; subst.
      * by left.
      * rewrite Hn in Hn'. injection Hn' as <-. right. by apply Hall.
Qed.
End Hash.

(** ** The bucket scan *)

Section Scan.
Import FlowField Canvas.
Variable p : params.
Variable a : agents.
Hypothesis HbX : 1 <= bucketsX p.
Hypothesis HbY : 1 <= bucketsY p.
Hypothesis Hchain : chained p a.

Lemma bucket_chain bx by_ :
  0 <= bx < bucketsX p -> 0 <= by_ < bucketsY p ->
  exists h c, aget (bucketHead a) (by_ * bucketsX p + bx) = Some h /\
    chain (Z.to_nat (count p)) (next a) h = Some c /\
    forall k, 0 <= k -> linked (next a) h k -> k ∈ c.
Proof using HbX HbY Hchain.
  intros Hx Hy.
  assert (by_ * bucketsX p <= (bucketsY p - 1) * bucketsX p)
    by (apply Z.mul_le_mono_nonneg_r; lia).
  assert (0 <= by_ * bucketsX p) by (apply Z.mul_nonneg_nonneg; lia).
  destruct (aget_is_Some (bucketHead a) (by_ * bucketsX p + bx)) as [h Hh].
  { rewrite (ch_head_len _ _ Hchain). lia. }
  pose proof (ch_head _ _ Hchain _ _ Hh) as Hr.
  destruct (chain_complete (next a) (count p) (Z.to_nat (count p)) h)
    as (c & Hc & Hall); [apply Hchain|lia|lia|].
  eauto.
Qed.

Lemma scanCell_ok cbx by_ offs :
  0 <= by_ < bucketsY p -> forall l0,
  exists l1, fold_left (scanCell p a cbx by_) offs (Some l0) = Some l1 /\
    (forall k, k ∈ l0 -> k ∈ l1) /\
    forall ox, ox ∈ offs -> 0 <= cbx + ox < bucketsX p ->
      forall h k, aget (bucketHead a) (by_ * bucketsX p + (cbx + ox)) = Some h ->
        0 <= k -> linked (next a) h k -> k ∈ l1.
Proof using HbX HbY Hchain.
  intros Hy. induction offs as [|ox offs IH]; intros l0; simpl.
  - exists l0. split; [done|]. split; [done|]. intros ox Hox.
    by apply elem_of_nil in Hox.
  - unfold scanCell at 2.
    destruct (Z.ltb_spec (cbx + ox) 0) as [Hlo|Hlo]; simpl.
    { destruct (IH l0) as (l1 & E & Hsub & Hall). exists l1.
      split; [done|]. split; [done|].
      intros ox' [->|Hin]%elem_of_cons Hr; [lia|by apply Hall]. }
    destruct (Z.leb_spec (bucketsX p) (cbx + ox)) as [Hhi|Hhi]; simpl.
    { destruct (IH l0) as (l1 & E & Hsub & Hall). exists l1.
      split; [done|]. split; [done|].
      intros ox' [->|Hin]%elem_of_cons Hr; [lia|by apply Hall]. }
    destruct (bucket_chain (cbx + ox) by_) as (h & c & Hh & Hc & Hmem);
      [lia|done|].
    rewrite Hh. simpl. rewrite Hc. simpl.
    destruct (IH (l0 ++ c)) as (l1 & E & Hsub & Hall). exists l1.
    split; [done|]. split.
    + intros k Hk. apply Hsub, elem_of_app. by left.
    + intros ox' [->|Hin]%elem_of_cons Hr h' k Hh' Hk Hl; [|by eapply Hall].
      rewrite Hh in Hh'. injection Hh' as <-.
      apply Hsub, elem_of_app. right. by apply Hmem.
Qed.

Lemma scanRow_ok cbx cby r offs : forall l0,
  exists l1, fold_left (scanRow p a cbx cby r) offs (Some l0) = Some l1 /\
    (forall k, k ∈ l0 -> k ∈ l1) /\
    forall oy, oy ∈ offs -> 0 <= cby + oy < bucketsY p ->
      forall ox, ox ∈ seqZ (- r) (2 * r + 1) -> 0 <= cbx + ox < bucketsX p ->
      forall h k,
        aget (bucketHead a) ((cby + oy) * bucketsX p + (cbx + ox)) = Some h ->
        0 <= k -> linked (next a) h k -> k ∈ l1.
Proof using HbX HbY Hchain.
  induction offs as [|oy offs IH]; intros l0; simpl.
  - exists l0. split; [done|]. split; [done|]. intros oy Hoy.
    by apply elem_of_nil in Hoy.
  - unfold scanRow at 2.
    destruct (Z.ltb_spec (cby + oy) 0) as [Hlo|Hlo]; simpl.
    { destruct (IH l0) as (l1 & E & Hsub & Hall). exists l1.
      split; [done|]. split; [done|].
      intros oy' [->|Hin]%elem_of_cons Hr; [lia|by apply Hall]. }
    destruct (Z.leb_spec (bucketsY p) (cby + oy)) as [Hhi|Hhi]; simpl.
    { destruct (IH l0) as (l1 & E & Hsub & Hall). exists l1.
      split; [done|]. split; [done|].
      intros oy' [->|Hin]%elem_of_cons Hr; [lia|by apply Hall]. }
    destruct (scanCell_ok cbx (cby + oy) (seqZ (- r) (2 * r + 1)) ltac:(lia) l0)
      as (l1 & E1 & Hsub1 & Hall1).
    rewrite E1.
    destruct (IH l1) as (l2 & E2 & Hsub2 & Hall2). exists l2.
    split; [done|]. split; [auto|].
    intros oy' [->|Hin]%elem_of_cons Hr ox Hox Hxr h k Hh Hk Hl.
    + apply Hsub2. by eapply Hall1.
    + by eapply Hall2.
Qed.

(** The scan of the buckets within [r] of [(cbx, cby)] returns. *)
Lemma scanBuckets_total cbx cby r :
  exists cands, scanBuckets p a cbx cby r = Some cands.
Proof using HbX HbY Hchain.
  unfold scanBuckets.
  destruct (scanRow_ok cbx cby r (seqZ (- r) (2 * r + 1)) [])
    as (cands & E & _). eauto.
Qed.

(** It meets every agent linked in one of these buckets. *)
Lemma scan_finds cbx cby r k bx by_ h :
  0 <= k ->
  0 <= bx < bucketsX p -> 0 <= by_ < bucketsY p ->
  aget (bucketHead a) (by_ * bucketsX p + bx) = Some h ->
  linked (next a) h k ->
  - r <= bx - cbx <= r -> - r <= by_ - cby <= r ->
  exists cands, scanBuckets p a cbx cby r = Some cands /\ k ∈ cands.
Proof using HbX HbY Hchain.
  intros Hk Hbx Hby Hh Hl Hdx Hdy. unfold scanBuckets.
  destruct (scanRow_ok cbx cby r (seqZ (- r) (2 * r + 1)) [])
    as (cands & E & _ & Hall).
  exists cands. split; [done|].
  apply (Hall (by_ - cby)) with (ox := bx - cbx) (h := h); try lia.
  - apply elem_of_seqZ. lia.
  - apply elem_of_seqZ. lia.
  - replace (cby + (by_ - cby)) with by_ by lia.
    replace (cbx + (bx - cbx)) with bx by lia. done.
  - done.
Qed.
End Scan.

Lemma bucketOf_range l p x y :
  1 <= Canvas.bucketsX p -> 1 <= Canvas.bucketsY p ->
  0 <= (Canvas.bucketOf l p x y).1 < Canvas.bucketsX p /\
  0 <= (Canvas.bucketOf l p x y).2 < Canvas.bucketsY p.
Proof.
  intros HbX HbY. unfold Canvas.bucketOf. cbn [fst snd].
  pose proof (clampZ_range (Qfloor ((x - Canvas.offsetX l) / Canvas.bucketSize p))
                0 (Canvas.bucketsX p - 1) ltac:(lia)).
  pose proof (clampZ_range (Qfloor ((y - Canvas.offsetY l) / Canvas.bucketSize p))
                0 (Canvas.bucketsY p - 1) ltac:(lia)).
  lia.
Qed.

(** An agent of a freshly built hash is met by the scan around any bucket
    within [r] of its own. *)
Lemma hashed_scan_finds l p a cbx cby r k x y :
  1 <= Canvas.bucketsX p -> 1 <= Canvas.bucketsY p ->
  hashed l p a (Canvas.count p) -> 0 <= k < Canvas.count p ->
  aget (Canvas.posX a) k = Some x -> aget (Canvas.posY a) k = Some y ->
  - r <= (Canvas.bucketOf l p x y).1 - cbx <= r ->
  - r <= (Canvas.bucketOf l p x y).2 - cby <= r ->
  exists cands, Canvas.scanBuckets p a cbx cby r = Some cands /\ k ∈ cands.
Proof.
  intros HbX HbY Hhash Hk Hx Hy Hdx Hdy.
  destruct (hs_member _ _ _ _ Hhash k x y Hk Hx Hy) as (h & Hh & Hl).
  destruct (bucketOf_range l p x y HbX HbY) as [Bx By].
  apply (scan_finds p a HbX HbY (hashed_chained l p a Hhash) cbx cby r k
           (Canvas.bucketOf l p x y).1 (Canvas.bucketOf l p x y).2 h);
    try done; lia.
Qed.

(** ** The constants of [rebuildSwarm] *)

Lemma rebuildSwarm_params random ff l w r rc :
  let p := (Canvas.rebuildSwarm random ff l w r rc).1.1.2 in
  (2 <= Canvas.radius p)%Q /\
  (Canvas.radius p * 3 <= Canvas.bucketSize p)%Q /\
  Canvas.desired p = (Canvas.radius p * 1.85)%Q /\
  Canvas.desired2 p = (Canvas.desired p * Canvas.desired p)%Q /\
  1 <= Canvas.bucketsX p /\ 1 <= Canvas.bucketsY p /\ 0 <= Canvas.count p.
Proof.
  unfold Canvas.rebuildSwarm.
  destruct (fold_left _ _ _) as [a rc']. simpl.
  split; [apply Q.le_max_l|]. split; [apply Q.le_max_l|].
  repeat split; lia.
Qed.

(** [repel] adds nothing for a candidate that fails the exact test on the
    squared distance. *)
Lemma repel_checks_distance sqrt p a i x y sep k xk yk :
  aget (Canvas.posX a) k = Some xk -> aget (Canvas.posY a) k = Some yk ->
  Canvas.Qltb 0.0001 ((x - xk) * (x - xk) + (y - yk) * (y - yk))%Q &&
  Canvas.Qltb ((x - xk) * (x - xk) + (y - yk) * (y - yk))%Q
    (Canvas.desired2 p) = false ->
  Canvas.repel sqrt p a i x y sep k = sep.
Proof.
  intros Hx Hy Hc. unfold Canvas.repel. destruct (k =? i); [done|].
  by rewrite Hx, Hy, Hc.
Qed.

Lemma bucketOf_close l p x1 y1 x2 y2 :
  (0 < Canvas.desired p)%Q -> (Canvas.desired p <= Canvas.bucketSize p)%Q ->
  ((x1 - x2) * (x1 - x2) + (y1 - y2) * (y1 - y2) <
     Canvas.desired p * Canvas.desired p)%Q ->
  -1 <= (Canvas.bucketOf l p x1 y1).1 - (Canvas.bucketOf l p x2 y2).1 <= 1 /\
  -1 <= (Canvas.bucketOf l p x1 y1).2 - (Canvas.bucketOf l p x2 y2).2 <= 1.
Proof.
  intros Hd HB Hclose.
  destruct (square_bound (x1 - x2) (y1 - y2) (Canvas.desired p) Hd Hclose)
    as [Hx1 Hx2].
  assert (Hclose' : ((y1 - y2) * (y1 - y2) + (x1 - x2) * (x1 - x2) <
                     Canvas.desired p * Canvas.desired p)%Q) by lra.
  destruct (square_bound (y1 - y2) (x1 - x2) (Canvas.desired p) Hd Hclose')
    as [Hy1 Hy2].
  unfold Canvas.bucketOf. cbn [fst snd]. split; apply clampZ_close.
  - apply Qfloor_close; lra.
  - apply Qfloor_close; lra.
Qed.

(** C7. The constants are those of [rebuildSwarm] and the hash is the one
    rebuilt at the start of the tick from the positions [a].  The bucket
    size is at least the desired separation.  For two agents at a squared
    distance below [desired2], the bucket indices assigned by the rebuild
    differ by at most 1 in each axis, and the 3x3 scan around the bucket of
    either agent returns and meets the other.  A candidate met by the scan
    adds nothing to the separation force unless its squared distance
    passes the exact test against [desired2] (and the lower cut-off). *)
Theorem separation_scan_finds_neighbours
    (random : nat -> Q) (sqrt : Q -> Q)
    (ff0 : FlowField.t) (l0 : Canvas.layout) (wave0 : Z)
    (r0 : Canvas.refs) (rc0 : nat)
    (ff : FlowField.t) (l : Canvas.layout) (a : Canvas.agents)
    (i j : Z) (xi yi xj yj : Q) :
  let p := (Canvas.rebuildSwarm random ff0 l0 wave0 r0 rc0).1.1.2 in
  let a' := Canvas.rebuildBuckets ff l p a in
  length (Canvas.posX a) = Z.to_nat (Canvas.count p) ->
  length (Canvas.posY a) = Z.to_nat (Canvas.count p) ->
  length (Canvas.next a) = Z.to_nat (Canvas.count p) ->
  length (Canvas.bucketHead a) =
    Z.to_nat (Canvas.bucketsX p * Canvas.bucketsY p) ->
  aget (Canvas.posX a) i = Some xi -> aget (Canvas.posY a) i = Some yi ->
  aget (Canvas.posX a) j = Some xj -> aget (Canvas.posY a) j = Some yj ->
  ((xi - xj) * (xi - xj) + (yi - yj) * (yi - yj) < Canvas.desired2 p)%Q ->
  (Canvas.desired p <= Canvas.bucketSize p)%Q /\
  -1 <= (Canvas.bucketOf l p xi yi).1 - (Canvas.bucketOf l p xj yj).1 <= 1 /\
  -1 <= (Canvas.bucketOf l p xi yi).2 - (Canvas.bucketOf l p xj yj).2 <= 1 /\
  (exists cands,
     Canvas.scanBuckets p a' (Canvas.bucketOf l p xi yi).1
       (Canvas.bucketOf l p xi yi).2 1 = Some cands /\ j ∈ cands) /\
  (exists cands,
     Canvas.scanBuckets p a' (Canvas.bucketOf l p xj yj).1
       (Canvas.bucketOf l p xj yj).2 1 = Some cands /\ i ∈ cands) /\
  (forall k xk yk x y sep,
     aget (Canvas.posX a') k = Some xk -> aget (Canvas.posY a') k = Some yk ->
     Canvas.Qltb 0.0001 ((x - xk) * (x - xk) + (y - yk) * (y - yk))%Q &&
     Canvas.Qltb ((x - xk) * (x - xk) + (y - yk) * (y - yk))%Q
       (Canvas.desired2 p) = false ->
     Canvas.repel sqrt p a' i x y sep k = sep).
Proof.
  intros p a' Lx Ly Ln Lh Hxi Hyi Hxj Hyj Hclose.
  destruct (rebuildSwarm_params random ff0 l0 wave0 r0 rc0)
    as (Hrad & Hsize & Hdes & Hdes2 & HbX & HbY & Hcount).
  fold p in Hrad, Hsize, Hdes, Hdes2, HbX, HbY, Hcount.
  assert (Hpos : (0 < Canvas.desired p)%Q) by (rewrite Hdes; lra).
  assert (HB : (Canvas.desired p <= Canvas.bucketSize p)%Q)
    by (rewrite Hdes; lra).
  rewrite Hdes2 in Hclose.
  destruct (bucketOf_close l p xi yi xj yj Hpos HB Hclose) as [Bx By].
  destruct (rebuildBuckets_hashed ff l p HbX HbY a Hcount Lx Ly Ln Lh)
    as (Hhash & Px & Py).
  fold a' in Hhash, Px, Py.
  assert (Hi : 0 <= i < Canvas.count p) by (apply aget_lt_length in Hxi; lia).
  assert (Hj : 0 <= j < Canvas.count p) by (apply aget_lt_length in Hxj; lia).
  rewrite <- Px in Hxi, Hxj. rewrite <- Py in Hyi, Hyj.
  split; [done|]. split; [done|]. split; [done|]. split; [|split].
  - apply (hashed_scan_finds l p a' _ _ 1 j xj yj); try done; lia.
  - apply (hashed_scan_finds l p a' _ _ 1 i xi yi); try done; lia.
  - intros k xk yk x y sep. apply repel_checks_distance.
Qed.

Lemma separation_scan_finds_neighbours_witness :
  let p := (Canvas.rebuildSwarm demoRandom (Canvas.field demoIdle)
              (Canvas.lay demoIdle) 1 (Canvas.rf demoIdle)
              (Canvas.randomCalls demoIdle)).1.1.2 in
  let a' := Canvas.rebuildBuckets (Canvas.field demoWave)
              (Canvas.lay demoWave) p demoClose in
  (length (Canvas.posX demoClose) = Z.to_nat (Canvas.count p) /\
   length (Canvas.posY demoClose) = Z.to_nat (Canvas.count p) /\
   length (Canvas.next demoClose) = Z.to_nat (Canvas.count p) /\
   length (Canvas.bucketHead demoClose) =
     Z.to_nat (Canvas.bucketsX p * Canvas.bucketsY p) /\
   aget (Canvas.posX demoClose) 0 = Some 10%Q /\
   aget (Canvas.posY demoClose) 0 = Some 90%Q /\
   aget (Canvas.posX demoClose) 1 = Some 12%Q /\
   aget (Canvas.posY demoClose) 1 = Some 88%Q /\
   ((10 - 12) * (10 - 12) + (90 - 88) * (90 - 88) < Canvas.desired2 p)%Q) /\
  (Canvas.desired p <= Canvas.bucketSize p)%Q /\
  -1 <= (Canvas.bucketOf (Canvas.lay demoWave) p 10 90).1 -
        (Canvas.bucketOf (Canvas.lay demoWave) p 12 88).1 <= 1 /\
  -1 <= (Canvas.bucketOf (Canvas.lay demoWave) p 10 90).2 -
        (Canvas.bucketOf (Canvas.lay demoWave) p 12 88).2 <= 1 /\
  (exists cands,
     Canvas.scanBuckets p a' (Canvas.bucketOf (Canvas.lay demoWave) p 10 90).1
       (Canvas.bucketOf (Canvas.lay demoWave) p 10 90).2 1 = Some cands /\
     1 ∈ cands) /\
  (exists cands,
     Canvas.scanBuckets p a' (Canvas.bucketOf (Canvas.lay demoWave) p 12 88).1
       (Canvas.bucketOf (Canvas.lay demoWave) p 12 88).2 1 = Some cands /\
     0 ∈ cands) /\
  (forall k xk yk x y sep,
     aget (Canvas.posX a') k = Some xk -> aget (Canvas.posY a') k = Some yk ->
     Canvas.Qltb 0.0001 ((x - xk) * (x - xk) + (y - yk) * (y - yk))%Q &&
     Canvas.Qltb ((x - xk) * (x - xk) + (y - yk) * (y - yk))%Q
       (Canvas.desired2 p) = false ->
     Canvas.repel demoSqrt p a' 0 x y sep k = sep).
Proof.
  cbv zeta. split; [repeat split; vm_compute; reflexivity|].
  refine (separation_scan_finds_neighbours demoRandom demoSqrt
            (Canvas.field demoIdle) (Canvas.lay demoIdle) 1
            (Canvas.rf demoIdle) (Canvas.randomCalls demoIdle)
            (Canvas.field demoWave) (Canvas.lay demoWave) demoClose
            0 1 10%Q 90%Q 12 88 _ _ _ _ _ _ _ _ _);
    vm_compute; reflexivity.
Defined.

(** ** The swarm arrays, and why a tick always returns *)

Section Shape.
Import FlowField Canvas.

Lemma sameShape_refl a : sameShape a a.
Proof. by repeat split. Qed.

Lemma sameShape_swarmOk p a a' : sameShape a a' -> swarmOk p a -> swarmOk p a'.
Proof.
  intros (N & B & X & Y & VX & VY & H) []. split; try done; congruence.
Qed.

Lemma sameShape_chained p a a' : sameShape a a' -> chained p a -> chained p a'.
Proof.
  intros (N & B & _) [Ln Lh Hh Hn]. split; rewrite ?N, ?B; done.
Qed.

Lemma spawnEdge_shape random ff l w a rc i :
  sameShape a (spawnEdge random ff l w a rc i).1.
Proof.
  unfold spawnEdge.
  match goal with |- context [let '(gx, gy) := ?c in _] => destruct c end.
  unfold sameShape. simpl. by rewrite !length_aset.
Qed.

Lemma commit_shape a i pos vel : sameShape a (commit a i pos vel).
Proof. unfold commit, sameShape. simpl. by rewrite !length_aset. Qed.

Lemma withHp_shape a i v : sameShape a (withHp a (aset (hp a) i v)).
Proof. unfold withHp, sameShape. simpl. by rewrite !length_aset. Qed.

Lemma hashAgent_vel ff l p a i :
  velX (hashAgent ff l p a i) = velX a /\
  velY (hashAgent ff l p a i) = velY a /\
  hp (hashAgent ff l p a i) = hp a.
Proof.
  unfold hashAgent. destruct (aget (posX a) i) as [x|]; [|done].
  destruct (aget (posY a) i) as [y|]; [|done].
  destruct (bucketOf l p x y). by destruct (cellOf l x y).
Qed.

Lemma rebuildBuckets_vel ff l p a :
  velX (rebuildBuckets ff l p a) = velX a /\
  velY (rebuildBuckets ff l p a) = velY a /\
  hp (rebuildBuckets ff l p a) = hp a.
Proof.
  unfold rebuildBuckets.
  match goal with |- context [fold_left _ _ ?a0] => set (b := a0) end.
  change (velX a) with (velX b). change (velY a) with (velY b).
  change (hp a) with (hp b).
  generalize (seqZ 0 (count p)) b. clear b.
  intros js. induction js as [|j js IH]; intros b; simpl; [done|].
  destruct (IH (hashAgent ff l p b j)) as (-> & -> & ->).
  apply hashAgent_vel.
Qed.

(** The first loop of [updateSwarm] leaves a hash of the agents. *)
Lemma rebuildBuckets_ok ff l p a :
  swarmOk p a ->
  swarmOk p (rebuildBuckets ff l p a) /\ hashed l p (rebuildBuckets ff l p a) (count p).
Proof.
  intros [Hc HbX HbY Lx Ly Lvx Lvy Lhp Ln Lh].
  destruct (rebuildBuckets_hashed ff l p HbX HbY a Hc Lx Ly Ln Lh)
    as (Hh & Px & Py).
  destruct (rebuildBuckets_vel ff l p a) as (Vx & Vy & Hp).
  split; [|done].
  split; try done; try congruence; apply Hh.
Qed.
End Shape.

Section Totality.
Import FlowField Canvas.
Variable random : nat -> Q.
Variable sqrt : Q -> Q.
Variable ff : FlowField.t.
Variable l : layout.
Variable p : params.

Lemma separation_total a i x y :
  swarmOk p a -> chained p a ->
  exists sep, separation sqrt l p a i x y = Some sep.
Proof.
  intros Ok Hch. unfold separation.
  destruct (bucketOf l p x y) as [cbx cby].
  destruct (scanBuckets_total p a (so_bucketsX _ _ Ok) (so_bucketsY _ _ Ok)
              Hch cbx cby 1) as [cands ->].
  simpl. eauto.
Qed.

(** The forces on an agent are computed whatever its position. *)
Lemma acceleration_total r a i x y :
  swarmOk p a -> chained p a ->
  exists acc, acceleration sqrt ff l p r a i x y = Some acc.
Proof.
  intros Ok Hch. unfold acceleration.
  destruct (cellOf l x y) as [gx gy].
  destruct (separation_total a i x y Ok Hch) as [sep ->].
  simpl. eauto.
Qed.

Lemma fire_total g a rc dt :
  swarmOk p a -> chained p a ->
  exists s, fire random ff l p g a rc dt = Some s /\ sameShape a s.1.2.
Proof.
  intros Ok Hch. unfold fire.
  destruct (Qle_bool _ 0); [|eexists; split; [done|apply sameShape_refl]].
  destruct (bucketOf l p (baseX ff l) (baseY ff l)) as [bx by_].
  match goal with |- context [scanBuckets p a bx by_ ?r] =>
    destruct (scanBuckets_total p a (so_bucketsX _ _ Ok) (so_bucketsY _ _ Ok)
                Hch bx by_ r) as [cands ->] end.
  simpl.
  destruct (_ =? -1); [eexists; split; [done|apply sameShape_refl]|].
  destruct (aget (hp a) _) as [cur|];
    [|eexists; split; [done|apply sameShape_refl]].
  destruct (cur <=? _).
  - match goal with |- context [spawnEdge random ff l ?w a rc ?j] =>
      pose proof (spawnEdge_shape random ff l w a rc j) as Hs;
      destruct (spawnEdge random ff l w a rc j) as [a' rc'] end.
    eexists. split; [done|exact Hs].
  - eexists. split; [done|apply withHp_shape].
Qed.

(** One iteration of the second loop of [updateSwarm] returns. *)
Lemma steerAgent_total r dt g a rc i :
  swarmOk p a -> chained p a ->
  exists s, steerAgent random sqrt ff l p r dt (g, a, rc) i = Some s /\
    sameShape a s.1.2.
Proof.
  intros Ok Hch. unfold steerAgent.
  destruct (aget (posX a) i) as [x|];
    [|eexists; split; [done|apply sameShape_refl]].
  destruct (aget (posY a) i) as [y|];
    [|eexists; split; [done|apply sameShape_refl]].
  destruct (aget (velX a) i) as [vx0|];
    [|eexists; split; [done|apply sameShape_refl]].
  destruct (aget (velY a) i) as [vy0|];
    [|eexists; split; [done|apply sameShape_refl]].
  destruct (acceleration_total r a i x y Ok Hch) as [acc ->]. simpl.
  destruct (classify ff l _ _).
  - match goal with |- context [spawnEdge random ff l ?w a rc i] =>
      pose proof (spawnEdge_shape random ff l w a rc i) as Hs;
      destruct (spawnEdge random ff l w a rc i) as [a' rc'] end.
    eexists. split; [done|exact Hs].
  - match goal with |- context [spawnEdge random ff l ?w a rc i] =>
      pose proof (spawnEdge_shape random ff l w a rc i) as Hs;
      destruct (spawnEdge random ff l w a rc i) as [a' rc'] end.
    eexists. split; [done|exact Hs].
  - destruct (inWall ff l _ _);
      (eexists; split; [done|apply commit_shape]).
Qed.

Lemma steer_fold_total r dt js : forall s,
  swarmOk p s.1.2 -> chained p s.1.2 ->
  exists s', fold_left
      (fun acc i => s ← acc; steerAgent random sqrt ff l p r dt s i)
      js (Some s) = Some s' /\
    swarmOk p s'.1.2 /\ chained p s'.1.2.
Proof.
  induction js as [|j js IH]; intros [[g a] rc] Ok Hch; cbn [fst snd] in *.
  - simpl. eauto.
  - destruct (steerAgent_total r dt g a rc j Ok Hch) as (s1 & E & Hs).
    assert (Hstep : (s ← Some (g, a, rc);
                     steerAgent random sqrt ff l p r dt s j) = Some s1)
      by exact E.
    cbn [fold_left]. rewrite Hstep. apply IH.
    + by apply (sameShape_swarmOk p a).
    + by apply (sameShape_chained p a).
Qed.

(** [updateSwarm] returns, and leaves arrays of the same lengths. *)
Lemma updateSwarm_total r g a rc dt :
  swarmOk p a ->
  exists s, updateSwarm random sqrt ff l p r g a rc dt = Some s /\
    swarmOk p s.1.2.
Proof.
  intros Ok. unfold updateSwarm.
  destruct (negb (waveActive g)); [by eexists|].
  destruct (rebuildBuckets_ok ff l p a Ok) as (Ok1 & Hh).
  pose proof (hashed_chained l p _ Hh) as Hch.
  destruct (fire_total g (rebuildBuckets ff l p a) rc dt Ok1 Hch)
    as (s1 & -> & Hs).
  simpl.
  destruct (steer_fold_total r dt (seqZ 0 (count p)) s1) as (s' & E & Ok' & _).
  - by apply (sameShape_swarmOk p (rebuildBuckets ff l p a)).
  - by apply (sameShape_chained p (rebuildBuckets ff l p a)).
  - eauto.
Qed.
End Totality.

Section Ticks.
Import FlowField Canvas.
Variable random : nat -> Q.
Variable sqrt : Q -> Q.

(** The ticker callback returns for every state whose swarm arrays are as
    allocated, and keeps them so. *)
Lemma tick_total st now :
  swarmOk (par st) (ag st) ->
  exists st', tick random sqrt st now = Some st' /\
    field st' = field st /\ par st' = par st /\
    swarmOk (par st') (ag st').
Proof.
  intros Ok. unfold tick. destruct (paused (rf st)); [by eexists|].
  match goal with |- context [updateSwarm _ _ _ _ _ _ ?g _ _ ?dt] =>
    destruct (updateSwarm_total random sqrt (field st) (lay st) (par st)
                (rf st) g (ag st) (randomCalls st) dt Ok)
      as ([[g3 a3] rc3] & -> & Ok') end.
  simpl. destruct (Qle_bool 250 _); by eexists.
Qed.

Lemma spawn_fold_shape ff l w js : forall b n,
  sameShape b
    (fold_left (fun s i => spawnEdge random ff l w s.1 s.2 i) js (b, n)).1.
Proof.
  induction js as [|j js IH]; intros b n; cbn [fold_left fst snd].
  - apply sameShape_refl.
  - pose proof (spawnEdge_shape random ff l w b n j) as H1.
    destruct (spawnEdge random ff l w b n j) as [b1 n1].
    pose proof (IH b1 n1) as H2. cbn [fst] in H1.
    destruct H1 as (? & ? & ? & ? & ? & ? & ?),
             H2 as (? & ? & ? & ? & ? & ? & ?).
    repeat split; congruence.
Qed.

(** [rebuildSwarm] allocates the arrays for the agent count it stores. *)
Lemma rebuildSwarm_ok ff l w r rc :
  swarmOk (rebuildSwarm random ff l w r rc).1.1.2
          (rebuildSwarm random ff l w r rc).1.2.
Proof.
  unfold rebuildSwarm.
  set (cnt := Z.max 0 _).
  set (bX := Z.max 1 _). set (bY := Z.max 1 _).
  match goal with |- context [fold_left ?f ?js (?a0, rc)] =>
    pose proof (spawn_fold_shape ff l w js a0 rc) as Hs;
    destruct (fold_left f js (a0, rc)) as [a rc'] end.
  destruct Hs as (N & B & X & Y & VX & VY & H).
  cbn [fst snd posX posY velX velY hp next bucketHead] in *.
  rewrite length_replicate in X. rewrite length_replicate in Y.
  rewrite length_replicate in VX. rewrite length_replicate in VY.
  rewrite length_replicate in H.
  split; cbn [fst snd count bucketsX bucketsY];
    rewrite ?N, ?B, ?length_replicate; try done; subst cnt bX bY; lia.
Qed.
End Ticks.

(** ** Stores to [Float32Array] keep the order *)

Lemma Qltb_spec (a b : Q) : Canvas.Qltb a b = true <-> (a < b)%Q.
Proof.
  unfold Canvas.Qltb. rewrite negb_true_iff. split.
  - intros H. apply Qnot_le_lt. intros Hle.
    apply Qle_bool_iff in Hle. congruence.
  - intros H. destruct (Qle_bool b a) eqn:E; [|done].
    apply Qle_bool_iff in E. lra.
Qed.

Lemma Qltb_false (a b : Q) : Canvas.Qltb a b = false <-> (b <= a)%Q.
Proof.
  unfold Canvas.Qltb. rewrite negb_false_iff. apply Qle_bool_iff.
Qed.

Section Rounding.
Import Canvas.
Local Open Scope Q_scope.

Lemma pow2_pos (k : Z) : 0 < 2 ^ k.
Proof. by apply Qpower_0_lt. Qed.

Lemma pow2_succ (k : Z) : 2 ^ (k + 1) == 2 * 2 ^ k.
Proof. rewrite Qpower_plus by done. change (2 ^ 1) with 2. ring. Qed.

Lemma Qlog2_spec (q : Q) :
  0 < q -> 2 ^ Qlog2 q <= q /\ q < 2 ^ (Qlog2 q + 1).
Proof.
  intros Hq. unfold Qlog2.
  set (n := Qnum q). set (d := Zpos (Qden q)).
  assert (Hn : (0 < n)%Z) by (destruct q as [[|n'|n'] d']; done).
  assert (Hd : (0 < d)%Z) by done.
  destruct (Z.log2_spec n Hn) as [A1 A2].
  destruct (Z.log2_spec d Hd) as [B1 B2].
  set (a := Z.log2 n) in *. set (b := Z.log2 d) in *.
  assert (Ha : (0 <= a)%Z) by apply Z.log2_nonneg.
  assert (Hb : (0 <= b)%Z) by apply Z.log2_nonneg.
  assert (Eq : q == inject_Z n / inject_Z d).
  { unfold n, d. destruct q as [qn qd]. apply Qmake_Qdiv. }
  assert (EA : inject_Z (2 ^ a) == 2 ^ a) by (by apply Zpower_Qpower).
  assert (EB : inject_Z (2 ^ b) == 2 ^ b) by (by apply Zpower_Qpower).
  assert (Ek : 2 ^ (a - b) == 2 ^ a / 2 ^ b) by (by apply Qpower_minus).
  pose proof (pow2_pos a) as PA. pose proof (pow2_pos b) as PB.
  assert (N1 : 2 ^ a <= inject_Z n) by (rewrite <- EA, <- Zle_Qle; lia).
  assert (N2 : inject_Z n < 2 * 2 ^ a).
  { change 2 with (inject_Z 2) at 1. rewrite <- EA, <- inject_Z_mult.
    rewrite <- Zlt_Qlt. rewrite Z.pow_succ_r in A2 by done. lia. }
  assert (D1 : 2 ^ b <= inject_Z d) by (rewrite <- EB, <- Zle_Qle; lia).
  assert (D2 : inject_Z d < 2 * 2 ^ b).
  { change 2 with (inject_Z 2) at 1. rewrite <- EB, <- inject_Z_mult.
    rewrite <- Zlt_Qlt. rewrite Z.pow_succ_r in B2 by done. lia. }
  set (N := inject_Z n) in *. set (D := inject_Z d) in *.
  set (A := 2 ^ a) in *. set (B := 2 ^ b) in *.
  assert (HD : 0 < D) by lra.
  assert (Hup : q < 2 * (A / B)).
  { rewrite Eq. apply Qlt_shift_div_r; [done|].
    assert (E : 2 * (A / B) * D == 2 * A * D / B) by (field; lra).
    rewrite E. apply Qlt_shift_div_l; [done|]. nra. }
  assert (Hlo : A / B < 2 * q).
  { rewrite Eq. apply Qlt_shift_div_r; [done|].
    assert (E : 2 * (N / D) * B == 2 * N * B / D) by (field; lra).
    rewrite E. apply Qlt_shift_div_l; [done|]. nra. }
  set (R := A / B) in *.
  destruct (Qle_bool (2 ^ (a - b)) q) eqn:Ec.
  - apply Qle_bool_iff in Ec. split; [done|].
    rewrite pow2_succ, Ek. done.
  - assert (Hlt : q < 2 ^ (a - b)).
    { apply Qnot_le_lt. intros Hle. apply Qle_bool_iff in Hle. congruence. }
    replace (a - b - 1 + 1)%Z with (a - b)%Z by lia. split; [|done].
    assert (E : 2 ^ (a - b) == 2 * 2 ^ (a - b - 1)).
    { rewrite <- pow2_succ. by replace (a - b - 1 + 1)%Z with (a - b)%Z by lia. }
    rewrite Ek in E. lra.
Qed.

Lemma Qlog2_mono (q q' : Q) : 0 < q -> q <= q' -> (Qlog2 q <= Qlog2 q')%Z.
Proof.
  intros Hq Hle.
  destruct (Qlog2_spec q Hq) as [L1 _].
  destruct (Qlog2_spec q') as [_ L2]; [lra|].
  assert (H : 2 ^ Qlog2 q < 2 ^ (Qlog2 q' + 1)) by lra.
  apply Qpower_lt_compat_l_inv in H; [lia|done].
Qed.

Lemma rne_range (x : Q) : (Qfloor x <= rne x <= Qfloor x + 1)%Z.
Proof.
  unfold rne. destruct (Qltb _ _); [lia|]. destruct (Qltb _ _); [lia|].
  destruct (Z.even _); lia.
Qed.

Lemma rne_mono (x y : Q) : x <= y -> (rne x <= rne y)%Z.
Proof.
  intros Hxy. pose proof (Qfloor_resp_le x y Hxy) as Hf.
  pose proof (rne_range x) as Rx. pose proof (rne_range y) as Ry.
  destruct (Z.eq_dec (Qfloor x) (Qfloor y)) as [E|NE]; [|lia].
  unfold rne in *. rewrite <- E in *.
  destruct (Qltb (x - inject_Z (Qfloor x)) (1 # 2)) eqn:X1.
  { destruct (Qltb (y - inject_Z (Qfloor x)) (1 # 2)); [lia|].
    destruct (Qltb (1 # 2) (y - inject_Z (Qfloor x))); [lia|].
    destruct (Z.even (Qfloor x)); lia. }
  apply Qltb_false in X1.
  destruct (Qltb (y - inject_Z (Qfloor x)) (1 # 2)) eqn:Y1.
  { apply Qltb_spec in Y1. lra. }
  destruct (Qltb (1 # 2) (x - inject_Z (Qfloor x))) eqn:X2.
  { apply Qltb_spec in X2.
    destruct (Qltb (1 # 2) (y - inject_Z (Qfloor x))) eqn:Y2; [lia|].
    apply Qltb_false in Y2. lra. }
  destruct (Qltb (1 # 2) (y - inject_Z (Qfloor x))); [|lia].
  destruct (Z.even (Qfloor x)); lia.
Qed.

Lemma rne_Z (m : Z) : rne (inject_Z m) = m.
Proof.
  unfold rne. rewrite Qfloor_Z.
  assert (E : Qltb (inject_Z m - inject_Z m) (1 # 2) = true)
    by (apply Qltb_spec; lra).
  by rewrite E.
Qed.

Lemma rne_ge (m : Z) (x : Q) : inject_Z m <= x -> (m <= rne x)%Z.
Proof. intros H. apply rne_mono in H. by rewrite rne_Z in H. Qed.

Lemma rne_le (m : Z) (x : Q) : x <= inject_Z m -> (rne x <= m)%Z.
Proof. intros H. apply rne_mono in H. by rewrite rne_Z in H. Qed.

Lemma froundAbs_nonneg (q : Q) : 0 <= q -> 0 <= froundAbs q.
Proof.
  intros Hq. unfold froundAbs.
  set (u := 2 ^ (Z.max (-126) (Qlog2 q) - 23)).
  pose proof (pow2_pos (Z.max (-126) (Qlog2 q) - 23)) as Hu. fold u in Hu.
  assert (0 <= q / u) by (apply Qle_shift_div_l; lra).
  assert (H0 : (0 <= rne (q / u))%Z) by (by apply rne_ge).
  apply Qmult_le_0_compat; [|lra].
  change 0 with (inject_Z 0). by rewrite <- Zle_Qle.
Qed.

(** The value lies in the binade of its argument. *)
Lemma froundAbs_binade (q : Q) :
  0 < q ->
  let e := Z.max (-126) (Qlog2 q) in
  froundAbs q <= 2 ^ (e + 1) /\ (Qlog2 q = e -> 2 ^ e <= froundAbs q).
Proof.
  intros Hq e. unfold froundAbs. fold e.
  destruct (Qlog2_spec q Hq) as [L1 L2].
  set (u := 2 ^ (e - 23)).
  pose proof (pow2_pos (e - 23)) as Hu. fold u in Hu.
  assert (E24 : 2 ^ (e + 1) == inject_Z (2 ^ 24) * u).
  { unfold u. rewrite (Zpower_Qpower 2 24) by done.
    change (inject_Z 2) with 2. rewrite <- Qpower_plus by done.
    by replace (24 + (e - 23))%Z with (e + 1)%Z by lia. }
  assert (E23 : 2 ^ e == inject_Z (2 ^ 23) * u).
  { unfold u. rewrite (Zpower_Qpower 2 23) by done.
    change (inject_Z 2) with 2. rewrite <- Qpower_plus by done.
    by replace (23 + (e - 23))%Z with e by lia. }
  split.
  - assert (Hq2 : q <= 2 ^ (e + 1)).
    { apply Qle_trans with (2 ^ (Qlog2 q + 1)); [lra|].
      apply Qpower_le_compat_l; [unfold e; lia|done]. }
    assert (Hle : q / u <= inject_Z (2 ^ 24)).
    { apply Qle_shift_div_r; [done|]. by rewrite <- E24. }
    apply rne_le in Hle. rewrite E24.
    apply Qmult_le_compat_r; [|lra]. by rewrite <- Zle_Qle.
  - intros El. rewrite El in L1.
    assert (Hle : inject_Z (2 ^ 23) <= q / u).
    { apply Qle_shift_div_l; [done|]. by rewrite <- E23. }
    apply rne_ge in Hle. rewrite E23.
    apply Qmult_le_compat_r; [|lra]. by rewrite <- Zle_Qle.
Qed.

Lemma froundAbs_mono (q q' : Q) :
  0 <= q -> q <= q' -> froundAbs q <= froundAbs q'.
Proof.
  intros H0 Hle.
  destruct (Qlt_le_dec 0 q) as [Hq|Hq0].
  - assert (Hq' : 0 < q') by lra.
    pose proof (Qlog2_mono q q' Hq Hle) as Hl.
    destruct (Z.eq_dec (Z.max (-126) (Qlog2 q)) (Z.max (-126) (Qlog2 q')))
      as [E|NE].
    + unfold froundAbs. rewrite <- E.
      set (u := 2 ^ (Z.max (-126) (Qlog2 q) - 23)).
      pose proof (pow2_pos (Z.max (-126) (Qlog2 q) - 23)) as Hu. fold u in Hu.
      assert (Hdiv : q / u <= q' / u).
      { apply Qle_shift_div_l; [done|].
        assert (Eu : q / u * u == q) by (field; lra). by rewrite Eu. }
      apply rne_mono in Hdiv.
      apply Qmult_le_compat_r; [|lra]. by rewrite <- Zle_Qle.
    + destruct (froundAbs_binade q Hq) as [U _].
      destruct (froundAbs_binade q' Hq') as [_ L].
      cbv zeta in U, L.
      assert (El : Qlog2 q' = Z.max (-126) (Qlog2 q')) by lia.
      specialize (L El).
      apply Qle_trans with (2 ^ (Z.max (-126) (Qlog2 q) + 1)); [done|].
      apply Qle_trans with (2 ^ Z.max (-126) (Qlog2 q')); [|done].
      apply Qpower_le_compat_l; [lia|done].
  - apply Qle_trans with 0; [|apply froundAbs_nonneg; lra].
    unfold froundAbs.
    set (u := 2 ^ (Z.max (-126) (Qlog2 q) - 23)).
    pose proof (pow2_pos (Z.max (-126) (Qlog2 q) - 23)) as Hu. fold u in Hu.
    assert (Hz : q / u <= inject_Z 0).
    { apply Qle_shift_div_r; [done|]. change (inject_Z 0) with 0. lra. }
    apply rne_le in Hz.
    assert (inject_Z (rne (q / u)) <= 0)
      by (change 0 with (inject_Z 0); by rewrite <- Zle_Qle).
    nra.
Qed.

(** Rounding keeps the order. *)
Lemma fround_mono (q q' : Q) : q <= q' -> fround q <= fround q'.
Proof.
  intros Hle. unfold fround.
  pose proof (Qred_correct q) as Eq. pose proof (Qred_correct q') as Eq'.
  set (r := Qred q) in *. set (r' := Qred q') in *.
  assert (Hr : r <= r') by (rewrite Eq, Eq'; done).
  clearbody r r'.
  destruct (Qltb r 0) eqn:E; destruct (Qltb r' 0) eqn:E';
    rewrite !Qred_correct.
  - apply Qltb_spec in E, E'.
    assert (froundAbs (- r') <= froundAbs (- r))
      by (apply froundAbs_mono; lra). lra.
  - apply Qltb_spec in E. apply Qltb_false in E'.
    pose proof (froundAbs_nonneg (- r)). pose proof (froundAbs_nonneg r').
    lra.
  - apply Qltb_false in E. apply Qltb_spec in E'. lra.
  - apply Qltb_false in E, E'. by apply froundAbs_mono.
Qed.

(** Equal numbers, however written, are stored as the same value. *)
Lemma fround_proper (q q' : Q) : q == q' -> fround q = fround q'.
Proof. intros E. unfold fround. by rewrite (Qred_complete q q' E). Qed.

(** Rounding does not cross a float32 value. *)
Lemma fround_ge (r q : Q) : fround r == r -> r <= q -> r <= fround q.
Proof. intros Hr Hle. rewrite <- Hr. by apply fround_mono. Qed.

Lemma fround_le (r q : Q) : fround r == r -> q <= r -> fround q <= r.
Proof. intros Hr Hle. rewrite <- Hr. by apply fround_mono. Qed.

Lemma rne_eq (m : Z) (x : Q) : x == inject_Z m -> rne x = m.
Proof.
  intros E. apply Z.le_antisymm.
  - apply rne_le. rewrite E. apply Qle_refl.
  - apply rne_ge. rewrite E. apply Qle_refl.
Qed.

Lemma froundAbs_0 (q : Q) : q == 0 -> froundAbs q == 0.
Proof.
  intros E. unfold froundAbs.
  set (u := 2 ^ (Z.max (-126) (Qlog2 q) - 23)).
  rewrite (rne_eq 0); [change (inject_Z 0) with 0; ring|].
  rewrite E. unfold Qdiv. change (inject_Z 0) with 0. ring.
Qed.

(** A number with a significand of 24 bits and an exponent in the range
    of binary32 is a binary32 number. *)
Lemma froundAbs_exact (q : Q) (m k : Z) :
  (0 < m < 2 ^ 24)%Z -> (-149 <= k)%Z -> q == inject_Z m * 2 ^ k ->
  froundAbs q == q.
Proof.
  intros Hm Hk E.
  pose proof (pow2_pos k) as Pk.
  assert (Hm0 : 0 < inject_Z m).
  { change 0 with (inject_Z 0). rewrite <- Zlt_Qlt. lia. }
  assert (Hq : 0 < q) by (rewrite E; nra).
  destruct (Qlog2_spec q Hq) as [L1 L2].
  assert (HL : (Qlog2 q <= k + 23)%Z).
  { assert (H24 : q < 2 ^ (k + 24)).
    { rewrite E. rewrite Z.add_comm. rewrite Qpower_plus by done.
      rewrite <- (Zpower_Qpower 2 24) by done.
      apply Qmult_lt_compat_r; [done|]. rewrite <- Zlt_Qlt. lia. }
    assert (H : 2 ^ Qlog2 q < 2 ^ (k + 24)) by lra.
    apply Qpower_lt_compat_l_inv in H; [lia|done]. }
  unfold froundAbs.
  set (e := Z.max (-126) (Qlog2 q)).
  set (j := (k - e + 23)%Z).
  assert (Hj : (0 <= j)%Z) by (unfold j, e; lia).
  pose proof (pow2_pos (e - 23)) as Pu.
  assert (Ek : 2 ^ k == inject_Z (2 ^ j) * 2 ^ (e - 23)).
  { rewrite (Zpower_Qpower 2 j) by done. change (inject_Z 2) with 2.
    rewrite <- Qpower_plus by done.
    by replace (j + (e - 23))%Z with k by (unfold j; lia). }
  set (u := 2 ^ (e - 23)) in *.
  rewrite (rne_eq (m * 2 ^ j)).
  - rewrite inject_Z_mult, E, Ek. ring.
  - rewrite inject_Z_mult, E, Ek. field. lra.
Qed.

Lemma fround_exact (q : Q) (m k : Z) :
  (Z.abs m < 2 ^ 24)%Z -> (-149 <= k)%Z -> q == inject_Z m * 2 ^ k ->
  fround q == q.
Proof.
  intros Hm Hk E. unfold fround. rewrite Qred_correct.
  pose proof (Qred_correct q) as Er. set (r := Qred q) in *. clearbody r.
  pose proof (pow2_pos k) as Pk.
  destruct (Qltb r 0) eqn:Es.
  - apply Qltb_spec in Es.
    assert (Hneg : (m < 0)%Z).
    { destruct (Z_lt_le_dec m 0) as [|Hge]; [done|].
      assert (0 <= inject_Z m)
        by (change 0 with (inject_Z 0); by rewrite <- Zle_Qle).
      rewrite Er, E in Es. nra. }
    rewrite (froundAbs_exact (- r) (- m) k); [rewrite Er; ring|lia|done|].
    rewrite Er, E, inject_Z_opp. ring.
  - apply Qltb_false in Es.
    destruct (Z.eq_dec m 0%Z) as [->|Hne].
    + assert (E0 : r == 0).
      { rewrite Er, E. change (inject_Z 0) with 0. ring. }
      rewrite (froundAbs_0 r E0). rewrite <- Er. by rewrite E0.
    + assert (Hpos : (0 < m)%Z).
      { destruct (Z_lt_le_dec 0 m) as [|Hle]; [done|].
        assert (inject_Z m < 0).
        { change 0 with (inject_Z 0). rewrite <- Zlt_Qlt. lia. }
        rewrite Er, E in Es. nra. }
      rewrite (froundAbs_exact r m k); [exact Er|lia|done|].
      by rewrite Er.
Qed.

(** Whole numbers and halves below [2 ^ 24] and [2 ^ 23]. *)
Lemma fround_Z (n : Z) :
  (Z.abs n < 2 ^ 24)%Z -> fround (inject_Z n) == inject_Z n.
Proof.
  intros Hn. apply (fround_exact _ n 0); [done|done|].
  change (2 ^ 0) with 1. ring.
Qed.

Lemma fround_half (n : Z) :
  (Z.abs n < 2 ^ 24)%Z -> fround (inject_Z n / 2) == inject_Z n / 2.
Proof.
  intros Hn. apply (fround_exact _ n (-1)); [done|done|].
  change (2 ^ (-1)) with (/ 2). reflexivity.
Qed.
End Rounding.

(** ** The cell under a point *)

Lemma Qfloor_iff_ge (z : Q) (n : Z) : (inject_Z n <= z)%Q -> n <= Qfloor z.
Proof.
  intros H. pose proof (Qlt_floor z) as Hu.
  assert (inject_Z n < inject_Z (Qfloor z + 1))%Q by lra.
  rewrite <- Zlt_Qlt in *. lia.
Qed.

Section Floors.
Local Open Scope Q_scope.

Lemma Qfloor_iff (z : Q) (n : Z) :
  Qfloor z = n <-> inject_Z n <= z /\ z < inject_Z n + 1.
Proof.
  pose proof (Qfloor_le z) as Hl. pose proof (Qlt_floor z) as Hu.
  rewrite inject_Z_plus in Hu. change (inject_Z 1) with 1 in Hu.
  split.
  - intros <-. split; lra.
  - intros [H1 H2].
    assert (inject_Z (Qfloor z) < inject_Z (n + 1)).
    { rewrite inject_Z_plus. change (inject_Z 1) with 1. lra. }
    assert (inject_Z n < inject_Z (Qfloor z + 1)).
    { rewrite inject_Z_plus. change (inject_Z 1) with 1. lra. }
    rewrite <- Zlt_Qlt in *. lia.
Qed.

Lemma Qfloor_div_iff (u c : Q) (n : Z) :
  0 < c ->
  Qfloor (u / c) = n <-> inject_Z n * c <= u /\ u < (inject_Z n + 1) * c.
Proof.
  intros Hc. rewrite Qfloor_iff.
  assert (Hz : u / c * c == u) by (field; lra).
  set (z := u / c) in *. split; intros [H1 H2]; split; nra.
Qed.
End Floors.

Lemma cellOf_iff l px py gx gy :
  (0 < Canvas.cellPx l)%Q ->
  Canvas.cellOf l px py = (gx, gy) <->
  (Canvas.offsetX l + inject_Z gx * Canvas.cellPx l <= px /\
   px < Canvas.offsetX l + inject_Z gx * Canvas.cellPx l + Canvas.cellPx l /\
   Canvas.offsetY l + inject_Z gy * Canvas.cellPx l <= py /\
   py < Canvas.offsetY l + inject_Z gy * Canvas.cellPx l + Canvas.cellPx l)%Q.
Proof.
  intros Hc. unfold Canvas.cellOf. split.
  - intros [Hx Hy]%pair_equal_spec.
    apply (Qfloor_div_iff _ _ _ Hc) in Hx. apply (Qfloor_div_iff _ _ _ Hc) in Hy.
    lra.
  - intros (H1 & H2 & H3 & H4). f_equal; apply (Qfloor_div_iff _ _ _ Hc); lra.
Qed.

(** ** The layouts of [computeLayout] are in whole pixels *)

Section WholePixels.
Import FlowField Canvas.
Local Open Scope Q_scope.

Lemma computeLayout_whole ff l :
  (0 < width ff <= 128)%Z -> (0 < height ff <= 128)%Z ->
  0 <= rendererWidth l <= 4194304 -> 0 <= rendererHeight l <= 4194304 ->
  exists n ox oy : Z,
    cellPx (computeLayout ff l) == inject_Z n /\
    offsetX (computeLayout ff l) = inject_Z ox /\
    offsetY (computeLayout ff l) = inject_Z oy /\
    (6 <= n /\ width ff * n <= 4194304 /\ height ff * n <= 4194304 /\
     -2097152 <= ox <= 2097152 /\ -2097152 <= oy <= 2097152)%Z.
Proof.
  intros HW HH Hw Hh. unfold computeLayout. cbn [cellPx offsetX offsetY].
  set (w := rendererWidth l) in *. set (h := rendererHeight l) in *.
  assert (HWq : 0 < inject_Z (width ff)).
  { change 0 with (inject_Z 0). rewrite <- Zlt_Qlt. lia. }
  assert (HHq : 0 < inject_Z (height ff)).
  { change 0 with (inject_Z 0). rewrite <- Zlt_Qlt. lia. }
  assert (HW8 : inject_Z (width ff) <= 128).
  { change 128 with (inject_Z 128). rewrite <- Zle_Qle. lia. }
  assert (HH8 : inject_Z (height ff) <= 128).
  { change 128 with (inject_Z 128). rewrite <- Zle_Qle. lia. }
  set (W := inject_Z (width ff)) in *. set (H := inject_Z (height ff)) in *.
  set (m := Qmin (w / W) (h / H)).
  set (f := Qfloor m).
  assert (Hfw : inject_Z f * W <= w).
  { assert (inject_Z f <= w / W).
    { apply Qle_trans with m; [apply Qfloor_le|apply Q.le_min_l]. }
    assert (E : w / W * W == w) by (field; lra).
    set (z := w / W) in *. nra. }
  assert (Hfh : inject_Z f * H <= h).
  { assert (inject_Z f <= h / H).
    { apply Qle_trans with m; [apply Qfloor_le|apply Q.le_min_r]. }
    assert (E : h / H * H == h) by (field; lra).
    set (z := h / H) in *. nra. }
  assert (Hn : exists n : Z, Qmax 6 (inject_Z f) == inject_Z n /\
             (6 <= n)%Z /\ inject_Z n * W <= 4194304 /\
             inject_Z n * H <= 4194304).
  { destruct (Q.max_spec 6 (inject_Z f)) as [[Hlt E]|[Hle E]].
    - exists f. split; [exact E|]. change 6 with (inject_Z 6) in Hlt.
      rewrite <- Zlt_Qlt in Hlt. split; [lia|]. split; lra.
    - exists 6%Z. split; [exact E|]. split; [lia|].
      change (inject_Z 6) with 6. split; lra. }
  destruct Hn as (n & En & Hn6 & HnW & HnH).
  exists n, (Qfloor ((w - W * Qmax 6 (inject_Z f)) / 2)),
    (Qfloor ((h - H * Qmax 6 (inject_Z f)) / 2)).
  split; [exact En|]. split; [done|]. split; [done|].
  assert (Hn0 : 0 < inject_Z n).
  { change 0 with (inject_Z 0). rewrite <- Zlt_Qlt. lia. }
  assert (BW : (width ff * n <= 4194304)%Z).
  { rewrite Zle_Qle, inject_Z_mult. fold W.
    change (inject_Z 4194304) with 4194304. lra. }
  assert (BH : (height ff * n <= 4194304)%Z).
  { rewrite Zle_Qle, inject_Z_mult. fold H.
    change (inject_Z 4194304) with 4194304. lra. }
  split; [done|]. split; [done|]. split; [done|].
  assert (Fl : forall z : Q, -2097152 <= z <= 2097152 ->
                 (-2097152 <= Qfloor z <= 2097152)%Z).
  { intros z [Z1 Z2]. split.
    - apply Qfloor_iff_ge. change (inject_Z (-2097152)) with (-2097152). done.
    - pose proof (Qfloor_le z) as Hz.
      assert (inject_Z (Qfloor z) <= inject_Z 2097152)
        by (change (inject_Z 2097152) with 2097152; lra).
      by rewrite <- Zle_Qle in *. }
  split; apply Fl; rewrite En.
  - set (c := inject_Z n) in *. split.
    + apply Qle_shift_div_l; [lra|]. nra.
    + apply Qle_shift_div_r; [lra|]. nra.
  - set (c := inject_Z n) in *. split.
    + apply Qle_shift_div_l; [lra|]. nra.
    + apply Qle_shift_div_r; [lra|]. nra.
Qed.

(** On a canvas of at most 4194304 pixels a side the lines of the grid are
    binary32 numbers. *)
Lemma computeLayout_gridLines32 ff l :
  (0 < width ff <= 128)%Z -> (0 < height ff <= 128)%Z ->
  0 <= rendererWidth l <= 4194304 -> 0 <= rendererHeight l <= 4194304 ->
  gridLines32 ff (computeLayout ff l).
Proof.
  intros HW HH Hw Hh.
  destruct (computeLayout_whole ff l HW HH Hw Hh)
    as (n & ox & oy & En & Ex & Ey & Hn & BW & BH & Bx & By).
  split; intros k Hk.
  - assert (E : offsetX (computeLayout ff l) +
                inject_Z k * cellPx (computeLayout ff l) ==
                inject_Z (ox + k * n)).
    { rewrite Ex, En, inject_Z_plus, inject_Z_mult. reflexivity. }
    rewrite (fround_proper _ _ E), E. apply fround_Z.
    change (2 ^ 24)%Z with 16777216%Z. nia.
  - assert (E : offsetY (computeLayout ff l) +
                inject_Z k * cellPx (computeLayout ff l) ==
                inject_Z (oy + k * n)).
    { rewrite Ey, En, inject_Z_plus, inject_Z_mult. reflexivity. }
    rewrite (fround_proper _ _ E), E. apply fround_Z.
    change (2 ^ 24)%Z with 16777216%Z. nia.
Qed.

(** ... and so are the centres of the cells. *)
Lemma computeLayout_centres32 ff l gx gy :
  (0 < width ff <= 128)%Z -> (0 < height ff <= 128)%Z ->
  0 <= rendererWidth l <= 4194304 -> 0 <= rendererHeight l <= 4194304 ->
  inBounds ff gx gy = true ->
  fround (cellCentre (computeLayout ff l) gx gy).1 ==
    (cellCentre (computeLayout ff l) gx gy).1 /\
  fround (cellCentre (computeLayout ff l) gx gy).2 ==
    (cellCentre (computeLayout ff l) gx gy).2.
Proof.
  intros HW HH Hw Hh [Hx Hy]%inBounds_spec.
  destruct (computeLayout_whole ff l HW HH Hw Hh)
    as (n & ox & oy & En & Ex & Ey & Hn & BW & BH & Bx & By).
  unfold cellCentre. cbn [fst snd]. split.
  - assert (E : offsetX (computeLayout ff l) +
                (inject_Z gx + 0.5) * cellPx (computeLayout ff l) ==
                inject_Z (2 * ox + (2 * gx + 1) * n) / 2).
    { rewrite Ex, En, !inject_Z_plus, !inject_Z_mult, inject_Z_plus,
        inject_Z_mult.
      change (inject_Z 2) with 2. change (inject_Z 1) with 1. field. }
    rewrite (fround_proper _ _ E), E. apply fround_half.
    change (2 ^ 24)%Z with 16777216%Z. nia.
  - assert (E : offsetY (computeLayout ff l) +
                (inject_Z gy + 0.5) * cellPx (computeLayout ff l) ==
                inject_Z (2 * oy + (2 * gy + 1) * n) / 2).
    { rewrite Ey, En, !inject_Z_plus, !inject_Z_mult, inject_Z_plus,
        inject_Z_mult.
      change (inject_Z 2) with 2. change (inject_Z 1) with 1. field. }
    rewrite (fround_proper _ _ E), E. apply fround_half.
    change (2 ^ 24)%Z with 16777216%Z. nia.
Qed.
End WholePixels.

(** ** Integration of one agent *)

Section Motion.
Import FlowField Canvas.
Variable random : nat -> Q.
Variable sqrt : Q -> Q.

Lemma timestep_range frameMs :
  (0.001 <= timestep frameMs /\ timestep frameMs <= 0.05)%Q.
Proof.
  unfold timestep. split.
  - apply Q.min_glb; [lra|apply Q.le_max_l].
  - apply Q.le_min_l.
Qed.

Lemma clampSpeed_slow v :
  Qltb (maxSpeed * maxSpeed) (v.1 * v.1 + v.2 * v.2) = false ->
  clampSpeed sqrt v = v.
Proof. intros H. unfold clampSpeed. by rewrite H. Qed.

Lemma clampSpeed_fast v :
  Qltb (maxSpeed * maxSpeed) (v.1 * v.1 + v.2 * v.2) = true ->
  clampSpeed sqrt v =
    (v.1 * (maxSpeed / sqrt (v.1 * v.1 + v.2 * v.2)),
     v.2 * (maxSpeed / sqrt (v.1 * v.1 + v.2 * v.2)))%Q.
Proof. intros H. unfold clampSpeed. by rewrite H. Qed.

Lemma steerAgent_committed ff l p r dt g a rc i x y vx0 vy0 acc :
  aget (posX a) i = Some x -> aget (posY a) i = Some y ->
  aget (velX a) i = Some vx0 -> aget (velY a) i = Some vy0 ->
  acceleration sqrt ff l p r a i x y = Some acc ->
  let v := accelerate sqrt (vx0, vy0) acc dt in
  classify ff l (x + v.1) (y + v.2) = Committed ->
  steerAgent random sqrt ff l p r dt (g, a, rc) i =
    Some (g,
          commit a i (landing ff l x y v)
            (if inWall ff l (x + v.1) (y + v.2)
             then (v.1 * 0.35, v.2 * 0.35)%Q else v),
          rc).
Proof.
  intros Hx Hy Hvx Hvy Hacc v Hc. unfold steerAgent, landing.
  rewrite Hx, Hy, Hvx, Hvy, Hacc. simpl. fold v. rewrite Hc.
  by destruct (inWall ff l (x + v.1) (y + v.2)).
Qed.

End Motion.

Lemma commit_reads a i pos vel x y vx vy :
  aget (Canvas.posX a) i = Some x -> aget (Canvas.posY a) i = Some y ->
  aget (Canvas.velX a) i = Some vx -> aget (Canvas.velY a) i = Some vy ->
  aget (Canvas.posX (Canvas.commit a i pos vel)) i =
    Some (Canvas.fround pos.1) /\
  aget (Canvas.posY (Canvas.commit a i pos vel)) i =
    Some (Canvas.fround pos.2) /\
  aget (Canvas.velX (Canvas.commit a i pos vel)) i =
    Some (Canvas.fround vel.1) /\
  aget (Canvas.velY (Canvas.commit a i pos vel)) i =
    Some (Canvas.fround vel.2).
Proof.
  intros Hx%aget_lt_length Hy%aget_lt_length Hvx%aget_lt_length
    Hvy%aget_lt_length.
  cbn [Canvas.commit Canvas.posX Canvas.posY Canvas.velX Canvas.velY].
  by rewrite !aget_aset_eq.
Qed.

Lemma tick_timestep random sqrt st now :
  Canvas.paused (Canvas.rf st) = false ->
  swarmOk (Canvas.par st) (Canvas.ag st) ->
  exists g s st',
    Canvas.updateSwarm random sqrt (Canvas.field st) (Canvas.lay st)
      (Canvas.par st) (Canvas.rf st) g (Canvas.ag st) (Canvas.randomCalls st)
      (Canvas.timestep (now - Canvas.lastFrameAt st)) = Some s /\
    Canvas.tick random sqrt st now = Some st' /\
    Canvas.gm st' = s.1.1 /\ Canvas.ag st' = s.1.2 /\
    Canvas.randomCalls st' = s.2.
Proof.
  intros Hp Ok. unfold Canvas.tick. rewrite Hp.
  match goal with |- context [Canvas.updateSwarm _ _ _ _ _ _ ?g _ _ ?dt] =>
    exists g;
    destruct (updateSwarm_total random sqrt (Canvas.field st) (Canvas.lay st)
                (Canvas.par st) (Canvas.rf st) g (Canvas.ag st)
                (Canvas.randomCalls st) dt Ok)
      as ([[g3 a3] rc3] & E & _) end.
  rewrite E. exists (g3, a3, rc3). simpl.
  destruct (Qle_bool 250 _); eexists; done.
Qed.

(** The demo scene allocates its swarm as [rebuildSwarm] does, and the
    hash of its first frame is well linked. *)
Lemma demoWave_swarmOk : swarmOk (Canvas.par demoWave) (Canvas.ag demoWave).
Proof. concrete_wf. Qed.

Lemma demoHashed_ok :
  swarmOk (Canvas.par demoWave) demoHashed /\
  chained (Canvas.par demoWave) demoHashed.
Proof.
  assert (E : demoHashed =
    Canvas.rebuildBuckets (Canvas.field demoWave) (Canvas.lay demoWave)
      (Canvas.par demoWave) (Canvas.ag demoWave))
    by (vm_compute; reflexivity).
  rewrite E.
  destruct (rebuildBuckets_ok (Canvas.field demoWave) (Canvas.lay demoWave)
              (Canvas.par demoWave) (Canvas.ag demoWave) demoWave_swarmOk)
    as [Ok Hh].
  split; [exact Ok|]. exact (hashed_chained _ _ _ Hh).
Qed.

(** ** Steps next to walls *)








(** ** Claims on the motion of agents *)

(** C4 as stated fails: in the first frame of the example wave the time
    step is 0.016, and agent 0 ends at its previous position plus its new
    velocity (to within the rounding of the stores, below one millionth),
    more than half a pixel away from its previous position plus the new
    velocity times the time step. *)
Lemma position_is_not_scaled_by_timestep :
  Canvas.tick demoRandom demoSqrt demoWave 16 = Some demoFrame /\
  exists x x' vx' : Q,
    aget (Canvas.posX (Canvas.ag demoWave)) 0 = Some x /\
    aget (Canvas.posX (Canvas.ag demoFrame)) 0 = Some x' /\
    aget (Canvas.velX (Canvas.ag demoFrame)) 0 = Some vx' /\
    (Canvas.timestep (16 - Canvas.lastFrameAt demoWave) == 0.016)%Q /\
    (Qabs (x' - (x + vx')) <= 1 # 1000000)%Q /\
    (1 # 2 <=
     Qabs (x' -
           (x + vx' * Canvas.timestep (16 - Canvas.lastFrameAt demoWave))))%Q.
Proof.
  split; [vm_compute; reflexivity|].
  eexists _, _, _.
  do 3 (split; [vm_compute; reflexivity|]).
  split; [vm_compute; reflexivity|].
  split; vm_compute; discriminate.
Qed.

(** C4, amended.  For an agent of a swarm whose hash has been built, the
    summed acceleration is computed; if the step is then committed without
    meeting a wall (the tentative position stays on the canvas, outside the
    capture radius of the base and out of wall cells), the new velocity is
    the previous velocity times the damping factor 0.86, which is below 1,
    plus the summed acceleration times [dt], clamped to the maximum speed;
    the new position is the previous position plus the new velocity, which
    is a displacement per tick and is not multiplied by the time step
    again; both are stored in [Float32Array]s, which hold their binary32
    roundings; and the [dt] that a tick hands to the step is the frame time
    clamped to the range from 0.001 to 0.05. *)
Theorem agent_step_integrates_velocity
    (random : nat -> Q) (sqrt : Q -> Q)
    (ff : FlowField.t) (l : Canvas.layout) (p : Canvas.params)
    (r : Canvas.refs) (dt : Q) (g : Canvas.game) (a : Canvas.agents)
    (rc : nat) (i : Z) (x y vx0 vy0 : Q) :
  swarmOk p a -> chained p a ->
  aget (Canvas.posX a) i = Some x -> aget (Canvas.posY a) i = Some y ->
  aget (Canvas.velX a) i = Some vx0 -> aget (Canvas.velY a) i = Some vy0 ->
  exists acc,
    Canvas.acceleration sqrt ff l p r a i x y = Some acc /\
    let v0 := (vx0 * Canvas.damping + acc.1 * dt,
               vy0 * Canvas.damping + acc.2 * dt)%Q in
    let v := Canvas.clampSpeed sqrt v0 in
    let a' := Canvas.commit a i (x + v.1, y + v.2)%Q v in
    (Canvas.classify ff l (x + v.1) (y + v.2) = Canvas.Committed ->
     Canvas.inWall ff l (x + v.1) (y + v.2) = false ->
     Canvas.steerAgent random sqrt ff l p r dt (g, a, rc) i =
       Some (g, a', rc) /\
     aget (Canvas.velX a') i = Some (Canvas.fround v.1) /\
     aget (Canvas.velY a') i = Some (Canvas.fround v.2) /\
     aget (Canvas.posX a') i = Some (Canvas.fround (x + v.1)) /\
     aget (Canvas.posY a') i = Some (Canvas.fround (y + v.2))) /\
    (Canvas.damping < 1)%Q /\
    (Canvas.Qltb (Canvas.maxSpeed * Canvas.maxSpeed)
       (v0.1 * v0.1 + v0.2 * v0.2) = false -> v = v0) /\
    (Canvas.Qltb (Canvas.maxSpeed * Canvas.maxSpeed)
       (v0.1 * v0.1 + v0.2 * v0.2) = true ->
     v = (v0.1 * (Canvas.maxSpeed / sqrt (v0.1 * v0.1 + v0.2 * v0.2)),
          v0.2 * (Canvas.maxSpeed / sqrt (v0.1 * v0.1 + v0.2 * v0.2)))%Q) /\
    (forall frameMs,
       (0.001 <= Canvas.timestep frameMs /\
        Canvas.timestep frameMs <= 0.05)%Q) /\
    (forall st now,
       Canvas.paused (Canvas.rf st) = false ->
       swarmOk (Canvas.par st) (Canvas.ag st) ->
       exists g2 s st',
         Canvas.updateSwarm random sqrt (Canvas.field st) (Canvas.lay st)
           (Canvas.par st) (Canvas.rf st) g2 (Canvas.ag st)
           (Canvas.randomCalls st)
           (Canvas.timestep (now - Canvas.lastFrameAt st)) = Some s /\
         Canvas.tick random sqrt st now = Some st' /\
         Canvas.gm st' = s.1.1 /\ Canvas.ag st' = s.1.2 /\
         Canvas.randomCalls st' = s.2).
Proof.
  intros Ok Hch Hx Hy Hvx Hvy.
  destruct (acceleration_total sqrt ff l p r a i x y Ok Hch) as [acc Hacc].
  exists acc. split; [exact Hacc|]. intros v0 v a'.
  split.
  { intros Hc Hw.
    pose proof (steerAgent_committed random sqrt ff l p r dt g a rc i x y
                  vx0 vy0 acc Hx Hy Hvx Hvy Hacc) as Hs.
    unfold Canvas.accelerate in Hs. cbn [fst snd] in Hs. fold v0 in Hs.
    fold v in Hs. specialize (Hs Hc). unfold landing in Hs.
    rewrite Hw in Hs.
    destruct (commit_reads a i (x + v.1, y + v.2)%Q v x y vx0 vy0
                Hx Hy Hvx Hvy) as (Px & Py & Vx & Vy).
    split; [exact Hs|]. split; [exact Vx|]. split; [exact Vy|].
    split; [exact Px|exact Py]. }
  split; [by vm_compute|].
  split; [apply clampSpeed_slow|]. split; [apply clampSpeed_fast|].
  split; [apply timestep_range|]. apply tick_timestep.
Qed.

Lemma agent_step_integrates_velocity_witness :
  let ff := Canvas.field demoWave in
  let l := Canvas.lay demoWave in
  let p := Canvas.par demoWave in
  let r := Canvas.rf demoWave in
  let g := Canvas.gm demoWave in
  let a := demoHashed in
  let dt := 0.016%Q in
  let x := 10%Q in
  let y := 90%Q in
  let v0 := (0 * Canvas.damping + demoAcc.1 * dt,
             0 * Canvas.damping + demoAcc.2 * dt)%Q in
  let v := Canvas.clampSpeed demoSqrt v0 in
  let a' := Canvas.commit a 0 (x + v.1, y + v.2)%Q v in
  (swarmOk p a /\ chained p a /\
   aget (Canvas.posX a) 0 = Some x /\ aget (Canvas.posY a) 0 = Some y /\
   aget (Canvas.velX a) 0 = Some 0%Q /\ aget (Canvas.velY a) 0 = Some 0%Q) /\
  Canvas.acceleration demoSqrt ff l p r a 0 x y = Some demoAcc /\
  Canvas.classify ff l (x + v.1) (y + v.2) = Canvas.Committed /\
  Canvas.inWall ff l (x + v.1) (y + v.2) = false /\
  Canvas.steerAgent demoRandom demoSqrt ff l p r dt (g, a, 12%nat) 0 =
    Some (g, a', 12%nat) /\
  aget (Canvas.velX a') 0 = Some (Canvas.fround v.1) /\
  aget (Canvas.velY a') 0 = Some (Canvas.fround v.2) /\
  aget (Canvas.posX a') 0 = Some (Canvas.fround (x + v.1)) /\
  aget (Canvas.posY a') 0 = Some (Canvas.fround (y + v.2)).
Proof.
  cbv zeta.
  assert (Hacc : Canvas.acceleration demoSqrt (Canvas.field demoWave)
                   (Canvas.lay demoWave) (Canvas.par demoWave)
                   (Canvas.rf demoWave) demoHashed 0 10 90 = Some demoAcc)
    by (vm_compute; reflexivity).
  destruct demoHashed_ok as [Ok Hch].
  split.
  { split; [exact Ok|]. split; [exact Hch|].
    repeat split; vm_compute; reflexivity. }
  split; [exact Hacc|].
  destruct (agent_step_integrates_velocity demoRandom demoSqrt
              (Canvas.field demoWave) (Canvas.lay demoWave)
              (Canvas.par demoWave) (Canvas.rf demoWave) 0.016%Q
              (Canvas.gm demoWave) demoHashed 12%nat 0 10%Q 90%Q 0%Q 0%Q
              Ok Hch)
    as (acc & Hacc' & Hstep & _); try (vm_compute; reflexivity).
  rewrite Hacc in Hacc'. injection Hacc' as <-.
  cbv zeta in Hstep.
  split; [vm_compute; reflexivity|]. split; [vm_compute; reflexivity|].
  apply Hstep; vm_compute; reflexivity.
Defined.


(** The tentative position of agent 0 of [demoNearWall] is in the open
    cell (0, 2), a quarter of a millionth of a pixel left of the wall cell
    (1, 2); its binary32 rounding, which is what the step stores, is 20,
    in the wall cell; the agent is still there two frames later. *)
Lemma rounding_puts_agent_on_wall_cell :
  let ff := Canvas.field demoNearWall in
  let l := Canvas.lay demoNearWall in
  let a := Canvas.ag demoNearWall in
  let v := Canvas.accelerate demoSqrt (4877095 # 8388608, 0)%Q (0, 52)%Q
             (Canvas.timestep 16) in
  FlowField.isWall ff 1 2 = true /\
  aget (Canvas.posX a) 0 = Some (39 # 2)%Q /\
  aget (Canvas.posY a) 0 = Some 50%Q /\
  aget (Canvas.velX a) 0 = Some (4877095 # 8388608)%Q /\
  aget (Canvas.velY a) 0 = Some 0%Q /\
  Canvas.inWall ff l 19.5 50 = false /\
  Canvas.cellOf l (19.5 + v.1) (50 + v.2) = (0, 2) /\
  Canvas.inWall ff l (19.5 + v.1) (50 + v.2) = false /\
  Canvas.cellOf l (Canvas.fround (19.5 + v.1)) (Canvas.fround (50 + v.2)) =
    (1, 2) /\
  Canvas.tick demoRandom demoSqrt demoNearWall 16 = Some demoNearWall1 /\
  Canvas.tick demoRandom demoSqrt demoNearWall1 32 = Some demoNearWall2 /\
  Canvas.tick demoRandom demoSqrt demoNearWall2 48 = Some demoNearWall3 /\
  Forall (fun st =>
            Canvas.field st = ff /\ Canvas.lay st = l /\
            aget (Canvas.posX (Canvas.ag st)) 0 = Some 20%Q /\
            aget (Canvas.posY (Canvas.ag st)) 0 =
              Some (Canvas.fround (50 + v.2)) /\
            Canvas.inWall ff l 20 (Canvas.fround (50 + v.2)) = true)
         [demoNearWall1; demoNearWall2; demoNearWall3].
Proof.
  cbv zeta. do 12 (split; [vm_compute; reflexivity|]).
  do 3 (constructor;
          [do 4 (split; [vm_compute; reflexivity|]); vm_compute; reflexivity|]).
  constructor.
Qed.



(** ** Every input of the canvas is handled *)

Section Reach.
Import FlowField Canvas.
Variable random : nat -> Q.
Variable sqrt : Q -> Q.

Lemma editAtClient_total st x y :
  wf (field st) ->
  exists st', editAtClient st x y = Some st' /\
    par st' = par st /\ ag st' = ag st.
Proof.
  intros Hwf. unfold editAtClient.
  destruct (cellOf (lay st) x y) as [gx gy].
  destruct (negb (inBounds (field st) gx gy)); [by eexists|].
  destruct ((gx =? targetX (field st)) && (gy =? targetY (field st)));
    [by eexists|].
  match goal with |- context [if ?c then Some st else _] => destruct c end;
    [by eexists|].
  set (b := negb _).
  pose proof (wf_setWall (field st) gx gy b Hwf) as Hwf'.
  destruct (generate_total _ Hwf' (targetX (setWall (field st) gx gy b))
              (targetY (setWall (field st) gx gy b))) as (ff' & E & _).
  rewrite E. simpl. by eexists.
Qed.

Lemma applyTerrain_swarm st c st' :
  applyTerrain st c = Some st' -> par st' = par st /\ ag st' = ag st.
Proof.
  unfold applyTerrain. destruct (generate _ _ _); simpl; [|done].
  by intros [= <-].
Qed.

Lemma applyPilot_total st b :
  wf (field st) ->
  exists st', applyPilot st b = Some st' /\
    par st' = par st /\ ag st' = ag st.
Proof.
  intros Hwf. unfold applyPilot. destruct b; [by eexists|].
  destruct (applyTerrain_regenerates
              (withRequest st (pilotRequestId st + 1)) None Hwf)
    as (st' & E & _).
  exists st'. split; [done|]. by apply applyTerrain_swarm in E.
Qed.

Lemma pilotSettled_total st reqId c :
  wf (field st) ->
  exists st', pilotSettled st reqId c = Some st' /\
    par st' = par st /\ ag st' = ag st.
Proof.
  intros Hwf. unfold pilotSettled. destruct (negb _); [by eexists|].
  destruct (applyTerrain_regenerates st c Hwf) as (st' & E & _).
  exists st'. split; [done|]. by apply applyTerrain_swarm in E.
Qed.

Lemma setGridSize_total st n :
  exists st', setGridSize random st n = Some st' /\
    swarmOk (par st') (ag st').
Proof.
  unfold setGridSize. set (size := Z.max 24 (Z.min 128 (Qfloor n))).
  destruct (rebuildField_new size (lay st)) as (ff' & l' & E & R & _);
    [lia|].
  rewrite E. simpl.
  match goal with |- context [applyPilot ?s ?b] =>
    destruct (applyPilot_total s b) as (st2 & -> & _);
      [simpl; by apply regenerated_facts|] end.
  simpl. eexists. split; [done|]. simpl. apply rebuildSwarm_ok.
Qed.

(** Each input is handled, and leaves a state in which the next one is. *)
Lemma handle_total st e :
  ready st -> exists st', handle random sqrt st e = Some st' /\ ready st'.
Proof.
  intros [I Ok].
  assert (Hwf : wf (field st)) by (by destruct I).
  assert (Hex : exists st', handle random sqrt st e = Some st' /\
                  swarmOk (par st') (ag st')).
  { destruct e; simpl.
    - destruct (tick_total random sqrt st now Ok) as (st' & E & _ & _ & Ok').
      eauto.
    - destruct (editAtClient_total st x y Hwf) as (st' & E & P & A).
      exists st'. split; [done|]. by rewrite P, A.
    - eexists. split; [done|]. exact Ok.
    - eexists. split; [done|]. apply rebuildSwarm_ok.
    - eexists. split; [done|]. exact Ok.
    - eexists. split; [done|]. apply rebuildSwarm_ok.
    - apply setGridSize_total.
    - destruct (applyPilot_total (withPilot st p) p Hwf) as (st' & E & P & A).
      exists st'. split; [done|]. by rewrite P, A.
    - destruct (pilotSettled_total st reqId c Hwf) as (st' & E & P & A).
      exists st'. split; [done|]. by rewrite P, A. }
  destruct Hex as (st' & E & Ok'). exists st'. split; [done|].
  split; [|done]. by apply (handle_targetOpen random sqrt st e).
Qed.

Lemma run_total es : forall st,
  ready st -> exists st', run random sqrt st es = Some st' /\ ready st'.
Proof.
  unfold run. induction es as [|e es IH]; intros st I; cbn [fold_left].
  - eauto.
  - destruct (handle_total st e I) as (st1 & E & I1).
    assert (Hstep : (s ← Some st; handle random sqrt s e) = Some st1)
      by exact E.
    rewrite Hstep. by apply IH.
Qed.

Lemma init_total gridSize w h r now :
  0 < gridSize -> gridSize * gridSize < 2147483648 ->
  exists st, init random gridSize w h r now = Some st /\ ready st.
Proof.
  intros Hg Hsq.
  assert (Hex : exists st, init random gridSize w h r now = Some st /\
                  swarmOk (par st) (ag st)).
  { unfold init, rebuildField.
    assert (Hwf : wf (FlowField.new gridSize gridSize))
      by (apply wf_new; lia).
    destruct (generate_total _ Hwf
                (width (FlowField.new gridSize gridSize) / 2)
                (height (FlowField.new gridSize gridSize) / 2))
      as (ff' & E & Hwf' & _).
    rewrite E. simpl.
    match goal with |- context [applyPilot ?s ?b] =>
      destruct (applyPilot_total s b) as (st & E2 & P & A);
        [exact Hwf'|] end.
    exists st. split; [exact E2|]. rewrite P, A. simpl.
    apply rebuildSwarm_ok. }
  destruct Hex as (st & E & Ok). exists st. split; [done|].
  split; [|done]. by apply (init_targetOpen random gridSize w h r now).
Qed.
End Reach.

(** C9. The canvas is created and handles every sequence of pointer edits,
    terrain applications and other inputs, and in the state it reaches the
    target cell is not a wall: a pointer edit on the target cell leaves the
    state as it was, and the terrain handed to [generate] by a terrain
    application has the target cell walkable. *)
Theorem target_never_becomes_wall (random : nat -> Q) (sqrt : Q -> Q)
    (gridSize : Z) (w h : Q) (r : Canvas.refs) (now : Q)
    (es : list Canvas.event) :
  0 < gridSize -> gridSize * gridSize < 2147483648 ->
  exists st0 st,
    Canvas.init random gridSize w h r now = Some st0 /\
    Canvas.run random sqrt st0 es = Some st /\
    FlowField.isWall (Canvas.field st)
      (FlowField.targetX (Canvas.field st))
      (FlowField.targetY (Canvas.field st)) = false /\
    (forall x y,
       Canvas.cellOf (Canvas.lay st) x y =
         (FlowField.targetX (Canvas.field st),
          FlowField.targetY (Canvas.field st)) ->
       Canvas.editAtClient st x y = Some st) /\
    (forall c,
       FlowField.isWall (Canvas.terrain (Canvas.field st) c)
         (FlowField.targetX (Canvas.field st))
         (FlowField.targetY (Canvas.field st)) = false).
Proof.
  intros Hg Hsq.
  destruct (init_total random gridSize w h r now Hg Hsq) as (st0 & Hinit & I0).
  destruct (run_total random sqrt es st0 I0)
    as (st & Hrun & [[Hwf W H TX TY Hopen] _]).
  exists st0, st. split; [done|]. split; [done|].
  split; [done|]. split.
  - intros x y Hc. unfold Canvas.editAtClient. rewrite Hc, !Z.eqb_refl.
    simpl. by destruct (FlowField.inBounds _ _ _).
  - intros c. unfold FlowField.isWall.
    pose proof (forcedOpen_terrain (Canvas.field st) c Hwf) as Ho.
    pose proof (terrain_width (Canvas.field st) c) as WT.
    pose proof (terrain_height (Canvas.field st) c) as HT.
    set (T := Canvas.terrain (Canvas.field st) c) in *.
    rewrite TX, TY, <- WT, <- HT.
    rewrite Ho; [done| |left; lia].
    apply centre_inBounds; lia.
Qed.

Lemma target_never_becomes_wall_witness :
  (0 < 5 /\ 5 * 5 < 2147483648) /\
  Canvas.init demoRandom 5 100 100 demoRefs 0 = Some demoIdle /\
  Canvas.run demoRandom demoSqrt demoIdle demoInputs = Some demoBusy /\
  FlowField.isWall (Canvas.field demoBusy)
    (FlowField.targetX (Canvas.field demoBusy))
    (FlowField.targetY (Canvas.field demoBusy)) = false /\
  (forall x y,
     Canvas.cellOf (Canvas.lay demoBusy) x y =
       (FlowField.targetX (Canvas.field demoBusy),
        FlowField.targetY (Canvas.field demoBusy)) ->
     Canvas.editAtClient demoBusy x y = Some demoBusy) /\
  (forall c,
     FlowField.isWall (Canvas.terrain (Canvas.field demoBusy) c)
       (FlowField.targetX (Canvas.field demoBusy))
       (FlowField.targetY (Canvas.field demoBusy)) = false).
Proof.
  split; [lia|].
  assert (Hinit : Canvas.init demoRandom 5 100 100 demoRefs 0 = Some demoIdle)
    by (vm_compute; reflexivity).
  assert (Hrun : Canvas.run demoRandom demoSqrt demoIdle demoInputs =
                   Some demoBusy) by (vm_compute; reflexivity).
  split; [exact Hinit|]. split; [exact Hrun|].
  destruct (target_never_becomes_wall demoRandom demoSqrt 5 100 100 demoRefs 0
              demoInputs) as (st0 & st & E0 & E & Hfacts); [lia|lia|].
  rewrite Hinit in E0. injection E0 as <-.
  rewrite Hrun in E. injection E as <-.
  exact Hfacts.
Defined.

(** * Further properties of the code *)

(** ** The flood fill computes shortest distances *)

Section Shortest.
Import FlowField.
Variable ff : t.
Hypothesis Hwf : wf ff.
Variable s : Z.

Lemma relax_close cur D head cx cy d st :
  visiting ff s cur D head st ->
  inBounds ff cx cy = true -> idx ff cx cy = cur ->
  inBounds ff (cx + d.1) (cy + d.2) = true ->
  is255 (aget (cost ff) (idx ff (cx + d.1) (cy + d.2))) = false ->
  exists v, aget (relax ff (D + 1) cx cy st d).1.1
              (idx ff (cx + d.1) (cy + d.2)) = Some v /\ v <= D + 1.
Proof.
  destruct st as [[integ q] tail]. intros (I & Hcur & HD) Hin Hidx Hnb Hw.
  unfold relax. rewrite Hnb. simpl.
  change ((cy + d.2) * width ff + (cx + d.1))
    with (idx ff (cx + d.1) (cy + d.2)).
  set (ni := idx ff (cx + d.1) (cy + d.2)) in *. rewrite Hw.
  assert (Hnir : 0 <= ni < cells ff) by (by apply idx_range).
  destruct (aget_is_Some integ ni) as [w Hni].
  { rewrite (bi_integ _ _ _ _ _ _ I). lia. }
  rewrite Hni. simpl. destruct (Z.ltb_spec (D + 1) w); simpl.
  - exists (D + 1). split; [|lia]. apply aget_aset_eq.
    rewrite (bi_integ _ _ _ _ _ _ I). lia.
  - exists w. split; [done|lia].
Qed.

Lemma relax_all_close cur D head cx cy l : forall st,
  visiting ff s cur D head st ->
  inBounds ff cx cy = true -> idx ff cx cy = cur ->
  (forall d, d ∈ l -> d ∈ N4) ->
  forall d, d ∈ l ->
    inBounds ff (cx + d.1) (cy + d.2) = true ->
    is255 (aget (cost ff) (idx ff (cx + d.1) (cy + d.2))) = false ->
    exists v, aget (fold_left (relax ff (D + 1) cx cy) l st).1.1
                (idx ff (cx + d.1) (cy + d.2)) = Some v /\ v <= D + 1.
Proof.
  induction l as [|d0 l IH]; intros st V Hin Hidx Hl d Hd Hnb Hw;
    [by apply elem_of_nil in Hd|].
  cbn [fold_left].
  destruct (relax_visiting ff s cur D head cx cy d0 st V Hin Hidx)
    as [V1 K1]; [apply Hl; by left|].
  assert (Hl' : forall d', d' ∈ l -> d' ∈ N4).
  { intros d' Hd'. apply Hl. by right. }
  apply elem_of_cons in Hd as [->|Hd]; [|by apply IH].
  destruct (relax_close cur D head cx cy d0 st V Hin Hidx Hnb Hw)
    as (v & Hv & Hle).
  destruct (relax_all ff s cur D head cx cy l _ V1 Hin Hidx Hl')
    as (V2 & K2 & _).
  destruct (decide (v = INF)) as [->|Hfin].
  - destruct (fold_left _ l _) as [[i2 q2] t2]. destruct V2 as (I2 & _ & _).
    simpl. pose proof (idx_range ff _ _ Hnb) as Hr.
    destruct (aget_is_Some i2 (idx ff (cx + d0.1) (cy + d0.2))) as [v2 Hv2].
    { rewrite (bi_integ _ _ _ _ _ _ I2). unfold cells. lia. }
    exists v2. split; [done|].
    pose proof (bi_range _ _ _ _ _ _ I2 _ _ Hv2). lia.
  - exists v. split; [|done]. by apply K2.
Qed.

Lemma visit_close integ q head tail :
  bfs_inv ff s integ q head tail -> (head < tail)%nat ->
  done_close ff integ q head tail ->
  let st' := visit ff integ q head tail in
  done_close ff st'.1.1 st'.1.2 (S head) st'.2.
Proof.
  intros I Hlt Hdone. unfold visit.
  assert (Hq : exists cur, take tail q !! head = Some cur).
  { apply lookup_lt_is_Some. rewrite length_take, (bi_queue _ _ _ _ _ _ I).
    pose proof (bi_tail _ _ _ _ _ _ I). lia. }
  destruct Hq as [cur Hcur].
  assert (Hq : q !! head = Some cur) by (by rewrite lookup_take_lt in Hcur).
  rewrite Hq.
  destruct (bi_queued _ _ _ _ _ _ I _ _ Hcur) as (Hcr & _ & D & HD & HDlt & HDk).
  rewrite HD. pose proof (bi_range _ _ _ _ _ _ I _ _ HD) as HDr.
  rewrite land_u16_small by (unfold INF in *; lia).
  destruct (cell_coords ff Hwf cur Hcr) as [Hin Hidx].
  set (cx := Z.rem cur (width ff)) in *.
  set (cy := toInt32 (Z.quot cur (width ff))) in *.
  assert (V0 : visiting ff s cur D head (integ, q, tail)) by done.
  destruct (relax_all ff s cur D head cx cy N4 (integ, q, tail))
    as (V & K & _); [done|done|done|done|].
  pose proof (relax_all_close cur D head cx cy N4 (integ, q, tail) V0 Hin Hidx
                ltac:(done)) as Hclose.
  set (st' := fold_left (relax ff (D + 1) cx cy) N4 (integ, q, tail)) in *.
  destruct st' as [[integ' q'] tail']. simpl in *.
  destruct V as (I' & Hcur' & HD'). destruct K as [Kv Kq]. simpl in Kv, Kq.
  intros k c p Hk Hc Hadj Hw.
  destruct (decide (k = head)) as [->|Hne].
  - rewrite Hcur' in Hc. injection Hc as <-.
    destruct Hadj as (x & y & d & Hd & Hxy & Hxyc & Hnb & Hp).
    destruct (idx_inj ff Hwf x y cx cy) as [-> ->]; [done|done|congruence|].
    subst p. destruct (Hclose d Hd Hnb Hw) as (v & Hv & Hle).
    exists D, v. done.
  - assert (Hk' : (k < head)%nat) by lia.
    assert (Hq' : exists c', take tail q !! k = Some c').
    { apply lookup_lt_is_Some. rewrite length_take, (bi_queue _ _ _ _ _ _ I).
      pose proof (bi_tail _ _ _ _ _ _ I). lia. }
    destruct Hq' as [c' Hc']. pose proof (Kq _ _ Hc') as Hc''.
    rewrite Hc in Hc''. injection Hc'' as <-.
    destruct (Hdone k c p Hk' Hc' Hadj Hw) as (vc & vp & Hvc & Hvp & Hle).
    destruct (bi_queued _ _ _ _ _ _ I _ _ Hc') as (_ & _ & v & Hv & Hvlt & _).
    rewrite Hvc in Hv. injection Hv as <-.
    exists vc. destruct (decide (vp = INF)) as [->|Hfin].
    + destruct (aget_is_Some integ' p) as [vp' Hvp'].
      { rewrite (bi_integ _ _ _ _ _ _ I'), <- (bi_integ _ _ _ _ _ _ I).
        by eapply aget_lt_length. }
      exists vp'. split; [apply Kv; [done|lia]|]. split; [done|].
      pose proof (bi_range _ _ _ _ _ _ I' _ _ Hvp'). lia.
    + exists vp. split; [apply Kv; [done|lia]|]. split; [by apply Kv|done].
Qed.

Lemma bfs_close fuel : forall integ q head tail integ' q',
  bfs_inv ff s integ q head tail -> done_close ff integ q head tail ->
  bfs fuel ff integ q head tail = Some (integ', q') ->
  exists tail', bfs_inv ff s integ' q' tail' tail' /\
    done_close ff integ' q' tail' tail'.
Proof.
  induction fuel as [|fuel IH]; intros integ q head tail integ' q' I Hd;
    simpl; pose proof (bi_head _ _ _ _ _ _ I);
    destruct (Nat.ltb_spec head tail) as [Hlt|].
  - done.
  - assert (head = tail) as -> by lia. intros [= <- <-]. eauto.
  - destruct (visit_inv ff Hwf s integ q head tail I Hlt) as [I' _].
    pose proof (visit_close integ q head tail I Hlt Hd) as Hd'.
    destruct (visit ff integ q head tail) as [[integ1 q1] tail1].
    simpl in *. by apply IH.
  - assert (head = tail) as -> by lia. intros [= <- <-]. eauto.
Qed.
End Shortest.

Section ShortestPaths.
Import FlowField.
Variable ff : t.
Hypothesis Hwf : wf ff.
Variables tx ty : Z.
Hypothesis Htarget : inBounds ff tx ty = true.
Hypothesis Hopen : isWall ff tx ty = false.

(** The field returned for a valid target, with its two invariants. *)
Lemma generate_close :
  exists integ q,
    generate ff tx ty = Some (generated ff tx ty integ q) /\
    flooded ff (idx ff tx ty) integ /\ lipschitz ff integ.
Proof using Hwf Htarget Hopen.
  destruct (bfs_flooded ff Hwf tx ty Htarget Hopen) as (integ & q & E & F & Lq).
  exists integ, q. split; [|split; [done|]].
  { unfold generate, generated. rewrite Htarget, Hopen. simpl.
    fold (cells ff). rewrite E. unfold afill.
    by rewrite (wf_direction ff Hwf). }
  pose proof (bfs_init ff Hwf tx ty Htarget Hopen) as I0.
  destruct (bfs_close ff Hwf (idx ff tx ty) (Z.to_nat (cells ff)) _ _ _ _
              integ q I0) as (tail & I & Hd); [|exact E|].
  { intros k c p Hk. lia. }
  intros c p vc Hc Hfin Hadj Hw.
  pose proof (bi_reached _ _ _ _ _ _ I _ _ Hc Hfin) as Hmem.
  apply list_elem_of_lookup in Hmem as [k Hk].
  destruct (Hd k c p) as (vc' & vp & Hvc & Hvp & Hle); try done.
  { apply lookup_lt_Some in Hk. rewrite length_take in Hk. lia. }
  rewrite Hc in Hvc. injection Hvc as <-. eauto.
Qed.

Variable integ : list Z.
Hypothesis Hflood : flooded ff (idx ff tx ty) integ.

(** A finite distance [v] is the length of a path from the target. *)
Lemma reached_walk (n : nat) : forall x y v,
  inBounds ff x y = true -> aget integ (idx ff x y) = Some v ->
  v <> INF -> v = Z.of_nat n -> walk ff tx ty n x y.
Proof using Hwf Htarget Hflood.
  induction n as [|n IH]; intros x y v Hin Hv Hfin Hn.
  - destruct (decide (idx ff x y = idx ff tx ty)) as [E|Hne].
    + destruct (idx_inj ff Hwf x y tx ty Hin Htarget E) as [-> ->].
      constructor.
    + destruct (fl_parent _ _ _ Hflood _ _ Hv Hfin Hne) as [? _]. lia.
  - destruct (decide (idx ff x y = idx ff tx ty)) as [E|Hne].
    { rewrite E, (fl_start _ _ _ Hflood) in Hv. injection Hv as <-. lia. }
    destruct (fl_parent _ _ _ Hflood _ _ Hv Hfin Hne)
      as [_ (p & (x' & y' & d & Hd & Hxy & Hc & Hnb & Hp) & Hvp)].
    destruct (idx_inj ff Hwf x' y' x y Hxy Hin Hc) as [-> ->]. subst p.
    pose proof (fl_range _ _ _ Hflood _ _ Hv) as Hr.
    assert (W : walk ff tx ty n (x + d.1) (y + d.2)).
    { apply (IH _ _ (v - 1)); [done|done|lia|lia]. }
    pose proof (walk_step ff tx ty n (x + d.1) (y + d.2) (- d.1) (- d.2) W)
      as S.
    replace (x + d.1 + - d.1) with x in S by lia.
    replace (y + d.2 + - d.2) with y in S by lia.
    apply S; [by apply (N4_opposite d)|done|].
    unfold isWall. by apply (fl_open _ _ _ Hflood _ _ Hv).
Qed.

Hypothesis Hclose : lipschitz ff integ.

(** No path from the target is shorter than the distance. *)
Lemma walk_bound n x y :
  walk ff tx ty n x y ->
  inBounds ff x y = true /\
  exists v, aget integ (idx ff x y) = Some v /\ v <= Z.of_nat n.
Proof using Hwf Htarget Hflood Hclose.
  induction 1 as [|n x y dx dy W [Hin (v & Hv & Hle)] Hd Hnb Hw].
  - split; [done|]. exists 0. split; [apply Hflood|lia].
  - split; [done|].
    pose proof (idx_range ff _ _ Hnb) as Hr.
    destruct (aget_is_Some integ (idx ff (x + dx) (y + dy))) as [w Hw'].
    { rewrite (fl_len _ _ _ Hflood). unfold cells. lia. }
    exists w. split; [done|].
    pose proof (fl_range _ _ _ Hflood _ _ Hw') as Hwr.
    pose proof (fl_range _ _ _ Hflood _ _ Hv) as Hvr.
    destruct (decide (v = INF)) as [->|Hfin]; [lia|].
    destruct (Hclose (idx ff x y) (idx ff (x + dx) (y + dy)) v Hv Hfin)
      as (w' & Hw2 & Hle2).
    + exists x, y, (dx, dy). done.
    + exact Hw.
    + rewrite Hw' in Hw2. injection Hw2 as <-. lia.
Qed.
End ShortestPaths.

Lemma walk_connected ff tx ty n x y :
  walk ff tx ty n x y -> FlowField.connected ff tx ty x y.
Proof.
  induction 1; [constructor|]. by apply FlowField.connected_step.
Qed.

Lemma connected_walk ff tx ty x y :
  FlowField.connected ff tx ty x y -> exists n, walk ff tx ty n x y.
Proof.
  induction 1 as [|x y dx dy _ [n W] Hd Hnb Hw]; [exists 0%nat; constructor|].
  exists (S n). by apply walk_step.
Qed.

(** ** The order of the neighbour scan *)

Section ScanOrder.
Import FlowField.
Variable ff : t.
Variable integ : list Z.

(** The direction kept by the scan is that of the first offset, in the
    order of the list, whose neighbour has the least distance. *)
Lemma scan_first x y l best bd :
  let r := fold_left (scanDir ff integ x y) l (best, bd) in
  r = (best, bd) \/
  exists i dx dy, l !! i = Some (r.2, (dx, dy)) /\
    aget integ (idx ff (x + dx) (y + dy)) = Some r.1 /\
    forall j dir ex ey nd, (j < i)%nat -> l !! j = Some (dir, (ex, ey)) ->
      eligible ff x y ex ey ->
      aget integ (idx ff (x + ex) (y + ey)) = Some nd -> r.1 < nd.
Proof.
  induction l as [|[dir [dx dy]] l IH] using rev_ind; cbn zeta.
  - by left.
  - rewrite fold_left_app. cbn [fold_left].
    destruct (scan_fold ff integ x y l best bd) as (_ & _ & Hmin).
    set (r := fold_left (scanDir ff integ x y) l (best, bd)) in *.
    assert (Ha : scanDir ff integ x y r (dir, (dx, dy)) = r \/
                 exists nd, scanDir ff integ x y r (dir, (dx, dy)) = (nd, dir) /\
                   aget integ (idx ff (x + dx) (y + dy)) = Some nd /\
                   nd < r.1).
    { destruct r as [b d0]. unfold scanDir.
      change ((y + dy) * width ff + (x + dx)) with (idx ff (x + dx) (y + dy)).
      destruct (inBounds ff (x + dx) (y + dy)); simpl; [|by left].
      destruct (canUseDiagonal ff x y dx dy); simpl; [|by left].
      destruct (aget integ _) as [nd|]; [|by left].
      destruct (Z.ltb_spec nd b); [right; eauto|by left]. }
    destruct Ha as [->|(nd & -> & Hnd & Hlt)].
    + destruct IH as [E|(i & ex & ey & Hi & Hv & Hbefore)]; [by left|].
      right. exists i, ex, ey. split; [by apply lookup_app_l_Some|].
      split; [done|].
      intros j dir' ex' ey' nd' Hj Hl. apply (Hbefore j dir' ex' ey' nd' Hj).
      apply lookup_lt_Some in Hi.
      rewrite lookup_app_l in Hl by lia. done.
    + right. exists (length l), dx, dy. simpl. split.
      * by rewrite lookup_app_r, Nat.sub_diag by lia.
      * split; [done|]. intros j dir' ex' ey' nd' Hj Hl He Hv.
        rewrite lookup_app_l in Hl by lia.
        apply list_elem_of_lookup_2 in Hl.
        specialize (Hmin dir' ex' ey' nd' Hl He Hv). lia.
Qed.

(** What the scan returns when it returns a direction. *)
Lemma picked_first x y l d dir :
  (fold_left (scanDir ff integ x y) l (d, FLOW_DIR_NONE)).2 = dir ->
  dir <> FLOW_DIR_NONE ->
  exists (i : nat) dx dy d',
    l !! i = Some (dir, (dx, dy)) /\
    aget integ (idx ff (x + dx) (y + dy)) = Some d' /\ d' < d /\
    forall (j : nat) dir' ex ey nd, l !! j = Some (dir', (ex, ey)) ->
      eligible ff x y ex ey ->
      aget integ (idx ff (x + ex) (y + ey)) = Some nd ->
      d' <= nd /\ ((j < i)%nat -> d' < nd).
Proof.
  intros Hdir Hne.
  destruct (scan_fold ff integ x y l d FLOW_DIR_NONE) as (_ & Hpick & Hmin).
  pose proof (scan_first x y l d FLOW_DIR_NONE) as Hfirst.
  cbv zeta in Hfirst.
  destruct (fold_left (scanDir ff integ x y) l (d, FLOW_DIR_NONE))
    as [rb rd] eqn:Er.
  simpl in *. subst rd.
  destruct Hfirst as [[= _ E]|(i & dx & dy & Hi & Hv & Hall)]; [congruence|].
  destruct Hpick as [[= _ E]|(Hlt & _)]; [congruence|].
  exists i, dx, dy, rb.
  split; [exact Hi|]. split; [exact Hv|]. split; [done|].
  intros j dir' fx fy nd Hj Hel' Hnd. split.
  - apply (Hmin dir' fx fy nd); [by eapply list_elem_of_lookup_2|done|done].
  - intros Hji. by apply (Hall j dir' fx fy nd).
Qed.
End ScanOrder.

Lemma N8dirs_nth (k : nat) e :
  FlowField.N8dirs !! k = Some e <->
  exists d, FlowField.N8 !! k = Some d /\ e = (Z.of_nat k, d).
Proof.
  do 8 (destruct k as [|k]; [simpl; split;
    [intros [= <-]; eauto | intros (d & [= <-] & ->); done]|]).
  simpl. split; [done|]. by intros (d & ? & _).
Qed.

(** The direction pass, read through [pickDirection]. *)
Lemma generated_picks ff tx ty integ q x y dir dx dy :
  FlowField.wf ff -> length integ = Z.to_nat (FlowField.cells ff) ->
  FlowField.inBounds ff x y = true ->
  FlowField.directionAt (generated ff tx ty integ q) x y = Some dir ->
  FlowField.decode dir = Some (dx, dy) ->
  exists d, aget integ (FlowField.idx ff x y) = Some d /\
    FlowField.pickDirection ff integ x y d = dir /\
    dir <> FlowField.FLOW_DIR_NONE.
Proof.
  intros Hwf Li Hxy Hdir Hdec.
  rewrite generated_direction in Hdir by done.
  injection Hdir as Hdir. unfold directionOf in Hdir.
  assert (Hne : dir <> FlowField.FLOW_DIR_NONE).
  { intros ->. unfold FlowField.decode in Hdec. simpl in Hdec. done. }
  destruct (is255 _); [congruence|].
  destruct (aget integ (FlowField.idx ff x y)) as [d|] eqn:Hd; [|congruence].
  destruct (_ || _); [congruence|].
  rewrite idx_col, idx_row in Hdir by done.
  exists d. done.
Qed.

Lemma picked_first_N8 ff integ x y d dir dx dy :
  FlowField.pickDirection ff integ x y d = dir ->
  dir <> FlowField.FLOW_DIR_NONE ->
  FlowField.decode dir = Some (dx, dy) ->
  exists d',
    aget integ (FlowField.idx ff (x + dx) (y + dy)) = Some d' /\ d' < d /\
    forall (k : nat) ex ey nd,
      FlowField.N8 !! k = Some (ex, ey) ->
      FlowField.inBounds ff (x + ex) (y + ey) = true ->
      FlowField.canUseDiagonal ff x y ex ey = true ->
      aget integ (FlowField.idx ff (x + ex) (y + ey)) = Some nd ->
      d' <= nd /\ (Z.of_nat k < dir -> d' < nd).
Proof.
  unfold FlowField.pickDirection. intros Hdir Hne Hdec.
  destruct (picked_first ff integ x y FlowField.N8dirs d dir Hdir Hne)
    as (i & ex & ey & d' & Hi & Hv & Hlt & Hall).
  apply N8dirs_nth in Hi as ([ex' ey'] & Hi & [= -> <- <-]).
  assert (Hdec' : FlowField.decode (Z.of_nat i) = Some (ex, ey)).
  { apply decode_N8dirs. apply (list_elem_of_lookup_2 _ i).
    apply N8dirs_nth. eauto. }
  rewrite Hdec' in Hdec. injection Hdec as <- <-.
  exists d'. split; [exact Hv|]. split; [done|].
  intros k fx fy nd Hk Hnb Hdiag Hnd.
  destruct (Hall k (Z.of_nat k) fx fy nd) as [Hle Hbefore];
    [apply N8dirs_nth; eauto|done|exact Hnd|].
  split; [done|]. intros Hki. apply Hbefore. lia.
Qed.

(** ** Further properties of [FlowField] *)

(** X1. After [generate] with an in-bounds, non-wall target, every wall
    cell and every cell that no 4-connected chain of walkable cells joins
    to the target holds the unreachable sentinel and the direction "none". *)
Theorem unreachable_cells_stay_blank (ff : FlowField.t) (tx ty : Z) :
  FlowField.wf ff ->
  FlowField.inBounds ff tx ty = true ->
  FlowField.isWall ff tx ty = false ->
  exists ff', FlowField.generate ff tx ty = Some ff' /\
    forall x y, FlowField.inBounds ff x y = true ->
      FlowField.isWall ff x y = true \/ ~ FlowField.connected ff tx ty x y ->
      FlowField.integrationAt ff' x y = Some FlowField.INF /\
      FlowField.directionAt ff' x y = Some FlowField.FLOW_DIR_NONE.
Proof.
  intros Hwf Hin Hw.
  destruct (generate_valid ff Hwf tx ty Hin Hw) as (integ & q & E & F & Lq).
  exists (generated ff tx ty integ q). split; [done|].
  intros x y Hxy Hbad. pose proof (idx_range ff x y Hxy) as Hr.
  destruct (aget_is_Some integ (FlowField.idx ff x y)) as [v Hv].
  { rewrite (fl_len _ _ _ F). unfold FlowField.cells. lia. }
  assert (v = FlowField.INF) as ->.
  { destruct (decide (v = FlowField.INF)) as [|Hfin]; [done|]. exfalso.
    destruct Hbad as [Hwall|Hnc].
    - unfold FlowField.isWall in Hwall.
      by rewrite (fl_open _ _ _ F _ _ Hv Hfin) in Hwall.
    - apply Hnc. pose proof (fl_range _ _ _ F _ _ Hv).
      apply (walk_connected ff tx ty (Z.to_nat v)).
      apply (reached_walk ff Hwf tx ty Hin integ F (Z.to_nat v) x y v);
        try done. lia. }
  split; [exact Hv|].
  rewrite generated_direction by (done || apply F).
  unfold directionOf. destruct (is255 _); [done|]. by rewrite Hv.
Qed.

Lemma unreachable_cells_stay_blank_witness :
  (FlowField.wf walled3 /\ FlowField.inBounds walled3 1 1 = true /\
   FlowField.isWall walled3 1 1 = false) /\
  exists ff', FlowField.generate walled3 1 1 = Some ff' /\
    (FlowField.inBounds walled3 1 0 = true /\
     FlowField.isWall walled3 1 0 = true /\
     FlowField.integrationAt ff' 1 0 = Some FlowField.INF /\
     FlowField.directionAt ff' 1 0 = Some FlowField.FLOW_DIR_NONE) /\
    (FlowField.inBounds walled3 0 0 = true /\
     FlowField.isWall walled3 0 0 = false /\
     ~ FlowField.connected walled3 1 1 0 0 /\
     FlowField.integrationAt ff' 0 0 = Some FlowField.INF /\
     FlowField.directionAt ff' 0 0 = Some FlowField.FLOW_DIR_NONE).
Proof.
  split; [split; [exact wf_walled3|split; reflexivity]|].
  destruct (unreachable_cells_stay_blank walled3 1 1 wf_walled3)
    as (ff' & E & H); [reflexivity|reflexivity|].
  exists ff'. split; [exact E|].
  assert (Hnc : ~ FlowField.connected walled3 1 1 0 0).
  { intros Hc.
    destruct (generate_valid walled3 wf_walled3 1 1) as (integ & q & E2 & F & _);
      [reflexivity|reflexivity|].
    destruct (connected_reached walled3 1 1 eq_refl integ q F 0 0)
      as (_ & d & Hd & Hfin); [reflexivity|reflexivity|exact Hc|].
    assert (Hd' : (f ← FlowField.generate walled3 1 1;
                   FlowField.integrationAt f 0 0) = Some d)
      by (rewrite E2; exact Hd).
    vm_compute in Hd'. injection Hd' as <-. by apply Hfin. }
  split.
  - split; [reflexivity|]. split; [reflexivity|].
    apply H; [reflexivity|]. left. reflexivity.
  - split; [reflexivity|]. split; [reflexivity|]. split; [exact Hnc|].
    apply H; [reflexivity|]. by right.
Defined.

(** X2. After [generate] with an in-bounds, non-wall target, the value
    stored for an in-bounds cell is a lower bound on the length of every
    4-connected path of walkable cells from the target to the cell, and a
    stored value other than the sentinel 65535 is the length of such a
    path: finite values are shortest-path distances, and a cell keeps the
    sentinel exactly when it has no path shorter than 65535 steps. *)
Theorem integration_is_shortest_distance (ff : FlowField.t) (tx ty : Z) :
  FlowField.wf ff ->
  FlowField.inBounds ff tx ty = true ->
  FlowField.isWall ff tx ty = false ->
  exists ff', FlowField.generate ff tx ty = Some ff' /\
    forall x y, FlowField.inBounds ff x y = true ->
      exists d, FlowField.integrationAt ff' x y = Some d /\
        0 <= d <= FlowField.INF /\
        (d <> FlowField.INF -> walk ff tx ty (Z.to_nat d) x y) /\
        (forall n, walk ff tx ty n x y -> d <= Z.of_nat n).
Proof.
  intros Hwf Hin Hw.
  destruct (generate_close ff Hwf tx ty Hin Hw) as (integ & q & E & F & L).
  exists (generated ff tx ty integ q). split; [done|].
  intros x y Hxy. pose proof (idx_range ff x y Hxy) as Hr.
  destruct (aget_is_Some integ (FlowField.idx ff x y)) as [v Hv].
  { rewrite (fl_len _ _ _ F). unfold FlowField.cells. lia. }
  pose proof (fl_range _ _ _ F _ _ Hv) as Hvr.
  exists v. split; [exact Hv|]. split; [done|]. split.
  - intros Hfin.
    apply (reached_walk ff Hwf tx ty Hin integ F (Z.to_nat v) x y v);
      try done. lia.
  - intros n W.
    destruct (walk_bound ff Hwf tx ty Hin integ F L n x y W)
      as (_ & v' & Hv' & Hle).
    rewrite Hv in Hv'. by injection Hv' as <-.
Qed.

Lemma integration_is_shortest_distance_witness :
  (FlowField.wf walled3 /\ FlowField.inBounds walled3 1 1 = true /\
   FlowField.isWall walled3 1 1 = false) /\
  exists ff', FlowField.generate walled3 1 1 = Some ff' /\
    FlowField.integrationAt ff' 2 0 = Some 2 /\
    walk walled3 1 1 2 2 0 /\
    (forall n, walk walled3 1 1 n 2 0 -> 2 <= Z.of_nat n).
Proof.
  split; [split; [exact wf_walled3|split; reflexivity]|].
  destruct (integration_is_shortest_distance walled3 1 1 wf_walled3)
    as (ff' & E & H); [reflexivity|reflexivity|].
  exists ff'. split; [exact E|].
  destruct (H 2 0 eq_refl) as (d & Hd & _ & Hwalk & Hmin).
  assert (E2 : FlowField.generate walled3 1 1 = Some ff') by exact E.
  vm_compute in E2. injection E2 as <-.
  vm_compute in Hd. injection Hd as <-.
  split; [reflexivity|]. split; [by apply Hwalk|exact Hmin].
Defined.

(** X3. A direction stored by [generate] points to the neighbour of least
    integration among the offsets that pass the bounds test and the
    diagonal rule, that least value is below the cell's own, and among
    offsets of equal value the one that comes first in the order of [N8]
    (east, south-east, south, ... north-east) is kept. *)
Theorem direction_is_first_steepest (ff : FlowField.t) (tx ty : Z) :
  FlowField.wf ff ->
  FlowField.inBounds ff tx ty = true ->
  FlowField.isWall ff tx ty = false ->
  exists ff', FlowField.generate ff tx ty = Some ff' /\
    forall x y dir dx dy, FlowField.inBounds ff x y = true ->
      FlowField.directionAt ff' x y = Some dir ->
      FlowField.decode dir = Some (dx, dy) ->
      exists d d',
        FlowField.integrationAt ff' x y = Some d /\
        FlowField.integrationAt ff' (x + dx) (y + dy) = Some d' /\
        d' < d /\
        forall (k : nat) ex ey nd,
          FlowField.N8 !! k = Some (ex, ey) ->
          FlowField.inBounds ff (x + ex) (y + ey) = true ->
          FlowField.canUseDiagonal ff x y ex ey = true ->
          FlowField.integrationAt ff' (x + ex) (y + ey) = Some nd ->
          d' <= nd /\ (Z.of_nat k < dir -> d' < nd).
Proof.
  intros Hwf Hin Hw.
  destruct (generate_valid ff Hwf tx ty Hin Hw) as (integ & q & E & F & Lq).
  exists (generated ff tx ty integ q). split; [done|].
  intros x y dir dx dy Hxy Hdir Hdec.
  destruct (generated_picks ff tx ty integ q x y dir dx dy Hwf
              (fl_len _ _ _ F) Hxy Hdir Hdec) as (d & Hd & Hpick & Hne).
  destruct (picked_first_N8 ff integ x y d dir dx dy Hpick Hne Hdec)
    as (d' & Hv & Hlt & Hall).
  exists d, d'. split; [exact Hd|]. split; [exact Hv|]. split; [done|].
  exact Hall.
Qed.

Lemma direction_is_first_steepest_witness :
  (FlowField.wf (FlowField.new 3 3) /\
   FlowField.inBounds (FlowField.new 3 3) 1 1 = true /\
   FlowField.isWall (FlowField.new 3 3) 1 1 = false) /\
  exists ff', FlowField.generate (FlowField.new 3 3) 1 1 = Some ff' /\
    FlowField.directionAt ff' 0 0 = Some 1 /\
    FlowField.decode 1 = Some (1, 1) /\
    exists d d',
      FlowField.integrationAt ff' 0 0 = Some d /\
      FlowField.integrationAt ff' (0 + 1) (0 + 1) = Some d' /\
      d' < d /\
      forall (k : nat) ex ey nd,
        FlowField.N8 !! k = Some (ex, ey) ->
        FlowField.inBounds (FlowField.new 3 3) (0 + ex) (0 + ey) = true ->
        FlowField.canUseDiagonal (FlowField.new 3 3) 0 0 ex ey = true ->
        FlowField.integrationAt ff' (0 + ex) (0 + ey) = Some nd ->
        d' <= nd /\ (Z.of_nat k < 1 -> d' < nd).
Proof.
  assert (Hwf : FlowField.wf (FlowField.new 3 3)) by (apply wf_new; lia).
  split; [split; [exact Hwf|split; reflexivity]|].
  destruct (direction_is_first_steepest (FlowField.new 3 3) 1 1 Hwf)
    as (ff' & E & H); [reflexivity|reflexivity|].
  exists ff'. split; [exact E|].
  assert (Hdir : FlowField.directionAt ff' 0 0 = Some 1).
  { assert (E2 : FlowField.generate (FlowField.new 3 3) 1 1 = Some ff')
      by exact E.
    vm_compute in E2. injection E2 as <-. reflexivity. }
  split; [exact Hdir|]. split; [reflexivity|].
  apply (H 0 0 1 1 1); [reflexivity|exact Hdir|reflexivity].
Defined.

(** X4. [setWall] and [isWall] address the cost array by [y * width + x]
    without a bounds test.  When that index lies in the array, [setWall]
    changes the wall state read at every pair of coordinates with the same
    index and at no other; so on a grid with at least one column a write one column
    past the right edge lands on the first cell of the next row.  When the index lies outside the
    array the write is dropped. *)
Theorem setWall_addresses_by_index (ff : FlowField.t) (x y : Z) (b : bool) :
  FlowField.wf ff ->
  (0 <= FlowField.idx ff x y < FlowField.cells ff ->
   forall x' y',
     FlowField.isWall (FlowField.setWall ff x y b) x' y' =
       if FlowField.idx ff x' y' =? FlowField.idx ff x y then b
       else FlowField.isWall ff x' y') /\
  (x = FlowField.width ff -> 0 < x -> 0 <= y -> y + 1 < FlowField.height ff ->
   FlowField.inBounds ff x y = false /\
   FlowField.isWall (FlowField.setWall ff x y b) 0 (y + 1) = b) /\
  (~ 0 <= FlowField.idx ff x y < FlowField.cells ff ->
   FlowField.cost (FlowField.setWall ff x y b) = FlowField.cost ff).
Proof.
  intros Hwf.
  assert (Hset : 0 <= FlowField.idx ff x y < FlowField.cells ff ->
    forall x' y',
      FlowField.isWall (FlowField.setWall ff x y b) x' y' =
        if FlowField.idx ff x' y' =? FlowField.idx ff x y then b
        else FlowField.isWall ff x' y').
  { intros Hi x' y'. unfold FlowField.isWall, FlowField.setWall. simpl.
    change (FlowField.idx (FlowField.withCost ff _) x' y')
      with (FlowField.idx ff x' y').
    destruct (Z.eqb_spec (FlowField.idx ff x' y') (FlowField.idx ff x y))
      as [->|Hne].
    - rewrite aget_aset_eq.
      + by destruct b.
      + rewrite (FlowField.wf_cost ff Hwf). unfold FlowField.cells in Hi. lia.
    - by rewrite aget_aset_ne. }
  split; [exact Hset|]. split.
  - intros -> W Hy Hy1. split.
    + destruct (FlowField.inBounds ff (FlowField.width ff) y) eqn:Hb;
        [|done].
      apply inBounds_spec in Hb. lia.
    + rewrite Hset.
      * unfold FlowField.idx.
        destruct (Z.eqb_spec ((y + 1) * FlowField.width ff + 0)
                    (y * FlowField.width ff + FlowField.width ff)); [done|lia].
      * unfold FlowField.idx, FlowField.cells.
        assert ((y + 1) * FlowField.width ff <=
                (FlowField.height ff - 1) * FlowField.width ff)
          by (apply Z.mul_le_mono_nonneg_r; lia).
        assert (0 <= y * FlowField.width ff)
          by (apply Z.mul_nonneg_nonneg; lia).
        lia.
  - intros Hout. unfold FlowField.setWall, aset. simpl.
    destruct (Z.ltb_spec (FlowField.idx ff x y) 0); [done|].
    apply list_insert_ge. rewrite (FlowField.wf_cost ff Hwf).
    unfold FlowField.cells in Hout. lia.
Qed.

Lemma setWall_addresses_by_index_witness :
  FlowField.wf (FlowField.new 3 3) /\
  (0 <= FlowField.idx (FlowField.new 3 3) 3 0 <
     FlowField.cells (FlowField.new 3 3) /\
   3 = FlowField.width (FlowField.new 3 3) /\ 0 < 3 /\ 0 <= 0 /\
   0 + 1 < FlowField.height (FlowField.new 3 3)) /\
  (forall x' y',
     FlowField.isWall (FlowField.setWall (FlowField.new 3 3) 3 0 true) x' y' =
       if FlowField.idx (FlowField.new 3 3) x' y' =?
          FlowField.idx (FlowField.new 3 3) 3 0 then true
       else FlowField.isWall (FlowField.new 3 3) x' y') /\
  FlowField.inBounds (FlowField.new 3 3) 3 0 = false /\
  FlowField.isWall (FlowField.setWall (FlowField.new 3 3) 3 0 true) 0 (0 + 1) =
    true /\
  (~ 0 <= FlowField.idx (FlowField.new 3 3) 0 3 <
       FlowField.cells (FlowField.new 3 3)) /\
  FlowField.cost (FlowField.setWall (FlowField.new 3 3) 0 3 true) =
    FlowField.cost (FlowField.new 3 3).
Proof.
  assert (Hwf : FlowField.wf (FlowField.new 3 3)) by (apply wf_new; lia).
  split; [exact Hwf|]. split; [vm_compute; repeat split; congruence|].
  destruct (setWall_addresses_by_index (FlowField.new 3 3) 3 0 true Hwf)
    as (H1 & H2 & _).
  split; [apply H1; vm_compute; split; congruence|].
  destruct H2 as [H2 H3]; [reflexivity|lia|lia|vm_compute; reflexivity|].
  split; [exact H2|]. split; [exact H3|].
  assert (Hout : ~ 0 <= FlowField.idx (FlowField.new 3 3) 0 3 <
                     FlowField.cells (FlowField.new 3 3))
    by (vm_compute; intros [_ H]; discriminate H).
  split; [exact Hout|].
  by destruct (setWall_addresses_by_index (FlowField.new 3 3) 0 3 true Hwf)
    as (_ & _ & H4); apply H4.
Defined.

(** ** The grid on the canvas *)

Lemma cell_centre_maps_back l gx gy :
  (0 < Canvas.cellPx l)%Q ->
  Canvas.cellOf l (cellCentre l gx gy).1 (cellCentre l gx gy).2 = (gx, gy).
Proof.
  intros Hc. apply cellOf_iff; [done|]. unfold cellCentre. cbn [fst snd]. lra.
Qed.

Lemma renderWalls_spec ff l r :
  r ∈ renderWalls ff l <->
  exists gx gy, FlowField.inBounds ff gx gy = true /\
    FlowField.isWall ff gx gy = true /\
    r = mkRect (Canvas.offsetX l + inject_Z gx * Canvas.cellPx l)
               (Canvas.offsetY l + inject_Z gy * Canvas.cellPx l)
               (Canvas.cellPx l) (Canvas.cellPx l).
Proof.
  unfold renderWalls. rewrite list_elem_of_bind. split.
  - intros (y & Hr & Hy). apply list_elem_of_bind in Hr as (x & Hr & Hx).
    apply elem_of_seqZ in Hx, Hy.
    destruct (FlowField.isWall ff x y) eqn:Hw; simpl in Hr;
      [|by apply elem_of_nil in Hr].
    apply list_elem_of_singleton in Hr. exists x, y.
    split; [apply inBounds_spec; lia|done].
  - intros (gx & gy & Hin%inBounds_spec & Hw & ->). exists gy. split.
    + apply list_elem_of_bind. exists gx. rewrite Hw. simpl.
      split; [by apply list_elem_of_singleton|apply elem_of_seqZ; lia].
    + apply elem_of_seqZ. lia.
Qed.

(** X5. The wall layer and the collision test agree: with a positive cell
    size, a point of the canvas is inside a wall cell for [updateSwarm]
    (and for the editor) exactly when it lies in one of the rectangles
    that [renderWalls] draws, each rectangle being the half-open square of
    its cell; and the centre of a cell, where agents are spawned and the
    base sits, is mapped back to that cell. *)
Theorem walls_drawn_where_agents_collide
    (ff : FlowField.t) (l : Canvas.layout) (px py : Q) :
  (0 < Canvas.cellPx l)%Q ->
  (Canvas.inWall ff l px py = true <->
   exists r, r ∈ renderWalls ff l /\ inRect r px py) /\
  (forall gx gy,
     Canvas.cellOf l (cellCentre l gx gy).1 (cellCentre l gx gy).2 =
       (gx, gy)).
Proof.
  intros Hc. split; [|intros gx gy; by apply cell_centre_maps_back].
  unfold Canvas.inWall.
  destruct (Canvas.cellOf l px py) as [gx gy] eqn:Hcell. split.
  - intros [Hin Hw]%andb_true_iff.
    eexists. split; [apply renderWalls_spec; eauto|].
    apply (cellOf_iff l px py gx gy Hc) in Hcell.
    unfold inRect. simpl. lra.
  - intros (r & (x & y & Hin & Hw & ->)%renderWalls_spec & Hr).
    unfold inRect in Hr. simpl in Hr.
    assert (E : Canvas.cellOf l px py = (x, y))
      by (apply cellOf_iff; [done|lra]).
    rewrite Hcell in E. injection E as -> ->.
    by rewrite Hin, Hw.
Qed.

Lemma walls_drawn_where_agents_collide_witness :
  (0 < Canvas.cellPx (Canvas.lay demoEdited))%Q /\
  Canvas.inWall (Canvas.field demoEdited) (Canvas.lay demoEdited) 30 30 =
    true /\
  (exists r, r ∈ renderWalls (Canvas.field demoEdited) (Canvas.lay demoEdited)
     /\ inRect r 30 30) /\
  Canvas.cellOf (Canvas.lay demoEdited)
    (cellCentre (Canvas.lay demoEdited) 4 2).1
    (cellCentre (Canvas.lay demoEdited) 4 2).2 = (4, 2).
Proof.
  assert (Hc : (0 < Canvas.cellPx (Canvas.lay demoEdited))%Q)
    by (vm_compute; reflexivity).
  assert (Hw : Canvas.inWall (Canvas.field demoEdited) (Canvas.lay demoEdited)
                 30 30 = true) by (vm_compute; reflexivity).
  destruct (walls_drawn_where_agents_collide (Canvas.field demoEdited)
              (Canvas.lay demoEdited) 30 30 Hc) as [Hiff Hcentre].
  split; [exact Hc|]. split; [exact Hw|].
  split; [by apply Hiff|apply Hcentre].
Defined.
Section Layout.
Import FlowField Canvas.
Local Open Scope Q_scope.

Lemma computeLayout_cellPx ff l :
  exists n : Z, cellPx (computeLayout ff l) == inject_Z n /\ (6 <= n)%Z.
Proof.
  unfold computeLayout. cbn [cellPx].
  set (f := Qfloor _).
  destruct (Q.max_spec 6 (inject_Z f)) as [[Hlt E]|[Hle E]].
  - exists f. split; [exact E|]. change 6 with (inject_Z 6) in Hlt.
    rewrite <- Zlt_Qlt in Hlt. lia.
  - exists 6%Z. split; [exact E|lia].
Qed.

Lemma computeLayout_inside ff l :
  (0 < width ff)%Z -> (0 < height ff)%Z ->
  inject_Z (6 * width ff) <= rendererWidth l ->
  inject_Z (6 * height ff) <= rendererHeight l ->
  let l' := computeLayout ff l in
  0 <= offsetX l' /\
  offsetX l' + inject_Z (width ff) * cellPx l' <= rendererWidth l /\
  0 <= offsetY l' /\
  offsetY l' + inject_Z (height ff) * cellPx l' <= rendererHeight l /\
  (rendererWidth l - inject_Z (width ff) * cellPx l') / 2 - 1 < offsetX l' /\
  offsetX l' <= (rendererWidth l - inject_Z (width ff) * cellPx l') / 2 /\
  (rendererHeight l - inject_Z (height ff) * cellPx l') / 2 - 1 < offsetY l' /\
  offsetY l' <= (rendererHeight l - inject_Z (height ff) * cellPx l') / 2.
Proof.
  intros HW HH Hw Hh. unfold computeLayout. cbn [cellPx offsetX offsetY].
  set (w := rendererWidth l) in *. set (h := rendererHeight l) in *.
  assert (HWq : 0 < inject_Z (width ff)).
  { change 0 with (inject_Z 0). by rewrite <- Zlt_Qlt. }
  assert (HHq : 0 < inject_Z (height ff)).
  { change 0 with (inject_Z 0). by rewrite <- Zlt_Qlt. }
  rewrite inject_Z_mult in Hw, Hh. change (inject_Z 6) with 6 in Hw, Hh.
  set (W := inject_Z (width ff)) in *. set (H := inject_Z (height ff)) in *.
  assert (Ew : w / W * W == w) by (field; lra).
  assert (Eh : h / H * H == h) by (field; lra).
  set (m := Qmin (w / W) (h / H)).
  assert (Hm6 : 6 <= m).
  { apply Q.min_glb.
    - apply Qle_shift_div_l; lra.
    - apply Qle_shift_div_l; lra. }
  pose proof (Q.le_min_l (w / W) (h / H)) as Hml.
  pose proof (Q.le_min_r (w / W) (h / H)) as Hmr. fold m in Hml, Hmr.
  pose proof (Qfloor_le m) as Hf.
  assert (Hf6 : 6 <= inject_Z (Qfloor m)).
  { change 6 with (inject_Z 6). rewrite <- Zle_Qle.
    apply Qfloor_iff_ge. done. }
  set (c0 := inject_Z (Qfloor m)) in *.
  assert (Ec : Qmax 6 c0 == c0) by (apply Q.max_r; lra).
  set (c := Qmax 6 c0) in *.
  assert (HcW : W * c <= w).
  { rewrite Ec. assert (H0 : c0 * W <= w / W * W)
      by (apply Qmult_le_compat_r; lra).
    rewrite Ew in H0. by rewrite Qmult_comm. }
  assert (HcH : H * c <= h).
  { rewrite Ec. assert (H0 : c0 * H <= h / H * H)
      by (apply Qmult_le_compat_r; lra).
    rewrite Eh in H0. by rewrite Qmult_comm. }
  clearbody c c0 m W H w h. clear Ew Eh Hml Hmr.
  set (gw := W * c) in *. set (gh := H * c) in *. clearbody gw gh.
  assert (Ex : (w - gw) / 2 * 2 == w - gw) by field.
  assert (Ey : (h - gh) / 2 * 2 == h - gh) by field.
  set (ax := (w - gw) / 2) in *. set (ay := (h - gh) / 2) in *.
  clearbody ax ay.
  pose proof (Qfloor_le ax) as Fx. pose proof (Qlt_floor ax) as Gx.
  pose proof (Qfloor_le ay) as Fy. pose proof (Qlt_floor ay) as Gy.
  rewrite inject_Z_plus in Gx, Gy. change (inject_Z 1) with 1 in Gx, Gy.
  assert (0 <= inject_Z (Qfloor ax)).
  { change 0 with (inject_Z 0). rewrite <- Zle_Qle. apply Qfloor_iff_ge.
    change (inject_Z 0) with 0. lra. }
  assert (0 <= inject_Z (Qfloor ay)).
  { change 0 with (inject_Z 0). rewrite <- Zle_Qle. apply Qfloor_iff_ge.
    change (inject_Z 0) with 0. lra. }
  repeat split; lra.
Qed.
End Layout.
Section Layout2.
Import FlowField Canvas.
Local Open Scope Q_scope.

Lemma computeLayout_overflow ff l :
  (0 < width ff)%Z -> rendererWidth l < inject_Z (6 * width ff) ->
  cellPx (computeLayout ff l) == 6 /\ offsetX (computeLayout ff l) < 0.
Proof.
  intros HW Hw. unfold computeLayout. cbn [cellPx offsetX].
  set (w := rendererWidth l) in *. set (h := rendererHeight l) in *.
  assert (HWq : 0 < inject_Z (width ff)).
  { change 0 with (inject_Z 0). by rewrite <- Zlt_Qlt. }
  rewrite inject_Z_mult in Hw. change (inject_Z 6) with 6 in Hw.
  set (W := inject_Z (width ff)) in *. set (H := inject_Z (height ff)) in *.
  set (m := Qmin (w / W) (h / H)).
  assert (Hm6 : m < 6).
  { apply Qle_lt_trans with (w / W); [apply Q.le_min_l|].
    apply Qlt_shift_div_r; lra. }
  pose proof (Qfloor_le m) as Hf.
  set (c0 := inject_Z (Qfloor m)) in *.
  assert (Ec : Qmax 6 c0 == 6) by (apply Q.max_l; lra).
  split; [exact Ec|].
  set (c := Qmax 6 c0) in *.
  set (gw := W * c).
  assert (Hg : w < gw) by (unfold gw; rewrite Ec; lra).
  assert (Ex : (w - gw) / 2 * 2 == w - gw) by field.
  set (ax := (w - gw) / 2) in *.
  pose proof (Qfloor_le ax) as Fx. clearbody ax gw. lra.
Qed.
End Layout2.

(** X6. [computeLayout] always leaves an integral cell size of at least 6
    pixels and keeps the renderer's size.  When the renderer offers at
    least 6 pixels per cell in both directions the grid lies inside the
    renderer and is centred to within one pixel; when it is narrower than 6
    pixels per column the cell size stays at 6 and the horizontal offset is
    negative, so that the grid overflows the canvas. *)
Theorem computeLayout_fits (ff : FlowField.t) (l : Canvas.layout) :
  0 < FlowField.width ff -> 0 < FlowField.height ff ->
  let l' := Canvas.computeLayout ff l in
  let w := Canvas.rendererWidth l in
  let h := Canvas.rendererHeight l in
  let gw := (inject_Z (FlowField.width ff) * Canvas.cellPx l')%Q in
  let gh := (inject_Z (FlowField.height ff) * Canvas.cellPx l')%Q in
  (exists n : Z, (Canvas.cellPx l' == inject_Z n)%Q /\ 6 <= n) /\
  Canvas.rendererWidth l' = w /\ Canvas.rendererHeight l' = h /\
  ((inject_Z (6 * FlowField.width ff) <= w)%Q ->
   (inject_Z (6 * FlowField.height ff) <= h)%Q ->
   (0 <= Canvas.offsetX l' /\ Canvas.offsetX l' + gw <= w /\
    0 <= Canvas.offsetY l' /\ Canvas.offsetY l' + gh <= h /\
    (w - gw) / 2 - 1 < Canvas.offsetX l' /\
    Canvas.offsetX l' <= (w - gw) / 2 /\
    (h - gh) / 2 - 1 < Canvas.offsetY l' /\
    Canvas.offsetY l' <= (h - gh) / 2)%Q) /\
  ((w < inject_Z (6 * FlowField.width ff))%Q ->
   (Canvas.cellPx l' == 6 /\ Canvas.offsetX l' < 0)%Q).
Proof.
  intros HW HH. cbv zeta.
  split; [apply computeLayout_cellPx|]. split; [done|]. split; [done|].
  split.
  - intros Hw Hh. by apply computeLayout_inside.
  - intros Hw. by apply computeLayout_overflow.
Qed.

Lemma computeLayout_fits_witness :
  let ff := Canvas.field demoIdle in
  let l := Canvas.mkLayout 10 0 0 103 100 in
  let l' := Canvas.computeLayout ff l in
  (0 < FlowField.width ff /\ 0 < FlowField.height ff /\
   (inject_Z (6 * FlowField.width ff) <= 103)%Q /\
   (inject_Z (6 * FlowField.height ff) <= 100)%Q) /\
  (Canvas.cellPx l' == 20)%Q /\ (Canvas.offsetX l' == 1)%Q /\
  (0 <= Canvas.offsetX l' /\
   Canvas.offsetX l' + inject_Z (FlowField.width ff) * Canvas.cellPx l' <= 103 /\
   0 <= Canvas.offsetY l' /\
   Canvas.offsetY l' + inject_Z (FlowField.height ff) * Canvas.cellPx l' <= 100)%Q.
Proof.
  cbv zeta.
  assert (H1 : 0 < FlowField.width (Canvas.field demoIdle))
    by (vm_compute; reflexivity).
  assert (H2 : 0 < FlowField.height (Canvas.field demoIdle))
    by (vm_compute; reflexivity).
  split; [repeat split; try done; vm_compute; discriminate|].
  split; [vm_compute; reflexivity|]. split; [vm_compute; reflexivity|].
  destruct (computeLayout_fits (Canvas.field demoIdle)
              (Canvas.mkLayout 10 0 0 103 100) H1 H2)
    as (_ & _ & _ & Hin & _).
  destruct Hin as (A & B & C & D & _);
    [vm_compute; discriminate|vm_compute; discriminate|].
  repeat split; assumption.
Defined.
Lemma Qtrunc_nonneg (q : Q) : (0 <= q)%Q -> Canvas.Qtrunc q = Qfloor q.
Proof.
  intros H. unfold Canvas.Qtrunc, Qfloor. destruct q as [n d].
  unfold Qle in H. simpl in *. apply Z.quot_div_nonneg; lia.
Qed.

(** [(Math.random() * n) | 0] is an index below [n]. *)
Lemma random_index (r : Q) (n : Z) :
  (0 <= r)%Q -> (r < 1)%Q -> 0 < n < 2147483648 ->
  0 <= toInt32 (Canvas.Qtrunc (r * inject_Z n)) < n.
Proof.
  intros H0 H1 Hn.
  assert (Hq : (0 < inject_Z n)%Q).
  { change 0%Q with (inject_Z 0). rewrite <- Zlt_Qlt. lia. }
  assert (Hlo : (0 <= r * inject_Z n)%Q) by nra.
  assert (Hhi : (r * inject_Z n < inject_Z n)%Q) by nra.
  rewrite Qtrunc_nonneg by done.
  pose proof (Qfloor_le (r * inject_Z n)) as Hf.
  assert (0 <= Qfloor (r * inject_Z n)) by (by apply Qfloor_iff_ge).
  assert (inject_Z (Qfloor (r * inject_Z n)) < inject_Z n)%Q by lra.
  rewrite <- Zlt_Qlt in *. rewrite toInt32_small by lia. lia.
Qed.

(** X7. [spawnEdge(i)] consumes two random numbers and, when they lie in
    [0, 1), puts agent [i] at the centre of an in-bounds cell of the first
    or last column or row, a point that [cellOf] maps back to that cell
    and of which the position arrays hold the binary32 rounding; it zeroes
    the agent's velocity, sets its hp to [34 + 10 * wave] (16-bit) and
    leaves every other agent as it was. *)
Theorem spawnEdge_on_border
    (random : nat -> Q) (ff : FlowField.t) (l : Canvas.layout) (wave : Z)
    (p : Canvas.params) (a : Canvas.agents) (rc : nat) (i : Z) :
  0 < FlowField.width ff < 2147483648 ->
  0 < FlowField.height ff < 2147483648 ->
  (0 < Canvas.cellPx l)%Q ->
  (0 <= random rc)%Q -> (random rc < 1)%Q ->
  (0 <= random (S rc))%Q -> (random (S rc) < 1)%Q ->
  swarmOk p a -> 0 <= i < Canvas.count p ->
  let s := Canvas.spawnEdge random ff l wave a rc i in
  s.2 = S (S rc) /\
  (exists gx gy,
     FlowField.inBounds ff gx gy = true /\
     (gx = 0 \/ gx = FlowField.width ff - 1 \/
      gy = 0 \/ gy = FlowField.height ff - 1) /\
     aget (Canvas.posX s.1) i = Some (Canvas.fround (cellCentre l gx gy).1) /\
     aget (Canvas.posY s.1) i = Some (Canvas.fround (cellCentre l gx gy).2) /\
     Canvas.cellOf l (cellCentre l gx gy).1 (cellCentre l gx gy).2 =
       (gx, gy)) /\
  aget (Canvas.velX s.1) i = Some 0%Q /\
  aget (Canvas.velY s.1) i = Some 0%Q /\
  aget (Canvas.hp s.1) i = Some (Z.land (34 + wave * 10) 65535) /\
  (forall j, j <> i ->
     aget (Canvas.posX s.1) j = aget (Canvas.posX a) j /\
     aget (Canvas.posY s.1) j = aget (Canvas.posY a) j /\
     aget (Canvas.velX s.1) j = aget (Canvas.velX a) j /\
     aget (Canvas.velY s.1) j = aget (Canvas.velY a) j /\
     aget (Canvas.hp s.1) j = aget (Canvas.hp a) j).
Proof.
  intros HW HH Hc R0 R1 S0 S1 Ok Hi. cbv zeta. unfold Canvas.spawnEdge.
  pose proof (random_index (random (S rc)) _ S0 S1 HW) as Hx.
  pose proof (random_index (random (S rc)) _ S0 S1 HH) as Hy.
  set (ix := toInt32 (Canvas.Qtrunc (random (S rc) * inject_Z (FlowField.width ff)))) in *.
  set (iy := toInt32 (Canvas.Qtrunc (random (S rc) * inject_Z (FlowField.height ff)))) in *.
  match goal with |- context [let '(gx, gy) := ?c in _] =>
    assert (Hcell : FlowField.inBounds ff c.1 c.2 = true /\
                    (c.1 = 0 \/ c.1 = FlowField.width ff - 1 \/
                     c.2 = 0 \/ c.2 = FlowField.height ff - 1));
    [|destruct c as [gx gy]]
  end.
  { repeat case_match; cbn [fst snd]; (split; [apply inBounds_spec; lia|]);
      auto. }
  cbn [fst snd] in *. destruct Hcell as [Hin Hedge].
  destruct Ok as [_ _ _ Lx Ly Lvx Lvy Lhp _ _].
  split; [done|]. split.
  { exists gx, gy. split; [done|]. split; [done|].
    split; [apply aget_aset_eq; lia|]. split; [apply aget_aset_eq; lia|].
    by apply cell_centre_maps_back. }
  split; [apply aget_aset_eq; lia|]. split; [apply aget_aset_eq; lia|].
  split; [apply aget_aset_eq; lia|].
  intros j Hj. cbn [Canvas.posX Canvas.posY Canvas.velX Canvas.velY Canvas.hp fst].
  by rewrite !aget_aset_ne by done.
Qed.

Lemma spawnEdge_on_border_witness :
  let ff := Canvas.field demoWave in
  let l := Canvas.lay demoWave in
  let s := Canvas.spawnEdge demoRandom ff l 1 (Canvas.ag demoWave) 0 1 in
  (0 < FlowField.width ff < 2147483648 /\
   0 < FlowField.height ff < 2147483648 /\
   (0 < Canvas.cellPx l)%Q /\
   (0 <= demoRandom 0)%Q /\ (demoRandom 0 < 1)%Q /\
   (0 <= demoRandom 1)%Q /\ (demoRandom 1 < 1)%Q /\
   swarmOk (Canvas.par demoWave) (Canvas.ag demoWave) /\
   0 <= 1 < Canvas.count (Canvas.par demoWave)) /\
  s.2 = 2%nat /\
  aget (Canvas.posX s.1) 1 = Some (Canvas.fround (cellCentre l 0 3).1) /\
  exists gx gy,
    FlowField.inBounds ff gx gy = true /\
    (gx = 0 \/ gx = FlowField.width ff - 1 \/
     gy = 0 \/ gy = FlowField.height ff - 1) /\
    aget (Canvas.posX s.1) 1 = Some (Canvas.fround (cellCentre l gx gy).1) /\
    aget (Canvas.posY s.1) 1 = Some (Canvas.fround (cellCentre l gx gy).2) /\
    Canvas.cellOf l (cellCentre l gx gy).1 (cellCentre l gx gy).2 = (gx, gy).
Proof.
  cbv zeta.
  assert (HW : 0 < FlowField.width (Canvas.field demoWave) < 2147483648)
    by (vm_compute; split; reflexivity).
  assert (HH : 0 < FlowField.height (Canvas.field demoWave) < 2147483648)
    by (vm_compute; split; reflexivity).
  assert (Hc : (0 < Canvas.cellPx (Canvas.lay demoWave))%Q)
    by (vm_compute; reflexivity).
  assert (R0 : (0 <= demoRandom 0)%Q) by (vm_compute; discriminate).
  assert (R1 : (demoRandom 0 < 1)%Q) by (vm_compute; reflexivity).
  assert (S0 : (0 <= demoRandom 1)%Q) by (vm_compute; discriminate).
  assert (S1 : (demoRandom 1 < 1)%Q) by (vm_compute; reflexivity).
  assert (Hi : 0 <= 1 < Canvas.count (Canvas.par demoWave))
    by (vm_compute; split; [discriminate|reflexivity]).
  split; [repeat split; try done; try apply demoWave_swarmOk;
          first [apply HW|apply HH|apply Hi]|].
  destruct (spawnEdge_on_border demoRandom (Canvas.field demoWave)
              (Canvas.lay demoWave) 1 (Canvas.par demoWave)
              (Canvas.ag demoWave) 0 1 HW HH Hc R0 R1 S0 S1
              demoWave_swarmOk Hi) as (A & B & _).
  split; [exact A|]. split; [vm_compute; reflexivity|]. exact B.
Defined.

(** ** The lists of the hash partition the agents *)

Section Partition.
Import FlowField Canvas.

Lemma linked_unset nxt m v h k :
  (forall j, 0 <= j < m -> exists n, aget nxt j = Some n /\ -1 <= n < j) ->
  h < m -> linked (aset nxt m v) h k -> linked nxt h k.
Proof.
  intros Hdec Hh Hl. induction Hl as [k|h n k Hn Hl IH].
  - constructor.
  - assert (0 <= h) by (apply aget_lt_length in Hn; lia).
    rewrite aget_aset_ne in Hn by lia.
    destruct (Hdec h) as (n' & Hn' & Hr); [lia|].
    rewrite Hn in Hn'. injection Hn' as <-.
    apply linked_next with n; [done|]. apply IH. lia.
Qed.

Lemma linked_end nxt k : linked nxt (-1) k -> k = -1.
Proof.
  inversion 1 as [|h n k' Hn]; [congruence|].
  apply aget_lt_length in Hn. lia.
Qed.

Variable ff : FlowField.t.
Variable l : layout.
Variable p : params.
Hypothesis HbX : 1 <= bucketsX p.
Hypothesis HbY : 1 <= bucketsY p.

Lemma hashAgent_onlyOwn a m :
  hashed l p a m -> onlyOwn l p a -> 0 <= m < count p ->
  length (posX a) = Z.to_nat (count p) ->
  length (posY a) = Z.to_nat (count p) ->
  onlyOwn l p (hashAgent ff l p a m).
Proof using HbX HbY.
  intros [Ln Lh Hhead Hnext Hmem] Hown Hm Lx Ly.
  destruct (aget_is_Some (posX a) m) as [x Hx]; [lia|].
  destruct (aget_is_Some (posY a) m) as [y Hy]; [lia|].
  pose proof (hashAgent_posX ff l p a m) as Px.
  pose proof (hashAgent_posY ff l p a m) as Py.
  intros b h k xk yk. rewrite Px, Py. clear Px Py.
  unfold hashAgent. rewrite Hx, Hy.
  pose proof (bucketIndex_range l p HbX HbY x y) as Hb.
  unfold bucketIndex in Hb |- *.
  destruct (bucketOf l p x y) as [bx by_] eqn:Ebk. cbn [fst snd] in Hb.
  destruct (cellOf l x y) as [gx gy].
  set (b0 := by_ * bucketsX p + bx) in *.
  destruct (aget_is_Some (bucketHead a) b0) as [h0 Hh0]; [lia|].
  rewrite Hh0. cbn [bucketHead next default from_option].
  pose proof (Hhead _ _ Hh0) as Hh0r.
  intros Hh Hl Hxk Hyk.
  destruct (decide (b = b0)) as [->|Hne].
  - rewrite aget_aset_eq in Hh by lia. injection Hh as <-.
    inversion Hl as [|h' n k' Hn Hl']; subst.
    + rewrite Hx in Hxk. rewrite Hy in Hyk.
      injection Hxk as <-. injection Hyk as <-. by rewrite Ebk.
    + rewrite aget_aset_eq in Hn by lia. injection Hn as <-.
      apply linked_unset in Hl'; [|done|lia].
      by apply (Hown b0 h0 k xk yk).
  - rewrite aget_aset_ne in Hh by done.
    pose proof (Hhead _ _ Hh) as Hhr.
    apply linked_unset in Hl; [|done|lia].
    by apply (Hown b h k xk yk).
Qed.

Lemma rebuildBuckets_onlyOwn a :
  swarmOk p a -> onlyOwn l p (rebuildBuckets ff l p a).
Proof using HbX HbY.
  intros [Hc _ _ Lx Ly _ _ _ Ln Lh]. unfold rebuildBuckets.
  set (a0 := {| posX := posX a; posY := posY a; velX := velX a;
                velY := velY a; hp := hp a;
                cellCount := afill (cellCount a) 0;
                bucketHead := afill (bucketHead a) (-1);
                next := next a |}).
  assert (H0 : hashed l p a0 0).
  { split; simpl; try done.
    - by rewrite length_afill.
    - intros b h Hb. apply aget_afill_inv in Hb. lia.
    - intros k Hk. lia.
    - intros k x y Hk. lia. }
  assert (O0 : onlyOwn l p a0).
  { intros b h k x y Hh Hl Hx _. simpl in *.
    apply aget_afill_inv in Hh as ->. apply linked_end in Hl as ->.
    apply aget_lt_length in Hx. lia. }
  assert (Hn : forall n : nat, Z.of_nat n <= count p ->
    hashed l p (fold_left (hashAgent ff l p) (seqZ 0 (Z.of_nat n)) a0)
      (Z.of_nat n) /\
    posX (fold_left (hashAgent ff l p) (seqZ 0 (Z.of_nat n)) a0) = posX a /\
    posY (fold_left (hashAgent ff l p) (seqZ 0 (Z.of_nat n)) a0) = posY a /\
    onlyOwn l p (fold_left (hashAgent ff l p) (seqZ 0 (Z.of_nat n)) a0)).
  { induction n as [|n IH]; intros Hle.
    - simpl. done.
    - rewrite seqZ_S, fold_left_app. simpl.
      destruct IH as (IH & Px & Py & IO); [lia|].
      rewrite hashAgent_posX, hashAgent_posY.
      replace (Z.of_nat (S n)) with (Z.of_nat n + 1) by lia.
      split; [apply hashAgent_hashed; [done|done|done|lia|congruence|congruence]|].
      split; [done|]. split; [done|].
      apply hashAgent_onlyOwn; [done|done|lia|congruence|congruence]. }
  specialize (Hn (Z.to_nat (count p))). rewrite Z2Nat.id in Hn by lia.
  apply Hn. lia.
Qed.
End Partition.

(** Walking a list visits agents of decreasing index, each linked to the
    head. *)
Lemma chain_sound nxt M fuel : forall h c,
  (forall k, 0 <= k < M -> exists n, aget nxt k = Some n /\ -1 <= n < k) ->
  -1 <= h < M -> Canvas.chain fuel nxt h = Some c ->
  NoDup c /\ forall k, k ∈ c -> 0 <= k <= h /\ linked nxt h k.
Proof.
  induction fuel as [|fuel IH]; intros h c Hdec Hh; simpl;
    destruct (Z.eqb_spec h (-1)) as [->|Hne].
  - intros [= <-]. split; [constructor|]. intros k Hk.
    by apply elem_of_nil in Hk.
  - done.
  - intros [= <-]. split; [constructor|]. intros k Hk.
    by apply elem_of_nil in Hk.
  - destruct (Hdec h) as (n & Hn & Hr); [lia|]. rewrite Hn. simpl.
    destruct (Canvas.chain fuel nxt n) as [c'|] eqn:Ec; simpl; [|done].
    intros [= <-]. destruct (IH n c' Hdec ltac:(lia) Ec) as [Hnd Hall].
    split.
    + constructor; [|done]. intros Hin. apply Hall in Hin. lia.
    + intros k [->|Hk]%elem_of_cons.
      * split; [lia|constructor].
      * destruct (Hall k Hk) as [Hkr Hl]. split; [lia|].
        by apply linked_next with n.
Qed.

(** X8. The spatial hash rebuilt at the start of a tick partitions the
    agents: the walk of the list of each bucket returns, visits no agent
    twice, and visits exactly the agents whose position falls in that
    bucket (positions outside the grid being clamped into the border
    buckets). *)
Theorem hash_lists_partition_agents
    (ff : FlowField.t) (l : Canvas.layout) (p : Canvas.params)
    (a : Canvas.agents) (bx by_ : Z) :
  swarmOk p a ->
  0 <= bx < Canvas.bucketsX p -> 0 <= by_ < Canvas.bucketsY p ->
  let a' := Canvas.rebuildBuckets ff l p a in
  exists h c,
    aget (Canvas.bucketHead a') (by_ * Canvas.bucketsX p + bx) = Some h /\
    Canvas.chain (Z.to_nat (Canvas.count p)) (Canvas.next a') h = Some c /\
    NoDup c /\
    forall k, k ∈ c <->
      exists x y, aget (Canvas.posX a) k = Some x /\
        aget (Canvas.posY a) k = Some y /\
        Canvas.bucketOf l p x y = (bx, by_).
Proof.
  intros Ok Hbx Hby a'.
  pose proof (so_bucketsX _ _ Ok) as HbX. pose proof (so_bucketsY _ _ Ok) as HbY.
  destruct (rebuildBuckets_ok ff l p a Ok) as [Ok' Hh]. fold a' in Ok', Hh.
  pose proof (rebuildBuckets_onlyOwn ff l p HbX HbY a Ok) as Hown.
  fold a' in Hown.
  destruct (rebuildBuckets_hashed ff l p HbX HbY a (so_count _ _ Ok)
              (so_posX _ _ Ok) (so_posY _ _ Ok) (so_next _ _ Ok)
              (so_head _ _ Ok)) as (_ & Px & Py).
  fold a' in Px, Py.
  destruct (bucket_chain p a' HbX HbY (hashed_chained l p a' Hh) bx by_ Hbx Hby)
    as (h & c & Hhead & Hc & Hcomplete).
  destruct (chain_sound (Canvas.next a') (Canvas.count p) _ h c
              (hs_next _ _ _ _ Hh) (hs_head _ _ _ _ Hh _ _ Hhead) Hc)
    as [Hnd Hsound].
  exists h, c. split; [done|]. split; [done|]. split; [done|].
  intros k. split.
  - intros Hk. destruct (Hsound k Hk) as [Hkr Hl].
    pose proof (hs_head _ _ _ _ Hh _ _ Hhead) as Hhr.
    destruct (aget_is_Some (Canvas.posX a) k) as [x Hx].
    { rewrite (so_posX _ _ Ok). lia. }
    destruct (aget_is_Some (Canvas.posY a) k) as [y Hy].
    { rewrite (so_posY _ _ Ok). lia. }
    exists x, y. split; [done|]. split; [done|].
    assert (E : by_ * Canvas.bucketsX p + bx =
                bucketIndex p (Canvas.bucketOf l p x y)).
    { apply (Hown _ h k x y Hhead Hl); by rewrite ?Px, ?Py. }
    destruct (bucketOf_range l p x y HbX HbY) as [Bx By].
    unfold bucketIndex in E.
    destruct (Canvas.bucketOf l p x y) as [cx cy]. cbn [fst snd] in *.
    assert (by_ = cy) by nia. subst. f_equal. lia.
  - intros (x & y & Hx & Hy & Eb).
    assert (Hk : 0 <= k < Canvas.count p).
    { apply aget_lt_length in Hx. rewrite (so_posX _ _ Ok) in Hx. lia. }
    destruct (hs_member _ _ _ _ Hh k x y Hk) as (h' & Hh' & Hl);
      [by rewrite Px|by rewrite Py|].
    rewrite Eb in Hh'. unfold bucketIndex in Hh'. cbn [fst snd] in Hh'.
    rewrite Hhead in Hh'. injection Hh' as <-.
    apply Hcomplete; [lia|done].
Qed.

Lemma hash_lists_partition_agents_witness :
  let p := Canvas.par demoWave in
  let a' := Canvas.rebuildBuckets (Canvas.field demoWave)
              (Canvas.lay demoWave) p demoClose in
  (swarmOk p demoClose /\ 0 <= 1 < Canvas.bucketsX p /\
   0 <= 7 < Canvas.bucketsY p) /\
  Canvas.bucketOf (Canvas.lay demoWave) p 12 88 = (1, 7) /\
  aget (Canvas.posX demoClose) 1 = Some 12%Q /\
  aget (Canvas.posY demoClose) 1 = Some 88%Q /\
  exists h c,
    aget (Canvas.bucketHead a') (7 * Canvas.bucketsX p + 1) = Some h /\
    Canvas.chain (Z.to_nat (Canvas.count p)) (Canvas.next a') h = Some c /\
    NoDup c /\ 1 ∈ c /\
    forall k, k ∈ c <->
      exists x y, aget (Canvas.posX demoClose) k = Some x /\
        aget (Canvas.posY demoClose) k = Some y /\
        Canvas.bucketOf (Canvas.lay demoWave) p x y = (1, 7).
Proof.
  cbv zeta.
  assert (Ok : swarmOk (Canvas.par demoWave) demoClose) by concrete_wf.
  assert (Hb : Canvas.bucketOf (Canvas.lay demoWave) (Canvas.par demoWave)
                 12 88 = (1, 7)) by (vm_compute; reflexivity).
  assert (Hx : aget (Canvas.posX demoClose) 1 = Some 12%Q)
    by (vm_compute; reflexivity).
  assert (Hy : aget (Canvas.posY demoClose) 1 = Some 88%Q)
    by (vm_compute; reflexivity).
  assert (H1 : 0 <= 1 < Canvas.bucketsX (Canvas.par demoWave))
    by (vm_compute; split; [discriminate|reflexivity]).
  assert (H2 : 0 <= 7 < Canvas.bucketsY (Canvas.par demoWave))
    by (vm_compute; split; [discriminate|reflexivity]).
  split; [done|]. split; [exact Hb|]. split; [exact Hx|]. split; [exact Hy|].
  destruct (hash_lists_partition_agents (Canvas.field demoWave)
              (Canvas.lay demoWave) (Canvas.par demoWave) demoClose 1 7
              Ok H1 H2) as (h & c & A & B & C & D).
  exists h, c. split; [exact A|]. split; [exact B|]. split; [exact C|].
  split; [|exact D]. apply D. eauto.
Defined.

(** ** The shot of the tower *)

Section Within.
Local Open Scope Q_scope.

Lemma Qfloor_within (u v B : Q) (r : Z) :
  0 < B -> - (inject_Z r * B) < u - v -> u - v < inject_Z r * B ->
  (- r <= Qfloor (u / B) - Qfloor (v / B) <= r)%Z.
Proof.
  intros HB Hlo Hhi.
  assert (Hu : u / B * B == u) by (field; lra).
  assert (Hv : v / B * B == v) by (field; lra).
  pose proof (Qfloor_le (u / B)) as Fu. pose proof (Qlt_floor (u / B)) as Gu.
  pose proof (Qfloor_le (v / B)) as Fv. pose proof (Qlt_floor (v / B)) as Gv.
  rewrite inject_Z_plus in Gu, Gv. change (inject_Z 1) with 1 in Gu, Gv.
  set (x := u / B) in *. set (y := v / B) in *. clearbody x y.
  set (R := inject_Z r) in *.
  assert (Hd1 : x - y < R) by nra.
  assert (Hd2 : - R < x - y) by nra.
  assert (inject_Z (Qfloor x) < inject_Z (Qfloor y + r + 1)).
  { rewrite !inject_Z_plus. change (inject_Z 1) with 1. fold R. lra. }
  assert (inject_Z (Qfloor y) < inject_Z (Qfloor x + r + 1)).
  { rewrite !inject_Z_plus. change (inject_Z 1) with 1. fold R. lra. }
  rewrite <- Zlt_Qlt in *. lia.
Qed.
End Within.

Lemma clampZ_within (u v lo hi r : Z) :
  - r <= u - v <= r ->
  - r <= Canvas.clampZ u lo hi - Canvas.clampZ v lo hi <= r.
Proof. unfold Canvas.clampZ. lia. Qed.

(** Points within [R] of each other, with [R] at most [r] buckets, lie at
    most [r] buckets apart. *)
Lemma bucketOf_within l p (r : Z) (R x1 y1 x2 y2 : Q) :
  (0 < Canvas.bucketSize p)%Q -> (0 < R)%Q ->
  (R <= inject_Z r * Canvas.bucketSize p)%Q ->
  ((x1 - x2) * (x1 - x2) + (y1 - y2) * (y1 - y2) < R * R)%Q ->
  - r <= (Canvas.bucketOf l p x1 y1).1 - (Canvas.bucketOf l p x2 y2).1 <= r /\
  - r <= (Canvas.bucketOf l p x1 y1).2 - (Canvas.bucketOf l p x2 y2).2 <= r.
Proof.
  intros HB HR Hr Hclose.
  destruct (square_bound (x1 - x2) (y1 - y2) R HR Hclose) as [Hx1 Hx2].
  assert (Hclose' : ((y1 - y2) * (y1 - y2) + (x1 - x2) * (x1 - x2) < R * R)%Q)
    by lra.
  destruct (square_bound (y1 - y2) (x1 - x2) R HR Hclose') as [Hy1 Hy2].
  unfold Canvas.bucketOf. cbn [fst snd].
  set (B := Canvas.bucketSize p) in *. set (rB := (inject_Z r * B)%Q) in *.
  split; apply clampZ_within; apply Qfloor_within; fold rB; lra.
Qed.

Section Nearest.
Import Canvas.
Variable a : agents.
Variables bx by_ : Q.

Lemma nearer_spec best j :
  nearer a bx by_ best j =
    match dist2 a bx by_ j with
    | Some d => if Qltb d best.2 then (j, d) else best
    | None => best
    end.
Proof.
  unfold nearer, dist2.
  destruct (aget (posX a) j); [|done]. by destruct (aget (posY a) j).
Qed.

(** The inner loops of the tower's search keep the first agent at the
    least squared distance below the starting bound. *)
Lemma nearer_fold cands : forall best,
  let r := fold_left (nearer a bx by_) cands best in
  (r.2 <= best.2)%Q /\
  (r = best \/
   (r.1 ∈ cands /\ dist2 a bx by_ r.1 = Some r.2 /\ (r.2 < best.2)%Q)) /\
  forall j d, j ∈ cands -> dist2 a bx by_ j = Some d -> (r.2 <= d)%Q.
Proof.
  induction cands as [|j cands IH]; intros best; cbn [fold_left]; cbv zeta.
  - split; [lra|]. split; [by left|]. intros j d Hj.
    by apply elem_of_nil in Hj.
  - specialize (IH (nearer a bx by_ best j)). cbv zeta in IH.
    destruct IH as (IH1 & IH2 & IH3).
    set (r := fold_left (nearer a bx by_) cands (nearer a bx by_ best j)) in *.
    rewrite nearer_spec in IH1, IH2.
    destruct (dist2 a bx by_ j) as [d|] eqn:Hd.
    + destruct (Qltb d best.2) eqn:Hlt.
      * apply Qltb_spec in Hlt. cbn [fst snd] in *.
        split; [lra|]. split.
        -- right. destruct IH2 as [->|(Hin & Hr & Hlt2)]; cbn [fst snd].
           ++ split; [by left|]. done.
           ++ split; [by right|]. split; [done|lra].
        -- intros j' d' [->|Hj']%elem_of_cons Hd'; [|by eapply IH3].
           rewrite Hd in Hd'. injection Hd' as <-. done.
      * apply Qltb_false in Hlt.
        split; [done|]. split.
        -- destruct IH2 as [->|(Hin & Hr & Hlt2)]; [by left|].
           right. split; [by right|]. done.
        -- intros j' d' [->|Hj']%elem_of_cons Hd'; [|by eapply IH3].
           rewrite Hd in Hd'. injection Hd' as <-. lra.
    + split; [done|]. split.
      * destruct IH2 as [->|(Hin & Hr & Hlt2)]; [by left|].
        right. split; [by right|]. done.
      * intros j' d' [->|Hj']%elem_of_cons Hd'; [congruence|by eapply IH3].
Qed.
End Nearest.

Lemma dist2_index a bx by_ j d :
  dist2 a bx by_ j = Some d ->
  exists x y, aget (Canvas.posX a) j = Some x /\
    aget (Canvas.posY a) j = Some y /\
    d = ((x - bx) * (x - bx) + (y - by_) * (y - by_))%Q.
Proof.
  unfold dist2. destruct (aget (Canvas.posX a) j) as [x|]; [|done].
  destruct (aget (Canvas.posY a) j) as [y|]; [|done].
  intros [= <-]. eauto.
Qed.

(** X9. When the cooldown of the tower runs out it is reset to 0.11 and the
    tower looks for the agent nearest to the base among those strictly
    within [max(cellPx * 7.5, 60)] of it: without such an agent nothing
    else changes; otherwise an agent at the least distance of all loses
    [14 + 2 * wave] hp (16-bit), or, if it has no more than that, is
    respawned on an edge and one gold is earned. *)
Theorem tower_hits_nearest_in_range
    (random : nat -> Q) (ff : FlowField.t) (l : Canvas.layout)
    (p : Canvas.params) (g : Canvas.game) (a : Canvas.agents) (rc : nat)
    (dt : Q) :
  swarmOk p a -> (0 < Canvas.bucketSize p)%Q ->
  (Canvas.fireCooldown g - dt <= 0)%Q ->
  let a1 := Canvas.rebuildBuckets ff l p a in
  let range := Qmax (Canvas.cellPx l * 7.5) 60 in
  let d2 := dist2 a (Canvas.baseX ff l) (Canvas.baseY ff l) in
  let g1 := Canvas.withFireCooldown g 0.11 in
  let dmg := 14 + Canvas.wave g * 2 in
  exists s, Canvas.fire random ff l p g a1 rc dt = Some s /\
    ((forall j d, d2 j = Some d -> (range * range <= d)%Q) /\
     s = (g1, a1, rc)
     \/
     exists best dbest cur,
       d2 best = Some dbest /\ (dbest < range * range)%Q /\
       (forall j d, d2 j = Some d -> (dbest <= d)%Q) /\
       aget (Canvas.hp a) best = Some cur /\
       (cur <= dmg ->
        s = (Canvas.withGold g1 (Canvas.gold g + 1),
             (Canvas.spawnEdge random ff l (Canvas.wave g) a1 rc best).1,
             (Canvas.spawnEdge random ff l (Canvas.wave g) a1 rc best).2)) /\
       (dmg < cur ->
        s = (g1,
             Canvas.withHp a1
               (aset (Canvas.hp a1) best (Z.land (cur - dmg) 65535)),
             rc))).
Proof.
  intros Ok HB Hcd. cbv zeta.
  destruct (rebuildBuckets_ok ff l p a Ok) as [Ok1 Hh].
  destruct (rebuildBuckets_vel ff l p a) as (_ & _ & Ehp).
  pose proof Ok as [Hc HbX HbY Lx Ly Lvx Lvy Lhp Ln Lh].
  destruct (rebuildBuckets_hashed ff l p HbX HbY a Hc Lx Ly Ln Lh)
    as (_ & Px & Py).
  set (a1 := Canvas.rebuildBuckets ff l p a) in *.
  set (range := Qmax (Canvas.cellPx l * 7.5) 60).
  assert (Hrange : (0 < range)%Q).
  { unfold range. pose proof (Q.le_max_r (Canvas.cellPx l * 7.5) 60). lra. }
  assert (Ed2 : forall j, dist2 a1 (Canvas.baseX ff l) (Canvas.baseY ff l) j =
                          dist2 a (Canvas.baseX ff l) (Canvas.baseY ff l) j).
  { intros j. unfold dist2. by rewrite Px, Py. }
  unfold Canvas.fire.
  apply Qle_bool_iff in Hcd. rewrite Hcd. fold range.
  destruct (Canvas.bucketOf l p (Canvas.baseX ff l) (Canvas.baseY ff l))
    as [bx by_] eqn:Eb.
  set (r := Z.max 1 (Qceiling (range / Canvas.bucketSize p))).
  destruct (scanBuckets_total p a1 HbX HbY (hashed_chained _ _ _ Hh) bx by_ r)
    as (cands & Ec).
  rewrite Ec. cbn [mbind option_bind].
  assert (Hr : (range <= inject_Z r * Canvas.bucketSize p)%Q).
  { assert (Hq : (range / Canvas.bucketSize p <= inject_Z r)%Q).
    { eapply Qle_trans; [apply Qle_ceiling|].
      rewrite <- Zle_Qle. unfold r. lia. }
    assert (E : (range / Canvas.bucketSize p * Canvas.bucketSize p ==
                 range)%Q) by (field; lra).
    rewrite <- E. apply Qmult_le_compat_r; [done|lra]. }
  (* every agent in range is among the candidates *)
  assert (Hin : forall j d,
            dist2 a (Canvas.baseX ff l) (Canvas.baseY ff l) j = Some d ->
            (d < range * range)%Q -> j ∈ cands).
  { intros j d Hd Hlt.
    destruct (dist2_index _ _ _ _ _ Hd) as (x & y & Hx & Hy & ->).
    pose proof (aget_lt_length _ _ _ Hx) as Hj. rewrite Lx in Hj.
    destruct (bucketOf_within l p r range x y (Canvas.baseX ff l)
                (Canvas.baseY ff l) HB Hrange Hr Hlt) as [Bx By].
    rewrite Eb in Bx, By. cbn [fst snd] in Bx, By.
    destruct (hashed_scan_finds l p a1 bx by_ r j x y HbX HbY Hh)
      as (c' & Ec' & Hjc); try done; try lia.
    - by rewrite Px.
    - by rewrite Py.
    - rewrite Ec in Ec'. by injection Ec' as <-. }
  pose proof (nearer_fold a1 (Canvas.baseX ff l) (Canvas.baseY ff l) cands
                (-1, (range * range)%Q)) as Hf.
  cbv zeta in Hf. destruct Hf as (F1 & F2 & F3).
  set (res := fold_left (Canvas.nearer a1 (Canvas.baseX ff l)
                           (Canvas.baseY ff l)) cands
                (-1, (range * range)%Q)) in *.
  cbn [fst snd] in F1, F2.
  assert (Hall : forall j d,
            dist2 a (Canvas.baseX ff l) (Canvas.baseY ff l) j = Some d ->
            (res.2 <= d)%Q).
  { intros j d Hd.
    destruct (Qlt_le_dec d (range * range)) as [Hlt|Hge]; [|lra].
    apply (F3 j d); [by eapply Hin|]. by rewrite Ed2. }
  destruct F2 as [Eres|(Hbest & Hdb & Hlt)].
  - (* nothing nearer than the range *)
    rewrite Eres. cbn [fst]. rewrite Z.eqb_refl.
    eexists. split; [done|]. left. split; [|done].
    intros j d Hd. specialize (Hall j d Hd). rewrite Eres in Hall. done.
  - rewrite Ed2 in Hdb.
    destruct (dist2_index _ _ _ _ _ Hdb) as (x & y & Hx & Hy & Ed).
    pose proof (aget_lt_length _ _ _ Hx) as Hj. rewrite Lx in Hj.
    destruct (res.1 =? -1) eqn:E1; [apply Z.eqb_eq in E1; lia|].
    destruct (aget_is_Some (Canvas.hp a) res.1) as [cur Hcur];
      [rewrite Lhp; lia|].
    rewrite Ehp, Hcur.
    destruct (Canvas.spawnEdge random ff l (Canvas.wave g) a1 rc res.1)
      as [a' rc'] eqn:Es.
    destruct (cur <=? 14 + Canvas.wave g * 2) eqn:Ecur.
    + eexists. split; [done|]. right. exists res.1, res.2, cur.
      split; [exact Hdb|]. split; [exact Hlt|]. split; [exact Hall|].
      split; [exact Hcur|]. split; [intros _; rewrite Es; reflexivity|].
      intros H. apply Z.leb_le in Ecur. lia.
    + eexists. split; [done|]. right. exists res.1, res.2, cur.
      split; [exact Hdb|]. split; [exact Hlt|]. split; [exact Hall|].
      split; [exact Hcur|]. split; [|intros _; reflexivity].
      intros H. apply Z.leb_gt in Ecur. lia.
Qed.

Lemma tower_hits_nearest_in_range_witness :
  exists s,
    Canvas.fire demoRandom (Canvas.field demoWave) (Canvas.lay demoWave)
      (Canvas.par demoWave) (Canvas.gm demoWave) demoHashed 0 0.016 = Some s.
Proof.
  destruct (tower_hits_nearest_in_range demoRandom (Canvas.field demoWave)
              (Canvas.lay demoWave) (Canvas.par demoWave) (Canvas.gm demoWave)
              (Canvas.ag demoWave) 0 0.016 demoWave_swarmOk)
    as (s & Hs & _).
  - vm_compute; reflexivity.
  - vm_compute. discriminate.
  - exists s. exact Hs.
Defined.

(** ** The counters of the game *)

Lemma frameOf_refl g : frameOf g g.
Proof. split; try done; lia. Qed.

Lemma frameOf_trans g1 g2 g3 : frameOf g1 g2 -> frameOf g2 g3 -> frameOf g1 g3.
Proof. intros [] []. split; try congruence; lia. Qed.

Section Frames.
Import FlowField Canvas.
Variable random : nat -> Q.
Variable sqrt : Q -> Q.
Variable ff : FlowField.t.
Variable l : layout.
Variable p : params.

Lemma fire_game g a rc dt s :
  fire random ff l p g a rc dt = Some s ->
  baseHpMax s.1.1 = baseHpMax g /\ wave s.1.1 = wave g /\
  waveActive s.1.1 = waveActive g /\ waveEndsAt s.1.1 = waveEndsAt g /\
  waveDurationMs s.1.1 = waveDurationMs g /\
  baseHp s.1.1 = baseHp g /\ gold g <= gold s.1.1 <= gold g + 1.
Proof.
  unfold fire. destruct (Qle_bool _ 0).
  - destruct (bucketOf l p (baseX ff l) (baseY ff l)) as [bx by_].
    destruct (scanBuckets p a bx by_ _) as [cands|]; [|done]. simpl.
    destruct (_ =? -1); [intros [= <-]; simpl; repeat split; lia|].
    destruct (aget (hp a) _) as [cur|];
      [|intros [= <-]; simpl; repeat split; lia].
    destruct (cur <=? _).
    + destruct (spawnEdge random ff l _ a rc _) as [a' rc'].
      intros [= <-]. simpl. repeat split; lia.
    + intros [= <-]. simpl. repeat split; lia.
  - intros [= <-]. simpl. repeat split; lia.
Qed.

Lemma steerAgent_game r dt g a rc i s :
  steerAgent random sqrt ff l p r dt (g, a, rc) i = Some s ->
  frameOf g s.1.1 /\ gold s.1.1 = gold g /\
  fireCooldown s.1.1 = fireCooldown g.
Proof.
  unfold steerAgent.
  destruct (aget (posX a) i) as [x|];
    [|intros [= <-]; split; [apply frameOf_refl|done]].
  destruct (aget (posY a) i) as [y|];
    [|intros [= <-]; split; [apply frameOf_refl|done]].
  destruct (aget (velX a) i) as [vx0|];
    [|intros [= <-]; split; [apply frameOf_refl|done]].
  destruct (aget (velY a) i) as [vy0|];
    [|intros [= <-]; split; [apply frameOf_refl|done]].
  destruct (acceleration sqrt ff l p r a i x y) as [acc|]; [|done]. simpl.
  destruct (classify ff l _ _).
  - destruct (spawnEdge random ff l _ a rc i) as [a' rc'].
    intros [= <-]. split; [apply frameOf_refl|done].
  - destruct (spawnEdge random ff l _ a rc i) as [a' rc'].
    intros [= <-]. simpl. split; [|done]. split; simpl; try done; lia.
  - destruct (inWall ff l _ _); intros [= <-];
      (split; [apply frameOf_refl|done]).
Qed.

Lemma steer_fold_game r dt js : forall s s',
  fold_left (fun acc i => s ← acc; steerAgent random sqrt ff l p r dt s i)
    js (Some s) = Some s' ->
  frameOf s.1.1 s'.1.1 /\ gold s'.1.1 = gold s.1.1.
Proof.
  induction js as [|j js IH]; intros [[g a] rc] s'; cbn [fold_left].
  - intros [= <-]. split; [apply frameOf_refl|done].
  - destruct (steerAgent random sqrt ff l p r dt (g, a, rc) j) as [s1|] eqn:E.
    + assert (Hstep : (s ← Some (g, a, rc);
                       steerAgent random sqrt ff l p r dt s j) = Some s1)
        by exact E.
      rewrite Hstep. intros H. apply IH in H as [F G].
      apply steerAgent_game in E as (F1 & G1 & _). cbn [fst snd] in *.
      split; [by eapply frameOf_trans|congruence].
    + assert (Hstep : (s ← Some (g, a, rc);
                       steerAgent random sqrt ff l p r dt s j) = None)
        by exact E.
      rewrite Hstep. clear. intros H. exfalso.
      induction js as [|k js IH]; [done|]. by apply IH.
Qed.

(** A frame of the swarm changes the game as [frameOf] says, and earns at
    most one gold. *)
Lemma updateSwarm_game r g a rc dt s :
  updateSwarm random sqrt ff l p r g a rc dt = Some s ->
  frameOf g s.1.1 /\ gold s.1.1 <= gold g + 1.
Proof.
  unfold updateSwarm. destruct (negb (waveActive g)).
  - intros [= <-]. split; [apply frameOf_refl|simpl; lia].
  - destruct (fire random ff l p g _ rc dt) as [s1|] eqn:E; [|done].
    apply fire_game in E as (E1 & E2 & E3 & E4 & E5 & E6 & E7).
    cbn [mbind option_bind]. intros H.
    apply steer_fold_game in H as [F G].
    split; [|lia].
    apply frameOf_trans with s1.1.1; [|done].
    split; try done; lia.
Qed.

(** When no wave is active the frame changes nothing. *)
Lemma updateSwarm_idle r g a rc dt :
  waveActive g = false ->
  updateSwarm random sqrt ff l p r g a rc dt = Some (g, a, rc).
Proof. intros H. unfold updateSwarm. by rewrite H. Qed.
End Frames.

Section Counters.
Import FlowField Canvas.
Variable random : nat -> Q.
Variable sqrt : Q -> Q.

Lemma applyTerrain_gm st c st' : applyTerrain st c = Some st' -> gm st' = gm st.
Proof.
  unfold applyTerrain. destruct (generate _ _ _); simpl; [|done].
  by intros [= <-].
Qed.

Lemma applyPilot_gm st b st' : applyPilot st b = Some st' -> gm st' = gm st.
Proof.
  unfold applyPilot. destruct b; [by intros [= <-]|].
  intros H. by apply applyTerrain_gm in H.
Qed.

Lemma pilotSettled_gm st reqId c st' :
  pilotSettled st reqId c = Some st' -> gm st' = gm st.
Proof.
  unfold pilotSettled. destruct (negb _); [by intros [= <-]|].
  apply applyTerrain_gm.
Qed.

Lemma setGridSize_gm st n st' :
  setGridSize random st n = Some st' -> gm st' = gm st.
Proof.
  unfold setGridSize. destruct (rebuildField _ _) as [x|]; [|done].
  cbn [mbind option_bind].
  match goal with |- context [applyPilot ?s ?b] =>
    destruct (applyPilot s b) as [st2|] eqn:E; [|done] end.
  apply applyPilot_gm in E. cbn [mbind option_bind]. intros [= <-].
  simpl. exact E.
Qed.

Lemma editAtClient_gm st x y st' :
  editAtClient st x y = Some st' ->
  gm st' = gm st \/
  gm st' = withGold (gm st) (Z.max 0 (gold (gm st) - 1)).
Proof.
  unfold editAtClient. destruct (cellOf (lay st) x y) as [gx gy].
  destruct (negb (inBounds (field st) gx gy)); [intros [= <-]; by left|].
  destruct ((gx =? targetX (field st)) && (gy =? targetY (field st)));
    [intros [= <-]; by left|].
  match goal with |- context [if ?c then Some st else _] => destruct c end;
    [intros [= <-]; by left|].
  destruct (generate _ _ _); [|done]. cbn [mbind option_bind].
  intros [= <-]. cbn [gm].
  match goal with |- context [if ?c then _ else _] => destruct c end;
    [by right|by left].
Qed.

(** The game after a frame, in terms of the game before it. *)
Lemma tick_game st now st' :
  tick random sqrt st now = Some st' ->
  exists g2, frameOf g2 (gm st') /\ gold (gm st') <= gold g2 + 1 /\
    baseHpMax g2 = baseHpMax (gm st) /\ baseHp g2 = baseHp (gm st) /\
    gold g2 = gold (gm st) /\ wave g2 = wave (gm st).
Proof.
  unfold tick. intros H. destruct (paused (rf st)).
  - injection H as <-. exists (gm st). split; [apply frameOf_refl|].
    repeat split; lia.
  - match type of H with context [updateSwarm _ _ _ _ _ _ ?g _ _ ?dt] =>
      destruct (updateSwarm random sqrt (field st) (lay st) (par st)
                  (rf st) g (ag st) (randomCalls st) dt)
        as [[[g3 a3] rc3]|] eqn:E; [|cbn [mbind option_bind] in H; done];
      exists g end.
    apply updateSwarm_game in E as [F G]. cbn [fst snd] in F, G.
    cbn [mbind option_bind] in H.
    assert (Egm : gm st' = g3) by (destruct (Qle_bool 250 _);
                                   injection H as <-; done).
    rewrite Egm. split; [done|]. split; [done|].
    destruct (waveActive (gm st) && _);
      cbn [withWaveActive waveActive baseHp baseHpMax gold wave];
      match goal with |- context [if ?c then _ else _] => destruct c end;
      done.
Qed.

Lemma handle_counters st e st' :
  handle random sqrt st e = Some st' ->
  baseHpMax (gm st) = 100 -> 0 <= baseHp (gm st) <= 100 ->
  0 <= gold (gm st) ->
  baseHpMax (gm st') = 100 /\ 0 <= baseHp (gm st') <= 100 /\
  0 <= gold (gm st') /\
  wave (gm st') = wave (gm st) + wavesStarted [e].
Proof.
  intros H M Hp G. destruct e; cbn [handle wavesStarted] in *.
  - apply tick_game in H as (g2 & [] & _ & E1 & E2 & E3 & E4).
    repeat split; lia.
  - apply editAtClient_gm in H as [->| ->]; simpl; repeat split; lia.
  - injection H as <-. simpl. repeat split; lia.
  - injection H as <-. simpl. repeat split; lia.
  - injection H as <-. simpl. repeat split; lia.
  - injection H as <-. simpl. repeat split; lia.
  - apply setGridSize_gm in H as ->. repeat split; lia.
  - apply applyPilot_gm in H as ->. simpl. repeat split; lia.
  - apply pilotSettled_gm in H as ->. repeat split; lia.
Qed.

Lemma run_counters es : forall st st',
  run random sqrt st es = Some st' ->
  baseHpMax (gm st) = 100 -> 0 <= baseHp (gm st) <= 100 ->
  0 <= gold (gm st) ->
  baseHpMax (gm st') = 100 /\ 0 <= baseHp (gm st') <= 100 /\
  0 <= gold (gm st') /\
  wave (gm st') = wave (gm st) + wavesStarted es.
Proof.
  unfold run. induction es as [|e es IH]; intros st st'; cbn [fold_left].
  - intros [= <-] M Hp G. simpl. repeat split; lia.
  - destruct (handle random sqrt st e) as [st1|] eqn:E.
    + assert (Hstep : (s ← Some st; handle random sqrt s e) = Some st1)
        by exact E.
      rewrite Hstep. intros H M Hp G.
      destruct (handle_counters st e st1 E M Hp G) as (M1 & Hp1 & G1 & W1).
      destruct (IH st1 st' H M1 Hp1 G1) as (M2 & Hp2 & G2 & W2).
      split; [done|]. split; [done|]. split; [done|].
      rewrite W2, W1. cbn [wavesStarted]. destruct e; lia.
    + assert (Hstep : (s ← Some st; handle random sqrt s e) = None)
        by exact E.
      rewrite Hstep. clear. intros H. exfalso.
      induction es as [|k es IH]; [done|]. by apply IH.
Qed.

Lemma init_gm gridSize w h r now st :
  init random gridSize w h r now = Some st ->
  baseHpMax (gm st) = 100 /\ baseHp (gm st) = 100 /\ gold (gm st) = 0 /\
  wave (gm st) = 0.
Proof.
  unfold init. destruct (rebuildField _ _) as [x|]; [|done].
  cbn [mbind option_bind]. intros H. apply applyPilot_gm in H as ->.
  done.
Qed.
End Counters.

(** X10. Whatever inputs the canvas handles after its creation, the base
    has between 0 and [baseHpMax = 100] hit points, the gold is not
    negative, and the wave number is the number of waves started. *)
Theorem game_counters_stay_in_range (random : nat -> Q) (sqrt : Q -> Q)
    (gridSize : Z) (w h : Q) (r : Canvas.refs) (now : Q)
    (es : list Canvas.event) :
  0 < gridSize -> gridSize * gridSize < 2147483648 ->
  exists st0 st,
    Canvas.init random gridSize w h r now = Some st0 /\
    Canvas.run random sqrt st0 es = Some st /\
    Canvas.baseHpMax (Canvas.gm st) = 100 /\
    0 <= Canvas.baseHp (Canvas.gm st) <= 100 /\
    0 <= Canvas.gold (Canvas.gm st) /\
    Canvas.wave (Canvas.gm st) = wavesStarted es.
Proof.
  intros Hg Hsq.
  destruct (init_total random gridSize w h r now Hg Hsq) as (st0 & Hinit & I0).
  destruct (run_total random sqrt es st0 I0) as (st & Hrun & _).
  destruct (init_gm random gridSize w h r now st0 Hinit) as (M & Hp & G & W).
  destruct (run_counters random sqrt es st0 st Hrun) as (M' & Hp' & G' & W');
    [done|lia|lia|].
  exists st0, st. repeat split; try done; lia.
Qed.

Lemma game_counters_stay_in_range_witness :
  exists st,
    Canvas.run demoRandom demoSqrt demoIdle demoInputs = Some st /\
    0 <= Canvas.baseHp (Canvas.gm st) <= 100 /\
    Canvas.wave (Canvas.gm st) = 1.
Proof.
  destruct (game_counters_stay_in_range demoRandom demoSqrt 5 100 100
              demoRefs 0 demoInputs) as (st0 & st & E0 & E & _ & Hp & _ & W);
    [lia|lia|].
  assert (Hinit : Canvas.init demoRandom 5 100 100 demoRefs 0 = Some demoIdle)
    by (vm_compute; reflexivity).
  rewrite Hinit in E0. injection E0 as <-.
  exists st. split; [exact E|]. split; [exact Hp|exact W].
Defined.

(** X11. A frame that is not paused ends the wave when its time is up or
    the base has no hit points left, before anything moves: the wave is
    active after the frame exactly when it was active, the time is before
    [waveEndsAt] and the base has hit points; and when it is not active
    after the frame, the frame moved no agent, fired no shot and drew no
    random number. *)
Theorem wave_ends_before_the_swarm_moves (random : nat -> Q) (sqrt : Q -> Q)
    (st : Canvas.state) (now : Q) :
  swarmOk (Canvas.par st) (Canvas.ag st) ->
  Canvas.paused (Canvas.rf st) = false ->
  exists st', Canvas.tick random sqrt st now = Some st' /\
    (Canvas.waveActive (Canvas.gm st') = true <->
     Canvas.waveActive (Canvas.gm st) = true /\
     (now < Canvas.waveEndsAt (Canvas.gm st))%Q /\
     0 < Canvas.baseHp (Canvas.gm st)) /\
    (Canvas.waveActive (Canvas.gm st') = false ->
     Canvas.ag st' = Canvas.ag st /\
     Canvas.randomCalls st' = Canvas.randomCalls st /\
     Canvas.baseHp (Canvas.gm st') = Canvas.baseHp (Canvas.gm st) /\
     Canvas.gold (Canvas.gm st') = Canvas.gold (Canvas.gm st) /\
     Canvas.fireCooldown (Canvas.gm st') =
       Canvas.fireCooldown (Canvas.gm st)).
Proof.
  intros Ok Hp. unfold Canvas.tick. rewrite Hp.
  set (g1 := if Canvas.waveActive (Canvas.gm st) &&
                Qle_bool (Canvas.waveEndsAt (Canvas.gm st)) now
             then Canvas.withWaveActive (Canvas.gm st) false
             else Canvas.gm st).
  set (g2 := if Canvas.waveActive g1 && (Canvas.baseHp g1 <=? 0)
             then Canvas.withWaveActive g1 false else g1).
  set (dt := Canvas.timestep _).
  assert (Hsame : Canvas.baseHp g2 = Canvas.baseHp (Canvas.gm st) /\
                  Canvas.gold g2 = Canvas.gold (Canvas.gm st) /\
                  Canvas.fireCooldown g2 =
                    Canvas.fireCooldown (Canvas.gm st)).
  { subst g2 g1. destruct (Canvas.gm st) as [m h g w act e d c].
    cbn [Canvas.waveActive Canvas.waveEndsAt Canvas.baseHp].
    destruct act, (Qle_bool e now);
      cbn [andb Canvas.withWaveActive Canvas.waveActive Canvas.baseHp
           Canvas.gold Canvas.fireCooldown];
      try destruct (h <=? 0);
      cbn [andb Canvas.withWaveActive Canvas.waveActive Canvas.baseHp
           Canvas.gold Canvas.fireCooldown]; done. }
  assert (Hact : Canvas.waveActive g2 = true <->
            Canvas.waveActive (Canvas.gm st) = true /\
            (now < Canvas.waveEndsAt (Canvas.gm st))%Q /\
            0 < Canvas.baseHp (Canvas.gm st)).
  { subst g2 g1.
    destruct (Canvas.waveActive (Canvas.gm st)) eqn:Ea; cbn [andb].
    - destruct (Qle_bool (Canvas.waveEndsAt (Canvas.gm st)) now) eqn:Et.
      + cbn. apply Qle_bool_iff in Et. split; [done|].
        intros (_ & Hlt & _). lra.
      + assert (Hlt : (now < Canvas.waveEndsAt (Canvas.gm st))%Q).
        { apply Qnot_le_lt. intros Hle. apply Qle_bool_iff in Hle.
          congruence. }
        rewrite Ea. cbn [andb].
        destruct (Canvas.baseHp (Canvas.gm st) <=? 0) eqn:Eh.
        * cbn. apply Z.leb_le in Eh. split; [done|]. lia.
        * apply Z.leb_gt in Eh. rewrite Ea. done.
    - rewrite Ea. cbn [andb]. rewrite Ea. split; [done|]. by intros [? _]. }
  destruct (Canvas.waveActive g2) eqn:E2.
  - destruct (updateSwarm_total random sqrt (Canvas.field st) (Canvas.lay st)
                (Canvas.par st) (Canvas.rf st) g2 (Canvas.ag st)
                (Canvas.randomCalls st) dt Ok) as ([[g3 a3] rc3] & E & _).
    rewrite E. cbn [mbind option_bind].
    apply updateSwarm_game in E as [[] _]. cbn [fst snd] in *.
    assert (E3 : Canvas.waveActive g3 = true) by congruence.
    destruct (Qle_bool 250 _); (eexists; split; [done|]);
      cbn [Canvas.withSim Canvas.gm Canvas.ag Canvas.randomCalls];
      (split; [rewrite E3; exact Hact|congruence]).
  - rewrite updateSwarm_idle by done. cbn [mbind option_bind].
    destruct (Qle_bool 250 _); (eexists; split; [done|]);
      cbn [Canvas.withSim Canvas.gm Canvas.ag Canvas.randomCalls];
      (split; [rewrite E2; exact Hact|]); intros _;
      (split; [done|]); (split; [done|]); exact Hsame.
Qed.

Lemma wave_ends_before_the_swarm_moves_witness :
  exists st',
    Canvas.tick demoRandom demoSqrt demoWave 40000 = Some st' /\
    Canvas.waveActive (Canvas.gm st') = false /\
    Canvas.ag st' = Canvas.ag demoWave.
Proof.
  destruct (wave_ends_before_the_swarm_moves demoRandom demoSqrt demoWave
              40000 demoWave_swarmOk) as (st' & E & Hact & Hidle).
  - vm_compute; reflexivity.
  - exists st'. split; [exact E|].
    assert (Hoff : Canvas.waveActive (Canvas.gm st') = false).
    { destruct (Canvas.waveActive (Canvas.gm st')); [|done].
      destruct Hact as [Hact _]. destruct (Hact eq_refl) as (_ & Hlt & _).
      vm_compute in Hlt. discriminate Hlt. }
    split; [exact Hoff|]. by destruct (Hidle Hoff) as [-> _].
Defined.

(** ** Terrain requests *)

Section Requests.
Import FlowField Canvas.
Variable random : nat -> Q.
Variable sqrt : Q -> Q.

Lemma applyTerrain_requestId st c st' :
  applyTerrain st c = Some st' -> pilotRequestId st' = pilotRequestId st.
Proof.
  unfold applyTerrain. destruct (generate _ _ _); simpl; [|done].
  by intros [= <-].
Qed.

Lemma applyPilot_requestId st b st' :
  applyPilot st b = Some st' -> pilotRequestId st' = pilotRequestId st + 1.
Proof.
  unfold applyPilot. destruct b; [by intros [= <-]|].
  intros H. by apply applyTerrain_requestId in H.
Qed.

Lemma handle_requestId st e st' :
  handle random sqrt st e = Some st' ->
  pilotRequestId st' = pilotRequestId st + requests [e].
Proof.
  destruct e; cbn [handle requests]; intros H.
  - unfold tick in H. destruct (paused (rf st)); [injection H as <-; lia|].
    destruct (updateSwarm _ _ _ _ _ _ _ _ _ _) as [[[g3 a3] rc3]|];
      [|done].
    cbn [mbind option_bind] in H.
    destruct (Qle_bool 250 _); injection H as <-; simpl; lia.
  - unfold editAtClient in H. destruct (cellOf (lay st) x y) as [gx gy].
    destruct (negb (inBounds (field st) gx gy)); [injection H as <-; lia|].
    destruct ((gx =? targetX (field st)) && (gy =? targetY (field st)));
      [injection H as <-; lia|].
    match type of H with context [if ?c then Some st else _] =>
      destruct c end; [injection H as <-; lia|].
    destruct (generate _ _ _); [|done]. injection H as <-. simpl. lia.
  - injection H as <-. simpl. lia.
  - injection H as <-. simpl. lia.
  - injection H as <-. simpl. lia.
  - injection H as <-. simpl. lia.
  - unfold setGridSize in H. destruct (rebuildField _ _) as [x|]; [|done].
    cbn [mbind option_bind] in H.
    match type of H with context [applyPilot ?s ?b] =>
      destruct (applyPilot s b) as [st2|] eqn:E; [|done] end.
    apply applyPilot_requestId in E. injection H as <-. simpl in *. lia.
  - apply applyPilot_requestId in H. simpl in H. lia.
  - unfold pilotSettled in H. destruct (negb _); [injection H as <-; lia|].
    apply applyTerrain_requestId in H. lia.
Qed.

Lemma requests_nonneg es : 0 <= requests es.
Proof. induction es as [|[] es IH]; simpl; lia. Qed.

Lemma run_requestId es : forall st st',
  run random sqrt st es = Some st' ->
  pilotRequestId st' = pilotRequestId st + requests es.
Proof.
  unfold run. induction es as [|e es IH]; intros st st'; cbn [fold_left].
  - intros [= <-]. simpl. lia.
  - destruct (handle random sqrt st e) as [st1|] eqn:E.
    + assert (Hstep : (s ← Some st; handle random sqrt s e) = Some st1)
        by exact E.
      rewrite Hstep. intros H. apply IH in H. apply handle_requestId in E.
      rewrite H, E. destruct e; simpl; lia.
    + assert (Hstep : (s ← Some st; handle random sqrt s e) = None)
        by exact E.
      rewrite Hstep. clear. intros H. exfalso.
      induction es as [|k es IH]; [done|]. by apply IH.
Qed.
End Requests.

(** X12. A change of the pilot numbers its terrain request with the next
    request id.  After any further inputs, the result of that request is
    applied if none of them was a change of the pilot or of the grid size,
    and is dropped, leaving the state as it is, if one was. *)
Theorem only_latest_terrain_request_applies
    (random : nat -> Q) (sqrt : Q -> Q) (st st1 st2 : Canvas.state)
    (p : bool) (es : list Canvas.event) (c : option (list Z)) :
  Canvas.handle random sqrt st (Canvas.SetPilot p) = Some st1 ->
  Canvas.run random sqrt st1 es = Some st2 ->
  Canvas.pilotRequestId st1 = Canvas.pilotRequestId st + 1 /\
  (requests es = 0 ->
   Canvas.handle random sqrt st2
     (Canvas.PilotSettled (Canvas.pilotRequestId st1) c) =
   Canvas.applyTerrain st2 c) /\
  (requests es <> 0 ->
   Canvas.handle random sqrt st2
     (Canvas.PilotSettled (Canvas.pilotRequestId st1) c) = Some st2).
Proof.
  intros H1 H2.
  apply handle_requestId in H1. apply run_requestId in H2.
  pose proof (requests_nonneg es) as Hn.
  cbn [requests] in H1. split; [lia|].
  cbn [Canvas.handle]. unfold Canvas.pilotSettled. split; intros Hr.
  - replace (Canvas.pilotRequestId st1 =? Canvas.pilotRequestId st2)
      with true by (symmetry; apply Z.eqb_eq; lia). done.
  - replace (Canvas.pilotRequestId st1 =? Canvas.pilotRequestId st2)
      with false by (symmetry; apply Z.eqb_neq; lia). done.
Qed.

Lemma only_latest_terrain_request_applies_witness :
  Canvas.handle demoRandom demoSqrt demoIdle (Canvas.SetPilot true) =
    Some demoPilot /\
  Canvas.run demoRandom demoSqrt demoPilot
    [Canvas.Tick 16; Canvas.SetPilot true] = Some demoPilot2 /\
  Canvas.handle demoRandom demoSqrt demoPilot2
    (Canvas.PilotSettled (Canvas.pilotRequestId demoPilot)
       (Some (replicate 25 255))) = Some demoPilot2.
Proof.
  assert (H1 : Canvas.handle demoRandom demoSqrt demoIdle
                 (Canvas.SetPilot true) = Some demoPilot)
    by (vm_compute; reflexivity).
  assert (H2 : Canvas.run demoRandom demoSqrt demoPilot
                 [Canvas.Tick 16; Canvas.SetPilot true] = Some demoPilot2)
    by (vm_compute; reflexivity).
  split; [exact H1|]. split; [exact H2|].
  destruct (only_latest_terrain_request_applies demoRandom demoSqrt demoIdle
              demoPilot demoPilot2 true
              [Canvas.Tick 16; Canvas.SetPilot true]
              (Some (replicate 25 255)) H1 H2) as (_ & _ & Hdrop).
  apply Hdrop. vm_compute. discriminate.
Defined.

(** ** Grids without walls *)

Section OpenGrid.
Import FlowField.
Variable ff : t.
Variables tx ty : Z.

(** A path is at least as long as the Manhattan distance it covers. *)
Lemma walk_manhattan n x y :
  walk ff tx ty n x y -> Z.abs (x - tx) + Z.abs (y - ty) <= Z.of_nat n.
Proof.
  induction 1 as [|n x y dx dy W IH Hd Hin Hw]; [lia|].
  unfold N4 in Hd.
  rewrite !elem_of_cons in Hd.
  destruct Hd as [[= -> ->]|[[= -> ->]|[[= -> ->]|[[= -> ->]|Hd]]]];
    [lia|lia|lia|lia|by apply elem_of_nil in Hd].
Qed.

Hypothesis Htarget : inBounds ff tx ty = true.
Hypothesis Hopen : forall x y, inBounds ff x y = true -> isWall ff x y = false.

Lemma walk_to n x' y' dx dy x y :
  walk ff tx ty n x' y' -> (dx, dy) ∈ N4 -> x = x' + dx -> y = y' + dy ->
  inBounds ff x y = true -> isWall ff x y = false ->
  walk ff tx ty (S n) x y.
Proof. intros W Hd -> -> Hin Hw. by apply walk_step. Qed.

(** Without walls, a cell is joined to the target by a path of that
    length. *)
Lemma open_walk (n : nat) : forall x y,
  inBounds ff x y = true ->
  Z.abs (x - tx) + Z.abs (y - ty) = Z.of_nat n -> walk ff tx ty n x y.
Proof using Htarget Hopen.
  pose proof (proj1 (inBounds_spec ff tx ty) Htarget) as Ht.
  assert (HN : forall d, d = (1, 0) \/ d = (-1, 0) \/ d = (0, 1) \/
                         d = (0, -1) -> d ∈ N4).
  { intros d Hd. unfold N4. rewrite !elem_of_cons. tauto. }
  induction n as [|n IH]; intros x y Hin Hd.
  - assert (x = tx) as -> by lia. assert (y = ty) as -> by lia. constructor.
  - pose proof (proj1 (inBounds_spec ff x y) Hin) as Hxy.
    destruct (Z.eq_dec x tx) as [Ex|Nx].
    + destruct (Z_lt_le_dec y ty) as [Hy|Hy].
      * apply (walk_to n x (y + 1) 0 (-1)); try lia; auto.
        apply IH; [apply inBounds_spec; lia|lia].
      * apply (walk_to n x (y - 1) 0 1); try lia; auto.
        apply IH; [apply inBounds_spec; lia|lia].
    + destruct (Z_lt_le_dec x tx) as [Hx|Hx].
      * apply (walk_to n (x + 1) y (-1) 0); try lia; auto.
        apply IH; [apply inBounds_spec; lia|lia].
      * apply (walk_to n (x - 1) y 1 0); try lia; auto.
        apply IH; [apply inBounds_spec; lia|lia].
Qed.

Hypothesis Hwf : wf ff.
Hypothesis Hsmall : width ff + height ff <= 65536.

(** The values [generate] stores on a grid without walls. *)
Lemma open_grid_values :
  exists ff', generate ff tx ty = Some ff' /\
    width ff' = width ff /\ height ff' = height ff /\
    cost ff' = cost ff /\ targetX ff' = tx /\ targetY ff' = ty /\ wf ff' /\
    forall x y, inBounds ff x y = true ->
      integrationAt ff' x y = Some (Z.abs (x - tx) + Z.abs (y - ty)).
Proof using Htarget Hopen Hwf Hsmall.
  pose proof (proj1 (inBounds_spec ff tx ty) Htarget) as Ht.
  destruct (generate_close ff Hwf tx ty Htarget (Hopen _ _ Htarget))
    as (integ & q & E & F & L).
  destruct (generate_total ff Hwf tx ty)
    as (ff2 & E2 & Hwf2 & W & H & C & TX & TY).
  rewrite E in E2. injection E2 as <-.
  exists (generated ff tx ty integ q). split; [done|].
  split; [done|]. split; [done|]. split; [done|].
  split; [done|]. split; [done|]. split; [done|].
  intros x y Hxy. pose proof (idx_range ff x y Hxy) as Hr.
  pose proof (proj1 (inBounds_spec ff x y) Hxy) as Hb.
  set (m := Z.abs (x - tx) + Z.abs (y - ty)).
  assert (Hm : 0 <= m < INF) by (unfold INF, m; lia).
  assert (W1 : walk ff tx ty (Z.to_nat m) x y)
    by (apply open_walk; [done|unfold m; lia]).
  destruct (walk_bound ff Hwf tx ty Htarget integ F L _ x y W1)
    as (_ & v & Hv & Hle).
  pose proof (fl_range _ _ _ F _ _ Hv) as Hvr.
  assert (W2 : walk ff tx ty (Z.to_nat v) x y).
  { apply (reached_walk ff Hwf tx ty Htarget integ F (Z.to_nat v) x y v);
      try done; lia. }
  apply walk_manhattan in W2. fold m in W2.
  change (aget integ (idx ff x y) = Some m). rewrite Hv. f_equal. lia.
Qed.
End OpenGrid.

(** X13. On a grid without walls whose width and height sum to at most
    65536, [generate] stores for every cell its Manhattan distance to the
    target. *)
Theorem open_grid_distance_is_manhattan (ff : FlowField.t) (tx ty : Z) :
  FlowField.wf ff ->
  FlowField.inBounds ff tx ty = true ->
  (forall x y, FlowField.inBounds ff x y = true ->
               FlowField.isWall ff x y = false) ->
  FlowField.width ff + FlowField.height ff <= 65536 ->
  exists ff', FlowField.generate ff tx ty = Some ff' /\
    forall x y, FlowField.inBounds ff x y = true ->
      FlowField.integrationAt ff' x y =
        Some (Z.abs (x - tx) + Z.abs (y - ty)).
Proof.
  intros Hwf Hin Hopen Hsmall.
  destruct (open_grid_values ff tx ty Hin Hopen Hwf Hsmall)
    as (ff' & E & _ & _ & _ & _ & _ & _ & Hv).
  by exists ff'.
Qed.

Lemma open_grid_distance_is_manhattan_witness :
  exists ff', FlowField.generate (FlowField.new 3 3) 1 1 = Some ff' /\
    FlowField.integrationAt ff' 0 2 = Some 2.
Proof.
  destruct (open_grid_distance_is_manhattan (FlowField.new 3 3) 1 1)
    as (ff' & E & Hv).
  - concrete_wf.
  - vm_compute; reflexivity.
  - intros x y Hin. apply inBounds_spec in Hin. cbn in Hin.
    assert (Hx : x = 0 \/ x = 1 \/ x = 2) by lia.
    assert (Hy : y = 0 \/ y = 1 \/ y = 2) by lia.
    destruct Hx as [->|[->| ->]], Hy as [->|[->| ->]];
      vm_compute; reflexivity.
  - vm_compute. discriminate.
  - exists ff'. split; [exact E|]. apply (Hv 0 2). vm_compute; reflexivity.
Defined.
(** ** A change of the grid size *)

Lemma new_costs w h x y :
  FlowField.inBounds (FlowField.new w h) x y = true ->
  aget (FlowField.cost (FlowField.new w h))
    (FlowField.idx (FlowField.new w h) x y) = Some 0.
Proof.
  intros Hin. apply inBounds_spec in Hin as [Hx Hy]. simpl in *.
  unfold aget, FlowField.idx. simpl.
  destruct (Z.ltb_spec (y * w + x) 0); [nia|].
  apply lookup_replicate_2. nia.
Qed.

Lemma reset_costs ff x y :
  FlowField.wf ff -> FlowField.inBounds ff x y = true ->
  aget (FlowField.cost (Canvas.terrain ff None)) (FlowField.idx ff x y) =
    Some 0.
Proof.
  intros Hwf Hin. unfold Canvas.terrain.
  apply (opens_keeps _ _ _ (ensure_opens _)).
  cbn [Canvas.loadCost FlowField.withCost FlowField.cost].
  apply aget_afill. pose proof (idx_range ff x y Hin) as Hr.
  rewrite (FlowField.wf_cost ff Hwf). unfold FlowField.cells in Hr. lia.
Qed.

(** X14. [setGridSize(n)] replaces the field by a square grid of side
    [floor n] clamped to 24..128 on which nothing is a wall and every cell
    holds its Manhattan distance to the centre cell, the target; it drops
    the fetched terrain, numbers a new terrain request, recomputes the
    layout, rebuilds the swarm and leaves the game as it is. *)
Theorem setGridSize_gives_open_square_grid
    (random : nat -> Q) (st : Canvas.state) (n : Q) :
  let size := Z.max 24 (Z.min 128 (Qfloor n)) in
  exists st', Canvas.setGridSize random st n = Some st' /\
    FlowField.width (Canvas.field st') = size /\
    FlowField.height (Canvas.field st') = size /\
    FlowField.targetX (Canvas.field st') = size / 2 /\
    FlowField.targetY (Canvas.field st') = size / 2 /\
    Canvas.baseCost st' = None /\
    Canvas.lay st' =
      Canvas.computeLayout (FlowField.new size size) (Canvas.lay st) /\
    Canvas.pilotRequestId st' = Canvas.pilotRequestId st + 1 /\
    Canvas.gm st' = Canvas.gm st /\
    swarmOk (Canvas.par st') (Canvas.ag st') /\
    forall x y, FlowField.inBounds (Canvas.field st') x y = true ->
      FlowField.isWall (Canvas.field st') x y = false /\
      FlowField.integrationAt (Canvas.field st') x y =
        Some (Z.abs (x - size / 2) + Z.abs (y - size / 2)).
Proof.
  intros size. assert (Hs : 24 <= size <= 128) by (unfold size; lia).
  unfold Canvas.setGridSize. fold size. unfold Canvas.rebuildField.
  set (ff0 := FlowField.new size size).
  assert (Hwf0 : FlowField.wf ff0) by (apply wf_new; nia).
  assert (Hc : FlowField.inBounds ff0 (size / 2) (size / 2) = true).
  { apply inBounds_spec. cbn.
    pose proof (Z.div_pos size 2). pose proof (Z.div_lt_upper_bound size 2 size).
    lia. }
  assert (Hopen0 : forall x y, FlowField.inBounds ff0 x y = true ->
                     FlowField.isWall ff0 x y = false).
  { intros x y Hin. unfold FlowField.isWall.
    pose proof (new_costs size size x y Hin) as Hn. fold ff0 in Hn.
    by rewrite Hn. }
  destruct (open_grid_values ff0 (size / 2) (size / 2) Hc Hopen0 Hwf0)
    as (ff1 & E1 & W1 & H1 & C1 & TX1 & TY1 & Hwf1 & V1);
    [cbn; lia|].
  change (FlowField.width ff0) with size. change (FlowField.height ff0) with size.
  rewrite E1. cbn [mbind option_bind fst snd].
  change (FlowField.width ff0) with size in W1.
  change (FlowField.height ff0) with size in H1.
  unfold Canvas.applyPilot. cbn [Canvas.rf Canvas.pilotRequestId].
  destruct (Canvas.hasPilot (Canvas.rf st)).
  - cbn [mbind option_bind]. eexists. split; [done|].
    cbn [Canvas.withSwarm Canvas.withRequest Canvas.field Canvas.baseCost
         Canvas.lay Canvas.pilotRequestId Canvas.gm Canvas.par Canvas.ag].
    split; [done|]. split; [done|]. split; [done|]. split; [done|].
    split; [done|]. split; [done|]. split; [done|]. split; [done|].
    split; [apply rebuildSwarm_ok|].
    intros x y Hin.
    assert (Hin0 : FlowField.inBounds ff0 x y = true).
    { apply inBounds_spec. apply inBounds_spec in Hin.
      rewrite W1, H1 in Hin. exact Hin. }
    split; [|by apply V1].
    unfold FlowField.isWall.
    replace (FlowField.idx ff1 x y) with (FlowField.idx ff0 x y)
      by (unfold FlowField.idx; rewrite W1; done).
    rewrite C1. pose proof (new_costs size size x y Hin0) as Hn.
    fold ff0 in Hn. by rewrite Hn.
  - unfold Canvas.applyTerrain.
    cbn [Canvas.withRequest Canvas.field Canvas.baseCost Canvas.lay
         Canvas.pilotRequestId Canvas.gm Canvas.par Canvas.ag Canvas.rf
         Canvas.randomCalls Canvas.lastFrameAt Canvas.lastPerfAt Canvas.perf].
    set (T := Canvas.terrain ff1 None).
    assert (WT : FlowField.width T = size)
      by (unfold T; by rewrite terrain_width).
    assert (HT : FlowField.height T = size)
      by (unfold T; by rewrite terrain_height).
    assert (HwfT : FlowField.wf T) by (by apply wf_terrain).
    assert (HcT : FlowField.inBounds T (size / 2) (size / 2) = true).
    { apply inBounds_spec. rewrite WT, HT.
      apply inBounds_spec in Hc. exact Hc. }
    assert (HopenT : forall x y, FlowField.inBounds T x y = true ->
                       FlowField.isWall T x y = false).
    { intros x y Hin. unfold FlowField.isWall.
      assert (Hin1 : FlowField.inBounds ff1 x y = true).
      { apply inBounds_spec. apply inBounds_spec in Hin.
        rewrite W1, H1. rewrite WT, HT in Hin. exact Hin. }
      replace (FlowField.idx T x y) with (FlowField.idx ff1 x y)
        by (unfold FlowField.idx; rewrite WT, W1; done).
      unfold T. by rewrite (reset_costs ff1 x y Hwf1 Hin1). }
    destruct (open_grid_values T (size / 2) (size / 2) HcT HopenT HwfT)
      as (ff2 & E2 & W2 & H2 & C2 & TX2 & TY2 & Hwf2 & V2);
      [rewrite WT, HT; lia|].
    rewrite WT, HT, E2. cbn [mbind option_bind].
    eexists. split; [done|].
    cbn [Canvas.withSwarm Canvas.withRequest Canvas.field Canvas.baseCost
         Canvas.lay Canvas.pilotRequestId Canvas.gm Canvas.par Canvas.ag].
    split; [congruence|]. split; [congruence|].
    split; [done|]. split; [done|].
    split; [done|]. split; [done|]. split; [done|]. split; [done|].
    split; [apply rebuildSwarm_ok|].
    intros x y Hin.
    assert (HinT : FlowField.inBounds T x y = true).
    { apply inBounds_spec. apply inBounds_spec in Hin.
      rewrite W2, WT, H2, HT in Hin. rewrite WT, HT. exact Hin. }
    split; [|by apply V2].
    unfold FlowField.isWall.
    replace (FlowField.idx ff2 x y) with (FlowField.idx T x y)
      by (unfold FlowField.idx; rewrite W2; done).
    rewrite C2. apply (HopenT x y HinT).
Qed.

Lemma setGridSize_gives_open_square_grid_witness :
  exists st', Canvas.setGridSize demoRandom demoIdle 30 = Some st' /\
    FlowField.width (Canvas.field st') = 30 /\
    FlowField.isWall (Canvas.field st') 0 0 = false /\
    FlowField.integrationAt (Canvas.field st') 0 0 = Some 30.
Proof.
  destruct (setGridSize_gives_open_square_grid demoRandom demoIdle 30)
    as (st' & E & W & H & _ & _ & _ & _ & _ & _ & _ & Hall).
  exists st'. split; [exact E|]. split; [exact W|].
  apply (Hall 0 0). apply inBounds_spec. rewrite W, H.
  vm_compute. repeat split; discriminate.
Defined.

(** ** The density grid *)

Section Density.
Import FlowField Canvas.
Variable ff : FlowField.t.
Variable l : layout.
Variable p : params.
Variable a : agents.
Variables gx gy : Z.
Hypothesis Hwf : wf ff.
Hypothesis Hin : inBounds ff gx gy = true.

Lemma crowd_nonneg js : 0 <= crowd l a gx gy js.
Proof. unfold crowd. lia. Qed.

Lemma crowd_cons j js :
  crowd l a gx gy (j :: js) =
    (if inCell l a gx gy j then 1 else 0) + crowd l a gx gy js.
Proof.
  unfold crowd. cbn [List.filter]. destruct (inCell l a gx gy j); simpl; lia.
Qed.

Local Abbreviation kept n := (counted ff gx gy n).

Lemma hashAgent_counts b j n :
  posX b = posX a -> posY b = posY a ->
  0 <= n ->
  aget (cellCount b) (idx ff gx gy) = Some (kept n) ->
  posX (hashAgent ff l p b j) = posX a /\
  posY (hashAgent ff l p b j) = posY a /\
  aget (cellCount (hashAgent ff l p b j)) (idx ff gx gy) =
    Some (kept ((if inCell l a gx gy j then 1 else 0) + n)).
Proof using Hwf Hin.
  intros Px Py Hn Hc. unfold hashAgent, inCell. rewrite Px, Py.
  destruct (aget (posX a) j) as [x|]; [|by rewrite Px, Py].
  destruct (aget (posY a) j) as [y|]; [|by rewrite Px, Py].
  destruct (bucketOf l p x y) as [bx by_].
  destruct (cellOf l x y) as [cx cy] eqn:Ec.
  cbn [posX posY cellCount fst snd]. split; [done|]. split; [done|].
  unfold openCell.
  destruct (inBounds ff cx cy) eqn:Hb; cbn [andb].
  - destruct (decide (cx = gx /\ cy = gy)) as [[-> ->]|Hne].
    + rewrite !Z.eqb_refl. cbn [andb]. unfold counted in *.
      destruct (isWall ff gx gy); cbn [negb]; [done|].
      rewrite Hc.
      destruct (Z.eqb_spec (Z.min 65535 n) 65535) as [E|E].
      * rewrite Hc. f_equal. lia.
      * rewrite aget_aset_eq by (by apply aget_lt_length in Hc).
        f_equal. rewrite land_u16_small by lia. lia.
    + assert (Hoff : (cx =? gx) && (cy =? gy) = false).
      { apply andb_false_iff.
        destruct (Z.eqb_spec cx gx), (Z.eqb_spec cy gy); auto.
        exfalso. by apply Hne. }
      rewrite Hoff.
      assert (Hidx : idx ff cx cy <> idx ff gx gy).
      { intros E. apply (idx_inj ff Hwf) in E; [|done|done]. tauto. }
      destruct (negb (isWall ff cx cy)); [|done].
      destruct (aget (cellCount b) (idx ff cx cy)) as [v|]; [|done].
      destruct (v =? 65535); [done|]. by rewrite aget_aset_ne.
  - assert (Hoff : (cx =? gx) && (cy =? gy) = false).
    { apply andb_false_iff.
      destruct (Z.eqb_spec cx gx), (Z.eqb_spec cy gy); auto.
      subst. congruence. }
    by rewrite Hoff.
Qed.

Lemma hash_fold_counts js : forall b n,
  posX b = posX a -> posY b = posY a -> 0 <= n ->
  aget (cellCount b) (idx ff gx gy) = Some (kept n) ->
  aget (cellCount (fold_left (hashAgent ff l p) js b)) (idx ff gx gy) =
    Some (kept (crowd l a gx gy js + n)).
Proof using Hwf Hin.
  induction js as [|j js IH]; intros b n Px Py Hn Hc; cbn [fold_left].
  - by rewrite Hc.
  - destruct (hashAgent_counts b j n Px Py Hn Hc) as (Px' & Py' & Hc').
    assert (Hn' : 0 <= (if inCell l a gx gy j then 1 else 0) + n)
      by (destruct (inCell l a gx gy j); lia).
    rewrite (IH _ _ Px' Py' Hn' Hc').
    rewrite crowd_cons. do 2 f_equal. lia.
Qed.
End Density.

(** X15. After the first loop of [updateSwarm], the density grid holds for
    every walkable cell the number of agents whose position is in that
    cell, saturated at 65535, and holds 0 for a wall cell. *)
Theorem cell_counts_are_agents_per_cell
    (ff : FlowField.t) (l : Canvas.layout) (p : Canvas.params)
    (a : Canvas.agents) (gx gy : Z) :
  FlowField.wf ff -> FlowField.inBounds ff gx gy = true ->
  length (Canvas.cellCount a) = Z.to_nat (FlowField.cells ff) ->
  aget (Canvas.cellCount (Canvas.rebuildBuckets ff l p a))
       (FlowField.idx ff gx gy) =
    Some (if FlowField.isWall ff gx gy then 0
          else Z.min 65535 (crowd l a gx gy (seqZ 0 (Canvas.count p)))).
Proof.
  intros Hwf Hin Hlen. unfold Canvas.rebuildBuckets.
  pose proof (idx_range ff gx gy Hin) as Hr.
  rewrite (hash_fold_counts ff l p a gx gy Hwf Hin (seqZ 0 (Canvas.count p)) _ 0);
    try done.
  - by rewrite Z.add_0_r.
  - cbn [Canvas.cellCount]. unfold counted. rewrite aget_afill.
    + by destruct (FlowField.isWall ff gx gy).
    + rewrite Hlen. unfold FlowField.cells. lia.
Qed.

Lemma cell_counts_are_agents_per_cell_witness :
  aget (Canvas.cellCount
          (Canvas.rebuildBuckets (Canvas.field demoWave) (Canvas.lay demoWave)
             (Canvas.par demoWave) demoClose))
       (FlowField.idx (Canvas.field demoWave) 0 4) = Some 2.
Proof.
  rewrite (cell_counts_are_agents_per_cell (Canvas.field demoWave)
             (Canvas.lay demoWave) (Canvas.par demoWave) demoClose 0 4).
  - vm_compute; reflexivity.
  - concrete_wf.
  - vm_compute; reflexivity.
  - vm_compute; reflexivity.
Defined.

(** ** Crowd pressure *)

Section Pressure.
Import FlowField Canvas.
Variable ff : FlowField.t.
Variable a : agents.
Variables gx gy here : Z.

Lemma lessCrowded_step seen best d :
  d <> (0, 0) ->
  leastCrowded ff a gx gy here seen best ->
  leastCrowded ff a gx gy here (seen ++ [d])
    (lessCrowded ff a (gx + d.1) (gy + d.2) d.1 d.2 best).
Proof.
  intros Hd [Hbest Hmin]. unfold lessCrowded.
  assert (Hkeep : leastCrowded ff a gx gy here seen best ->
            (forall c, openCell ff (gx + d.1) (gy + d.2) = true ->
               aget (cellCount a) (idx ff (gx + d.1) (gy + d.2)) = Some c ->
               best.1.1 <= c) ->
            leastCrowded ff a gx gy here (seen ++ [d]) best).
  { intros _ Hnew. split.
    - destruct Hbest as [Hb|(Hb1 & Hb2)]; [by left|].
      right. split; [apply elem_of_app; by left|done].
    - intros d' c' [Hd'|Hd']%elem_of_app Ho' Hc'.
      + by apply (Hmin d' c').
      + apply list_elem_of_singleton in Hd' as ->. by apply Hnew. }
  destruct (openCell ff (gx + d.1) (gy + d.2)) eqn:Ho;
    [|apply Hkeep; [done|]; intros c; done].
  destruct (aget (cellCount a) (idx ff (gx + d.1) (gy + d.2)))
    as [c|] eqn:Hc; [|apply Hkeep; [done|]; intros c; done].
  destruct (Z.ltb_spec c best.1.1) as [Hlt|Hge];
    [|apply Hkeep; [done|]; intros c' _ [= <-]; done].
  assert (Hle : best.1.1 <= here).
  { destruct Hbest as [[_ ->]|(_ & _ & _ & _ & Hb)]; lia. }
  split; cbn [fst snd].
  - right. split; [apply elem_of_app; right; rewrite <- surjective_pairing;
                   by left|].
    split; [by rewrite <- surjective_pairing|].
    split; [done|]. split; [done|lia].
  - intros d' c' [Hd'|Hd']%elem_of_app Ho' Hc'.
    + specialize (Hmin d' c' Hd' Ho' Hc'). lia.
    + apply list_elem_of_singleton in Hd' as ->.
      rewrite Hc in Hc'. injection Hc' as <-. lia.
Qed.
End Pressure.

(** X16. Crowd pressure acts only on an agent in a walkable cell that
    holds more agents than the threshold [max(1, densityThreshold | 0)],
    and only when a walkable 4-neighbour holds fewer: it then pushes along
    one axis toward a neighbour with the fewest agents, with strength
    [min(12, here - fewest) * pressureStrength * 12]; otherwise it is
    zero. *)
Theorem pressure_pushes_to_least_crowded
    (ff : FlowField.t) (r : Canvas.refs) (a : Canvas.agents) (gx gy : Z) :
  let threshold :=
    Z.max 1 (toInt32 (Canvas.Qtrunc (Canvas.densityThreshold r))) in
  let cnt x y := aget (Canvas.cellCount a) (FlowField.idx ff x y) in
  let lower here d :=
    Canvas.openCell ff (gx + d.1) (gy + d.2) = true /\
    exists c, cnt (gx + d.1) (gy + d.2) = Some c /\ c < here in
  (Canvas.openCell ff gx gy = false ->
   Canvas.pressureForce ff r a gx gy = (0, 0)%Q) /\
  (forall here, cnt gx gy = Some here -> here <= threshold ->
   Canvas.pressureForce ff r a gx gy = (0, 0)%Q) /\
  (forall here, cnt gx gy = Some here ->
   (forall d, d ∈ FlowField.N4 -> ~ lower here d) ->
   Canvas.pressureForce ff r a gx gy = (0, 0)%Q) /\
  (forall here d0, Canvas.openCell ff gx gy = true ->
   cnt gx gy = Some here -> threshold < here ->
   d0 ∈ FlowField.N4 -> lower here d0 ->
   exists d c, d ∈ FlowField.N4 /\
     Canvas.openCell ff (gx + d.1) (gy + d.2) = true /\
     cnt (gx + d.1) (gy + d.2) = Some c /\ c < here /\
     (forall d' c', d' ∈ FlowField.N4 ->
        Canvas.openCell ff (gx + d'.1) (gy + d'.2) = true ->
        cnt (gx + d'.1) (gy + d'.2) = Some c' -> c <= c') /\
     Canvas.pressureForce ff r a gx gy =
       (inject_Z d.1 *
          (Qmin 12 (inject_Z (here - c)) * Canvas.pressureStrength r * 12),
        inject_Z d.2 *
          (Qmin 12 (inject_Z (here - c)) * Canvas.pressureStrength r * 12))%Q).
Proof.
  cbv zeta.
  assert (Hchain : forall here,
    leastCrowded ff a gx gy here FlowField.N4
      (Canvas.lessCrowded ff a gx (gy - 1) 0 (-1)
         (Canvas.lessCrowded ff a gx (gy + 1) 0 1
            (Canvas.lessCrowded ff a (gx - 1) gy (-1) 0
               (Canvas.lessCrowded ff a (gx + 1) gy 1 0 (here, 0, 0)))))).
  { intros here.
    assert (H0 : leastCrowded ff a gx gy here [] (here, 0, 0)).
    { split; [by left|]. intros d c Hd. by apply elem_of_nil in Hd. }
    apply (lessCrowded_step ff a gx gy here _ _ (1, 0)) in H0; [|done].
    apply (lessCrowded_step ff a gx gy here _ _ (-1, 0)) in H0; [|done].
    apply (lessCrowded_step ff a gx gy here _ _ (0, 1)) in H0; [|done].
    apply (lessCrowded_step ff a gx gy here _ _ (0, -1)) in H0; [|done].
    cbn [fst snd app] in H0.
    replace (gx + 0) with gx in H0 by lia.
    replace (gy + 0) with gy in H0 by lia.
    replace (gx + -1) with (gx - 1) in H0 by lia.
    replace (gy + -1) with (gy - 1) in H0 by lia.
    exact H0. }
  unfold Canvas.pressureForce.
  split; [by intros ->|]. split; [|split].
  - intros here Hh Hle. destruct (Canvas.openCell ff gx gy); [|done].
    rewrite Hh.
    match goal with |- context [?t <? here] =>
      destruct (Z.ltb_spec t here) end; [lia|done].
  - intros here Hh Hnone. destruct (Canvas.openCell ff gx gy); [|done].
    rewrite Hh.
    match goal with |- context [?t <? here] =>
      destruct (Z.ltb_spec t here) end; [|done].
    specialize (Hchain here).
    destruct (Canvas.lessCrowded ff a gx (gy - 1) 0 (-1) _)
      as [[bc bdx] bdy].
    destruct Hchain as [[[[= -> ->] _]|(Hin & _ & Ho & Hc & Hlt)] _];
      cbn [fst snd] in *; [done|].
    exfalso. apply (Hnone (bdx, bdy) Hin). split; [done|]. by exists bc.
  - intros here d0 Ho Hh Hlt Hd0 (Ho0 & c0 & Hc0 & Hlt0).
    rewrite Ho, Hh. destruct (Z.ltb_spec
      (Z.max 1 (toInt32 (Canvas.Qtrunc (Canvas.densityThreshold r))))
      here); [|lia].
    specialize (Hchain here).
    destruct (Canvas.lessCrowded ff a gx (gy - 1) 0 (-1) _)
      as [[bc bdx] bdy].
    destruct Hchain as [Hbest Hmin]. cbn [fst snd] in *.
    destruct Hbest as [[[= -> ->] ->]|(Hin & Hnz & Hob & Hcb & Hltb)].
    + specialize (Hmin d0 c0 Hd0 Ho0 Hc0). lia.
    + exists (bdx, bdy), bc. cbn [fst snd].
      split; [done|]. split; [done|]. split; [done|]. split; [done|].
      split; [exact Hmin|].
      destruct (Z.eqb_spec bdx 0) as [->|Hx];
        destruct (Z.eqb_spec bdy 0) as [->|Hy]; cbn [negb orb]; done.
Qed.

Lemma pressure_pushes_to_least_crowded_witness :
  exists d c, d ∈ FlowField.N4 /\ c < 9 /\
    Canvas.pressureForce (Canvas.field demoIdle) demoRefs demoCrowd 2 2 =
      (inject_Z d.1 *
         (Qmin 12 (inject_Z (9 - c)) * Canvas.pressureStrength demoRefs * 12),
       inject_Z d.2 *
         (Qmin 12 (inject_Z (9 - c)) * Canvas.pressureStrength demoRefs * 12))%Q.
Proof.
  destruct (pressure_pushes_to_least_crowded (Canvas.field demoIdle) demoRefs
              demoCrowd 2 2) as (_ & _ & _ & Hpush).
  destruct (Hpush 9 (1, 0)) as (d & c & Hd & _ & _ & Hc & _ & E).
  - vm_compute; reflexivity.
  - vm_compute; reflexivity.
  - vm_compute; reflexivity.
  - unfold FlowField.N4. apply elem_of_cons. by left.
  - split; [vm_compute; reflexivity|]. exists 3.
    split; [vm_compute; reflexivity|lia].
  - exists d, c. split; [exact Hd|]. split; [exact Hc|exact E].
Defined.

(** ** The speed limit *)




(** ** A new swarm *)

Section Spawning.
Import FlowField Canvas.
Variable random : nat -> Q.
Variable ff : FlowField.t.
Variable l : layout.
Variable wave : Z.
Variable p : params.
Hypothesis HW : 0 < width ff < 2147483648.
Hypothesis HH : 0 < height ff < 2147483648.
Hypothesis Hc : (0 < cellPx l)%Q.
Hypothesis Hrandom : forall n, (0 <= random n)%Q /\ (random n < 1)%Q.

Lemma spawnEdge_spawned a rc i :
  swarmOk p a -> 0 <= i < count p ->
  let s := spawnEdge random ff l wave a rc i in
  s.2 = S (S rc) /\ swarmOk p s.1 /\ spawned ff l wave s.1 i /\
  forall j, j <> i -> spawned ff l wave a j -> spawned ff l wave s.1 j.
Proof using HW HH Hc Hrandom.
  intros Ok Hi. cbv zeta.
  pose proof (spawnEdge_shape random ff l wave a rc i) as Hs.
  split; [|split; [by apply (sameShape_swarmOk p a)|]]; clear Hs.
  { unfold spawnEdge. by repeat case_match. }
  unfold spawnEdge.
  destruct (Hrandom (S rc)) as [S0 S1].
  pose proof (random_index (random (S rc)) _ S0 S1 HW) as Hx.
  pose proof (random_index (random (S rc)) _ S0 S1 HH) as Hy.
  set (ix := toInt32 (Qtrunc (random (S rc) * inject_Z (width ff)))) in *.
  set (iy := toInt32 (Qtrunc (random (S rc) * inject_Z (height ff)))) in *.
  match goal with |- context [let '(gx, gy) := ?c in _] =>
    assert (Hcell : inBounds ff c.1 c.2 = true /\
                    (c.1 = 0 \/ c.1 = width ff - 1 \/
                     c.2 = 0 \/ c.2 = height ff - 1));
    [|destruct c as [gx gy]]
  end.
  { repeat case_match; cbn [fst snd]; (split; [apply inBounds_spec; lia|]);
      auto. }
  cbn [fst snd] in *. destruct Hcell as [Hin Hedge].
  destruct Ok as [_ _ _ Lx Ly Lvx Lvy Lhp _ _].
  split.
  - exists gx, gy. cbn [posX posY velX velY hp].
    split; [done|]. split; [done|].
    split; [apply aget_aset_eq; lia|]. split; [apply aget_aset_eq; lia|].
    split; [by apply cell_centre_maps_back|].
    split; [apply aget_aset_eq; lia|]. split; apply aget_aset_eq; lia.
  - intros j Hj (cx & cy & H1 & H2 & H3 & H4 & H5 & H6 & H7 & H8).
    exists cx, cy. cbn [posX posY velX velY hp].
    by rewrite !aget_aset_ne by done.
Qed.

Lemma spawn_fold_spawned js : forall b n seen,
  NoDup js -> (forall j, j ∈ js -> j ∉ seen) ->
  (forall j, j ∈ js -> 0 <= j < count p) ->
  swarmOk p b -> (forall i, i ∈ seen -> spawned ff l wave b i) ->
  let s := fold_left (fun s i => spawnEdge random ff l wave s.1 s.2 i) js
             (b, n) in
  swarmOk p s.1 /\ s.2 = (n + 2 * length js)%nat /\
  forall i, i ∈ seen ++ js -> spawned ff l wave s.1 i.
Proof using HW HH Hc Hrandom.
  induction js as [|j js IH]; intros b n seen Hnd Hnew Hr Ok Hseen;
    cbn [fold_left]; cbv zeta.
  - cbn [fst snd length]. rewrite app_nil_r. split; [done|]. split; [lia|done].
  - apply NoDup_cons in Hnd as [Hj Hnd]. cbn [fst snd].
    destruct (spawnEdge_spawned b n j Ok) as (E & Ok' & Sj & Frame);
      [apply Hr; by left|].
    destruct (spawnEdge random ff l wave b n j) as [b1 n1] eqn:Es.
    cbn [fst snd] in *. subst n1.
    destruct (IH b1 (S (S n)) (seen ++ [j]) Hnd) as (Ok2 & E2 & All);
      try done.
    + intros k Hk [Hin|Hin]%elem_of_app.
      * apply (Hnew k); [by right|done].
      * apply list_elem_of_singleton in Hin as ->. done.
    + intros k Hk. apply Hr. by right.
    + intros i [Hin|Hin]%elem_of_app.
      * apply Frame; [|by apply Hseen].
        intros ->. apply (Hnew j); [by left|done].
      * by apply list_elem_of_singleton in Hin as ->.
    + split; [done|]. split; [cbn [length]; lia|].
      intros i Hi. apply All. by rewrite <- app_assoc.
Qed.
End Spawning.

(** X18. [rebuildSwarm] allocates [max(0, entities || entityCount)] agents
    and spawns each of them with two random numbers: when the random
    numbers lie in [0, 1), every agent of the new swarm is at rest at the
    centre of a cell of the first or last column or row of the grid (the
    position arrays holding its binary32 rounding), with [34 + 10 * wave]
    hit points (16-bit). *)
Theorem rebuildSwarm_spawns_all_on_border
    (random : nat -> Q) (ff : FlowField.t) (l : Canvas.layout) (wave : Z)
    (r : Canvas.refs) (rc : nat) :
  0 < FlowField.width ff < 2147483648 ->
  0 < FlowField.height ff < 2147483648 ->
  (0 < Canvas.cellPx l)%Q ->
  (forall n, (0 <= random n)%Q /\ (random n < 1)%Q) ->
  let s := Canvas.rebuildSwarm random ff l wave r rc in
  let cnt := Z.max 0 (if Canvas.entities r =? 0 then Canvas.entityCount r
                      else Canvas.entities r) in
  Canvas.count s.1.1.2 = cnt /\
  Canvas.entities s.1.1.1 = cnt /\
  s.2 = (rc + 2 * Z.to_nat cnt)%nat /\
  swarmOk s.1.1.2 s.1.2 /\
  forall i, 0 <= i < cnt -> spawned ff l wave s.1.2 i.
Proof.
  intros HW HH Hc Hrandom. cbv zeta.
  pose proof (rebuildSwarm_ok random ff l wave r rc) as Ok.
  unfold Canvas.rebuildSwarm in *.
  set (cnt := Z.max 0 _) in *.
  set (bX := Z.max 1 _) in *. set (bY := Z.max 1 _) in *.
  match goal with |- context [fold_left ?f ?js (?a0, rc)] =>
    match goal with |- context [(_, ?p0, _, _)] =>
      pose proof (spawn_fold_spawned random ff l wave p0 HW HH Hc Hrandom
                    js a0 rc []) as Hf
    end
  end.
  cbv zeta in Hf.
  destruct Hf as (_ & E & All).
  - apply NoDup_seqZ.
  - intros j _ Hj. by apply elem_of_nil in Hj.
  - intros j Hj. apply elem_of_seqZ in Hj. cbn [Canvas.count]. lia.
  - split; cbn [Canvas.count Canvas.bucketsX Canvas.bucketsY Canvas.posX
                Canvas.posY Canvas.velX Canvas.velY Canvas.hp Canvas.next
                Canvas.bucketHead];
      rewrite ?length_replicate; try done; subst cnt bX bY; lia.
  - intros i Hi. by apply elem_of_nil in Hi.
  - destruct (fold_left _ _ _) as [a rc'].
    cbn [fst snd Canvas.count Canvas.entities] in *.
    split; [done|]. split; [done|].
    split; [rewrite E, length_seqZ; done|]. split; [exact Ok|].
    intros i Hi. apply All. cbn [app]. apply elem_of_seqZ. lia.
Qed.

Lemma demoRandom_range n : (0 <= demoRandom n)%Q /\ (demoRandom n < 1)%Q.
Proof.
  unfold demoRandom.
  pose proof (Nat.mod_upper_bound (n * 7) 10 ltac:(lia)) as Hm.
  set (m := ((n * 7) mod 10)%nat) in *.
  assert (H0 : (0 <= inject_Z (Z.of_nat m))%Q)
    by (change 0%Q with (inject_Z 0); rewrite <- Zle_Qle; lia).
  assert (H1 : (inject_Z (Z.of_nat m) < 10)%Q)
    by (change 10%Q with (inject_Z 10); rewrite <- Zlt_Qlt; lia).
  split.
  - apply Qle_shift_div_l; lra.
  - apply Qlt_shift_div_r; lra.
Qed.

Lemma rebuildSwarm_spawns_all_on_border_witness :
  let s := Canvas.rebuildSwarm demoRandom (Canvas.field demoIdle)
             (Canvas.lay demoIdle) 1 demoRefs 0 in
  Canvas.count s.1.1.2 = 3 /\ s.2 = 6%nat /\
  spawned (Canvas.field demoIdle) (Canvas.lay demoIdle) 1 s.1.2 2.
Proof.
  cbv zeta.
  destruct (rebuildSwarm_spawns_all_on_border demoRandom
              (Canvas.field demoIdle) (Canvas.lay demoIdle) 1 demoRefs 0)
    as (Ecnt & _ & Erc & _ & All).
  - vm_compute; split; reflexivity.
  - vm_compute; split; reflexivity.
  - vm_compute; reflexivity.
  - exact demoRandom_range.
  - split; [exact Ecnt|]. split; [exact Erc|]. apply All.
    vm_compute. split; [discriminate|reflexivity].
Defined.

(** ** Agents stay on the canvas *)

Section OnCanvas.
Import FlowField Canvas.
Variable random : nat -> Q.
Variable sqrt : Q -> Q.
Variable ff : FlowField.t.
Variable l : layout.
Variable p : params.
Hypothesis HW : 0 < width ff < 2147483648.
Hypothesis HH : 0 < height ff < 2147483648.
Hypothesis Hfits : fits ff l.
Hypothesis Hw32 : (fround (rendererWidth l) == rendererWidth l)%Q.
Hypothesis Hh32 : (fround (rendererHeight l) == rendererHeight l)%Q.
Hypothesis Hrandom : forall n, (0 <= random n)%Q /\ (random n < 1)%Q.

(** A point of the canvas is stored as a point of the canvas, the sides of
    which are binary32 numbers. *)
Lemma stored_onCanvas px py :
  (0 <= px /\ px <= rendererWidth l /\ 0 <= py /\ py <= rendererHeight l)%Q ->
  (0 <= fround px /\ fround px <= rendererWidth l /\
   0 <= fround py /\ fround py <= rendererHeight l)%Q.
Proof using Hw32 Hh32.
  intros (X0 & X1 & Y0 & Y1).
  assert (H0 : (fround 0 == 0)%Q) by (vm_compute; reflexivity).
  split; [by apply fround_ge|]. split; [by apply fround_le|].
  split; [by apply fround_ge|by apply fround_le].
Qed.

Lemma cellCentre_onCanvas gx gy :
  inBounds ff gx gy = true ->
  (0 <= (cellCentre l gx gy).1 /\
   (cellCentre l gx gy).1 <= rendererWidth l /\
   0 <= (cellCentre l gx gy).2 /\
   (cellCentre l gx gy).2 <= rendererHeight l)%Q.
Proof using Hfits.
  intros [Hx Hy]%inBounds_spec. destruct Hfits as (Hc & X0 & X1 & Y0 & Y1).
  unfold cellCentre. cbn [fst snd].
  assert (Gx0 : (0 <= inject_Z gx)%Q)
    by (change 0%Q with (inject_Z 0); rewrite <- Zle_Qle; lia).
  assert (Gy0 : (0 <= inject_Z gy)%Q)
    by (change 0%Q with (inject_Z 0); rewrite <- Zle_Qle; lia).
  assert (Gx1 : (inject_Z gx + 1 <= inject_Z (width ff))%Q).
  { change 1%Q with (inject_Z 1). rewrite <- inject_Z_plus, <- Zle_Qle. lia. }
  assert (Gy1 : (inject_Z gy + 1 <= inject_Z (height ff))%Q).
  { change 1%Q with (inject_Z 1). rewrite <- inject_Z_plus, <- Zle_Qle. lia. }
  set (c := cellPx l) in *. set (qx := inject_Z gx) in *.
  set (qy := inject_Z gy) in *. set (W := inject_Z (width ff)) in *.
  set (H := inject_Z (height ff)) in *. clearbody c qx qy W H.
  repeat split; nra.
Qed.

(** A write to the position of one agent. *)
Lemma moved_onCanvas a i px py b :
  length (posX a) = length (posY a) ->
  onCanvas l a ->
  posX b = aset (posX a) i px -> posY b = aset (posY a) i py ->
  (0 <= px /\ px <= rendererWidth l /\ 0 <= py /\ py <= rendererHeight l)%Q ->
  onCanvas l b.
Proof.
  intros Hlen On Ex Ey Hp j x y Hx Hy. rewrite Ex in Hx. rewrite Ey in Hy.
  destruct (decide (j = i)) as [->|Hne].
  - pose proof (aget_lt_length _ _ _ Hx) as Hr. rewrite length_aset in Hr.
    rewrite aget_aset_eq in Hx by done.
    rewrite aget_aset_eq in Hy by lia.
    injection Hx as <-. injection Hy as <-. done.
  - rewrite aget_aset_ne in Hx by done. rewrite aget_aset_ne in Hy by done.
    by apply (On j).
Qed.

Lemma spawnEdge_onCanvas w a rc i :
  swarmOk p a -> onCanvas l a ->
  onCanvas l (spawnEdge random ff l w a rc i).1.
Proof using HW HH Hfits Hw32 Hh32 Hrandom.
  intros Ok On. unfold spawnEdge.
  destruct (Hrandom (S rc)) as [S0 S1].
  pose proof (random_index (random (S rc)) _ S0 S1 HW) as Hx.
  pose proof (random_index (random (S rc)) _ S0 S1 HH) as Hy.
  set (ix := toInt32 (Qtrunc (random (S rc) * inject_Z (width ff)))) in *.
  set (iy := toInt32 (Qtrunc (random (S rc) * inject_Z (height ff)))) in *.
  match goal with |- context [let '(gx, gy) := ?c in _] =>
    assert (Hcell : inBounds ff c.1 c.2 = true); [|destruct c as [gx gy]]
  end.
  { repeat case_match; cbn [fst snd]; apply inBounds_spec; lia. }
  cbn [fst snd] in *.
  eapply (moved_onCanvas a i); [|exact On|reflexivity|reflexivity|].
  - destruct Ok. congruence.
  - apply stored_onCanvas. apply (cellCentre_onCanvas gx gy Hcell).
Qed.

Lemma fire_onCanvas g a rc dt s :
  swarmOk p a -> onCanvas l a ->
  fire random ff l p g a rc dt = Some s -> onCanvas l s.1.2.
Proof using HW HH Hfits Hw32 Hh32 Hrandom.
  intros Ok On. unfold fire. destruct (Qle_bool _ 0); [|by intros [= <-]].
  destruct (bucketOf l p (baseX ff l) (baseY ff l)) as [bx by_].
  destruct (scanBuckets p a bx by_ _) as [cands|]; [|done]. simpl.
  destruct (_ =? -1); [by intros [= <-]|].
  destruct (aget (hp a) _) as [cur|]; [|by intros [= <-]].
  destruct (cur <=? _).
  - match goal with |- context [spawnEdge random ff l ?w a rc ?j] =>
      pose proof (spawnEdge_onCanvas w a rc j Ok On) as Hs;
      destruct (spawnEdge random ff l w a rc j) as [a' rc'] end.
    by intros [= <-].
  - by intros [= <-].
Qed.

Lemma classify_onCanvas nx ny :
  classify ff l nx ny = Committed ->
  (0 <= nx /\ nx <= rendererWidth l /\ 0 <= ny /\ ny <= rendererHeight l)%Q.
Proof.
  unfold classify.
  destruct (Qltb nx 0) eqn:E1; [done|].
  destruct (Qltb (rendererWidth l) nx) eqn:E2; [done|].
  destruct (Qltb ny 0) eqn:E3; [done|].
  destruct (Qltb (rendererHeight l) ny) eqn:E4; [done|].
  intros _. apply Qltb_false in E1, E2, E3, E4. done.
Qed.

Lemma steerAgent_onCanvas r dt g a rc i s :
  swarmOk p a -> onCanvas l a ->
  steerAgent random sqrt ff l p r dt (g, a, rc) i = Some s ->
  onCanvas l s.1.2.
Proof using HW HH Hfits Hw32 Hh32 Hrandom.
  intros Ok On. unfold steerAgent.
  destruct (aget (posX a) i) as [x|] eqn:Hx; [|by intros [= <-]].
  destruct (aget (posY a) i) as [y|] eqn:Hy; [|by intros [= <-]].
  destruct (aget (velX a) i) as [vx0|]; [|by intros [= <-]].
  destruct (aget (velY a) i) as [vy0|]; [|by intros [= <-]].
  destruct (acceleration sqrt ff l p r a i x y) as [acc|]; [|done]. simpl.
  assert (Hlen : length (posX a) = length (posY a))
    by (destruct Ok; congruence).
  destruct (classify ff l _ _) eqn:Ec.
  - match goal with |- context [spawnEdge random ff l ?w a rc i] =>
      pose proof (spawnEdge_onCanvas w a rc i Ok On) as Hs;
      destruct (spawnEdge random ff l w a rc i) as [a' rc'] end.
    by intros [= <-].
  - match goal with |- context [spawnEdge random ff l ?w a rc i] =>
      pose proof (spawnEdge_onCanvas w a rc i Ok On) as Hs;
      destruct (spawnEdge random ff l w a rc i) as [a' rc'] end.
    by intros [= <-].
  - apply classify_onCanvas in Ec.
    destruct (On i x y Hx Hy) as (X0 & X1 & Y0 & Y1).
    destruct (inWall ff l _ _); intros [= <-]; cbn [fst snd].
    + eapply (moved_onCanvas a i); [done|exact On|reflexivity|reflexivity|].
      apply stored_onCanvas.
      unfold slide. destruct (cellOf l _ y) as [tx ty].
      destruct (openCell ff tx ty);
        match goal with |- context [cellOf l ?u ?v] =>
          destruct (cellOf l u v) as [tx2 ty2] end;
        destruct (openCell ff tx2 ty2); cbn [fst snd]; tauto.
    + eapply (moved_onCanvas a i); [done|exact On|reflexivity|reflexivity|].
      apply stored_onCanvas. exact Ec.
Qed.

Lemma steer_fold_onCanvas r dt js : forall s s',
  swarmOk p s.1.2 -> chained p s.1.2 -> onCanvas l s.1.2 ->
  fold_left (fun acc i => s ← acc; steerAgent random sqrt ff l p r dt s i)
    js (Some s) = Some s' ->
  onCanvas l s'.1.2.
Proof using HW HH Hfits Hw32 Hh32 Hrandom.
  induction js as [|j js IH]; intros [[g a] rc] s' Ok Hch On;
    cbn [fold_left fst snd] in *.
  - by intros [= <-].
  - destruct (steerAgent_total random sqrt ff l p r dt g a rc j Ok Hch)
      as (s1 & E & Hs).
    assert (Hstep : (s ← Some (g, a, rc);
                     steerAgent random sqrt ff l p r dt s j) = Some s1)
      by exact E.
    rewrite Hstep. apply IH.
    + by apply (sameShape_swarmOk p a).
    + by apply (sameShape_chained p a).
    + by apply (steerAgent_onCanvas r dt g a rc j).
Qed.

Lemma updateSwarm_onCanvas r g a rc dt s :
  swarmOk p a -> onCanvas l a ->
  updateSwarm random sqrt ff l p r g a rc dt = Some s -> onCanvas l s.1.2.
Proof using HW HH Hfits Hw32 Hh32 Hrandom.
  intros Ok On. unfold updateSwarm.
  destruct (negb (waveActive g)); [by intros [= <-]|].
  destruct (rebuildBuckets_ok ff l p a Ok) as (Ok1 & Hh).
  pose proof (hashed_chained l p _ Hh) as Hch.
  pose proof Ok as [Hc HbX HbY Lx Ly _ _ _ Ln Lh].
  destruct (rebuildBuckets_hashed ff l p HbX HbY a Hc Lx Ly Ln Lh)
    as (_ & Px & Py).
  assert (On1 : onCanvas l (rebuildBuckets ff l p a)).
  { intros i x y. rewrite Px, Py. apply On. }
  destruct (fire_total random ff l p g (rebuildBuckets ff l p a) rc dt Ok1 Hch)
    as (s1 & E & Hs).
  rewrite E. cbn [mbind option_bind].
  apply steer_fold_onCanvas.
  - by apply (sameShape_swarmOk p (rebuildBuckets ff l p a)).
  - by apply (sameShape_chained p (rebuildBuckets ff l p a)).
  - by apply (fire_onCanvas g (rebuildBuckets ff l p a) rc dt).
Qed.
End OnCanvas.

Section Framed.
Import FlowField Canvas.
Variable random : nat -> Q.
Variable sqrt : Q -> Q.
Hypothesis Hrandom : forall n, (0 <= random n)%Q /\ (random n < 1)%Q.

Lemma rebuildSwarm_onCanvas ff l w r rc :
  0 < width ff < 2147483648 -> 0 < height ff < 2147483648 -> fits ff l ->
  (fround (rendererWidth l) == rendererWidth l)%Q ->
  (fround (rendererHeight l) == rendererHeight l)%Q ->
  onCanvas l (rebuildSwarm random ff l w r rc).1.2.
Proof using Hrandom.
  intros HW HH Hfits Hw32 Hh32.
  pose proof (rebuildSwarm_ok random ff l w r rc) as Ok.
  unfold rebuildSwarm in *.
  set (cnt := Z.max 0 _) in *.
  set (bX := Z.max 1 _) in *. set (bY := Z.max 1 _) in *.
  match goal with |- context [fold_left ?f ?js (?a0, rc)] =>
    match goal with |- context [(_, ?p0, _, _)] =>
      assert (Hf : forall ks b n, swarmOk p0 b -> onCanvas l b ->
                 onCanvas l (fold_left f ks (b, n)).1);
      [|specialize (Hf js a0 rc)]
    end
  end.
  { clear Ok. induction ks as [|j ks IH]; intros b n Okb On;
      cbn [fold_left fst snd]; [done|].
    pose proof (spawnEdge_onCanvas random ff l _ HW HH Hfits Hw32 Hh32
                  Hrandom w b n j Okb On) as On'.
    pose proof (spawnEdge_shape random ff l w b n j) as Hs.
    destruct (spawnEdge random ff l w b n j) as [b1 n1].
    apply IH; [|done]. by eapply sameShape_swarmOk. }
  destruct (fold_left _ _ _) as [a rc']. cbn [fst snd] in *.
  apply Hf.
  - split; cbn [count bucketsX bucketsY posX posY velX velY hp next
                bucketHead];
      rewrite ?length_replicate; try done; subst cnt bX bY; lia.
  - intros i x y Hx Hy. cbn [posX posY] in *.
    assert (x = 0%Q) as ->.
    { unfold aget in Hx. destruct (i <? 0); [done|].
      by apply lookup_replicate in Hx as [-> _]. }
    assert (y = 0%Q) as ->.
    { unfold aget in Hy. destruct (i <? 0); [done|].
      by apply lookup_replicate in Hy as [-> _]. }
    destruct Hfits as (Hc & X0 & X1 & Y0 & Y1).
    assert (Gx : (1 <= inject_Z (width ff))%Q).
    { change 1%Q with (inject_Z 1). rewrite <- Zle_Qle. lia. }
    assert (Gy : (1 <= inject_Z (height ff))%Q).
    { change 1%Q with (inject_Z 1). rewrite <- Zle_Qle. lia. }
    set (c := cellPx l) in *. set (W := inject_Z (width ff)) in *.
    set (H := inject_Z (height ff)) in *. clearbody c W H.
    repeat split; nra.
Qed.

Lemma ready_dims st :
  ready st ->
  0 < width (field st) < 2147483648 /\ 0 < height (field st) < 2147483648.
Proof.
  intros [[Hwf W H _ _ _] _]. destruct Hwf as [_ _ Hcells _ _ _ _]. nia.
Qed.

Lemma tick_framed st now st' :
  framed st -> tick random sqrt st now = Some st' ->
  field st' = field st /\ lay st' = lay st /\ onCanvas (lay st') (ag st').
Proof using Hrandom.
  intros [I Hfits On _ _ Hw32 Hh32 _ _] H.
  destruct (ready_dims st I) as [HW HH]. destruct I as [_ Ok].
  unfold tick in H. destruct (paused (rf st)); [by injection H as <-|].
  match type of H with context [updateSwarm _ _ _ _ _ _ ?g _ _ ?dt] =>
    destruct (updateSwarm random sqrt (field st) (lay st) (par st)
                (rf st) g (ag st) (randomCalls st) dt)
      as [[[g3 a3] rc3]|] eqn:E; [|cbn [mbind option_bind] in H; done] end.
  apply (updateSwarm_onCanvas random sqrt (field st) (lay st) (par st) HW HH
           Hfits Hw32 Hh32 Hrandom) in E; [|done|done].
  cbn [mbind option_bind fst snd] in *.
  destruct (Qle_bool 250 _); injection H as <-; done.
Qed.

Lemma editAtClient_framed st x y st' :
  wf (field st) -> editAtClient st x y = Some st' ->
  width (field st') = width (field st) /\
  height (field st') = height (field st) /\
  lay st' = lay st /\ ag st' = ag st.
Proof.
  intros Hwf. unfold editAtClient.
  destruct (cellOf (lay st) x y) as [gx gy].
  destruct (negb (inBounds (field st) gx gy)); [by intros [= <-]|].
  destruct ((gx =? targetX (field st)) && (gy =? targetY (field st)));
    [by intros [= <-]|].
  match goal with |- context [if ?c then Some st else _] => destruct c end;
    [by intros [= <-]|].
  set (b := negb _).
  pose proof (wf_setWall (field st) gx gy b Hwf) as Hwf'.
  destruct (generate_total _ Hwf' (targetX (setWall (field st) gx gy b))
              (targetY (setWall (field st) gx gy b)))
    as (ff' & E & _ & W & H & _).
  rewrite E. cbn [mbind option_bind]. intros [= <-]. done.
Qed.

Lemma applyTerrain_framed st c st' :
  wf (field st) -> applyTerrain st c = Some st' ->
  width (field st') = width (field st) /\
  height (field st') = height (field st) /\
  lay st' = lay st /\ ag st' = ag st.
Proof.
  intros Hwf H.
  destruct (applyTerrain_regenerates st c Hwf) as (st2 & E & _ & W & Hh & _).
  rewrite E in H. injection H as <-.
  split; [done|]. split; [done|].
  assert (L : lay st2 = lay st).
  { revert E. unfold applyTerrain. destruct (generate _ _ _); [|done].
    cbn [mbind option_bind]. by intros [= <-]. }
  apply applyTerrain_swarm in E as [_ A]. done.
Qed.
End Framed.

Section Framed2.
Import FlowField Canvas.
Variable random : nat -> Q.
Variable sqrt : Q -> Q.
Hypothesis Hrandom : forall n, (0 <= random n)%Q /\ (random n < 1)%Q.

Lemma applyPilot_framed st b st' :
  wf (field st) -> applyPilot st b = Some st' ->
  width (field st') = width (field st) /\
  height (field st') = height (field st) /\
  lay st' = lay st /\ ag st' = ag st.
Proof.
  intros Hwf. unfold applyPilot. destruct b; [by intros [= <-]|].
  intros H. by apply applyTerrain_framed in H.
Qed.

Lemma computeLayout_fits_in ff l :
  0 < width ff <= 128 -> 0 < height ff <= 128 ->
  (768 <= rendererWidth l)%Q -> (768 <= rendererHeight l)%Q ->
  fits ff (computeLayout ff l) /\
  rendererWidth (computeLayout ff l) = rendererWidth l /\
  rendererHeight (computeLayout ff l) = rendererHeight l.
Proof.
  intros HW HH Hw Hh. split; [|done].
  assert (Gw : (inject_Z (6 * width ff) <= rendererWidth l)%Q).
  { eapply Qle_trans; [|exact Hw]. change 768%Q with (inject_Z 768).
    rewrite <- Zle_Qle. lia. }
  assert (Gh : (inject_Z (6 * height ff) <= rendererHeight l)%Q).
  { eapply Qle_trans; [|exact Hh]. change 768%Q with (inject_Z 768).
    rewrite <- Zle_Qle. lia. }
  destruct (computeLayout_inside ff l ltac:(lia) ltac:(lia) Gw Gh)
    as (X0 & X1 & Y0 & Y1 & _).
  destruct (computeLayout_cellPx ff l) as (n & En & Hn).
  split; [|done].
  rewrite En. change 0%Q with (inject_Z 0). rewrite <- Zlt_Qlt. lia.
Qed.

Lemma setGridSize_framed st n st' :
  (768 <= rendererWidth (lay st))%Q -> (768 <= rendererHeight (lay st))%Q ->
  setGridSize random st n = Some st' ->
  0 < width (field st') <= 128 /\ 0 < height (field st') <= 128 /\
  fits (field st') (lay st') /\
  rendererWidth (lay st') = rendererWidth (lay st) /\
  rendererHeight (lay st') = rendererHeight (lay st) /\
  exists w r rc,
    ag st' = (rebuildSwarm random (field st') (lay st') w r rc).1.2.
Proof.
  intros Hw Hh. unfold setGridSize.
  set (size := Z.max 24 (Z.min 128 (Qfloor n))).
  assert (Hs : 24 <= size <= 128) by (unfold size; lia).
  destruct (rebuildField_new size (lay st)) as (ff' & l' & E & R & W & H);
    [lia|].
  assert (El : l' = computeLayout (FlowField.new size size) (lay st)).
  { revert E. unfold rebuildField. destruct (generate _ _ _); [|done].
    cbn [mbind option_bind]. by intros [= _ <-]. }
  rewrite E. cbn [mbind option_bind fst snd].
  match goal with |- context [applyPilot ?s ?b] =>
    destruct (applyPilot s b) as [st2|] eqn:E2; [|done];
    apply applyPilot_framed in E2 as (W2 & H2 & L2 & A2);
      [|by apply regenerated_facts] end.
  cbn [field lay ag] in *. cbn [mbind option_bind]. intros [= <-].
  cbn [withSwarm field lay ag].
  destruct (computeLayout_fits_in (FlowField.new size size) (lay st))
    as (F & Rw & Rh); [cbn; lia|cbn; lia|done|done|].
  rewrite W2, H2, W, H, L2, El. split; [lia|]. split; [lia|].
  split.
  { destruct F as (F1 & F2 & F3 & F4 & F5).
    unfold fits. rewrite W2, H2, W, H. done. }
  split; [done|]. split; [done|]. rewrite <- El, <- L2. eauto.
Qed.

Lemma fits_dims ff ff' l :
  width ff' = width ff -> height ff' = height ff -> fits ff l -> fits ff' l.
Proof. unfold fits. by intros -> ->. Qed.

(** Each input keeps the grid inside the renderer and the agents on the
    canvas. *)
Lemma handle_framed st e st' :
  framed st -> handle random sqrt st e = Some st' ->
  framed st' /\
  rendererWidth (lay st') = rendererWidth (lay st) /\
  rendererHeight (lay st') = rendererHeight (lay st).
Proof using Hrandom.
  intros F H. pose proof F as [I Hfits On Hw Hh Hw32 Hh32 HW HH].
  destruct (handle_total random sqrt st e I) as (st2 & E2 & I').
  rewrite H in E2. injection E2 as <-.
  destruct (ready_dims st I) as [Dw Dh].
  assert (Hwf : wf (field st)) by (by destruct I as [[] _]).
  destruct e; cbn [handle] in H.
  - destruct (tick_framed random sqrt Hrandom st now st' F H) as (Ef & El & On').
    rewrite El in On'. split; [|by rewrite El].
    split; rewrite ?El, ?Ef; done.
  - apply (editAtClient_framed st x y st' Hwf) in H as (W & Hh' & L & A).
    rewrite L. split; [|done].
    split; rewrite ?L, ?A, ?W, ?Hh'; try done. by eapply fits_dims.
  - injection H as <-. split; [|done]. by split.
  - injection H as <-. split; [|done].
    split; cbn [startWave withSwarm field lay ag]; try done.
    by apply rebuildSwarm_onCanvas.
  - injection H as <-. split; [|done]. by split.
  - injection H as <-. split; [|done].
    split; cbn [setEntityCount withSwarm field lay ag]; try done.
    by apply rebuildSwarm_onCanvas.
  - apply (setGridSize_framed st n st' Hw Hh) in H
      as (W & Hh' & Fi & Rw & Rh & w & r & rc & A).
    split; [|done].
    split; try done; try lia; try (by rewrite ?Rw, ?Rh).
    rewrite A.
    apply (rebuildSwarm_onCanvas random Hrandom);
      [lia|lia|done|by rewrite Rw|by rewrite Rh].
  - apply (applyPilot_framed (withPilot st p) p st') in H
      as (W & Hh' & L & A); [|done].
    cbn [withPilot field lay ag] in *. rewrite L. split; [|done].
    split; rewrite ?L, ?A, ?W, ?Hh'; try done. by eapply fits_dims.
  - unfold pilotSettled in H. destruct (negb _).
    + injection H as <-. split; [|done]. by split.
    + apply (applyTerrain_framed st c st' Hwf) in H as (W & Hh' & L & A).
      rewrite L. split; [|done].
      split; rewrite ?L, ?A, ?W, ?Hh'; try done. by eapply fits_dims.
Qed.

Lemma run_framed es : forall st st',
  framed st -> run random sqrt st es = Some st' ->
  framed st' /\
  rendererWidth (lay st') = rendererWidth (lay st) /\
  rendererHeight (lay st') = rendererHeight (lay st).
Proof using Hrandom.
  unfold run. induction es as [|e es IH]; intros st st' F; cbn [fold_left].
  - by intros [= <-].
  - destruct (handle_total random sqrt st e (fr_ready _ F)) as (st1 & E & _).
    assert (Hstep : (s ← Some st; handle random sqrt s e) = Some st1)
      by exact E.
    rewrite Hstep. intros H.
    destruct (handle_framed st e st1 F E) as (F1 & Rw & Rh).
    destruct (IH st1 st' F1 H) as (F2 & Rw2 & Rh2).
    split; [done|]. split; congruence.
Qed.

Lemma init_framed gridSize w h r now st :
  0 < gridSize <= 128 -> (768 <= w)%Q -> (768 <= h)%Q ->
  (fround w == w)%Q -> (fround h == h)%Q ->
  init random gridSize w h r now = Some st ->
  framed st /\ rendererWidth (lay st) = w /\ rendererHeight (lay st) = h.
Proof using Hrandom.
  intros Hg Hw Hh Hw32 Hh32 H.
  destruct (init_total random gridSize w h r now) as (st2 & E2 & I);
    [lia|nia|].
  rewrite H in E2. injection E2 as <-.
  revert H. unfold init.
  destruct (rebuildField_new gridSize
              {| cellPx := 10; offsetX := 0; offsetY := 0;
                 rendererWidth := w; rendererHeight := h |})
    as (ff' & l' & E & R & W & H); [lia|].
  set (l0 := {| cellPx := 10; offsetX := 0; offsetY := 0;
                rendererWidth := w; rendererHeight := h |}) in *.
  assert (El : l' = computeLayout (FlowField.new gridSize gridSize) l0).
  { revert E. unfold rebuildField. destruct (generate _ _ _); [|done].
    cbn [mbind option_bind]. by intros [= _ <-]. }
  assert (E' : rebuildField (FlowField.new gridSize gridSize)
                 (computeLayout (FlowField.new gridSize gridSize) l0) =
               Some (ff', l')).
  { revert E. unfold rebuildField. destruct (generate _ _ _); [|done].
    cbn [mbind option_bind]. intros [= <- <-]. done. }
  rewrite E'. cbn [mbind option_bind fst snd].
  intros H2.
  apply applyPilot_framed in H2 as (W2 & H2' & L2 & A2);
    [|cbn [withSwarm field]; by apply regenerated_facts].
  cbn [withSwarm field lay ag] in *.
  destruct (computeLayout_fits_in (FlowField.new gridSize gridSize) l0)
    as (F & Rw & Rh); [cbn; lia|cbn; lia|done|done|].
  rewrite <- El in F, Rw, Rh. cbn [l0 rendererWidth rendererHeight] in Rw, Rh.
  assert (Ff : fits ff' l').
  { unfold fits in *. by rewrite W, H. }
  split; [|by rewrite L2].
  split; rewrite ?L2, ?A2, ?W2, ?H2', ?W, ?H, ?Rw, ?Rh; try done; try lia.
  - unfold fits in *. by rewrite W2, H2'.
  - apply (rebuildSwarm_onCanvas random Hrandom);
      [lia|lia|done|by rewrite Rw|by rewrite Rh].
Qed.
End Framed2.

(** X19. On a renderer of at least 768 by 768 pixels whose size does not
    change and whose width and height are binary32 numbers (as whole
    numbers of pixels are), with a grid of at most 128 cells a side and
    random numbers in [0, 1), no agent is ever off the canvas: whatever
    inputs the canvas handles after its creation, every position held by
    the position arrays lies within the renderer's width and height. *)
Theorem agents_never_leave_the_canvas (random : nat -> Q) (sqrt : Q -> Q)
    (gridSize : Z) (w h : Q) (r : Canvas.refs) (now : Q)
    (es : list Canvas.event) :
  0 < gridSize <= 128 -> (768 <= w)%Q -> (768 <= h)%Q ->
  (Canvas.fround w == w)%Q -> (Canvas.fround h == h)%Q ->
  (forall n, (0 <= random n)%Q /\ (random n < 1)%Q) ->
  exists st0 st,
    Canvas.init random gridSize w h r now = Some st0 /\
    Canvas.run random sqrt st0 es = Some st /\
    forall i x y,
      aget (Canvas.posX (Canvas.ag st)) i = Some x ->
      aget (Canvas.posY (Canvas.ag st)) i = Some y ->
      (0 <= x /\ x <= w /\ 0 <= y /\ y <= h)%Q.
Proof.
  intros Hg Hw Hh Hw32 Hh32 Hrandom.
  destruct (init_total random gridSize w h r now) as (st0 & Hinit & I0);
    [lia|nia|].
  destruct (init_framed random Hrandom gridSize w h r now st0 Hg Hw Hh
              Hw32 Hh32 Hinit) as (F0 & Rw0 & Rh0).
  destruct (run_total random sqrt es st0 I0) as (st & Hrun & _).
  destruct (run_framed random sqrt Hrandom es st0 st F0 Hrun)
    as (F & Rw & Rh).
  exists st0, st. split; [done|]. split; [done|].
  intros i x y Hx Hy. destruct (fr_on _ F i x y Hx Hy) as (X0 & X1 & Y0 & Y1).
  rewrite Rw, Rw0 in X1. rewrite Rh, Rh0 in Y1. done.
Qed.

Lemma agents_never_leave_the_canvas_witness :
  exists st0 st,
    Canvas.init demoRandom 5 800 800 demoRefs 0 = Some st0 /\
    Canvas.run demoRandom demoSqrt st0 [Canvas.StartWave 0; Canvas.Tick 16] =
      Some st /\
    forall i x y,
      aget (Canvas.posX (Canvas.ag st)) i = Some x ->
      aget (Canvas.posY (Canvas.ag st)) i = Some y ->
      (0 <= x /\ x <= 800 /\ 0 <= y /\ y <= 800)%Q.
Proof.
  apply agents_never_leave_the_canvas.
  - lia.
  - vm_compute. discriminate.
  - vm_compute. discriminate.
  - vm_compute; reflexivity.
  - vm_compute; reflexivity.
  - exact demoRandom_range.
Defined.

(** ** Pauses and the number of agents *)

Lemma paused_ticks random sqrt st ts :
  Canvas.paused (Canvas.rf st) = true ->
  Canvas.run random sqrt st (map Canvas.Tick ts) = Some st.
Proof.
  intros Hp. unfold Canvas.run.
  induction ts as [|t ts IH]; cbn [map fold_left]; [done|].
  cbn [mbind option_bind Canvas.handle]. unfold Canvas.tick at 1.
  rewrite Hp. exact IH.
Qed.

(** X20. While the canvas is paused its frames change nothing, but the end
    of the wave is a fixed time: the first frame after the pause that
    comes at or after [waveEndsAt] ends the wave without moving an agent,
    however much of the wave was spent paused. *)
Theorem pause_does_not_stop_the_wave_clock
    (random : nat -> Q) (sqrt : Q -> Q) (st : Canvas.state) (ts : list Q)
    (now : Q) :
  Canvas.paused (Canvas.rf st) = true ->
  (Canvas.waveEndsAt (Canvas.gm st) <= now)%Q ->
  Canvas.run random sqrt st (map Canvas.Tick ts) = Some st /\
  exists st',
    Canvas.run random sqrt st
      (map Canvas.Tick ts ++ [Canvas.SetPaused false; Canvas.Tick now]) =
      Some st' /\
    Canvas.waveActive (Canvas.gm st') = false /\
    Canvas.ag st' = Canvas.ag st /\
    Canvas.baseHp (Canvas.gm st') = Canvas.baseHp (Canvas.gm st) /\
    Canvas.gold (Canvas.gm st') = Canvas.gold (Canvas.gm st) /\
    Canvas.wave (Canvas.gm st') = Canvas.wave (Canvas.gm st).
Proof.
  intros Hp Hend. pose proof (paused_ticks random sqrt st ts Hp) as Hrun.
  split; [exact Hrun|].
  unfold Canvas.run in *. rewrite fold_left_app, Hrun.
  cbn [fold_left mbind option_bind Canvas.handle].
  unfold Canvas.tick.
  cbn [Canvas.setPaused Canvas.rf Canvas.withPaused Canvas.paused Canvas.gm
       Canvas.field Canvas.lay Canvas.par Canvas.ag Canvas.randomCalls
       Canvas.lastFrameAt Canvas.lastPerfAt Canvas.perf].
  apply Qle_bool_iff in Hend. rewrite Hend.
  set (g1 := if Canvas.waveActive (Canvas.gm st) && true
             then Canvas.withWaveActive (Canvas.gm st) false
             else Canvas.gm st).
  assert (H1 : Canvas.waveActive g1 = false /\
               Canvas.baseHp g1 = Canvas.baseHp (Canvas.gm st) /\
               Canvas.gold g1 = Canvas.gold (Canvas.gm st) /\
               Canvas.wave g1 = Canvas.wave (Canvas.gm st)).
  { subst g1. destruct (Canvas.waveActive (Canvas.gm st)) eqn:Ea;
      cbn [andb Canvas.withWaveActive Canvas.waveActive Canvas.baseHp
           Canvas.gold Canvas.wave]; done. }
  destruct H1 as (A1 & B1 & G1 & W1). rewrite A1. cbn [andb].
  rewrite updateSwarm_idle by done. cbn [mbind option_bind].
  destruct (Qle_bool 250 _); (eexists; split; [done|]);
    cbn [Canvas.withSim Canvas.gm Canvas.ag]; done.
Qed.

Lemma pause_does_not_stop_the_wave_clock_witness :
  exists st',
    Canvas.run demoRandom demoSqrt (Canvas.setPaused demoWave true)
      (map Canvas.Tick [16; 20000; 40000]%Q ++
       [Canvas.SetPaused false; Canvas.Tick 40016]) = Some st' /\
    Canvas.waveActive (Canvas.gm st') = false /\
    Canvas.ag st' = Canvas.ag demoWave.
Proof.
  destruct (pause_does_not_stop_the_wave_clock demoRandom demoSqrt
              (Canvas.setPaused demoWave true) [16; 20000; 40000]%Q 40016)
    as (_ & st' & E & A & B & _).
  - vm_compute; reflexivity.
  - vm_compute. discriminate.
  - exists st'. split; [exact E|]. split; [exact A|exact B].
Defined.

(** X21. [setEntityCount(n)] rebuilds the swarm with [floor n] agents when
    [n] is at least 1; for a smaller [n] the stored count is 0, which
    [rebuildSwarm] takes for unset, so that the swarm gets the
    [entityCount] of the component (or none if that is negative) rather
    than no agents.  The game, the field and the layout are kept. *)
Theorem setEntityCount_below_one_falls_back
    (random : nat -> Q) (st : Canvas.state) (n : Q) :
  let st' := Canvas.setEntityCount random st n in
  ((1 <= n)%Q ->
   Canvas.count (Canvas.par st') = Qfloor n /\
   Canvas.entities (Canvas.rf st') = Qfloor n) /\
  ((n < 1)%Q ->
   Canvas.count (Canvas.par st') =
     Z.max 0 (Canvas.entityCount (Canvas.rf st)) /\
   Canvas.entities (Canvas.rf st') =
     Z.max 0 (Canvas.entityCount (Canvas.rf st))) /\
  swarmOk (Canvas.par st') (Canvas.ag st') /\
  Canvas.gm st' = Canvas.gm st /\ Canvas.field st' = Canvas.field st /\
  Canvas.lay st' = Canvas.lay st.
Proof.
  cbv zeta. unfold Canvas.setEntityCount.
  split; [|split]; [| |split; [apply rebuildSwarm_ok|done]].
  - intros Hn.
    assert (1 <= Qfloor n).
    { apply Qfloor_iff_ge. exact Hn. }
    unfold Canvas.rebuildSwarm.
    cbn [Canvas.withEntities Canvas.entities Canvas.entityCount].
    destruct (fold_left _ _ _) as [a rc'].
    cbn [Canvas.withSwarm Canvas.par Canvas.rf fst snd Canvas.count
         Canvas.entities].
    destruct (Z.eqb_spec (Z.max 0 (Qfloor n)) 0); lia.
  - intros Hn.
    assert (Qfloor n <= 0).
    { assert (Hlt : (inject_Z (Qfloor n) < inject_Z 1)%Q)
        by (eapply Qle_lt_trans; [apply Qfloor_le|exact Hn]).
      rewrite <- Zlt_Qlt in Hlt. lia. }
    unfold Canvas.rebuildSwarm.
    cbn [Canvas.withEntities Canvas.entities Canvas.entityCount].
    destruct (fold_left _ _ _) as [a rc'].
    cbn [Canvas.withSwarm Canvas.par Canvas.rf fst snd Canvas.count
         Canvas.entities].
    destruct (Z.eqb_spec (Z.max 0 (Qfloor n)) 0); [done|lia].
Qed.

Lemma setEntityCount_below_one_falls_back_witness :
  Canvas.count (Canvas.par (Canvas.setEntityCount demoRandom demoIdle 0)) = 3.
Proof.
  destruct (setEntityCount_below_one_falls_back demoRandom demoIdle 0)
    as (_ & Hlow & _).
  destruct Hlow as [E _]; [vm_compute; reflexivity|]. exact E.
Defined.

(** ** The stored field is the field of the walls in force *)

Lemma walk_same ff ff' tx ty n x y :
  FlowField.width ff' = FlowField.width ff ->
  FlowField.height ff' = FlowField.height ff ->
  FlowField.cost ff' = FlowField.cost ff ->
  walk ff tx ty n x y -> walk ff' tx ty n x y.
Proof.
  intros W H C. induction 1 as [|n x y dx dy Hw IH Hd Hin Hwall].
  - constructor.
  - apply walk_step; [done|done| |].
    + unfold FlowField.inBounds in *. by rewrite W, H.
    + unfold FlowField.isWall, FlowField.idx in *. by rewrite C, W.
Qed.

(** A fresh field holds shortest distances over its own walls. *)
Lemma fresh_distances ff' :
  fresh ff' ->
  FlowField.inBounds ff' (FlowField.targetX ff') (FlowField.targetY ff') =
    true ->
  FlowField.isWall ff' (FlowField.targetX ff') (FlowField.targetY ff') =
    false ->
  forall x y, FlowField.inBounds ff' x y = true ->
    exists d, FlowField.integrationAt ff' x y = Some d /\
      0 <= d <= FlowField.INF /\
      (d <> FlowField.INF ->
       walk ff' (FlowField.targetX ff') (FlowField.targetY ff')
         (Z.to_nat d) x y) /\
      (forall n,
         walk ff' (FlowField.targetX ff') (FlowField.targetY ff') n x y ->
         d <= Z.of_nat n).
Proof.
  intros (ff0 & Hwf & E) Hin Hopen x y Hxy.
  set (tx := FlowField.targetX ff') in *.
  set (ty := FlowField.targetY ff') in *.
  destruct (generate_total ff0 Hwf tx ty)
    as (ff2 & E2 & Hwf2 & W & H & C & TX & TY).
  rewrite E in E2. injection E2 as <-.
  assert (Hin0 : FlowField.inBounds ff0 tx ty = true)
    by (unfold FlowField.inBounds in *; by rewrite <- W, <- H).
  assert (Hopen0 : FlowField.isWall ff0 tx ty = false)
    by (unfold FlowField.isWall, FlowField.idx in *; by rewrite <- C, <- W).
  assert (Hxy0 : FlowField.inBounds ff0 x y = true)
    by (unfold FlowField.inBounds in *; by rewrite <- W, <- H).
  destruct (generate_close ff0 Hwf tx ty Hin0 Hopen0)
    as (integ & q & E3 & F & L).
  rewrite E in E3. injection E3 as E3.
  pose proof (idx_range ff0 x y Hxy0) as Hr.
  destruct (aget_is_Some integ (FlowField.idx ff0 x y)) as [v Hv].
  { rewrite (fl_len _ _ _ F). unfold FlowField.cells. lia. }
  pose proof (fl_range _ _ _ F _ _ Hv) as Hvr.
  exists v. split.
  { unfold FlowField.integrationAt. rewrite E3.
    change (aget integ (FlowField.idx ff0 x y) = Some v). exact Hv. }
  split; [done|]. split.
  - intros Hfin. apply (walk_same ff0 ff'); try done.
    apply (reached_walk ff0 Hwf tx ty Hin0 integ F (Z.to_nat v) x y v);
      try done. lia.
  - intros n Wk.
    apply (walk_same ff' ff0) in Wk; try done.
    destruct (walk_bound ff0 Hwf tx ty Hin0 integ F L n x y Wk)
      as (_ & v' & Hv' & Hle).
    rewrite Hv in Hv'. by injection Hv' as <-.
Qed.

Section Fresh.
Import FlowField Canvas.
Variable random : nat -> Q.
Variable sqrt : Q -> Q.

Lemma generate_fresh ff tx ty ff' :
  wf ff -> generate ff tx ty = Some ff' -> fresh ff'.
Proof.
  intros Hwf E.
  destruct (generate_total ff Hwf tx ty) as (ff2 & E2 & _ & _ & _ & _ & TX & TY).
  rewrite E in E2. injection E2 as <-.
  exists ff. split; [done|]. by rewrite TX, TY.
Qed.

Lemma applyTerrain_fresh st c st' :
  wf (field st) -> applyTerrain st c = Some st' -> fresh (field st').
Proof.
  intros Hwf. unfold applyTerrain.
  destruct (generate _ _ _) as [ff'|] eqn:E; [|done].
  cbn [mbind option_bind]. intros [= <-]. cbn [field].
  eapply generate_fresh; [|exact E]. by apply wf_terrain.
Qed.

Lemma applyPilot_fresh st b st' :
  wf (field st) -> fresh (field st) ->
  applyPilot st b = Some st' -> fresh (field st').
Proof.
  intros Hwf Fr. unfold applyPilot. destruct b; [by intros [= <-]|].
  by apply applyTerrain_fresh.
Qed.

Lemma editAtClient_fresh st x y st' :
  wf (field st) -> fresh (field st) ->
  editAtClient st x y = Some st' -> fresh (field st').
Proof.
  intros Hwf Fr. unfold editAtClient.
  destruct (cellOf (lay st) x y) as [gx gy].
  destruct (negb (inBounds (field st) gx gy)); [by intros [= <-]|].
  destruct ((gx =? targetX (field st)) && (gy =? targetY (field st)));
    [by intros [= <-]|].
  match goal with |- context [if ?c then Some st else _] => destruct c end;
    [by intros [= <-]|].
  destruct (generate _ _ _) as [ff'|] eqn:E; [|done].
  cbn [mbind option_bind]. intros [= <-]. cbn [field].
  eapply generate_fresh; [|exact E]. by apply wf_setWall.
Qed.

Lemma setGridSize_fresh st n st' :
  setGridSize random st n = Some st' -> fresh (field st').
Proof.
  unfold setGridSize. set (size := Z.max 24 (Z.min 128 (Qfloor n))).
  unfold rebuildField.
  assert (Hwf : wf (FlowField.new size size))
    by (apply wf_new; unfold size; nia).
  destruct (generate _ _ _) as [ff'|] eqn:E; [|done].
  cbn [mbind option_bind fst snd].
  pose proof (generate_fresh _ _ _ _ Hwf E) as Fr.
  destruct (generate_total _ Hwf
              (width (FlowField.new size size) / 2)
              (height (FlowField.new size size) / 2))
    as (ff2 & E2 & Hwf2 & _).
  rewrite E in E2. injection E2 as <-.
  match goal with |- context [applyPilot ?s ?b] =>
    destruct (applyPilot s b) as [st2|] eqn:E3; [|done];
    apply applyPilot_fresh in E3; [|done|done] end.
  cbn [mbind option_bind]. by intros [= <-].
Qed.

Lemma handle_fresh st e st' :
  wf (field st) -> fresh (field st) ->
  handle random sqrt st e = Some st' -> fresh (field st').
Proof.
  intros Hwf Fr. destruct e; cbn [handle].
  - intros E%tick_field. by rewrite E.
  - by apply editAtClient_fresh.
  - by intros [= <-].
  - by intros [= <-].
  - by intros [= <-].
  - by intros [= <-].
  - apply setGridSize_fresh.
  - by apply applyPilot_fresh.
  - unfold pilotSettled. destruct (negb _); [by intros [= <-]|].
    by apply applyTerrain_fresh.
Qed.

Lemma run_fresh es : forall st st',
  ready st -> fresh (field st) ->
  run random sqrt st es = Some st' -> fresh (field st').
Proof.
  unfold run. induction es as [|e es IH]; intros st st' I Fr;
    cbn [fold_left].
  - by intros [= <-].
  - destruct (handle_total random sqrt st e I) as (st1 & E & I1).
    assert (Hstep : (s ← Some st; handle random sqrt s e) = Some st1)
      by exact E.
    rewrite Hstep. apply IH; [done|].
    apply (handle_fresh st e st1); [|done|done]. by destruct I as [[] _].
Qed.

Lemma init_fresh gridSize w h r now st :
  0 < gridSize -> gridSize * gridSize < 2147483648 ->
  init random gridSize w h r now = Some st -> fresh (field st).
Proof.
  intros Hg Hsq. unfold init, rebuildField.
  assert (Hwf : wf (FlowField.new gridSize gridSize)) by (apply wf_new; lia).
  destruct (generate _ _ _) as [ff'|] eqn:E; [|done].
  cbn [mbind option_bind fst snd].
  pose proof (generate_fresh _ _ _ _ Hwf E) as Fr.
  destruct (generate_total _ Hwf
              (width (FlowField.new gridSize gridSize) / 2)
              (height (FlowField.new gridSize gridSize) / 2))
    as (ff2 & E2 & Hwf2 & _).
  rewrite E in E2. injection E2 as <-.
  apply applyPilot_fresh; done.
Qed.
End Fresh.

(** X22. The stored flow field is never stale: whatever inputs the canvas
    handles after its creation (wall edits, terrain results, changes of
    grid size among them), the value stored for a cell is the length of a
    shortest 4-connected path of cells that are walkable now from the
    target to the cell, or the sentinel 65535 when there is no path
    shorter than that. *)
Theorem flow_field_is_never_stale (random : nat -> Q) (sqrt : Q -> Q)
    (gridSize : Z) (w h : Q) (r : Canvas.refs) (now : Q)
    (es : list Canvas.event) :
  0 < gridSize -> gridSize * gridSize < 2147483648 ->
  exists st0 st,
    Canvas.init random gridSize w h r now = Some st0 /\
    Canvas.run random sqrt st0 es = Some st /\
    let ff := Canvas.field st in
    forall x y, FlowField.inBounds ff x y = true ->
      exists d, FlowField.integrationAt ff x y = Some d /\
        0 <= d <= FlowField.INF /\
        (d <> FlowField.INF ->
         walk ff (FlowField.targetX ff) (FlowField.targetY ff)
           (Z.to_nat d) x y) /\
        (forall n,
           walk ff (FlowField.targetX ff) (FlowField.targetY ff) n x y ->
           d <= Z.of_nat n).
Proof.
  intros Hg Hsq.
  destruct (init_total random gridSize w h r now Hg Hsq) as (st0 & Hinit & I0).
  destruct (run_total random sqrt es st0 I0) as (st & Hrun & I).
  pose proof (init_fresh random gridSize w h r now st0 Hg Hsq Hinit) as F0.
  pose proof (run_fresh random sqrt es st0 st I0 F0 Hrun) as F.
  exists st0, st. split; [done|]. split; [done|]. cbv zeta.
  destruct I as [[Hwf W H TX TY Hopen] _].
  apply fresh_distances; [done| |done].
  rewrite TX, TY. apply centre_inBounds; lia.
Qed.

Lemma flow_field_is_never_stale_witness :
  exists d,
    FlowField.integrationAt (Canvas.field demoBusy) 0 0 = Some d /\
    forall n,
      walk (Canvas.field demoBusy) (FlowField.targetX (Canvas.field demoBusy))
        (FlowField.targetY (Canvas.field demoBusy)) n 0 0 ->
      d <= Z.of_nat n.
Proof.
  destruct (flow_field_is_never_stale demoRandom demoSqrt 5 100 100 demoRefs 0
              demoInputs) as (st0 & st & E0 & E & Hd); [lia|lia|].
  assert (Hinit : Canvas.init demoRandom 5 100 100 demoRefs 0 = Some demoIdle)
    by (vm_compute; reflexivity).
  assert (Hrun : Canvas.run demoRandom demoSqrt demoIdle demoInputs =
                   Some demoBusy) by (vm_compute; reflexivity).
  rewrite Hinit in E0. injection E0 as <-.
  rewrite Hrun in E. injection E as <-.
  destruct (Hd 0 0) as (d & Ed & _ & _ & Hmin); [vm_compute; reflexivity|].
  exists d. split; [exact Ed|exact Hmin].
Defined.
